(** * Appwrite database cloner: sanitizer, paginator, schema replicator,
      diff engine and orchestrator of [src/index.js]

    The program is a single JavaScript module.  Its pure functions are
    embedded as Rocq functions over a model of JSON values; its [async]
    functions are embedded in a small state-and-exception monad whose state
    holds the remote service, the snapshot file and a ghost log of the
    effects performed. *)

From Stdlib Require Import List String Ascii ZArith Bool Arith Lia.
From Stdlib Require Import DecimalString Permutation Sorted.
Import ListNotations.

Set Warnings "-register-all".

Open Scope string_scope.
Open Scope list_scope.

(** ** JavaScript values

    Every datum the program touches (documents, attributes, indexes,
    collections, the snapshot) is a JSON value that came out of a response
    of the service or out of [JSON.parse].  An object is represented by the
    list [Object.entries] gives for it: the keys are pairwise distinct and
    stand in property order, so that writing entries one by one into a
    fresh object lists them in the order they were written (no key is
    [__proto__], and none is [toString] or [valueOf], so that an object
    put into a template literal reads [[object Object]]).

    A number of such a value is a finite double.  The program does not
    compute with the numbers of its data: it copies them, tests them for
    zero, compares them and turns them into strings.  A number is
    carried here by the text [String] gives for it, its shortest decimal
    form ([42], [1.5], [1e+21], and [0] for both zeros); two numbers are
    equal when their texts are. *)

Module JS.

Inductive value : Type :=
| Null
| Boolean (b : bool)
| Num (text : string)
| Str (s : string)
| Arr (items : list value)
| Obj (entries : list (string * value)).

Definition object : Type := list (string * value).

(** Induction through the lists nested in [Arr] and [Obj]. *)
Section value_induction.
Variable P : value -> Prop.
Hypothesis HNull : P Null.
Hypothesis HBoolean : forall b, P (Boolean b).
Hypothesis HNum : forall text, P (Num text).
Hypothesis HStr : forall s, P (Str s).
Hypothesis HArr : forall items, Forall P items -> P (Arr items).
Hypothesis HObj :
  forall entries, Forall (fun kv => P (snd kv)) entries -> P (Obj entries).

Fixpoint value_nested_ind (v : value) : P v :=
  match v with
  | Null => HNull
  | Boolean b => HBoolean b
  | Num n => HNum n
  | Str s => HStr s
  | Arr items =>
      HArr items
        ((fix all (l : list value) : Forall P l :=
            match l with
            | [] => Forall_nil P
            | x :: r => Forall_cons x (value_nested_ind x) (all r)
            end) items)
  | Obj entries =>
      HObj entries
        ((fix all (l : list (string * value))
            : Forall (fun kv => P (snd kv)) l :=
            match l with
            | [] => Forall_nil _
            | kv :: r =>
                Forall_cons kv (value_nested_ind (snd kv)) (all r)
            end) entries)
  end.
End value_induction.

(** [obj[key]]: the property's value, [None] standing for [undefined]. *)
Fixpoint get (key : string) (obj : object) : option value :=
  match obj with
  | [] => None
  | (k, v) :: rest => if String.eqb key k then Some v else get key rest
  end.

(** [key in obj], for objects that carry own properties only. *)
Definition has_key (key : string) (obj : object) : bool :=
  existsb (fun kv => String.eqb key (fst kv)) obj.

(** [Array.prototype.includes] on an array of strings. *)
Definition includes (l : list string) (key : string) : bool :=
  existsb (String.eqb key) l.
Arguments includes : simpl never.

(** The number [n], for a length or a count: an integer small enough to
    be written by its decimal digits. *)
Definition number_of_nat (n : nat) : value :=
  Num (NilZero.string_of_uint (Nat.to_uint n)).

(** [typeof v === 'object'] with [null] and arrays set aside is [Obj];
    what is neither an array nor an object is a scalar. *)
Definition is_scalar (v : value) : bool :=
  match v with
  | Arr _ | Obj _ => false
  | _ => true
  end.

(** Truthiness of a value that may be [undefined]. *)
Definition truthy (v : option value) : bool :=
  match v with
  | None => false
  | Some Null => false
  | Some (Boolean b) => b
  | Some (Num text) => negb (String.eqb text "0")
  | Some (Str s) => negb (String.eqb s EmptyString)
  | Some (Arr _) => true
  | Some (Obj _) => true
  end.

(** [a || b]. *)
Definition or_else (a b : option value) : option value :=
  if truthy a then a else b.

(** [a === b] between values of which at least one is a scalar; two
    objects or arrays are compared by identity in JavaScript, and the
    values compared below never are the same heap object (they come from
    different responses or from a fresh [JSON.parse]). *)
Definition strict_eq (a b : value) : bool :=
  match a, b with
  | Null, Null => true
  | Boolean x, Boolean y => Bool.eqb x y
  | Num x, Num y => String.eqb x y
  | Str x, Str y => String.eqb x y
  | _, _ => false
  end.

End JS.
Import JS.

(** ** Document sanitizer ([cleanDocumentData], lines 1023-1100) *)

Module Sanitizer.

Definition systemFields : list string :=
  [ "$id"; "$collectionId"; "$databaseId"; "$createdAt"; "$updatedAt";
    "$permissions"; "$sequence" ].

(** [isRelatedDocument(obj)]. *)
Definition isRelatedDocument (obj : value) : bool :=
  match obj with
  | Obj o => has_key "$id" o && has_key "$collectionId" o
  | _ => false
  end.

(** [item.$id] of a value that passed [isRelatedDocument]. *)
Definition dollar_id (v : value) : value :=
  match v with
  | Obj o => match get "$id" o with Some x => x | None => Null end
  | _ => Null
  end.

(** The branch taken on one property value inside [cleanNestedObject]:
    an object is cleaned recursively, the elements of an array are cleaned
    when they are objects, anything else is copied. *)
Fixpoint cleanNestedValue (systemFields : list string) (v : value)
  {struct v} : value :=
  match v with
  | Obj o =>
      Obj (flat_map
             (fun kv =>
                let '(key, x) := kv in
                if includes systemFields key then []
                else [(key, cleanNestedValue systemFields x)]) o)
  | Arr l =>
      Arr (map (fun item =>
                  match item with
                  | Obj _ => cleanNestedValue systemFields item
                  | _ => item
                  end) l)
  | _ => v
  end.

(** [cleanNestedObject(obj, systemFields)]. *)
Definition cleanNestedObject (obj : object) (systemFields : list string)
  : object :=
  flat_map
    (fun kv =>
       let '(key, x) := kv in
       if includes systemFields key then []
       else [(key, cleanNestedValue systemFields x)]) obj.

(** The callback of [value.map] in [cleanDocumentData]. *)
Definition cleanArrayItem (item : value) : value :=
  if isRelatedDocument item then dollar_id item
  else match item with
       | Obj o => Obj (cleanNestedObject o systemFields)
       | _ => item
       end.

(** The [if / else if / else] chain on one property value of the
    document. *)
Definition cleanFieldValue (v : value) : value :=
  match v with
  | Arr l => Arr (map cleanArrayItem l)
  | Obj o =>
      if isRelatedDocument v then dollar_id v
      else Obj (cleanNestedObject o systemFields)
  | _ => v
  end.

(** [cleanDocumentData(document)]. *)
Definition cleanDocumentData (document : object) : object :=
  flat_map
    (fun kv =>
       let '(key, v) := kv in
       if includes systemFields key then []
       else [(key, cleanFieldValue v)]) document.

End Sanitizer.
Import Sanitizer.

(** ** Effects

    The [async] functions talk to the service through the [databases]
    object, sleep, read the clock and use one file.  A run is a function
    from a state to an outcome and a state.  The state holds the service
    (an arbitrary state machine answering requests), the content of the
    snapshot file and a ghost log that records, in order, every effect
    performed; the log exists only so that theorems can speak about what a
    run did.  Loops whose exit depends on the service ([while (hasMore)])
    take a bound [fuel] on their number of iterations and end in
    [OutOfFuel] when it is used up. *)

Module Effects.

(** The calls made on [databases].  Identifiers read from configuration
    are strings; identifiers read from data are values that may be
    [undefined]. *)
Inductive request : Type :=
| ListCollections (databaseId : string)
    (limit : Z) (cursorAfter : option value)
| ListAttributes (databaseId : string) (collectionId : option value)
    (limit : Z) (cursorAfter : option value)
| ListIndexes (databaseId : string) (collectionId : option value)
    (limit : Z) (cursorAfter : option value)
| ListDocuments (databaseId : string) (collectionId : option value)
    (limit : Z) (cursorAfter : option value)
| CreateCollection (databaseId : string) (args : list (option value))
| CreateAttribute (method : string) (databaseId : string)
    (collectionId : option value) (args : list (option value))
| CreateIndex (databaseId : string) (collectionId : option value)
    (args : list (option value))
| CreateDocument (databaseId : string) (collectionId : option value)
    (data : object).

(** What the awaited promise settles to: a rejection carrying
    [error.message], the array of a listing response, or the created
    entity (which the program never inspects). *)
Inductive reply : Type :=
| Failed (message : string)
| Listed (items : list object)
| Created.

(** The entries of the ghost log: a call on [databases] with its reply, a
    traversal that returned [items], a sleep, and the three operations on
    the snapshot file. *)
Inductive event : Type :=
| Called (rq : request) (rp : reply)
| Fetched (items : list object)
| Slept (ms : Z)
| CacheWritten (data : value)
| CacheRead
| CacheDeleted.

Inductive outcome (A : Type) : Type :=
| Returned (a : A)
| Thrown (message : string)
| OutOfFuel.
Arguments Returned {A} a.
Arguments Thrown {A} message.
Arguments OutOfFuel {A}.

Record state (World : Type) : Type := mkState
  { remote : World;
    cacheFile : option value;
    log : list event }.
Arguments mkState {World}.
Arguments remote {World}.
Arguments cacheFile {World}.
Arguments log {World}.

(** The [databases] object: the service answers a request and moves on. *)
Definition Databases (World : Type) : Type :=
  World -> request -> World * reply.

Definition M (World A : Type) : Type :=
  state World -> outcome A * state World.

Definition ret {World A : Type} (a : A) : M World A :=
  fun s => (Returned a, s).

Definition bind {World A B : Type} (c : M World A) (k : A -> M World B)
  : M World B :=
  fun s =>
    match c s with
    | (Returned a, s') => k a s'
    | (Thrown m, s') => (Thrown m, s')
    | (OutOfFuel, s') => (OutOfFuel, s')
    end.

Definition throw {World A : Type} (message : string) : M World A :=
  fun s => (Thrown message, s).

Definition out_of_fuel {World A : Type} : M World A :=
  fun s => (OutOfFuel, s).

(** [try { c } catch (error) { handler(error.message) }]. *)
Definition try_catch {World A : Type} (c : M World A)
           (handler : string -> M World A) : M World A :=
  fun s =>
    match c s with
    | (Thrown m, s') => handler m s'
    | r => r
    end.

Definition emit {World : Type} (e : event) : M World unit :=
  fun s => (Returned tt,
            mkState (remote s) (cacheFile s) (log s ++ [e])).

(** [await databases.method(...)]: the reply is logged; a rejection is
    thrown. *)
Definition await {World : Type} (databases : Databases World)
           (rq : request) : M World reply :=
  fun s =>
    let (w, rp) := databases (remote s) rq in
    let s' := mkState w (cacheFile s) (log s ++ [Called rq rp]) in
    match rp with
    | Failed m => (Thrown m, s')
    | _ => (Returned rp, s')
    end.

(** [await new Promise(resolve => setTimeout(resolve, ms))]. *)
Definition sleep {World : Type} (ms : Z) : M World unit :=
  emit (Slept ms).

(** The message of the [TypeError] raised by reading a property of
    [undefined] or by spreading [undefined]. *)
Definition TypeError : string := "TypeError".

End Effects.
Import Effects.

Notation "x <- c ;; k" := (bind c (fun x => k))
  (at level 61, c at next level, right associativity).
Notation "c ;;; k" := (bind c (fun _ => k))
  (at level 61, right associativity).

(** ** Paginator ([fetchAllAttributes], [fetchAllIndexes],
       [fetchAllCollections], [fetchAllDocuments])

    The four functions are the same loop over four listing calls; the
    loop is written once, with the listing call, the page size and the
    name of the key property as parameters. *)

Module Paginator.

Section Paginator.
Context {World : Type}.
Variable databases : Databases World.

(** One traversal.  [list_call limit cursor] is the listing call with
    [Query.limit(limit)] and, when [cursor] is given,
    [Query.cursorAfter(cursor)]. *)
Fixpoint fetchAllPages (fuel : nat)
         (list_call : Z -> option value -> request)
         (limit : Z) (keyName : string)
         (collected : list object) (lastId : option value)
  : M World (list object) :=
  match fuel with
  | O => out_of_fuel
  | S fuel' =>
      response <- await databases
                    (list_call limit (if truthy lastId then lastId else None)) ;;
      match response with
      | Listed items =>
          let collected' := collected ++ items in
          if (Z.of_nat (List.length items) <? limit)%Z then ret collected'
          else
            match nth_error items (List.length items - 1) with
            | Some item =>
                fetchAllPages fuel' list_call limit keyName
                              collected' (get keyName item)
            | None => throw TypeError
            end
      | _ => throw TypeError
      end
  end.

(** A whole traversal; its return is noted in the log. *)
Definition fetchAll (fuel : nat)
           (list_call : Z -> option value -> request)
           (limit : Z) (keyName : string) : M World (list object) :=
  items <- fetchAllPages fuel list_call limit keyName [] None ;;
  emit (Fetched items) ;;;
  ret items.

Definition fetchAllAttributes (fuel : nat) (databaseId : string)
           (collectionId : option value) : M World (list object) :=
  fetchAll fuel (ListAttributes databaseId collectionId) 100 "key".

Definition fetchAllIndexes (fuel : nat) (databaseId : string)
           (collectionId : option value) : M World (list object) :=
  fetchAll fuel (ListIndexes databaseId collectionId) 100 "key".

Definition fetchAllCollections (fuel : nat) (databaseId : string)
  : M World (list object) :=
  fetchAll fuel (ListCollections databaseId) 100 "$id".

(** [batchSize] is [config.batchSize].  [ID.unique()] and the other
    arguments that do not depend on the data are not carried by the
    requests. *)
Definition fetchAllDocuments (batchSize : Z) (fuel : nat)
           (databaseId : string) (collectionId : option value)
  : M World (list object) :=
  fetchAll fuel (ListDocuments databaseId collectionId) batchSize "$id".

End Paginator.

End Paginator.
Import Paginator.

(** ** Schema replicator ([waitForAttribute], [createAttribute],
       [createAttributes], [createIndex], [waitForIndex], [createIndexes],
       [cloneCollectionStructure]) *)

Module Schema.

(** String conversion of a value inside a template literal, and
    [String(value)]. *)
Fixpoint ToString (v : value) : string :=
  match v with
  | Null => "null"
  | Boolean true => "true"
  | Boolean false => "false"
  | Num text => text
  | Str s => s
  | Arr l =>
      String.concat ","
        (map (fun item => match item with
                          | Null => EmptyString
                          | _ => ToString item
                          end) l)
  | Obj _ => "[object Object]"
  end.

Definition template (v : option value) : string :=
  match v with
  | None => "undefined"
  | Some x => ToString x
  end.

(** [a === b] between two property reads. *)
Definition strict_eq_opt (a b : option value) : bool :=
  match a, b with
  | None, None => true
  | Some x, Some y => strict_eq x y
  | _, _ => false
  end.

(** [{ success, error }] as returned by [createAttribute] and
    [createIndex]. *)
Record result : Type := mkResult
  { success : bool;
    error : option string }.

(** [{ successCount, errorCount, errors }]; an entry of [errors] is
    [{ key, error }]. *)
Record tally : Type := mkTally
  { successCount : nat;
    errorCount : nat;
    errors : list (option value * option string) }.

Definition no_tally : tally := mkTally 0 0 [].

(** The result of [cloneCollectionStructure]. *)
Record structure_result : Type := mkStructure
  { structure_success : bool;
    structure_error : option string;
    attributeErrors : list (option value * option string);
    indexErrors : list (option value * option string) }.

(** [items.find(x => x.key === key)] followed by
    [found && found.status === 'available']. *)
Definition reports_available (key : option value) (items : list object)
  : bool :=
  match find (fun x => strict_eq_opt (get "key" x) key) items with
  | Some found => strict_eq_opt (get "status" found) (Some (Str "available"))
  | None => false
  end.

(** The service call that the [switch (type)] of [createAttribute]
    selects, [None] in the [default] branch. *)
Definition attribute_call (databaseId : string) (collectionId : option value)
           (attribute : object) : option request :=
  let key := get "key" attribute in
  let size := get "size" attribute in
  let required := or_else (get "required" attribute) (Some (Boolean false)) in
  let array := or_else (get "array" attribute) (Some (Boolean false)) in
  let xdefault := get "xdefault" attribute in
  let plain method :=
    Some (CreateAttribute method databaseId collectionId
            [key; required; xdefault; array]) in
  let ranged method :=
    Some (CreateAttribute method databaseId collectionId
            [key; required; get "min" attribute; get "max" attribute;
             xdefault; array]) in
  let type_is name :=
    strict_eq_opt (get "type" attribute) (Some (Str name)) in
  if type_is "string" then
    Some (CreateAttribute "createStringAttribute" databaseId collectionId
            [key; or_else size (Some (Num "255")); required; xdefault; array])
  else if type_is "integer" then ranged "createIntegerAttribute"
  else if type_is "float" || type_is "double"
  then ranged "createFloatAttribute"
  else if type_is "boolean" then plain "createBooleanAttribute"
  else if type_is "datetime" then plain "createDatetimeAttribute"
  else if type_is "email" then plain "createEmailAttribute"
  else if type_is "ip" then plain "createIpAttribute"
  else if type_is "url" then plain "createUrlAttribute"
  else if type_is "enum" then
    Some (CreateAttribute "createEnumAttribute" databaseId collectionId
            [key; or_else (get "elements" attribute) (Some (Arr []));
             required; xdefault; array])
  else if type_is "relationship" then
    Some (CreateAttribute "createRelationshipAttribute"
            databaseId collectionId
            [get "relatedCollection" attribute;
             get "relationType" attribute;
             or_else (get "twoWay" attribute) (Some (Boolean false));
             key;
             get "twoWayKey" attribute;
             or_else (get "onDelete" attribute) (Some (Str "restrict"))])
  else None.

(** [attribute.type === 'relationship' && attribute.side === 'child']. *)
Definition is_child_relationship (attribute : object) : bool :=
  strict_eq_opt (get "type" attribute) (Some (Str "relationship"))
  && strict_eq_opt (get "side" attribute) (Some (Str "child")).

Section Schema.
Context {World : Type}.
Variable databases : Databases World.

(** The [for] loop shared by [waitForAttribute] and [waitForIndex];
    [fetch] is the re-fetch of the owning collection's list. *)
Fixpoint poll (fetch : M World (list object)) (key : option value)
         (maxRetries : nat) : M World bool :=
  match maxRetries with
  | O => ret false
  | S remaining =>
      items <- fetch ;;
      if reports_available key items then ret true
      else sleep 1000 ;;; poll fetch key remaining
  end.

(** A parameter with a default value: the default stands in when the
    caller leaves the argument out. *)
Definition defaulted (default : nat) (argument : option nat) : nat :=
  match argument with
  | Some n => n
  | None => default
  end.

(** [maxRetries = 30] in [waitForAttribute] and [maxRetries = 60] in
    [waitForIndex]; the callers below leave the argument out. *)
Definition waitForAttribute (fuel : nat) (databaseId : string)
           (collectionId : option value) (attributeKey : option value)
           (maxRetries : option nat) : M World bool :=
  poll (fetchAllAttributes databases fuel databaseId collectionId)
       attributeKey (defaulted 30 maxRetries).

Definition waitForIndex (fuel : nat) (databaseId : string)
           (collectionId : option value) (indexKey : option value)
           (maxRetries : option nat) : M World bool :=
  poll (fetchAllIndexes databases fuel databaseId collectionId)
       indexKey (defaulted 60 maxRetries).

Definition createAttribute (databaseId : string)
           (collectionId : option value) (attribute : object)
  : M World result :=
  try_catch
    (match attribute_call databaseId collectionId attribute with
     | Some rq => await databases rq ;;; ret (mkResult true None)
     | None =>
         ret (mkResult false
                (Some (String.append "Unknown type: "
                                     (template (get "type" attribute)))))
     end)
    (fun message => ret (mkResult false (Some message))).

(** The body of [for (const attribute of attributes)], with the three
    accumulators of [createAttributes] carried in a [tally]. *)
Fixpoint createAttributes_loop (fuel : nat) (databaseId : string)
         (collectionId : option value) (attributes : list object)
         (acc : tally) : M World tally :=
  match attributes with
  | [] => ret acc
  | attribute :: rest =>
      if is_child_relationship attribute
      then createAttributes_loop fuel databaseId collectionId rest acc
      else
        result <- createAttribute databaseId collectionId attribute ;;
        if success result then
          waitForAttribute fuel databaseId collectionId
                           (get "key" attribute) None ;;;
          createAttributes_loop fuel databaseId collectionId rest
            (mkTally (S (successCount acc)) (errorCount acc) (errors acc))
        else
          createAttributes_loop fuel databaseId collectionId rest
            (mkTally (successCount acc) (S (errorCount acc))
                     (errors acc ++ [(get "key" attribute, error result)]))
  end.

Definition createAttributes (fuel : nat) (databaseId : string)
           (collectionId : option value) (attributes : list object)
  : M World tally :=
  createAttributes_loop fuel databaseId collectionId attributes no_tally.

Definition index_call (databaseId : string) (collectionId : option value)
           (index : object) : request :=
  CreateIndex databaseId collectionId
    [get "key" index; get "type" index; get "attributes" index;
     or_else (get "orders" index) (Some (Arr []))].

Definition createIndex (databaseId : string)
           (collectionId : option value) (index : object)
  : M World result :=
  try_catch
    (await databases (index_call databaseId collectionId index) ;;;
     ret (mkResult true None))
    (fun message => ret (mkResult false (Some message))).

Fixpoint createIndexes_loop (fuel : nat) (databaseId : string)
         (collectionId : option value) (indexes : list object)
         (acc : tally) : M World tally :=
  match indexes with
  | [] => ret acc
  | index :: rest =>
      result <- createIndex databaseId collectionId index ;;
      if success result then
        waitForIndex fuel databaseId collectionId (get "key" index) None ;;;
        createIndexes_loop fuel databaseId collectionId rest
          (mkTally (S (successCount acc)) (errorCount acc) (errors acc))
      else
        createIndexes_loop fuel databaseId collectionId rest
          (mkTally (successCount acc) (S (errorCount acc))
                   (errors acc ++ [(get "key" index, error result)]))
  end.

Definition createIndexes (fuel : nat) (databaseId : string)
           (collectionId : option value) (indexes : list object)
  : M World tally :=
  createIndexes_loop fuel databaseId collectionId indexes no_tally.

(** The [catch] block of [cloneCollectionStructure], reading the [let]
    variables [attrResult] and [idxResult] as they stand when the
    exception is raised. *)
Definition structure_caught (attrResult idxResult : tally) (message : string)
  : M World structure_result :=
  ret (mkStructure false (Some message)
                   (errors attrResult) (errors idxResult)).

(** The [try] block of [cloneCollectionStructure] from the index
    listing on, once [attrResult] holds its final value.  An exception
    raised here finds [idxResult] at its initial value, since
    [createIndexes] has not returned. *)
Definition cloneCollectionIndexes (fuel : nat)
           (sourceDbId destDbId : string) (id : option value)
           (attrResult : tally) : M World structure_result :=
  try_catch
    (indexes <- fetchAllIndexes databases fuel sourceDbId id ;;
     idxResult <-
       (if (0 <? List.length indexes)%nat
        then createIndexes fuel destDbId id indexes
        else ret no_tally) ;;
     if (0 <? errorCount attrResult)%nat then
       ret (mkStructure false
              (Some (String.append
                       (NilZero.string_of_uint
                          (Nat.to_uint (errorCount attrResult)))
                       " attribute(s) failed to create"))
              (errors attrResult) (errors idxResult))
     else
       ret (mkStructure true None [] (errors idxResult)))
    (structure_caught attrResult no_tally).

(** [cloneCollectionStructure].  An exception raised before
    [createAttributes] returns finds both [attrResult] and [idxResult] at
    their initial values. *)
Definition cloneCollectionStructure (fuel : nat)
           (sourceDbId destDbId : string) (collection : object)
  : M World structure_result :=
  let id := get "$id" collection in
  try_catch
    (await databases
       (CreateCollection destDbId
          [id; get "name" collection; get "$permissions" collection;
           get "documentSecurity" collection; get "enabled" collection]) ;;;
     attributes <- fetchAllAttributes databases fuel sourceDbId id ;;
     attrResult <-
       (if (0 <? List.length attributes)%nat
        then createAttributes fuel destDbId id attributes
        else ret no_tally) ;;
     cloneCollectionIndexes fuel sourceDbId destDbId id attrResult)
    (structure_caught no_tally no_tally).

End Schema.

End Schema.
Import Schema.

(** ** Diff engine ([getUniqueIdentifierField], [buildExistingRecordSet],
       [isDocumentMissing])

    [JSON.stringify] is a built-in of the language; the functions below
    take it as a parameter.  A [Set] is modelled by the list of its
    elements in insertion order; membership is [SameValueZero], which on
    the values of this model coincides with [===]. *)

Module Diff.

(** The object literal [identifierMap]. *)
Definition identifierMap : list (string * string) :=
  [ ("packaging_records", "waybill_number");
    ("packaging_items", "packaging_record_id") ].

Fixpoint lookup (key : string) (map : list (string * string))
  : option string :=
  match map with
  | [] => None
  | (k, v) :: rest => if String.eqb key k then Some v else lookup key rest
  end.

(** [identifierMap[collectionId] || null], for a collection identifier
    that is a string and does not name a member of [Object.prototype]
    (the identifiers of the service's collections are such strings). *)
Definition getUniqueIdentifierField (collectionId : option value)
  : option string :=
  match collectionId with
  | Some (Str id) => lookup id identifierMap
  | _ => None
  end.

Definition set_has (v : value) (set : list value) : bool :=
  existsb (strict_eq v) set.

Definition set_add (v : value) (set : list value) : list value :=
  if set_has v set then set else set ++ [v].

(** Truthiness of the [identifierField] argument: a string or [null]. *)
Definition field_given (identifierField : option string) : bool :=
  match identifierField with
  | Some f => negb (String.eqb f EmptyString)
  | None => false
  end.

(** [doc[identifierField]], read after [identifierField] was found
    truthy. *)
Definition field_of (identifierField : option string) (doc : object)
  : option value :=
  match identifierField with
  | Some f => get f doc
  | None => None
  end.

Section Diff.
Variable stringify : value -> string.

(** The [for (const doc of existingDocs)] loop of
    [buildExistingRecordSet]. *)
Fixpoint existing_keys (identifierField : option string)
         (existingDocs : list object) (existingSet : list value)
  : list value :=
  match existingDocs with
  | [] => existingSet
  | doc :: rest =>
      existing_keys identifierField rest
        (if field_given identifierField
            && truthy (field_of identifierField doc)
         then
           match field_of identifierField doc with
           | Some v => set_add v existingSet
           | None => existingSet
           end
         else
           let key := stringify (Obj (cleanDocumentData doc)) in
           set_add (Str key) existingSet)
  end.

Definition buildExistingRecordSet {World : Type}
           (databases : Databases World) (batchSize : Z) (fuel : nat)
           (destDbId : string) (collectionId : option value)
  : M World (list value * option string) :=
  existingDocs <- fetchAllDocuments databases batchSize fuel
                    destDbId collectionId ;;
  let identifierField := getUniqueIdentifierField collectionId in
  ret (existing_keys identifierField existingDocs [], identifierField).

Definition isDocumentMissing (document : object) (existingSet : list value)
           (identifierField : option string) : bool :=
  if field_given identifierField && truthy (field_of identifierField document)
  then
    match field_of identifierField document with
    | Some v => negb (set_has v existingSet)
    | None => true
    end
  else
    let key := stringify (Obj (cleanDocumentData document)) in
    negb (set_has (Str key) existingSet).

End Diff.

End Diff.
Import Diff.

(** ** Orchestrator ([writeCacheFile], [readCacheFile], [deleteCacheFile],
       [cloneDatabase])

    The snapshot file is modelled by its content as a JSON value:
    [JSON.parse] gives back the value [JSON.stringify] was given, except
    that a property whose value is [undefined] is not written.  Console
    output and the progress bars are left out, except for the
    [name.substring] a progress bar is given, which can raise. *)

Module Orchestrator.

(** One element of [collectionDocs]. *)
Record collection_docs : Type := mkCollectionDocs
  { collectionId : option value;
    collectionName : option value;
    documents : list object }.

(** A property that [JSON.stringify] drops when its value is
    [undefined]. *)
Definition property (key : string) (v : option value) : object :=
  match v with
  | Some x => [(key, x)]
  | None => []
  end.

(** The callback of [collectionDocs.map] that builds [cacheData]. *)
Definition snapshot_entry (cd : collection_docs) : value :=
  Obj (property "collectionId" (collectionId cd)
       ++ property "collectionName" (collectionName cd)
       ++ [ ("documentCount", number_of_nat (List.length (documents cd)));
            ("documents", Arr (map Obj (documents cd))) ]).

(** [cacheData], written with the shorthand properties [sourceDbId] and
    [destDbId]. *)
Definition cacheData (sourceDbId destDbId fetchedAt : string)
           (collectionDocs : list collection_docs) : value :=
  Obj [ ("sourceDbId", Str sourceDbId);
        ("destDbId", Str destDbId);
        ("fetchedAt", Str fetchedAt);
        ("collections", Arr (map snapshot_entry collectionDocs)) ].

(** Reading [cachedData.collections] and, for each [collData], its
    [collectionId], [collectionName] and [documents].  [None] stands for
    the [TypeError] raised on content of another shape. *)
Fixpoint as_objects (l : list value) : option (list object) :=
  match l with
  | [] => Some []
  | Obj o :: rest => option_map (cons o) (as_objects rest)
  | _ :: _ => None
  end.

Definition read_entry (collData : value) : option collection_docs :=
  match collData with
  | Obj o =>
      match get "documents" o with
      | Some (Arr docs) =>
          option_map (mkCollectionDocs (get "collectionId" o)
                                       (get "collectionName" o))
                     (as_objects docs)
      | _ => None
      end
  | _ => None
  end.

Fixpoint read_entries (l : list value) : option (list collection_docs) :=
  match l with
  | [] => Some []
  | collData :: rest =>
      match read_entry collData, read_entries rest with
      | Some cd, Some cds => Some (cd :: cds)
      | _, _ => None
      end
  end.

Definition read_collections (cachedData : value)
  : option (list collection_docs) :=
  match cachedData with
  | Obj o =>
      match get "collections" o with
      | Some (Arr l) => read_entries l
      | _ => None
      end
  | _ => None
  end.

(** [results.documents.errors]: groups [{ collection, errors }] whose
    entries are [{ documentId, error }]. *)
Definition document_errors : Type :=
  list (option value * list (option value * string)).

(** The [find] / [push] / [find] / [push] sequence of the [catch] block
    of the insertion loop; the names compared are strings, since
    [substring] was called on [collectionName]. *)
Fixpoint add_document_error (collectionName : option value)
         (entry : option value * string) (groups : document_errors)
  : document_errors :=
  match groups with
  | [] => [(collectionName, [entry])]
  | (name, entries) :: rest =>
      if strict_eq_opt name collectionName
      then (name, entries ++ [entry]) :: rest
      else (name, entries) :: add_document_error collectionName entry rest
  end.

Record results : Type := mkResults
  { collections_success : nat;
    collections_failed : nat;
    collections_errors : list (option value * option string);
    collections_attributeErrors :
      list (option value * list (option value * option string));
    documents_success : nat;
    documents_failed : nat;
    documents_skipped : nat;
    documents_errors : document_errors }.

Definition no_results : results := mkResults 0 0 [] [] 0 0 0 [].

Definition structure_succeeded (r : results) : results :=
  mkResults (S (collections_success r)) (collections_failed r)
            (collections_errors r) (collections_attributeErrors r)
            (documents_success r) (documents_failed r)
            (documents_skipped r) (documents_errors r).

Definition structure_failed (name : option value)
           (result : structure_result) (r : results) : results :=
  mkResults (collections_success r) (S (collections_failed r))
            (collections_errors r ++ [(name, structure_error result)])
            (collections_attributeErrors r
             ++ (if (0 <? List.length (attributeErrors result))%nat
                 then [(name, attributeErrors result)] else []))
            (documents_success r) (documents_failed r)
            (documents_skipped r) (documents_errors r).

Definition documents_skipped_more (n : nat) (r : results) : results :=
  mkResults (collections_success r) (collections_failed r)
            (collections_errors r) (collections_attributeErrors r)
            (documents_success r) (documents_failed r)
            (documents_skipped r + n) (documents_errors r).

Definition document_succeeded (r : results) : results :=
  mkResults (collections_success r) (collections_failed r)
            (collections_errors r) (collections_attributeErrors r)
            (S (documents_success r)) (documents_failed r)
            (documents_skipped r) (documents_errors r).

Definition document_failed (collectionName documentId : option value)
           (message : string) (r : results) : results :=
  mkResults (collections_success r) (collections_failed r)
            (collections_errors r) (collections_attributeErrors r)
            (documents_success r) (S (documents_failed r))
            (documents_skipped r)
            (add_document_error collectionName (documentId, message)
                                (documents_errors r)).

Section Orchestrator.
Context {World : Type}.
Variable databases : Databases World.
(** [new Date().toISOString()] *)
Variable now : World -> string.
Variable stringify : value -> string.
(** [config.batchSize] *)
Variable batchSize : Z.

Definition clock : M World string :=
  fun s => (Returned (now (remote s)), s).

Definition writeCacheFile (data : value) : M World unit :=
  fun s => (Returned tt,
            mkState (remote s) (Some data) (log s ++ [CacheWritten data])).

Definition readCacheFile : M World value :=
  fun s =>
    match cacheFile s with
    | Some data =>
        (Returned data,
         mkState (remote s) (cacheFile s) (log s ++ [CacheRead]))
    | None => (Thrown "ENOENT", s)
    end.

Definition deleteCacheFile : M World unit :=
  fun s =>
    match cacheFile s with
    | Some _ =>
        (Returned tt, mkState (remote s) None (log s ++ [CacheDeleted]))
    | None => (Returned tt, s)
    end.

(** [name.substring(0, 20).padEnd(20)], evaluated for a progress bar:
    a [TypeError] unless [name] is a string. *)
Definition substring_of (name : option value) : M World unit :=
  match name with
  | Some (Str _) => ret tt
  | _ => throw TypeError
  end.

(** [for (const collection of collections)] of the structure phase. *)
Fixpoint clone_structures (fuel : nat) (sourceDbId destDbId : string)
         (collections : list object) (r : results) : M World results :=
  match collections with
  | [] => ret r
  | collection :: rest =>
      substring_of (get "name" collection) ;;;
      result <- cloneCollectionStructure databases fuel
                  sourceDbId destDbId collection ;;
      clone_structures fuel sourceDbId destDbId rest
        (if structure_success result then structure_succeeded r
         else structure_failed (get "name" collection) result r)
  end.

(** Step 1: [for (const collection of collections)] of the fetch phase. *)
Fixpoint fetch_documents (fuel : nat) (sourceDbId : string)
         (collections : list object) (collectionDocs : list collection_docs)
  : M World (list collection_docs) :=
  match collections with
  | [] => ret collectionDocs
  | collection :: rest =>
      docs <- fetchAllDocuments databases batchSize fuel sourceDbId
                (get "$id" collection) ;;
      fetch_documents fuel sourceDbId rest
        (collectionDocs
         ++ [mkCollectionDocs (get "$id" collection)
                              (get "name" collection) docs])
  end.

(** [for (const collData of cachedData.collections)]: the process queue
    and the number of skipped documents. *)
Fixpoint build_queue (fuel : nat) (destDbId : string) (missingOnly : bool)
         (collections : list collection_docs)
         (processQueue : list collection_docs) (skipped : nat)
  : M World (list collection_docs * nat) :=
  match collections with
  | [] => ret (processQueue, skipped)
  | collData :: rest =>
      if missingOnly then
        existing <- buildExistingRecordSet stringify databases batchSize
                      fuel destDbId (collectionId collData) ;;
        let '(existingSet, identifierField) := existing in
        let missingDocs :=
          filter (fun doc => isDocumentMissing stringify doc existingSet
                                               identifierField)
                 (documents collData) in
        build_queue fuel destDbId missingOnly rest
          (processQueue
           ++ [mkCollectionDocs (collectionId collData)
                                (collectionName collData) missingDocs])
          (skipped + (List.length (documents collData)
                      - List.length missingDocs))
      else
        build_queue fuel destDbId missingOnly rest
          (processQueue
           ++ [mkCollectionDocs (collectionId collData)
                                (collectionName collData)
                                (documents collData)])
          skipped
  end.

Definition docs_to_process (processQueue : list collection_docs) : nat :=
  fold_left (fun n q => (n + List.length (documents q))%nat) processQueue 0%nat.

(** [for (const document of documents)]: sanitize, create, count. *)
Fixpoint insert_documents (destDbId : string)
         (collectionId collectionName : option value)
         (documents : list object) (r : results) : M World results :=
  match documents with
  | [] => ret r
  | document :: rest =>
      let cleanedData := cleanDocumentData document in
      r' <- try_catch
              (await databases
                 (CreateDocument destDbId collectionId cleanedData) ;;;
               ret (document_succeeded r))
              (fun message =>
                 ret (document_failed collectionName (get "$id" document)
                                      message r)) ;;
      insert_documents destDbId collectionId collectionName rest r'
  end.

(** [for (const { collectionId, collectionName, documents } of
    processQueue)]. *)
Fixpoint process_queue (destDbId : string)
         (processQueue : list collection_docs) (r : results)
  : M World results :=
  match processQueue with
  | [] => ret r
  | q :: rest =>
      if (List.length (documents q) =? 0)%nat
      then process_queue destDbId rest r
      else
        substring_of (collectionName q) ;;;
        r' <- insert_documents destDbId (collectionId q) (collectionName q)
                               (documents q) r ;;
        process_queue destDbId rest r'
  end.

Definition cloneDatabase (fuel : nat) (sourceDbId destDbId : string)
           (cloneStructure cloneData missingOnly : bool)
  : M World results :=
  collections <- fetchAllCollections databases fuel sourceDbId ;;
  if (List.length collections =? 0)%nat then ret no_results
  else
    r <- (if cloneStructure
          then clone_structures fuel sourceDbId destDbId collections
                                no_results
          else ret no_results) ;;
    if cloneData || missingOnly then
      collectionDocs <- fetch_documents fuel sourceDbId collections [] ;;
      fetchedAt <- clock ;;
      writeCacheFile (cacheData sourceDbId destDbId fetchedAt
                                collectionDocs) ;;;
      cachedData <- readCacheFile ;;
      match read_collections cachedData with
      | None => throw TypeError
      | Some cachedCollections =>
          queued <- build_queue fuel destDbId missingOnly
                                cachedCollections [] 0 ;;
          let '(processQueue, skipped) := queued in
          let r := documents_skipped_more skipped r in
          r <- (if (0 <? docs_to_process processQueue)%nat
                then process_queue destDbId processQueue r
                else ret r) ;;
          deleteCacheFile ;;;
          ret r
      end
    else ret r.

End Orchestrator.

End Orchestrator.
Import Orchestrator.

(** ** CSV export of documents ([escapeCSVField], [documentsToCSV])

    The characters the two functions look for ([,], the double quote,
    line feed, carriage return, space and [$]) are ASCII, so that looking
    for them in the bytes of a string is looking for them in its UTF-16
    code units.  [JSON.stringify] and [String.prototype.localeCompare]
    are built-ins of the language; the functions below take them as
    parameters.  A property read by name on a document ([doc[header]])
    is an own property (no header names a member of
    [Object.prototype]). *)

Module Csv.

Definition comma : ascii := ","%char.
Definition double_quote : ascii := "034"%char.
Definition line_feed : ascii := "010"%char.
Definition carriage_return : ascii := "013"%char.
Definition space : ascii := " "%char.

(** [str.includes(c)] for a string [c] of one character. *)
Fixpoint contains (c : ascii) (str : string) : bool :=
  match str with
  | EmptyString => false
  | String a rest => Ascii.eqb a c || contains c rest
  end.

(** [str.startsWith(c)] and [str.endsWith(c)] for a string [c] of one
    character. *)
Definition startsWith (c : ascii) (str : string) : bool :=
  match str with
  | EmptyString => false
  | String a _ => Ascii.eqb a c
  end.

Fixpoint endsWith (c : ascii) (str : string) : bool :=
  match str with
  | EmptyString => false
  | String a EmptyString => Ascii.eqb a c
  | String _ rest => endsWith c rest
  end.

(** The [str.replace] that puts two double quotes for every double
    quote of [str]. *)
Fixpoint double_quotes (str : string) : string :=
  match str with
  | EmptyString => EmptyString
  | String a rest =>
      if Ascii.eqb a double_quote
      then String double_quote (String double_quote (double_quotes rest))
      else String a (double_quotes rest)
  end.

Section Csv.
Variable stringify : value -> string.
Variable localeCompare : string -> string -> Z.

(** [escapeCSVField(value)]. *)
Definition escapeCSVField (value : option value) : string :=
  match value with
  | None | Some Null => EmptyString
  | Some v =>
      let str := match v with
                 | Arr _ | Obj _ => stringify v
                 | _ => ToString v
                 end in
      if contains comma str || contains double_quote str
         || contains line_feed str || contains carriage_return str
         || startsWith space str || endsWith space str
      then String double_quote
             (String.append (double_quotes str)
                            (String double_quote EmptyString))
      else str
  end.

(** [allKeys.add(key)] on a [Set] of strings, kept in insertion order. *)
Definition add_key (key : string) (allKeys : list string) : list string :=
  if includes allKeys key then allKeys else allKeys ++ [key].

(** The two nested [for] loops that fill [allKeys]. *)
Definition allKeys (documents : list object) (includeSystemFields : bool)
  : list string :=
  fold_left
    (fun keys doc =>
       fold_left
         (fun keys key =>
            if includeSystemFields || negb (includes systemFields key)
            then add_key key keys
            else keys)
         (map fst doc) keys)
    documents [].

(** The comparator given to [sort]. *)
Definition compareHeaders (a b : string) : Z :=
  let aIsSystem := startsWith "$"%char a in
  let bIsSystem := startsWith "$"%char b in
  if aIsSystem && negb bIsSystem then (-1)%Z
  else if negb aIsSystem && bIsSystem then 1%Z
  else localeCompare a b.

(** [Array.prototype.sort] with a comparator: a stable sort, written
    here as the insertion of each element, from left to right, after the
    elements that do not come after it.  For a consistent comparator
    every stable sort gives this order; for another one the language
    leaves the order to the implementation. *)
Fixpoint insert (compare : string -> string -> Z) (x : string)
         (sorted : list string) : list string :=
  match sorted with
  | [] => [x]
  | y :: rest =>
      if (compare x y <? 0)%Z then x :: sorted
      else y :: insert compare x rest
  end.

Definition sort (compare : string -> string -> Z) (l : list string)
  : list string :=
  fold_left (fun sorted x => insert compare x sorted) l [].

(** The constant [headers] of [documentsToCSV]. *)
Definition headers (documents : list object) (includeSystemFields : bool)
  : list string :=
  sort compareHeaders (allKeys documents includeSystemFields).

(** The array [lines] of [documentsToCSV]: the header row, then one row
    for each document. *)
Definition lines (documents : list object) (includeSystemFields : bool)
  : list string :=
  let headers := headers documents includeSystemFields in
  String.concat ","
    (map (fun h => escapeCSVField (Some (Str h))) headers)
  :: map (fun doc =>
            String.concat ","
              (map (fun header => escapeCSVField (get header doc)) headers))
         documents.

(** [documentsToCSV(documents, includeSystemFields)]. *)
Definition documentsToCSV (documents : list object)
           (includeSystemFields : bool) : string :=
  if (List.length documents =? 0)%nat then EmptyString
  else String.concat (String line_feed EmptyString)
                     (lines documents includeSystemFields).

End Csv.

End Csv.
Import Csv.

(** ** Copying one collection ([copyDocuments], [copyCollection]) *)

Module Copy.

Section Copy.
Context {World : Type}.
Variable databases : Databases World.

(** The body of [for (const document of documents)] in [copyDocuments],
    with [successCount], [errorCount] and [errors] carried in a [tally];
    an entry of [errors] is [{ documentId, error }]. *)
Fixpoint copyDocuments_loop (destDatabaseId : string)
         (collectionId : option value) (documents : list object)
         (acc : tally) : M World tally :=
  match documents with
  | [] => ret acc
  | document :: rest =>
      let cleanedData := cleanDocumentData document in
      acc' <- try_catch
                (await databases
                   (CreateDocument destDatabaseId collectionId cleanedData) ;;;
                 ret (mkTally (S (successCount acc)) (errorCount acc)
                              (errors acc)))
                (fun message =>
                   ret (mkTally (successCount acc) (S (errorCount acc))
                                (errors acc
                                 ++ [(get "$id" document, Some message)]))) ;;
      copyDocuments_loop destDatabaseId collectionId rest acc'
  end.

Definition copyDocuments (destDatabaseId : string)
           (collectionId : option value) (documents : list object)
  : M World tally :=
  copyDocuments_loop destDatabaseId collectionId documents no_tally.

(** [config.batchSize], [config.sourceDatabaseId] and
    [config.destDatabaseId]. *)
Variable batchSize : Z.
Variables sourceDatabaseId destDatabaseId : string.

(** [copyCollection]; the result is [{ collectionName, successCount,
    errorCount, errors }]. *)
Definition copyCollection (fuel : nat) (collection : object)
  : M World (option value * tally) :=
  let collectionId := get "$id" collection in
  let collectionName := get "name" collection in
  documents <- fetchAllDocuments databases batchSize fuel sourceDatabaseId
                 collectionId ;;
  if (List.length documents =? 0)%nat
  then ret (collectionName, mkTally 0 0 [])
  else
    result <- copyDocuments destDatabaseId collectionId documents ;;
    ret (collectionName, result).

End Copy.

End Copy.
Import Copy.

(** ** The command line tool ([validateConfig], [getDatabaseInfo],
       [dropDestinationCollections], [confirmMigration],
       [selectCloneMode], [exportCollectionToCSV], [exportToCSV], [main])

    Around the cloner the program reads the environment, asks the user,
    looks up and empties databases, writes CSV files and ends the
    process.  These functions run in a second monad, over the first: its
    state adds the export directory and a journal of the effects that
    the log of the cloner has no entry for, and a run may also end by
    [process.exit].  The user and the two further methods of [databases]
    are, like the service, arbitrary state machines over the outside
    world.  Console output, text styling and the progress bars are left
    out, except where they can raise: a progress bar is given
    [collection.name.substring], which raises a [TypeError] when the name
    is not a string, and so does [styleText] when its text is not a
    string.  Writing a file and making a directory succeed. *)

Module Tool.

(** The [value] of each choice of [selectCloneMode]. *)
Inductive clone_mode : Type :=
| Full
| StructureOnly
| DataOnly
| MissingOnly
| ExportCsv.

Definition mode_value (mode : clone_mode) : string :=
  match mode with
  | Full => "full"
  | StructureOnly => "structure-only"
  | DataOnly => "data-only"
  | MissingOnly => "missing-only"
  | ExportCsv => "export-csv"
  end.

(** The entries of the journal: [databases.get] with the database it
    resolved to ([None] for a rejection), [databases.deleteCollection]
    with its reply, the two kinds of prompt with the answer ([None] when
    the user closes the prompt), and the two operations on the export
    directory. *)
Inductive effect : Type :=
| Got (databaseId : string) (db : option object)
| Deleted (databaseId : string) (collectionId : option value) (rp : reply)
| Selected (mode : option clone_mode)
| Confirmed (message : string) (answer : option bool)
| DirectoryMade
| FileWritten (filepath content : string).

(** How a run ends: [Exits] is [process.exit(code)], [Throws] carries
    [error.name] and [error.message]. *)
Inductive ending (A : Type) : Type :=
| Returns (a : A)
| Throws (name message : string)
| Exits (code : Z)
| Starves.
Arguments Returns {A} a.
Arguments Throws {A} name message.
Arguments Exits {A} code.
Arguments Starves {A}.

(** [directory] says whether [CSV_EXPORT_DIR] exists. *)
Record host : Type := mkHost
  { directory : bool;
    journal : list effect }.

Definition T (World A : Type) : Type :=
  state World * host -> ending A * (state World * host).

Definition tret {World A : Type} (a : A) : T World A :=
  fun sh => (Returns a, sh).

Definition tbind {World A B : Type} (c : T World A) (k : A -> T World B)
  : T World B :=
  fun sh =>
    match c sh with
    | (Returns a, sh') => k a sh'
    | (Throws name message, sh') => (Throws name message, sh')
    | (Exits code, sh') => (Exits code, sh')
    | (Starves, sh') => (Starves, sh')
    end.

Definition tthrow {World A : Type} (name message : string) : T World A :=
  fun sh => (Throws name message, sh).

(** [process.exit(code)]. *)
Definition exit {World A : Type} (code : Z) : T World A :=
  fun sh => (Exits code, sh).

(** [try { c } catch (error) { handler(error.name, error.message) }]. *)
Definition ttry_catch {World A : Type} (c : T World A)
           (handler : string -> string -> T World A) : T World A :=
  fun sh =>
    match c sh with
    | (Throws name message, sh') => handler name message sh'
    | r => r
    end.

(** A function of the cloner called from here.  The exceptions it
    raises (of the service, of the file system, [TypeError]) are not
    named [ExitPromptError]. *)
Definition lift {World A : Type} (c : M World A) : T World A :=
  fun sh =>
    match c (fst sh) with
    | (Returned a, s') => (Returns a, (s', snd sh))
    | (Thrown message, s') => (Throws "Error" message, (s', snd sh))
    | (OutOfFuel, s') => (Starves, (s', snd sh))
    end.

Definition record {World : Type} (e : effect) : T World unit :=
  fun sh =>
    (Returns tt,
     (fst sh, mkHost (directory (snd sh)) (journal (snd sh) ++ [e]))).

(** The name and the message of the error a prompt rejects with when the
    user closes it. *)
Definition ExitPromptError : string := "ExitPromptError".
Definition closed_prompt : string :=
  "User force closed the prompt with SIGINT".

(** [{ exists, name, id }] as returned by [getDatabaseInfo]. *)
Record database_info : Type := mkInfo
  { db_exists : bool;
    db_name : option value;
    db_id : option value }.

(** An element of [results.collections] in [exportToCSV]:
    [{ name, filepath, filename, recordCount }], [None] standing for
    [null]. *)
Record export_entry : Type := mkEntry
  { entry_name : option value;
    filepath : option string;
    filename : option string;
    recordCount : nat }.

(** [{ collections, totalRecords, exportDir }]. *)
Record export_results : Type := mkExport
  { export_collections : list export_entry;
    totalRecords : nat;
    exportDir : string }.

(** [{ dropped, errors }]; an entry of [errors] is
    [{ collection, error }]. *)
Record drop_result : Type := mkDrop
  { dropped : nat;
    drop_errors : list (option value * string) }.

(** [.replace(/[:.]/g, '-')]. *)
Fixpoint dashes (str : string) : string :=
  match str with
  | EmptyString => EmptyString
  | String a rest =>
      String (if Ascii.eqb a ":"%char || Ascii.eqb a "."%char
              then "-"%char else a)
             (dashes rest)
  end.

Definition required : list string :=
  [ "APPWRITE_ENDPOINT"; "APPWRITE_PROJECT_ID"; "APPWRITE_API_KEY";
    "SOURCE_DATABASE_ID"; "DEST_DATABASE_ID" ].

(** [!process.env[key]]: the variable is unset or empty. *)
Definition unset (v : option string) : bool :=
  match v with
  | Some s => String.eqb s EmptyString
  | None => true
  end.

(** A member of [config] that [main] reads after [validateConfig], which
    ends the process unless the variable is set. *)
Definition config_of (v : option string) : string :=
  match v with
  | Some s => s
  | None => EmptyString
  end.

(** [styleText(format, text)] raises a [TypeError] unless [text] is a
    string. *)
Definition is_text (v : option value) : bool :=
  match v with
  | Some (Str _) => true
  | _ => false
  end.

(** The lines [confirmMigration] prints for a database,
    [styleText('yellow', db.id)] and
    [db.exists ? styleText('green', db.name) : styleText('red', 'NOT FOUND')],
    are printed without an exception. *)
Definition shown (db : database_info) : bool :=
  is_text (db_id db) && (negb (db_exists db) || is_text (db_name db)).

Section Tool.
Context {World : Type}.
(** [createClient], applied to [config.endpoint], [config.projectId] and
    [config.apiKey]: the three setters of the SDK build the client or
    raise; [None] stands for the client built, and an exception is given
    by its name and its message. *)
Variable createClient : string -> string -> string -> option (string * string).
Variable databases : Databases World.
(** [databases.get] and [databases.deleteCollection] *)
Variable databases_get : World -> string -> World * option object.
Variable databases_deleteCollection :
  World -> string -> option value -> World * reply.
(** The prompts [select] and [confirm], answered by the user *)
Variable select : World -> World * option clone_mode.
Variable confirm : World -> string -> World * option bool.
(** [new Date().toISOString()], [JSON.stringify], [localeCompare],
    [path.join] and [styleText] *)
Variable now : World -> string.
Variable stringify : value -> string.
Variable localeCompare : string -> string -> Z.
Variable join : string -> string -> string.
Variable styleText : string -> string -> string.
(** [process.env], [process.cwd()] and [config.batchSize] *)
Variable env : string -> option string.
Variable cwd : string.
Variable batchSize : Z.

Definition CSV_EXPORT_DIR : string := join cwd "csv-export".

(** A step of the outside world that is entered in the journal. *)
Definition outside {A : Type} (step : World -> World * A)
           (entry : A -> effect) : T World A :=
  fun sh =>
    let (w, a) := step (remote (fst sh)) in
    (Returns a,
     (mkState w (cacheFile (fst sh)) (log (fst sh)),
      mkHost (directory (snd sh)) (journal (snd sh) ++ [entry a]))).

(** [await databases.get(databaseId)]. *)
Definition await_get (databaseId : string) : T World object :=
  tbind (outside (fun w => databases_get w databaseId) (Got databaseId))
        (fun db => match db with
                   | Some o => tret o
                   | None => tthrow "AppwriteException" "not_found"
                   end).

(** [await databases.deleteCollection(databaseId, collectionId)]. *)
Definition await_delete (databaseId : string) (collectionId : option value)
  : T World unit :=
  tbind (outside (fun w => databases_deleteCollection w databaseId
                                                      collectionId)
                 (Deleted databaseId collectionId))
        (fun rp => match rp with
                   | Failed message => tthrow "AppwriteException" message
                   | _ => tret tt
                   end).

(** [await select({ ... })] and [await confirm({ message, ... })]. *)
Definition await_select : T World clone_mode :=
  tbind (outside select Selected)
        (fun answer => match answer with
                       | Some mode => tret mode
                       | None => tthrow ExitPromptError closed_prompt
                       end).

Definition await_confirm (message : string) : T World bool :=
  tbind (outside (fun w => confirm w message) (Confirmed message))
        (fun answer => match answer with
                       | Some b => tret b
                       | None => tthrow ExitPromptError closed_prompt
                       end).

(** [validateConfig]. *)
Definition validateConfig : T World unit :=
  let missing := filter (fun key => unset (env key)) required in
  if (0 <? List.length missing)%nat then exit 1 else tret tt.

(** [getDatabaseInfo]. *)
Definition getDatabaseInfo (databaseId : string) : T World database_info :=
  ttry_catch
    (tbind (await_get databaseId)
           (fun db => tret (mkInfo true (get "name" db) (get "$id" db))))
    (fun _ _ => tret (mkInfo false (Some Null) (Some (Str databaseId)))).

(** [for (const collection of collections)] in
    [dropDestinationCollections]. *)
Fixpoint drop_loop (databaseId : string) (collections : list object)
         (acc : drop_result) : T World drop_result :=
  match collections with
  | [] => tret acc
  | collection :: rest =>
      tbind
        (ttry_catch
           (tbind (await_delete databaseId (get "$id" collection))
                  (fun _ => tret (mkDrop (S (dropped acc))
                                         (drop_errors acc))))
           (fun _ message =>
              tret (mkDrop (dropped acc)
                           (drop_errors acc
                            ++ [(get "name" collection, message)]))))
        (fun acc' => drop_loop databaseId rest acc')
  end.

(** [dropDestinationCollections]. *)
Definition dropDestinationCollections (fuel : nat) (databaseId : string)
  : T World drop_result :=
  tbind (lift (fetchAllCollections databases fuel databaseId))
        (fun collections =>
           if (List.length collections =? 0)%nat then tret (mkDrop 0 [])
           else drop_loop databaseId collections (mkDrop 0 [])).

(** [confirmMigration].  Before it asks, it prints the two records with
    [styleText], which accepts nothing but a string for its text. *)
Definition confirmMigration (sourceDb destDb : database_info) : T World bool :=
  if negb (shown sourceDb && shown destDb) then tthrow "TypeError" TypeError
  else
  tbind
    (await_confirm
       (String.append "Is "
          (String double_quote
             (String.append (template (db_id sourceDb))
                (String double_quote
                        " the correct SOURCE database?")))))
    (fun confirmSource =>
       if negb confirmSource then exit 0
       else
         tbind
           (await_confirm
              (String.append "Is "
                 (String double_quote
                    (String.append (template (db_id destDb))
                       (String double_quote
                          " the correct DESTINATION database to overwrite?")))))
           (fun confirmDest =>
              if negb confirmDest then exit 0
              else
                tbind
                  (await_confirm
                     (styleText "red"
                        "Are you ABSOLUTELY SURE you want to proceed? This will DELETE all data in the destination."))
                  (fun finalConfirm =>
                     if negb finalConfirm then exit 0 else tret true))).

(** [selectCloneMode]. *)
Definition selectCloneMode : T World clone_mode := await_select.

(** [if (!existsSync(CSV_EXPORT_DIR)) mkdirSync(CSV_EXPORT_DIR, ...)]. *)
Definition ensure_directory : T World unit :=
  fun sh =>
    if directory (snd sh) then (Returns tt, sh)
    else (Returns tt,
          (fst sh, mkHost true (journal (snd sh) ++ [DirectoryMade]))).

(** [exportCollectionToCSV]. *)
Definition exportCollectionToCSV (collectionName : option value)
           (documents : list object) (includeSystemFields : bool)
  : T World export_entry :=
  tbind ensure_directory
    (fun _ =>
       tbind (lift (clock now))
         (fun iso =>
            let timestamp := substring 0 19 (dashes iso) in
            let filename :=
              String.append (template collectionName)
                (String.append "_" (String.append timestamp ".csv")) in
            let filepath := join CSV_EXPORT_DIR filename in
            let csvContent :=
              documentsToCSV stringify localeCompare documents
                             includeSystemFields in
            tbind (record (FileWritten filepath csvContent))
              (fun _ =>
                 tret (mkEntry None (Some filepath) (Some filename)
                               (List.length documents))))).

(** [for (const collection of collections)] in [exportToCSV]. *)
Fixpoint export_loop (fuel : nat) (sourceDbId : string)
         (includeSystemFields : bool) (collections : list object)
         (results : export_results) : T World export_results :=
  match collections with
  | [] => tret results
  | collection :: rest =>
      match get "name" collection with
      | Some (Str _) =>
          tbind
            (lift (fetchAllDocuments databases batchSize fuel sourceDbId
                                     (get "$id" collection)))
            (fun documents =>
               if (0 <? List.length documents)%nat then
                 tbind
                   (exportCollectionToCSV (get "name" collection) documents
                                          includeSystemFields)
                   (fun exportResult =>
                      export_loop fuel sourceDbId includeSystemFields rest
                        (mkExport
                           (export_collections results
                            ++ [mkEntry (get "name" collection)
                                        (filepath exportResult)
                                        (filename exportResult)
                                        (recordCount exportResult)])
                           (totalRecords results + List.length documents)
                           (exportDir results)))
               else
                 export_loop fuel sourceDbId includeSystemFields rest
                   (mkExport
                      (export_collections results
                       ++ [mkEntry (get "name" collection) None None 0])
                      (totalRecords results)
                      (exportDir results)))
      | _ => tthrow "TypeError" TypeError
      end
  end.

(** [exportToCSV]. *)
Definition exportToCSV (fuel : nat) (sourceDbId : string)
           (includeSystemFields : bool) : T World export_results :=
  let results := mkExport [] 0 CSV_EXPORT_DIR in
  tbind (lift (fetchAllCollections databases fuel sourceDbId))
    (fun collections =>
       if (List.length collections =? 0)%nat then tret results
       else
         tbind ensure_directory
           (fun _ => export_loop fuel sourceDbId includeSystemFields
                                 collections results)).

(** [main].  [createClient] runs before the [try] block: what it raises
    is not caught.  The object [new Databases(client)] gives stands here
    as the parameters [databases], [databases_get] and
    [databases_deleteCollection].  The two [getDatabaseInfo] of
    [Promise.all] send their requests in the order written. *)
Definition main (fuel : nat) : T World unit :=
  let sourceDatabaseId := config_of (env "SOURCE_DATABASE_ID") in
  let destDatabaseId := config_of (env "DEST_DATABASE_ID") in
  tbind validateConfig
    (fun _ =>
       match createClient (config_of (env "APPWRITE_ENDPOINT"))
                          (config_of (env "APPWRITE_PROJECT_ID"))
                          (config_of (env "APPWRITE_API_KEY")) with
       | Some (name, message) => tthrow name message
       | None =>
       ttry_catch
         (tbind (getDatabaseInfo sourceDatabaseId)
            (fun sourceDb =>
               tbind (getDatabaseInfo destDatabaseId)
                 (fun destDb =>
                    if negb (db_exists sourceDb) then exit 1
                    else
                      tbind selectCloneMode
                        (fun cloneMode =>
                           if String.eqb (mode_value cloneMode) "export-csv"
                           then
                             tbind
                               (await_confirm
                                  (String.append
                                     "Include system fields ($id, $createdAt, etc.) in CSV? (Note: Must be "
                                     (String double_quote
                                        (String.append "No"
                                           (String double_quote
                                              " if re-importing into Appwrite)")))))
                               (fun includeSystemFields =>
                                  tbind
                                    (exportToCSV fuel sourceDatabaseId
                                                 includeSystemFields)
                                    (fun _ => tret tt))
                           else if negb (db_exists destDb) then exit 1
                           else
                             tbind (confirmMigration sourceDb destDb)
                               (fun _ =>
                                  let cloneStructure :=
                                    String.eqb (mode_value cloneMode) "full"
                                    || String.eqb (mode_value cloneMode)
                                                  "structure-only" in
                                  let cloneData :=
                                    String.eqb (mode_value cloneMode) "full"
                                    || String.eqb (mode_value cloneMode)
                                                  "data-only" in
                                  let missingOnly :=
                                    String.eqb (mode_value cloneMode)
                                               "missing-only" in
                                  tbind
                                    (if cloneStructure && negb missingOnly
                                     then
                                       tbind
                                         (dropDestinationCollections
                                            fuel destDatabaseId)
                                         (fun _ => tret tt)
                                     else tret tt)
                                    (fun _ =>
                                       tbind
                                         (lift
                                            (cloneDatabase databases now
                                               stringify batchSize fuel
                                               sourceDatabaseId
                                               destDatabaseId cloneStructure
                                               cloneData missingOnly))
                                         (fun _ => tret tt)))))))
         (fun name _ =>
            if String.eqb name ExitPromptError then exit 0 else exit 1)
       end).

End Tool.

End Tool.
Import Tool.

(** ** Vocabulary for the sanitizer's properties *)

Module SanitizerSpec.

(** Some object inside [v], at whatever depth, has a reserved key. *)
Fixpoint mentions_reserved (v : value) : bool :=
  match v with
  | Obj o =>
      existsb (fun kv => includes systemFields (fst kv)
                         || mentions_reserved (snd kv)) o
  | Arr l => existsb mentions_reserved l
  | _ => false
  end.

(** A position inside a value: a property name or an array index at each
    level. *)
Inductive step : Type :=
| Field (key : string)
| Item (i : nat).

Fixpoint at_path (p : list step) (v : value) : option value :=
  match p with
  | [] => Some v
  | Field key :: q =>
      match v with
      | Obj o => match get key o with
                 | Some x => at_path q x
                 | None => None
                 end
      | _ => None
      end
  | Item i :: q =>
      match v with
      | Arr l => match nth_error l i with
                 | Some x => at_path q x
                 | None => None
                 end
      | _ => None
      end
  end.

(** The path [p] descends from [v] through user data only: it crosses no
    reserved key, and no value it passes through on the way down is itself
    relationship-shaped (such a value is replaced as a whole). *)
Fixpoint plain_path (p : list step) (v : value) : bool :=
  match p with
  | [] => true
  | s :: q =>
      negb (isRelatedDocument v) &&
      match s, v with
      | Field key, Obj o =>
          negb (includes systemFields key) &&
          match get key o with
          | Some x => plain_path q x
          | None => false
          end
      | Item i, Arr l =>
          match nth_error l i with
          | Some x => plain_path q x
          | None => false
          end
      | _, _ => false
      end
  end.

(** First half of the sanitizer property as the specification words it:
    no reserved key at any nesting depth of the output. *)
Definition no_reserved_key_at_any_depth (d : object) : Prop :=
  mentions_reserved (Obj (cleanDocumentData d)) = false.

(** Second half, as worded: a relationship-shaped value, wherever it occurs
    below a user field of the document, is found collapsed to its
    identifier at the same position of the output. *)
Definition collapses_wherever_it_occurs (d : object) : Prop :=
  forall key v0 p v,
    includes systemFields key = false ->
    get key d = Some v0 ->
    plain_path p v0 = true ->
    at_path p v0 = Some v ->
    isRelatedDocument v = true ->
    exists out0,
      get key (cleanDocumentData d) = Some out0 /\
      at_path p out0 = Some (dollar_id v).

(** What [cleanNestedObject] does achieve: no object reached from [v]
    through object properties, and through the object elements of array
    properties, has a reserved key.  Arrays that are elements of arrays
    are not looked into. *)
Fixpoint stripped (v : value) : bool :=
  match v with
  | Obj o =>
      forallb (fun kv => negb (includes systemFields (fst kv))
                         && stripped (snd kv)) o
  | Arr l =>
      forallb (fun item => match item with
                           | Obj _ => stripped item
                           | _ => true
                           end) l
  | _ => true
  end.

(** [o'] is [o] with the reserved keys removed from it and, recursively,
    from the objects held in its fields and from the object elements of
    its array fields: the fields that are left are those of [o] whose
    key is not reserved, in the same order; a field that holds an object
    holds that object with the reserved keys removed in the same way;
    in a field that holds an array, every element that is an object has
    them removed in the same way and every other element (an array
    included) is as it was; any other field holds what it held. *)
Inductive reserved_keys_removed : object -> object -> Prop :=
| removed_end : reserved_keys_removed [] []
| removed_reserved key v o o' :
    includes systemFields key = true ->
    reserved_keys_removed o o' ->
    reserved_keys_removed ((key, v) :: o) o'
| removed_in_object key x x' o o' :
    includes systemFields key = false ->
    reserved_keys_removed x x' ->
    reserved_keys_removed o o' ->
    reserved_keys_removed ((key, Obj x) :: o) ((key, Obj x') :: o')
| removed_in_array key l l' o o' :
    includes systemFields key = false ->
    Forall2 removed_in_element l l' ->
    reserved_keys_removed o o' ->
    reserved_keys_removed ((key, Arr l) :: o) ((key, Arr l') :: o')
| removed_nowhere key v o o' :
    includes systemFields key = false ->
    is_scalar v = true ->
    reserved_keys_removed o o' ->
    reserved_keys_removed ((key, v) :: o) ((key, v) :: o')
with removed_in_element : value -> value -> Prop :=
| element_object x x' :
    reserved_keys_removed x x' ->
    removed_in_element (Obj x) (Obj x')
| element_array l : removed_in_element (Arr l) (Arr l)
| element_scalar v : is_scalar v = true -> removed_in_element v v.

(** The identifier of every relationship-shaped value that the sanitizer
    collapses (a field value, or an element of an array field) is a scalar,
    as the identifiers issued by the service are. *)
Definition scalar_identifier (v : value) : bool :=
  negb (isRelatedDocument v) || is_scalar (dollar_id v).

Definition scalar_identifiers (d : object) : bool :=
  forallb (fun kv =>
             match snd kv with
             | Arr l => forallb scalar_identifier l
             | v => scalar_identifier v
             end) d.

(** A field holding a plain object that holds a relationship expansion. *)
Definition nested_expansion_doc : object :=
  [ ("title", Str "parcel");
    ("owner",
      Obj [ ("profile",
              Obj [ ("$id", Str "u1"); ("$collectionId", Str "users");
                    ("name", Str "Ann") ]) ]);
    ("grid", Arr [ Arr [ Obj [ ("$id", Str "c1"); ("x", Num "1") ] ] ]) ].

(** A document as the service returns it, with two relationship fields. *)
Definition order_doc : object :=
  [ ("$id", Str "o1"); ("$collectionId", Str "orders");
    ("$databaseId", Str "main"); ("$createdAt", Str "2024-01-01");
    ("$updatedAt", Str "2024-01-02"); ("$permissions", Arr []);
    ("$sequence", Num "7");
    ("total", Num "30");
    ("customer",
      Obj [ ("$id", Str "u1"); ("$collectionId", Str "users");
            ("name", Str "Ann") ]);
    ("lines",
      Arr [ Obj [ ("$id", Str "l1"); ("$collectionId", Str "lines") ];
            Obj [ ("sku", Str "a"); ("$id", Str "tmp");
                  ("dims", Obj [ ("$sequence", Num "1"); ("w", Num "2") ]) ];
            Num "5" ]);
    ("meta", Obj [ ("$createdAt", Str "t"); ("tags", Arr [ Str "x" ]) ]) ].

End SanitizerSpec.
Import SanitizerSpec.

(** ** Vocabulary for the paginator's properties *)

Module PaginatorSpec.

(** A service that serves stable forward-ordered pages of a fixed listing
    [items]: a request with no cursor is answered with the first [limit]
    items, a request with cursor [c] with the first [limit] items that
    follow the item whose key is [c]. *)
Fixpoint after (keyName : string) (cursor : value) (items : list object)
  : list object :=
  match items with
  | [] => []
  | item :: rest =>
      match get keyName item with
      | Some k => if strict_eq k cursor then rest
                  else after keyName cursor rest
      | None => after keyName cursor rest
      end
  end.

Definition page (keyName : string) (items : list object)
           (limit : Z) (cursor : option value) : list object :=
  firstn (Z.to_nat limit)
         (match cursor with
          | None => items
          | Some c => after keyName c items
          end).

Definition stable_listing {World : Type} (databases : Databases World)
           (list_call : Z -> option value -> request)
           (keyName : string) (items : list object) : Prop :=
  forall w limit cursor,
    snd (databases w (list_call limit cursor))
    = Listed (page keyName items limit cursor).

(** Keys as the service issues them: non-empty strings, no key twice. *)
Definition well_keyed (keyName : string) (items : list object) : Prop :=
  Forall (fun item => exists s, get keyName item = Some (Str s)
                                /\ s <> EmptyString) items
  /\ NoDup (map (get keyName) items).

Definition is_listing_call (e : event) : Prop :=
  match e with
  | Called (ListCollections _ _ _) (Listed _)
  | Called (ListAttributes _ _ _ _) (Listed _)
  | Called (ListIndexes _ _ _ _) (Listed _)
  | Called (ListDocuments _ _ _ _) (Listed _) => True
  | _ => False
  end.

(** The number of requests that appear in a log. *)
Fixpoint requests (l : list event) : nat :=
  match l with
  | [] => 0
  | Called _ _ :: r => S (requests r)
  | _ :: r => requests r
  end.

(** [run], given enough fuel, returns exactly [items] after exactly
    [nb] listing requests, and touches nothing but the service. *)
Definition traverses {World : Type} (run : nat -> M World (list object))
           (items : list object) (nb : nat) : Prop :=
  forall fuel s,
    (nb <= fuel)%nat ->
    exists s' calls,
      run fuel s = (Returned items, s') /\
      log s' = log s ++ calls ++ [Fetched items] /\
      Forall is_listing_call calls /\
      List.length calls = nb /\
      cacheFile s' = cacheFile s.

(** [ceil(n / p)]. *)
Definition ceil_div (n p : nat) : nat := ((n + p - 1) / p)%nat.

(** A service holding one fixed listing, whatever is asked. *)
Definition fixed_listing (keyName : string) (items : list object)
  : Databases unit :=
  fun w rq =>
    match rq with
    | ListCollections _ limit cursor
    | ListAttributes _ _ limit cursor
    | ListIndexes _ _ limit cursor
    | ListDocuments _ _ limit cursor =>
        (w, Listed (page keyName items limit cursor))
    | _ => (w, Created)
    end.

Definition start : state unit := mkState tt None [].

Definition two_docs : list object :=
  [ [ ("$id", Str "d1"); ("n", Num "1") ];
    [ ("$id", Str "d2"); ("n", Num "2") ] ].

Definition three_docs : list object :=
  two_docs ++ [ [ ("$id", Str "d3"); ("n", Num "3") ] ].

End PaginatorSpec.
Import PaginatorSpec.

(** ** Vocabulary for what a run did

    A run from [s] that ends in [s'] extended the log by some [d]; the
    properties below are stated on [d]. *)

Module Traces.

(** The snapshot file after the events [d], starting from content [c]. *)
Fixpoint cache_after (c : option value) (d : list event) : option value :=
  match d with
  | [] => c
  | CacheWritten data :: r => cache_after (Some data) r
  | CacheDeleted :: r => cache_after None r
  | _ :: r => cache_after c r
  end.

Definition extends {World : Type} (s s' : state World) (d : list event)
  : Prop :=
  log s' = log s ++ d /\ cacheFile s' = cache_after (cacheFile s) d.

(** Every run of [c] extends the log by some [d] such that [Q] holds of
    the outcome and [d]. *)
Definition spec {World A : Type} (c : M World A)
           (Q : outcome A -> list event -> Prop) : Prop :=
  forall s, exists d, extends s (snd (c s)) d /\ Q (fst (c s)) d.

Definition is_listing (rq : request) : bool :=
  match rq with
  | ListCollections _ _ _ | ListAttributes _ _ _ _
  | ListIndexes _ _ _ _ | ListDocuments _ _ _ _ => true
  | _ => false
  end.

Definition listing_call (e : event) : bool :=
  match e with
  | Called rq _ => is_listing rq
  | _ => false
  end.

(** Events of a traversal: listing calls and the ghost [Fetched]. *)
Definition quiet (e : event) : bool :=
  match e with
  | Called rq _ => is_listing rq
  | Fetched _ => true
  | _ => false
  end.

(** Events of a readiness poll: those of its traversals and its sleeps of
    one second. *)
Definition polling (e : event) : bool :=
  match e with
  | Slept ms => (ms =? 1000)%Z
  | _ => quiet e
  end.

Definition is_poll_event (e : event) : bool :=
  match e with
  | Fetched _ | Slept _ => true
  | _ => false
  end.

Definition is_cache_event (e : event) : bool :=
  match e with
  | CacheWritten _ | CacheRead | CacheDeleted => true
  | _ => false
  end.

Definition is_document_creation (e : event) : bool :=
  match e with
  | Called (CreateDocument _ _ _) _ => true
  | _ => false
  end.

Definition is_failure (e : event) : bool :=
  match e with
  | Called _ (Failed _) => true
  | _ => false
  end.

(** Events of the structure phase: anything but the snapshot file and
    document creation. *)
Definition structural (e : event) : bool :=
  negb (is_cache_event e) && negb (is_document_creation e).

(** The attribute creation calls of a run, with their replies. *)
Definition attribute_creations (d : list event) : list (request * reply) :=
  flat_map (fun e => match e with
                     | Called (CreateAttribute _ _ _ _ as rq) rp => [(rq, rp)]
                     | _ => []
                     end) d.

(** The index creation calls of a run, with their replies. *)
Definition index_creations (d : list event) : list (request * reply) :=
  flat_map (fun e => match e with
                     | Called (CreateIndex _ _ _ as rq) rp => [(rq, rp)]
                     | _ => []
                     end) d.

(** [{ key, error }] for each index creation call that was rejected. *)
Definition index_failures (d : list event)
  : list (option value * option string) :=
  flat_map (fun e => match e with
                     | Called (CreateIndex _ _ args) (Failed m) =>
                         [(hd None args, Some m)]
                     | _ => []
                     end) d.

Definition failed (call : request * reply) : bool :=
  match snd call with
  | Failed _ => true
  | _ => false
  end.

(** No call of the run was rejected except index creations, and every
    listing call was answered with a list. *)
Definition only_index_creation_fails (e : event) : bool :=
  match e with
  | Called (CreateIndex _ _ _) (Failed _) => true
  | Called _ (Failed _) => false
  | Called rq Created => negb (is_listing rq)
  | _ => true
  end.

(** One attempt that misses: the re-fetched list, then one second. *)
Definition miss (items : list object) : list event :=
  [Fetched items; Slept 1000].

(** The re-fetches and sleeps of a poll for [key] with budget [n] that
    ended in [out]: the attempts up to the last are misses; the poll
    returns [true] on a hit, returns [false] after [n] misses, and is
    otherwise cut short by the failure of a re-fetch. *)
Definition poll_shape (key : option value) (n : nat) (out : outcome bool)
           (evs : list event) : Prop :=
  exists misses,
    Forall (fun l => reports_available key l = false) misses /\
    match out with
    | Returned true =>
        exists hit, reports_available key hit = true /\
                    (List.length misses < n)%nat /\
                    evs = flat_map miss misses ++ [Fetched hit]
    | Returned false =>
        List.length misses = n /\ evs = flat_map miss misses
    | _ =>
        (List.length misses < n)%nat /\ evs = flat_map miss misses
    end.

(** The number of re-fetches in a log. *)
Definition fetches (d : list event) : nat :=
  List.length (filter (fun e => match e with
                                | Fetched _ => true
                                | _ => false
                                end) d).

(** The creation calls [createAttributes] owes for a source list: none
    for a child-side relationship attribute, none for a type the
    [switch] does not know, one for any other attribute. *)
Definition due_attribute_calls (databaseId : string)
           (collectionId : option value) (attributes : list object)
  : list request :=
  flat_map (fun attribute =>
              if is_child_relationship attribute then []
              else match attribute_call databaseId collectionId attribute with
                   | Some rq => [rq]
                   | None => []
                   end) attributes.

(** The attributes [createAttribute] rejects without a call. *)
Definition unknown_type (databaseId : string)
           (collectionId : option value) (attribute : object) : bool :=
  negb (is_child_relationship attribute) &&
  match attribute_call databaseId collectionId attribute with
  | Some _ => false
  | None => true
  end.

(** What a traversal with page size [limit] leaves in the log: listing
    calls, then the ghost [Fetched] when it returns; it raises only
    through a listing call that is rejected or not answered with a list. *)
Definition fetch_post (limit : Z) (out : outcome (list object))
           (d : list event) : Prop :=
  forallb quiet d = true /\
  filter is_poll_event d = match out with
                           | Returned items => [Fetched items]
                           | _ => []
                           end /\
  ((0 < limit)%Z ->
   forall m, out = Thrown m -> forallb only_index_creation_fails d = false).


(** Events of [createAttributes]: attribute creation calls and polls. *)
Definition attribute_phase (e : event) : bool :=
  match e with
  | Called (CreateAttribute _ _ _ _) _ => true
  | _ => polling e
  end.

(** Events of [createIndexes]: index creation calls and polls. *)
Definition index_phase (e : event) : bool :=
  match e with
  | Called (CreateIndex _ _ _) _ => true
  | _ => polling e
  end.

(** The entry [createAttributes] pushes on [errors] for [attribute] is a
    creation failure: the type is unknown to [createAttribute], or the
    creation call of the attribute was rejected with the recorded
    message. *)
Definition creation_failure (databaseId : string)
           (collectionId : option value) (attributes : list object)
           (d : list event) (entry : option value * option string) : Prop :=
  exists attribute,
    In attribute attributes /\
    fst entry = get "key" attribute /\
    ((unknown_type databaseId collectionId attribute = true /\
      snd entry = Some (String.append "Unknown type: "
                                      (template (get "type" attribute))))
     \/
     (exists rq m,
         attribute_call databaseId collectionId attribute = Some rq /\
         In (rq, Failed m) (attribute_creations d) /\
         snd entry = Some m)).

Definition count_failed (calls : list (request * reply)) : nat :=
  List.length (filter failed calls).

Definition count_accepted (calls : list (request * reply)) : nat :=
  List.length (filter (fun call => negb (failed call)) calls).

Definition count_unknown (databaseId : string) (collectionId : option value)
           (attributes : list object) : nat :=
  List.length (filter (unknown_type databaseId collectionId) attributes).

Definition prefix_of {A : Type} (l1 l2 : list A) : Prop :=
  exists rest, l2 = l1 ++ rest.

(** [{ success: true }] or [{ success: false, error: error.message }]. *)
Definition outcome_of_reply (rp : reply) : result :=
  match rp with
  | Failed m => mkResult false (Some m)
  | _ => mkResult true None
  end.

(** What a readiness poll leaves in the log. *)
Definition poll_post (key : option value) (n : nat) (out : outcome bool)
           (d : list event) : Prop :=
  forallb polling d = true /\
  poll_shape key n out (filter is_poll_event d) /\
  (forall m, out = Thrown m ->
             forallb only_index_creation_fails d = false).

(** What [createAttributes], entered with the accumulators [acc], leaves
    in the log and returns. *)
Definition attributes_post (databaseId : string)
           (collectionId : option value) (attributes : list object)
           (acc : tally) (out : outcome tally) (d : list event) : Prop :=
  forallb attribute_phase d = true /\
  prefix_of (map fst (attribute_creations d))
            (due_attribute_calls databaseId collectionId attributes) /\
  (forall m, out = Thrown m ->
             forallb only_index_creation_fails d = false) /\
  (forall t, out = Returned t ->
     map fst (attribute_creations d)
     = due_attribute_calls databaseId collectionId attributes /\
     successCount t
     = (successCount acc + count_accepted (attribute_creations d))%nat /\
     errorCount t
     = (errorCount acc + count_failed (attribute_creations d)
        + count_unknown databaseId collectionId attributes)%nat /\
     exists new,
       errors t = errors acc ++ new /\
       List.length new
       = (count_failed (attribute_creations d)
          + count_unknown databaseId collectionId attributes)%nat /\
       Forall (creation_failure databaseId collectionId attributes d) new).

(** What [createIndexes], entered with the accumulators [acc], leaves in
    the log and returns. *)
Definition indexes_post (databaseId : string)
           (collectionId : option value) (indexes : list object)
           (acc : tally) (out : outcome tally) (d : list event) : Prop :=
  forallb index_phase d = true /\
  prefix_of (map fst (index_creations d))
            (map (index_call databaseId collectionId) indexes) /\
  (forall m, out = Thrown m ->
             forallb only_index_creation_fails d = false) /\
  (forall t, out = Returned t ->
     map fst (index_creations d)
     = map (index_call databaseId collectionId) indexes /\
     successCount t
     = (successCount acc + count_accepted (index_creations d))%nat /\
     errorCount t = (errorCount acc + count_failed (index_creations d))%nat /\
     errors t = errors acc ++ index_failures d).

(** What [cloneCollectionStructure] leaves in the log and returns: it
    never raises; a rejected attribute creation makes the result a
    failure; and when nothing but index creations was rejected, the
    result lists exactly the rejected index creations and is a success
    unless an attribute error was recorded. *)
Definition structure_post (out : outcome structure_result)
           (d : list event) : Prop :=
  forallb structural d = true /\
  (forall m, out <> Thrown m) /\
  (forall r, out = Returned r ->
     (existsb failed (attribute_creations d) = true ->
      structure_success r = false) /\
     (forallb only_index_creation_fails d = true ->
      indexErrors r = index_failures d /\
      (structure_success r = true <-> attributeErrors r = []))).

(** Every listing the service returns fits in one page of [limit]
    items. *)
Definition one_page {World : Type} (limit : Z) (databases : Databases World)
  : Prop :=
  forall w rq items,
    snd (databases w rq) = Listed items ->
    (Z.of_nat (List.length items) < limit)%Z.

(** The run ends by returning or by raising. *)
Definition settles {A : Type} (out : outcome A) : Prop := out <> OutOfFuel.

(** Document creation calls that were accepted, and rejected. *)
Definition accepted (d : list event) : nat :=
  List.length (filter (fun e => negb (is_failure e)) d).

Definition rejected (d : list event) : nat :=
  List.length (filter is_failure d).

(** What the fetch phase, entered with [acc] already fetched, returns:
    one entry per collection, carrying the collection's [$id] and [name]
    and a list of documents that was fetched during the phase. *)
Definition fetch_documents_post (collections : list object)
           (acc : list collection_docs)
           (out : outcome (list collection_docs)) (d : list event) : Prop :=
  forallb quiet d = true /\
  (forall cds, out = Returned cds ->
     exists new,
       cds = acc ++ new /\
       Forall (fun cd => In (Fetched (documents cd)) d) new /\
       map collectionId new = map (get "$id") collections /\
       map collectionName new = map (get "name") collections).

(** The messages of the entries of [results.documents.errors], group
    after group, and the messages of the document creation calls that
    were rejected during [d], in order. *)
Definition recorded_messages (groups : document_errors) : list string :=
  flat_map (fun group => map snd (snd group)) groups.

Definition rejection_messages (d : list event) : list string :=
  flat_map (fun e => match e with
                     | Called (CreateDocument _ _ _) (Failed m) => [m]
                     | _ => []
                     end) d.

(** [r'] is [r] after the document creation calls of [d]: each call was
    counted as a success or as a failure, and each rejection left an
    entry with its message in the error list. *)
Definition creations_recorded (r r' : results) (d : list event) : Prop :=
  documents_success r' = (documents_success r + accepted d)%nat /\
  documents_failed r' = (documents_failed r + rejected d)%nat /\
  Permutation (recorded_messages (documents_errors r'))
              (recorded_messages (documents_errors r)
               ++ rejection_messages d).

(** What the insertion of [n] documents, entered with the results [r],
    leaves in the log and returns: it always returns, after one creation
    call per document, each counted as a success or as a failure. *)
Definition insertion_post (n : nat) (r : results) (out : outcome results)
           (d : list event) : Prop :=
  forallb is_document_creation d = true /\
  List.length d = n /\
  exists r', out = Returned r' /\ creations_recorded r r' d.

(** What the insertion loop over the queue, entered with the results
    [r], leaves in the log: document creation calls only; when it
    returns, each call was counted as a success or as a failure. *)
Definition queue_post (r : results) (out : outcome results)
           (d : list event) : Prop :=
  forallb is_document_creation d = true /\
  settles out /\
  forall r', out = Returned r' -> creations_recorded r r' d.

(** The log of a run of [cloneDatabase] up to the moment the snapshot
    has been written and read back: everything up to the end of the fetch
    phase, then the two file events.  [fetchedAt] is a reading of the
    clock, and every document list of the snapshot was fetched before the
    snapshot was written. *)
Definition snapshot_taken {World : Type} (now : World -> string)
           (sourceDbId destDbId : string) (data : value)
           (d : list event) : Prop :=
  exists before w collectionDocs,
    d = before ++ [CacheWritten data; CacheRead] /\
    data = cacheData sourceDbId destDbId (now w) collectionDocs /\
    forallb structural before = true /\
    Forall (fun cd => In (Fetched (documents cd)) before) collectionDocs.

(** The log of a data-writing run that returned [r] after finding
    collections: the snapshot taken, the listings of the diff engine, the
    document creations, the snapshot deleted.  The creations accepted
    and rejected are the documents [r] counts as copied and as failed,
    and the error list of [r] holds the messages of the rejections. *)
Definition completed_run {World : Type} (now : World -> string)
           (sourceDbId destDbId : string) (r : results)
           (d : list event) : Prop :=
  exists taken data queueing inserts,
    d = taken ++ queueing ++ inserts ++ [CacheDeleted] /\
    snapshot_taken now sourceDbId destDbId data taken /\
    forallb quiet queueing = true /\
    forallb is_document_creation inserts = true /\
    documents_success r = accepted inserts /\
    documents_failed r = rejected inserts /\
    Permutation (recorded_messages (documents_errors r))
                (rejection_messages inserts).

(** The log of a run that was cut short after the snapshot was taken:
    the snapshot taken, then listings of the diff engine, then the
    document creations made before the run stopped. *)
Definition interrupted_run {World : Type} (now : World -> string)
           (sourceDbId destDbId : string) (d : list event) : Prop :=
  exists taken data queueing inserts,
    d = taken ++ queueing ++ inserts /\
    snapshot_taken now sourceDbId destDbId data taken /\
    forallb quiet queueing = true /\
    forallb is_document_creation inserts = true.

(** What a run of [cloneDatabase] leaves in the log. *)
Definition cloneDatabase_post {World : Type} (now : World -> string)
           (sourceDbId destDbId : string) (writes_data : bool)
           (out : outcome results) (d : list event) : Prop :=
  (forallb structural d = true /\
   (writes_data = true ->
    forall r, out = Returned r -> forallb quiet d = true))
  \/ (exists r, out = Returned r
                /\ completed_run now sourceDbId destDbId r d)
  \/ ((forall r, out <> Returned r)
      /\ interrupted_run now sourceDbId destDbId d).

End Traces.
Import Traces.

(** ** Small services and inputs on which the theorems are exercised *)

Module Scenarios.

Definition parcels : object :=
  [ ("$id", Str "parcels"); ("name", Str "Parcels");
    ("$permissions", Arr []); ("documentSecurity", Boolean false);
    ("enabled", Boolean true) ].

Definition title_attribute (status : string) : object :=
  [ ("key", Str "title"); ("type", Str "string"); ("size", Num "128");
    ("required", Boolean true); ("status", Str status) ].

Definition weight_attribute : object :=
  [ ("key", Str "weight"); ("type", Str "integer");
    ("status", Str "available") ].

(** The child side of a two-way relationship. *)
Definition owner_attribute : object :=
  [ ("key", Str "owner"); ("type", Str "relationship");
    ("side", Str "child"); ("relatedCollection", Str "users");
    ("status", Str "available") ].

Definition by_title : object :=
  [ ("key", Str "by_title"); ("type", Str "key");
    ("attributes", Arr [ Str "title" ]); ("status", Str "available") ].

(** A service that knows one collection with three attributes and one
    index, and answers creations as told: [attributes_ok] and
    [indexes_ok] say whether attribute and index creations are accepted,
    [status] is what its attribute [title] reports. *)
Definition schema_service (attributes_ok indexes_ok : bool) (status : string)
  : Databases unit :=
  fun w rq =>
    match rq with
    | ListCollections _ _ _ => (w, Listed [ parcels ])
    | ListAttributes _ _ _ _ =>
        (w, Listed [ title_attribute status; owner_attribute;
                     weight_attribute ])
    | ListIndexes _ _ _ _ => (w, Listed [ by_title ])
    | ListDocuments _ _ _ _ => (w, Listed [])
    | CreateAttribute _ _ _ _ =>
        (w, if attributes_ok then Created else Failed "attribute_limit")
    | CreateIndex _ _ _ =>
        (w, if indexes_ok then Created else Failed "index_invalid")
    | _ => (w, Created)
    end.

(** A service with one collection of two documents in the source
    database.  [accept_documents] says whether document creations are
    accepted, [dest_reachable] whether the documents of the destination
    database can be listed. *)
Definition documents_service (accept_documents dest_reachable : bool)
  : Databases unit :=
  fun w rq =>
    match rq with
    | ListCollections _ _ _ => (w, Listed [ parcels ])
    | ListDocuments db _ _ _ =>
        if String.eqb db "dest"
        then (w, if dest_reachable then Listed []
                 else Failed "service_unavailable")
        else (w, Listed two_docs)
    | CreateDocument _ _ _ =>
        (w, if accept_documents then Created else Failed "document_invalid")
    | _ => (w, Created)
    end.



Definition noon : unit -> string := fun _ => "2024-05-01T12:00:00.000Z".

(** The double quote character. *)
Definition quote : string := String (Ascii.ascii_of_nat 34) EmptyString.

(** A serializer in the manner of [JSON.stringify], without escapes. *)
Fixpoint to_json (v : value) : string :=
  match v with
  | Null => "null"
  | Boolean true => "true"
  | Boolean false => "false"
  | Num text => text
  | Str s => String.append quote (String.append s quote)
  | Arr l =>
      String.append "["
        (String.append (String.concat "," (map to_json l)) "]")
  | Obj o =>
      String.append "{"
        (String.append
           (String.concat ","
              (map (fun kv =>
                      String.append quote
                        (String.append (fst kv)
                           (String.append quote
                              (String.append ":" (to_json (snd kv))))))
                   o))
           "}")
  end.

(** The snapshot of [documents_service], and what the specification
    would have as its field names. *)
Definition parcels_snapshot : value :=
  cacheData "source" "dest" "2024-05-01T12:00:00.000Z"
            [ mkCollectionDocs (Some (Str "parcels")) (Some (Str "Parcels"))
                               two_docs ].


Definition worded_field_names : list string :=
  [ "sourceId"; "destId"; "fetchedAt"; "collections" ].

End Scenarios.
Import Scenarios.

(** ** Vocabulary for the diff engine's properties *)

Module DiffSpec.

(** The key under which the diff engine files a document: the value of
    the identifier field when the field is configured and the value is
    truthy, else the serialization of the sanitized document. *)
Definition record_key (stringify : value -> string)
           (identifierField : option string) (doc : object) : value :=
  if field_given identifierField && truthy (field_of identifierField doc)
  then match field_of identifierField doc with
       | Some v => v
       | None => Null
       end
  else Str (stringify (Obj (cleanDocumentData doc))).

(** An identifier value: a truthy scalar. *)
Definition identifier (v : value) : bool :=
  truthy (Some v) && is_scalar v.

(** Destination documents of [packaging_records]: two with a waybill
    number, one without. *)
Definition waybill (id number : string) : object :=
  [ ("$id", Str id); ("$collectionId", Str "packaging_records");
    ("waybill_number", Str number); ("weight", Num "3") ].

Definition unnumbered : object :=
  [ ("$id", Str "d9"); ("$collectionId", Str "packaging_records");
    ("waybill_number", Str EmptyString); ("weight", Num "4") ].

End DiffSpec.
Import DiffSpec.
(** ** Further inputs and vocabulary *)

Module MoreSpec.

(** A document that carries user data only. *)
Definition plain_doc : object :=
  [ ("title", Str "parcel"); ("weight", Num "3");
    ("tags", Arr [ Str "x"; Obj [ ("w", Num "2") ] ]);
    ("box", Obj [ ("h", Num "1"); ("lid", Obj [ ("open", Boolean false) ]) ]) ].

(** The cursor a listing request carries for the value [lastId] of the
    loop: [Query.cursorAfter(lastId)] is pushed when [lastId] is truthy. *)
Definition cursor_of (lastId : option value) : option value :=
  if truthy lastId then lastId else None.

(** The cursor of the request that follows the page [p]: the key of the
    last item of [p]. *)
Definition next_cursor (keyName : string) (p : list object) : option value :=
  match nth_error p (List.length p - 1) with
  | Some item => cursor_of (get keyName item)
  | None => None
  end.

(** The listing calls of a traversal that receives the pages [ps] one
    after the other, the first request carrying [cursor]. *)
Fixpoint calls_for (list_call : Z -> option value -> request) (limit : Z)
         (keyName : string) (cursor : option value)
         (ps : list (list object)) : list event :=
  match ps with
  | [] => []
  | p :: rest =>
      Called (list_call limit cursor) (Listed p)
      :: calls_for list_call limit keyName (next_cursor keyName p) rest
  end.

(** The cursor of the request that follows the pages [ps]. *)
Definition cursor_after (keyName : string) (cursor : option value)
           (ps : list (list object)) : option value :=
  fold_left (fun _ p => next_cursor keyName p) ps cursor.

(** A page after which the loop goes on: it holds at least [limit]
    items. *)
Definition full_page (limit : Z) (p : list object) : Prop :=
  (limit <= Z.of_nat (List.length p))%Z /\ p <> [].

(** The log of a traversal that returned [items]: the service answered
    full pages and then a short one, each request after the first
    carrying the key of the last item received, and [items] are the pages
    put end to end. *)
Definition collected_run (list_call : Z -> option value -> request)
           (limit : Z) (keyName : string) (items : list object)
           (d : list event) : Prop :=
  exists ps last,
    d = calls_for list_call limit keyName None (ps ++ [last])
        ++ [Fetched items] /\
    items = List.concat (ps ++ [last]) /\
    Forall (full_page limit) ps /\
    (Z.of_nat (List.length last) < limit)%Z.

(** The log of a traversal that raised [message]: full pages were
    answered, and then a request was rejected with [message], or was
    answered with something that holds no list. *)
Definition failed_run (list_call : Z -> option value -> request)
           (limit : Z) (keyName : string) (message : string)
           (d : list event) : Prop :=
  exists ps rp,
    d = calls_for list_call limit keyName None ps
        ++ [Called (list_call limit (cursor_after keyName None ps)) rp] /\
    Forall (full_page limit) ps /\
    (rp = Failed message \/ (rp = Created /\ message = TypeError)).

(** Every event of every run of [c] satisfies [p]. *)
Definition always {World A : Type} (p : event -> bool) (c : M World A)
  : Prop :=
  spec c (fun _ d => forallb p d = true).

(** A service that rejects every request. *)
Definition refusing_service : Databases unit :=
  fun w _ => (w, Failed "unauthorized").

(** The properties of a document that are not system fields, as the
    service stores them for a document created from a payload. *)
Definition user_fields (doc : object) : object :=
  filter (fun kv => negb (includes systemFields (fst kv))) doc.

(** The copy of [order_doc] that a run left in the destination: the
    sanitized fields under fresh system fields. *)
Definition order_copy : object :=
  [ ("$id", Str "c1"); ("$collectionId", Str "orders");
    ("$createdAt", Str "2024-02-01") ]
  ++ cleanDocumentData order_doc.

(** A record whose identifier field holds the expansion of a related
    document. *)
Definition expanded_item : object :=
  [ ("$id", Str "i1");
    ("packaging_record_id",
      Obj [ ("$id", Str "r1"); ("$collectionId", Str "packaging_records") ]);
    ("product_barcode", Str "4006381333931") ].

(** What a run of [cloneDatabase] from [src] to [dst] may do under the
    options it was given.  Collections are listed in the source only.
    Attributes and indexes are listed (in either database, the polls
    list the destination) and the readiness polls sleep only when the
    structure is cloned.  Every creation call names the destination:
    collections, attributes and indexes when the structure is cloned,
    documents when data is written.  Documents are listed in the source
    when data is written, in the destination only to find the missing
    ones; the snapshot file is touched only when data is written. *)
Definition permitted (src dst : string)
           (cloneStructure cloneData missingOnly : bool) (e : event)
  : bool :=
  match e with
  | Called (ListCollections db _ _) _ => String.eqb db src
  | Called (ListAttributes db _ _ _) _
  | Called (ListIndexes db _ _ _) _ =>
      cloneStructure && (String.eqb db src || String.eqb db dst)
  | Called (CreateCollection db _) _
  | Called (CreateAttribute _ db _ _) _
  | Called (CreateIndex db _ _) _ =>
      cloneStructure && String.eqb db dst
  | Called (ListDocuments db _ _ _) _ =>
      ((cloneData || missingOnly) && String.eqb db src)
      || (missingOnly && String.eqb db dst)
  | Called (CreateDocument db _ _) _ =>
      (cloneData || missingOnly) && String.eqb db dst
  | Fetched _ => true
  | Slept ms => cloneStructure && (ms =? 1000)%Z
  | CacheWritten _ | CacheRead | CacheDeleted => cloneData || missingOnly
  end.

(** The number of [{ documentId, error }] entries in
    [results.documents.errors], all groups together. *)
Definition error_entries (groups : document_errors) : nat :=
  fold_right (fun group n => (List.length (snd group) + n)%nat) 0%nat groups.

(** The number of documents a snapshot holds. *)
Definition snapshot_documents (data : value) : nat :=
  match read_collections data with
  | Some collectionDocs => docs_to_process collectionDocs
  | None => 0%nat
  end.

(** The database a request writes to. *)
Definition written_database (rq : request) : option string :=
  match rq with
  | CreateCollection db _ | CreateAttribute _ db _ _
  | CreateIndex db _ _ | CreateDocument db _ _ => Some db
  | _ => None
  end.

(** The number of documents in the snapshots written during [d]. *)
Definition written_documents (d : list event) : nat :=
  fold_right (fun e n => match e with
                         | CacheWritten data => (snapshot_documents data + n)%nat
                         | _ => n
                         end) 0%nat d.

(** [r'] is [r] after [n] collections went through the structure phase:
    each was counted as a success or as a failure, each failure left one
    entry in [errors] and at most one in [attributeErrors], and the
    document counters were not touched. *)
Definition structures_counted (n : nat) (r r' : results) : Prop :=
  documents_success r' = documents_success r /\
  documents_failed r' = documents_failed r /\
  documents_skipped r' = documents_skipped r /\
  documents_errors r' = documents_errors r /\
  (collections_success r' + collections_failed r'
   = collections_success r + collections_failed r + n)%nat /\
  (List.length (collections_errors r') + collections_failed r
   = List.length (collections_errors r) + collections_failed r')%nat /\
  (List.length (collections_attributeErrors r') + collections_failed r
   <= List.length (collections_attributeErrors r)
      + collections_failed r')%nat.

(** [r'] is [r] after [n] documents went through the insertion loop:
    each was counted as a success or as a failure, each failure left one
    entry in [errors], and nothing else was touched. *)
Definition documents_counted (n : nat) (r r' : results) : Prop :=
  collections_success r' = collections_success r /\
  collections_failed r' = collections_failed r /\
  collections_errors r' = collections_errors r /\
  collections_attributeErrors r' = collections_attributeErrors r /\
  documents_skipped r' = documents_skipped r /\
  (documents_success r' + documents_failed r'
   = documents_success r + documents_failed r + n)%nat /\
  (error_entries (documents_errors r') + documents_failed r
   = error_entries (documents_errors r) + documents_failed r')%nat.

End MoreSpec.
Import MoreSpec.

(** ** Vocabulary for the properties of the CSV export *)

Module CsvSpec.

(** The text of a cell: nothing for [null] and [undefined], the
    serialization of an array or object, and [String(value)] for any
    other value. *)
Definition cell_text (stringify : value -> string) (value : option value)
  : string :=
  match value with
  | None | Some Null => EmptyString
  | Some v => match v with
              | Arr _ | Obj _ => stringify v
              | _ => ToString v
              end
  end.

(** A reader of CSV text in the manner of RFC 4180, for records separated
    by line feeds: a field that begins with a double quote runs to the
    next double quote that is not doubled, two double quotes inside it
    standing for one; any other field runs to the next comma or line
    feed. *)
Inductive mode : Type :=
| FieldStart
| Plain
| Quoted
| Closing.

Definition push (field : string) (c : ascii) : string :=
  String.append field (String c EmptyString).

Fixpoint read (m : mode) (field : string) (row : list string)
         (input : string) : list (list string) :=
  match input with
  | EmptyString => [row ++ [field]]
  | String c rest =>
      match m with
      | Quoted =>
          if Ascii.eqb c double_quote then read Closing field row rest
          else read Quoted (push field c) row rest
      | _ =>
          if Ascii.eqb c comma
          then read FieldStart EmptyString (row ++ [field]) rest
          else if Ascii.eqb c line_feed
          then (row ++ [field]) :: read FieldStart EmptyString [] rest
          else if Ascii.eqb c double_quote
          then match m with
               | FieldStart => read Quoted field row rest
               | Closing => read Quoted (push field c) row rest
               | _ => read Plain (push field c) row rest
               end
          else read Plain (push field c) row rest
      end
  end.

Definition read_csv (text : string) : list (list string) :=
  read FieldStart EmptyString [] text.

(** The table a CSV export stands for: the header names, then for each
    document the texts of its cells under these headers. *)
Definition table (stringify : value -> string)
           (localeCompare : string -> string -> Z)
           (documents : list object) (includeSystemFields : bool)
  : list (list string) :=
  headers localeCompare documents includeSystemFields
  :: map (fun doc =>
            map (fun header => cell_text stringify (get header doc))
                (headers localeCompare documents includeSystemFields))
         documents.

(** A comparison of strings by their characters, in the manner of
    [localeCompare]. *)
Definition by_characters (a b : string) : Z :=
  match String.compare a b with
  | Lt => (-1)%Z
  | Eq => 0%Z
  | Gt => 1%Z
  end.

(** Two documents of one collection, as listed by the service. *)
Definition note (id title : string) (body : value) : object :=
  [ ("$id", Str id); ("title", Str title); ("body", body);
    ("$createdAt", Str "2024-01-01") ].

Definition two_notes : list object :=
  [ note "n1" "Hello, world" (Str "plain");
    [ ("$id", Str "n2"); ("pages", Num "12") ] ].

End CsvSpec.
Import CsvSpec.

(** ** Vocabulary for the properties of the copy loop and of the tool *)

Module ToolSpec.

(** The creation calls of a copy of [documents]: one for each document,
    in order, carrying its sanitized fields, with the reply it got. *)
Definition creation_log (databaseId : string) (collectionId : option value)
           (documents : list object) (replies : list reply) : list event :=
  map (fun pair =>
         Called (CreateDocument databaseId collectionId
                                (cleanDocumentData (fst pair)))
                (snd pair))
      (combine documents replies).

Definition rejection (rp : reply) : bool :=
  match rp with
  | Failed _ => true
  | _ => false
  end.

(** What [copyDocuments] returns for these replies: the numbers of
    accepted and of rejected creations, and an entry
    [{ documentId, error }] for each rejected one. *)
Definition copy_tally (documents : list object) (replies : list reply)
  : tally :=
  mkTally
    (List.length (filter (fun rp => negb (rejection rp)) replies))
    (List.length (filter rejection replies))
    (flat_map (fun pair =>
                 match snd pair with
                 | Failed message => [(get "$id" (fst pair), Some message)]
                 | _ => []
                 end)
              (combine documents replies)).

(** Every run of [c] extends the log by some [d] and the journal by some
    [j] such that [Q] holds of the ending, [d] and [j]. *)
Definition tspec {World A : Type} (c : T World A)
           (Q : ending A -> list event -> list effect -> Prop) : Prop :=
  forall sh,
  exists d j,
    log (fst (snd (c sh))) = log (fst sh) ++ d /\
    journal (snd (snd (c sh))) = journal (snd sh) ++ j /\
    cacheFile (fst (snd (c sh))) = cache_after (cacheFile (fst sh)) d /\
    Q (fst (c sh)) d j.

(** A call that creates something, and an effect that deletes
    something. *)
Definition is_write (e : event) : bool :=
  match e with
  | Called rq _ => match written_database rq with
                   | Some _ => true
                   | None => false
                   end
  | _ => false
  end.

Definition is_deletion (e : effect) : bool :=
  match e with
  | Deleted _ _ _ => true
  | _ => false
  end.

(** A run that changed nothing in any database. *)
Definition harmless (d : list event) (j : list effect) : Prop :=
  forallb (fun e => negb (is_write e)) d = true /\
  forallb (fun e => negb (is_deletion e)) j = true.

(** The deletions of a run of [dropDestinationCollections] over
    [collections]: one for each collection, in order, by its [$id]. *)
Definition deletion_journal (databaseId : string)
           (collections : list object) (replies : list reply)
  : list effect :=
  map (fun pair => Deleted databaseId (get "$id" (fst pair)) (snd pair))
      (combine collections replies).

(** What [dropDestinationCollections] returns for these replies. *)
Definition drop_tally (collections : list object) (replies : list reply)
  : drop_result :=
  mkDrop
    (List.length (filter (fun rp => negb (rejection rp)) replies))
    (flat_map (fun pair =>
                 match snd pair with
                 | Failed message => [(get "name" (fst pair), message)]
                 | _ => []
                 end)
              (combine collections replies)).

(** How a call of the cloner ends when made from the tool. *)
Definition ending_of {A : Type} (out : outcome A) : ending A :=
  match out with
  | Returned a => Returns a
  | Thrown message => Throws "Error" message
  | OutOfFuel => Starves
  end.

(** The journal of three confirmations answered yes. *)
Definition thrice_confirmed (j : list effect) : Prop :=
  exists m1 m2 m3,
    j = [ Confirmed m1 (Some true); Confirmed m2 (Some true);
          Confirmed m3 (Some true) ].

(** The journal of confirmations that were broken off: some answered
    yes, and then one answered otherwise. *)
Definition broken_off (last : option bool) (j : list effect) : Prop :=
  exists yes m,
    j = map (fun message => Confirmed message (Some true)) yes
        ++ [ Confirmed m last ] /\
    (List.length yes < 3)%nat.

(** An effect of the CSV export on the export directory. *)
Definition is_export_effect (e : effect) : bool :=
  match e with
  | DirectoryMade | FileWritten _ _ => true
  | _ => false
  end.

Definition is_file_written (e : effect) : bool :=
  match e with
  | FileWritten _ _ => true
  | _ => false
  end.

(** The entry [e] of the results of an export answers for [collection]
    in a run with log [d] and journal [j]: it carries the collection's
    name and the number of documents of a traversal of the run; when
    there are none it names no file; otherwise the file it names, called
    after the collection and a reading of the clock cut to the second,
    was written in the export directory with the CSV text of these
    documents. *)
Definition exported {World : Type} (stringify : value -> string)
           (localeCompare : string -> string -> Z)
           (join : string -> string -> string) (now : World -> string)
           (dir : string) (includeSystemFields : bool)
           (d : list event) (j : list effect)
           (collection : object) (e : export_entry) : Prop :=
  entry_name e = get "name" collection /\
  exists documents,
    In (Fetched documents) d /\
    recordCount e = List.length documents /\
    match documents with
    | [] => filepath e = None /\ filename e = None
    | _ :: _ =>
        exists w,
          let name :=
            String.append (template (get "name" collection))
              (String.append "_"
                 (String.append (substring 0 19 (dashes (now w))) ".csv")) in
          filename e = Some name /\
          filepath e = Some (join dir name) /\
          In (FileWritten
                (join dir name)
                (documentsToCSV stringify localeCompare documents
                                includeSystemFields)) j
    end.

(** The end of a task of [main] that was not broken off at a prompt: it
    returned, it ran out of fuel, or it raised an exception that is not
    the one of a closed prompt. *)
Definition carried_out (out : ending unit) : Prop :=
  out = Returns tt \/ out = Starves
  \/ exists name message,
       out = Throws name message /\ name <> ExitPromptError.

(** What the [catch] block of [main] makes of the end of the [try]
    block. *)
Definition settle (out : ending unit) : ending unit :=
  match out with
  | Throws name _ =>
      if String.eqb name ExitPromptError then Exits 0 else Exits 1
  | _ => out
  end.

(** The options [main] derives from the mode. *)
Definition structure_of (mode : clone_mode) : bool :=
  String.eqb (mode_value mode) "full"
  || String.eqb (mode_value mode) "structure-only".

Definition data_of (mode : clone_mode) : bool :=
  String.eqb (mode_value mode) "full"
  || String.eqb (mode_value mode) "data-only".

Definition missing_of (mode : clone_mode) : bool :=
  String.eqb (mode_value mode) "missing-only".

Definition deletion_in (databaseId : string) (e : effect) : bool :=
  match e with
  | Deleted db _ _ => String.eqb db databaseId
  | _ => false
  end.

(** A call that creates a collection, an attribute or an index. *)
Definition is_schema_write (e : event) : bool :=
  is_write e && negb (is_document_creation e).

(** A prompt that was closed, or a confirmation answered no. *)
Definition refused (e : effect) : bool :=
  match e with
  | Selected None | Confirmed _ None | Confirmed _ (Some false) => true
  | _ => false
  end.

(** The ways the [try] block of [main] goes, for the databases [src] and
    [dst] of the configuration: how it ends, what it leaves in the log
    and what in the journal. *)
Inductive body_shape (src dst : string)
  : ending unit -> list event -> list effect -> Prop :=
| SourceMissing (ddb : option object) :
    body_shape src dst (Exits 1) [] [ Got src None; Got dst ddb ]
| SelectionClosed (sdb : object) (ddb : option object) :
    body_shape src dst (Throws ExitPromptError closed_prompt) []
               [ Got src (Some sdb); Got dst ddb; Selected None ]
| ExportClosed (sdb : object) (ddb : option object) (m : string) :
    body_shape src dst (Throws ExitPromptError closed_prompt) []
               [ Got src (Some sdb); Got dst ddb; Selected (Some ExportCsv);
                 Confirmed m None ]
| Exported (sdb : object) (ddb : option object) (m : string) (b : bool)
           (out : ending unit) (d : list event) (j : list effect) :
    forallb quiet d = true ->
    forallb is_export_effect j = true ->
    carried_out out ->
    body_shape src dst out d
               ([ Got src (Some sdb); Got dst ddb; Selected (Some ExportCsv);
                  Confirmed m (Some b) ] ++ j)
| DestinationMissing (sdb : object) (mode : clone_mode) :
    mode <> ExportCsv ->
    body_shape src dst (Exits 1) []
               [ Got src (Some sdb); Got dst None; Selected (Some mode) ]
| NotShown (sdb ddb : object) (mode : clone_mode) :
    mode <> ExportCsv ->
    shown (mkInfo true (get "name" sdb) (get "$id" sdb))
    && shown (mkInfo true (get "name" ddb) (get "$id" ddb)) = false ->
    body_shape src dst (Throws "TypeError" TypeError) []
               [ Got src (Some sdb); Got dst (Some ddb);
                 Selected (Some mode) ]
| Declined (sdb ddb : object) (mode : clone_mode) (j : list effect) :
    mode <> ExportCsv ->
    broken_off (Some false) j ->
    body_shape src dst (Exits 0) []
               ([ Got src (Some sdb); Got dst (Some ddb);
                  Selected (Some mode) ] ++ j)
| ConfirmationClosed (sdb ddb : object) (mode : clone_mode)
                     (j : list effect) :
    mode <> ExportCsv ->
    broken_off None j ->
    body_shape src dst (Throws ExitPromptError closed_prompt) []
               ([ Got src (Some sdb); Got dst (Some ddb);
                  Selected (Some mode) ] ++ j)
| Migrated (sdb ddb : object) (mode : clone_mode) (jc j1 : list effect)
           (d1 d2 : list event) (out : ending unit) :
    mode <> ExportCsv ->
    thrice_confirmed jc ->
    forallb quiet d1 = true ->
    forallb (deletion_in dst) j1 = true ->
    (structure_of mode && negb (missing_of mode) = false ->
     d1 = [] /\ j1 = []) ->
    forallb (permitted src dst (structure_of mode) (data_of mode)
                       (missing_of mode)) d2 = true ->
    carried_out out ->
    body_shape src dst out (d1 ++ d2)
               ([ Got src (Some sdb); Got dst (Some ddb);
                  Selected (Some mode) ] ++ jc ++ j1).

(** What [createClient] makes of the configuration. *)
Definition client_of
           (createClient : string -> string -> string
                           -> option (string * string))
           (env : string -> option string) : option (string * string) :=
  createClient (config_of (env "APPWRITE_ENDPOINT"))
               (config_of (env "APPWRITE_PROJECT_ID"))
               (config_of (env "APPWRITE_API_KEY")).

(** The ways [main] goes. *)
Definition main_shape
           (createClient : string -> string -> string
                           -> option (string * string))
           (env : string -> option string)
           (out : ending unit) (d : list event) (j : list effect) : Prop :=
  (existsb (fun key => unset (env key)) required = true /\
   out = Exits 1 /\ d = [] /\ j = [])
  \/ (existsb (fun key => unset (env key)) required = false /\
      exists name message,
        client_of createClient env = Some (name, message) /\
        out = Throws name message /\ d = [] /\ j = [])
  \/ (existsb (fun key => unset (env key)) required = false /\
      client_of createClient env = None /\
      exists out0,
        body_shape (config_of (env "SOURCE_DATABASE_ID"))
                   (config_of (env "DEST_DATABASE_ID")) out0 d j /\
        out = settle out0).

(** A user who answers every confirmation as told. *)
Definition answering (answer : option bool) : unit -> string
                                               -> unit * option bool :=
  fun w _ => (w, answer).

(** A user who picks the given mode. *)
Definition picking (mode : option clone_mode) : unit -> unit
                                                 * option clone_mode :=
  fun w => (w, mode).

(** A service on which every database is found and every deletion is
    answered as told. *)
Definition finding : unit -> string -> unit * option object :=
  fun w id => (w, Some [ ("$id", Str id); ("name", Str "Main") ]).

Definition deleting (accept : bool)
  : unit -> string -> option value -> unit * reply :=
  fun w _ _ => (w, if accept then Created else Failed "forbidden").

Definition plain_style : string -> string -> string := fun _ text => text.

Definition slash_join : string -> string -> string :=
  fun a b => String.append a (String.append "/" b).

(** A client in the manner of the SDK, which takes an endpoint that
    begins with [http://] or [https://] and raises on any other. *)
Definition sdk_client (endpoint projectId apiKey : string)
  : option (string * string) :=
  if String.prefix "http://" endpoint || String.prefix "https://" endpoint
  then None
  else Some ("AppwriteException",
             String.append "Invalid endpoint URL: " endpoint).

(** An environment in which the five variables are set. *)
Definition configured : string -> option string :=
  fun key =>
    if String.eqb key "SOURCE_DATABASE_ID" then Some "source"
    else if String.eqb key "DEST_DATABASE_ID" then Some "dest"
    else if String.eqb key "APPWRITE_ENDPOINT"
    then Some "https://cloud.appwrite.io/v1"
    else Some "x".

(** The same with an endpoint that is no address. *)
Definition misdirected : string -> option string :=
  fun key =>
    if String.eqb key "APPWRITE_ENDPOINT" then Some "cloud"
    else configured key.

Definition begin : state unit * host := (start, mkHost false []).

End ToolSpec.
Import ToolSpec.


(** ** Vocabulary for the claims on the schema replicator

    What the attributes and indexes of a source collection are, and what
    a run made of them, said without the functions of the replicator. *)

Module Replication.

(** The property that was read is the string [s]. *)
Definition reads (v : option value) (s : string) : bool :=
  match v with
  | Some (Str t) => String.eqb t s
  | _ => false
  end.

(** The child side of a two-way relationship: the type is
    [relationship] and the side is [child]. *)
Definition child_side (attribute : object) : bool :=
  reads (get "type" attribute) "relationship"
  && reads (get "side" attribute) "child".

(** The attribute types that can be created, each with the method of
    the service that creates it. *)
Definition creation_methods : list (string * string) :=
  [ ("string", "createStringAttribute");
    ("integer", "createIntegerAttribute");
    ("float", "createFloatAttribute");
    ("double", "createFloatAttribute");
    ("boolean", "createBooleanAttribute");
    ("datetime", "createDatetimeAttribute");
    ("email", "createEmailAttribute");
    ("ip", "createIpAttribute");
    ("url", "createUrlAttribute");
    ("enum", "createEnumAttribute");
    ("relationship", "createRelationshipAttribute") ].

Definition creation_method (attribute : object) : option string :=
  match get "type" attribute with
  | Some (Str t) =>
      option_map snd
        (find (fun entry => String.eqb t (fst entry)) creation_methods)
  | _ => None
  end.

Definition known_type (attribute : object) : bool :=
  match creation_method attribute with
  | Some _ => true
  | None => false
  end.

(** The attributes of a source list that are to be created: those that
    are not child-side and whose type can be created. *)
Definition submitted (attributes : list object) : list object :=
  filter (fun attribute => negb (child_side attribute)
                           && known_type attribute) attributes.

(** The attributes of a source list that are not child-side and whose
    type cannot be created. *)
Definition unsupported (attributes : list object) : list object :=
  filter (fun attribute => negb (child_side attribute)
                           && negb (known_type attribute)) attributes.

(** The attributes of a source list over which the loop passes without
    a call. *)
Definition passed_over (attribute : object) : bool :=
  child_side attribute || negb (known_type attribute).

(** [rq] is a creation call for [attribute] in the collection: the call
    of the method for its type, carrying its key. *)
Definition creates (databaseId : string) (collectionId : option value)
           (attribute : object) (rq : request) : Prop :=
  exists method args,
    rq = CreateAttribute method databaseId collectionId args /\
    creation_method attribute = Some method /\
    In (get "key" attribute) args.

(** [rq] is the creation call for [index] in the collection. *)
Definition creates_index (databaseId : string)
           (collectionId : option value) (index : object) (rq : request)
  : Prop :=
  exists orders,
    rq = CreateIndex databaseId collectionId
           [ get "key" index; get "type" index; get "attributes" index;
             orders ].

(** The item carries the key that is polled for: both are the same
    scalar, or both are [undefined]. *)
Definition same_key (key : option value) (item : object) : Prop :=
  get "key" item = key /\
  match key with
  | Some v => is_scalar v = true
  | None => True
  end.

(** A list shows the key available: the first item that carries the key
    has the status [available]. *)
Definition shows_available (key : option value) (items : list object)
  : Prop :=
  exists before item after,
    items = before ++ item :: after /\
    Forall (fun x => ~ same_key key x) before /\
    same_key key item /\
    get "status" item = Some (Str "available").

(** The re-fetches and sleeps of a poll for [key] with the attempt
    budget [budget] that ended in [out].  Every attempt but the last is a
    miss: a re-fetched list that does not show the key available,
    followed by a sleep of one second.  The poll returns [true] on a list
    that shows the key available, fetched within the budget; it returns
    [false] after exactly [budget] misses; otherwise it was cut short
    within a re-fetch. *)
Definition polled (key : option value) (budget : nat) (out : outcome bool)
           (evs : list event) : Prop :=
  exists misses,
    Forall (fun items => ~ shows_available key items) misses /\
    match out with
    | Returned true =>
        exists hit, shows_available key hit /\
                    (List.length misses < budget)%nat /\
                    evs = flat_map miss misses ++ [Fetched hit]
    | Returned false =>
        List.length misses = budget /\ evs = flat_map miss misses
    | _ =>
        (List.length misses < budget)%nat /\ evs = flat_map miss misses
    end.

(** The log of a creation loop over [items], round by round.  An item
    that is passed over leaves nothing.  Any other item leaves its
    creation call; when the call was rejected the loop goes on to the
    next item; when it was accepted a poll for the key of the item with
    the attempt budget [budget] follows, and the loop goes on to the next
    item whatever the poll answers.  The loop is cut short only within a
    poll.  [complete] tells whether the loop reached the end of the
    list. *)
Inductive rounds (budget : nat) (passes : object -> bool)
          (creation : object -> request -> Prop)
  : list object -> bool -> list event -> Prop :=
| rounds_end : rounds budget passes creation [] true []
| round_passed item rest complete d :
    passes item = true ->
    rounds budget passes creation rest complete d ->
    rounds budget passes creation (item :: rest) complete d
| round_rejected item rest rq m complete d :
    passes item = false ->
    creation item rq ->
    rounds budget passes creation rest complete d ->
    rounds budget passes creation (item :: rest) complete
           (Called rq (Failed m) :: d)
| round_polled item rest rq rp answer poll complete d :
    passes item = false ->
    creation item rq ->
    (forall m, rp <> Failed m) ->
    forallb polling poll = true ->
    polled (get "key" item) budget (Returned answer)
           (filter is_poll_event poll) ->
    rounds budget passes creation rest complete d ->
    rounds budget passes creation (item :: rest) complete
           (Called rq rp :: poll ++ d)
| round_cut item rest rq rp out poll :
    passes item = false ->
    creation item rq ->
    (forall m, rp <> Failed m) ->
    forallb polling poll = true ->
    (forall answer, out <> Returned answer) ->
    polled (get "key" item) budget out (filter is_poll_event poll) ->
    rounds budget passes creation (item :: rest) false
           (Called rq rp :: poll).

(** The entry [{ key, error }] records a creation failure of the source
    list: an attribute of the list with that key is not child-side and
    has a type that cannot be created, the message naming the type, or a
    creation call for it was rejected during [d] with that message. *)
Definition recorded_failure (databaseId : string)
           (collectionId : option value) (attributes : list object)
           (d : list event) (entry : option value * option string) : Prop :=
  exists attribute,
    In attribute attributes /\
    fst entry = get "key" attribute /\
    ((child_side attribute = false /\
      known_type attribute = false /\
      snd entry = Some (String.append "Unknown type: "
                                      (template (get "type" attribute))))
     \/
     (exists rq m,
         creates databaseId collectionId attribute rq /\
         In (Called rq (Failed m)) d /\
         snd entry = Some m)).

(** No call of the run was rejected except creations of attributes and
    of indexes, and every listing call was answered with a list. *)
Definition only_creations_fail (e : event) : bool :=
  match e with
  | Called (CreateAttribute _ _ _ _) (Failed _) => true
  | _ => only_index_creation_fails e
  end.

(** A run that returns was answered at every call that is not a
    creation of an attribute or of an index, and a run that raises was
    not. *)
Definition answered_post {A : Type} (out : outcome A) (d : list event)
  : Prop :=
  (forall a, out = Returned a -> forallb only_creations_fail d = true) /\
  (forall m, out = Thrown m -> forallb only_creations_fail d = false).

(** The lists the traversals of a run returned, in order.  The first of
    a run of [cloneCollectionStructure] is the attribute list of the
    source collection. *)
Definition fetched_lists (d : list event) : list (list object) :=
  flat_map (fun e => match e with
                     | Fetched items => [items]
                     | _ => []
                     end) d.

(** The parent side of a two-way relationship. *)
Definition keeper_attribute : object :=
  [ ("key", Str "keeper"); ("type", Str "relationship");
    ("side", Str "parent"); ("relatedCollection", Str "users");
    ("relationType", Str "oneToMany"); ("twoWay", Boolean true);
    ("twoWayKey", Str "parcels"); ("status", Str "available") ].

(** An attribute of a type that has no creation call. *)
Definition location_attribute : object :=
  [ ("key", Str "location"); ("type", Str "point");
    ("status", Str "available") ].

Definition by_weight : object :=
  [ ("key", Str "by_weight"); ("type", Str "key");
    ("attributes", Arr [ Str "weight" ]); ("status", Str "available") ].

(** A service whose source collection has no attribute and two indexes.
    It rejects the creation of the index [by_title], accepts any other
    creation, and cannot list the indexes of the destination. *)
Definition unlistable_service : Databases unit :=
  fun w rq =>
    match rq with
    | ListCollections _ _ _ => (w, Listed [ parcels ])
    | ListAttributes _ _ _ _ => (w, Listed [])
    | ListIndexes databaseId _ _ _ =>
        if String.eqb databaseId "source"
        then (w, Listed [ by_title; by_weight ])
        else (w, Failed "service_unavailable")
    | ListDocuments _ _ _ _ => (w, Listed [])
    | CreateIndex _ _ args =>
        match hd None args with
        | Some (Str "by_title") => (w, Failed "index_invalid")
        | _ => (w, Created)
        end
    | _ => (w, Created)
    end.

(** A service like [schema_service] whose source collection has the
    four attributes [title], [owner], [keeper] and [weight]. *)
Definition relations_service : Databases unit :=
  fun w rq =>
    match rq with
    | ListAttributes _ _ _ _ =>
        (w, Listed [ title_attribute "available"; owner_attribute;
                     keeper_attribute; weight_attribute ])
    | _ => schema_service true true "available" w rq
    end.

End Replication.
Import Replication.

(** * Properties of the sanitizer *)

Section SanitizerFacts.

Lemma get_flat_map_keep (f : value -> value) (sys : list string)
      (key : string) (o : object) :
  get key (flat_map (fun kv => let '(k, x) := kv in
                               if includes sys k then [] else [(k, f x)]) o)
  = if includes sys key then None else option_map f (get key o).
Proof.
  induction o as [| [k x] rest IH]; simpl.
  - now destruct (includes sys key).
  - destruct (includes sys k) eqn:Hk; simpl.
    + rewrite IH. destruct (String.eqb_spec key k) as [-> | Hne].
      * now rewrite Hk.
      * reflexivity.
    + destruct (String.eqb_spec key k) as [-> | Hne].
      * now rewrite Hk.
      * exact IH.
Qed.

Lemma has_key_flat_map_keep (f : value -> value) (sys : list string)
      (key : string) (o : object) :
  has_key key (flat_map (fun kv => let '(k, x) := kv in
                                   if includes sys k then [] else [(k, f x)]) o)
  = negb (includes sys key) && has_key key o.
Proof.
  unfold has_key.
  induction o as [| [k x] rest IH]; simpl.
  - now rewrite andb_false_r.
  - destruct (includes sys k) eqn:Hk; simpl; rewrite IH.
    + destruct (String.eqb_spec key k) as [-> | Hne]; simpl; [| reflexivity].
      now rewrite Hk.
    + destruct (String.eqb_spec key k) as [-> | Hne]; simpl; [| reflexivity].
      now rewrite Hk.
Qed.

Lemma get_cleanDocumentData (key : string) (d : object) :
  get key (cleanDocumentData d)
  = if includes systemFields key then None
    else option_map cleanFieldValue (get key d).
Proof. apply get_flat_map_keep. Qed.

Lemma cleanNestedValue_Obj (sys : list string) (o : object) :
  cleanNestedValue sys (Obj o) = Obj (cleanNestedObject o sys).
Proof. reflexivity. Qed.

Lemma cleanNestedObject_not_related (o : object) :
  isRelatedDocument (Obj (cleanNestedObject o systemFields)) = false.
Proof.
  unfold isRelatedDocument, cleanNestedObject.
  now rewrite has_key_flat_map_keep.
Qed.

Lemma stripped_cleanNestedValue (v : value) :
  stripped (cleanNestedValue systemFields v) = true.
Proof.
  induction v as [| | | | items IH | entries IH] using value_nested_ind;
    try reflexivity.
  - simpl. induction IH as [| x r Hx _ IHr]; simpl; [reflexivity |].
    rewrite IHr, andb_true_r.
    destruct x; try reflexivity. exact Hx.
  - simpl. induction IH as [| [k x] r Hx _ IHr]; simpl; [reflexivity |].
    destruct (includes systemFields k) eqn:Hk; simpl; [exact IHr |].
    simpl in Hx. now rewrite Hk, Hx, IHr.
Qed.

Lemma cleanNestedValue_idempotent (v : value) :
  cleanNestedValue systemFields (cleanNestedValue systemFields v)
  = cleanNestedValue systemFields v.
Proof.
  induction v as [| | | | items IH | entries IH] using value_nested_ind;
    try reflexivity.
  - simpl. f_equal. rewrite map_map.
    induction IH as [| x r Hx _ IHr]; simpl; [reflexivity |].
    rewrite IHr. f_equal.
    destruct x; try reflexivity. simpl in Hx |- *. exact Hx.
  - simpl. f_equal.
    induction IH as [| [k x] r Hx _ IHr]; simpl; [reflexivity |].
    destruct (includes systemFields k) eqn:Hk; simpl; [exact IHr |].
    simpl in Hx. now rewrite Hk, Hx, IHr.
Qed.

Lemma cleanNestedObject_idempotent (o : object) :
  cleanNestedObject (cleanNestedObject o systemFields) systemFields
  = cleanNestedObject o systemFields.
Proof.
  pose proof (cleanNestedValue_idempotent (Obj o)) as H.
  rewrite !cleanNestedValue_Obj in H. now injection H.
Qed.

Lemma cleanArrayItem_idempotent (item : value) :
  scalar_identifier item = true ->
  cleanArrayItem (cleanArrayItem item) = cleanArrayItem item.
Proof.
  unfold scalar_identifier, cleanArrayItem. intros Hs.
  destruct (isRelatedDocument item) eqn:Hrel; cbn [negb orb] in Hs.
  - destruct (dollar_id item); try discriminate; reflexivity.
  - destruct item; try reflexivity.
    rewrite cleanNestedObject_not_related.
    now rewrite cleanNestedObject_idempotent.
Qed.

Lemma cleanFieldValue_idempotent (v : value) :
  match v with
  | Arr l => forallb scalar_identifier l
  | _ => scalar_identifier v
  end = true ->
  cleanFieldValue (cleanFieldValue v) = cleanFieldValue v.
Proof.
  destruct v as [| | | | l | o]; try reflexivity; intros Hs.
  - simpl. f_equal. rewrite map_map.
    induction l as [| x r IH]; simpl in *; [reflexivity |].
    apply andb_prop in Hs as [Hx Hr].
    now rewrite cleanArrayItem_idempotent, IH.
  - change (cleanFieldValue (Obj o))
      with (if isRelatedDocument (Obj o) then dollar_id (Obj o)
            else Obj (cleanNestedObject o systemFields)).
    unfold scalar_identifier in Hs.
    destruct (isRelatedDocument (Obj o)) eqn:Hrel; cbn [negb orb] in Hs.
    + destruct (dollar_id (Obj o)); try discriminate; reflexivity.
    + unfold cleanFieldValue.
      rewrite cleanNestedObject_not_related.
      now rewrite cleanNestedObject_idempotent.
Qed.

End SanitizerFacts.

Lemma cleanNestedObject_removes (o : object) :
  reserved_keys_removed o (cleanNestedObject o systemFields).
Proof.
  assert (H : forall v,
             match v with
             | Obj x => reserved_keys_removed
                          x (cleanNestedObject x systemFields)
             | Arr l =>
                 exists l', cleanNestedValue systemFields v = Arr l'
                            /\ Forall2 removed_in_element l l'
             | _ => True
             end).
  { induction v as [| | | | items IH | entries IH] using value_nested_ind;
      try exact I.
    - eexists. split; [reflexivity |].
      induction IH as [| item r Hitem _ IHr]; cbn [map]; constructor;
        [| exact IHr].
      destruct item as [| b | n | t | l' | y];
        try (now apply element_scalar); [apply element_array |].
      apply element_object. exact Hitem.
    - unfold cleanNestedObject.
      induction IH as [| [k x] r Hx _ IHr]; cbn [flat_map];
        [constructor |].
      destruct (includes systemFields k) eqn:Hk; cbn [app].
      + now apply removed_reserved.
      + destruct x as [| b | n | t | l | x]; cbn [snd] in Hx.
        * now apply removed_nowhere.
        * now apply removed_nowhere.
        * now apply removed_nowhere.
        * now apply removed_nowhere.
        * destruct Hx as (l' & -> & Hl).
          now apply removed_in_array.
        * now apply removed_in_object. }
  exact (H (Obj o)).
Qed.

(** C1, as amended.  For every document [d], the field map
    [cleanDocumentData d] has none of the seven reserved keys at its top
    level; a relationship-shaped value that is the value of a user field,
    or an element of an array held by a user field, is replaced by the
    value of its [$id]; and any other object at one of these two positions
    comes out with the reserved keys removed from it and, recursively,
    from the objects held in its fields and from the object elements of
    its array fields, so that no object reached from it in this way
    keeps a reserved key.  A relationship-shaped value held by a field
    of such an object is not replaced by its identifier: it comes out as
    an object, with its reserved keys removed like those of any other
    nested object. *)
Theorem cleanDocumentData_sanitizes (d : object) :
  (forall key, has_key key (cleanDocumentData d) = true ->
               includes systemFields key = false) /\
  (forall key v,
      includes systemFields key = false -> get key d = Some v ->
      isRelatedDocument v = true ->
      get key (cleanDocumentData d) = Some (dollar_id v)) /\
  (forall key l i item,
      includes systemFields key = false -> get key d = Some (Arr l) ->
      nth_error l i = Some item -> isRelatedDocument item = true ->
      exists l', get key (cleanDocumentData d) = Some (Arr l') /\
                 nth_error l' i = Some (dollar_id item)) /\
  (forall key o,
      includes systemFields key = false -> get key d = Some (Obj o) ->
      isRelatedDocument (Obj o) = false ->
      exists o', get key (cleanDocumentData d) = Some (Obj o') /\
                 reserved_keys_removed o o' /\
                 stripped (Obj o') = true) /\
  (forall key l i o,
      includes systemFields key = false -> get key d = Some (Arr l) ->
      nth_error l i = Some (Obj o) -> isRelatedDocument (Obj o) = false ->
      exists l' o', get key (cleanDocumentData d) = Some (Arr l') /\
                    nth_error l' i = Some (Obj o') /\
                    reserved_keys_removed o o' /\
                    stripped (Obj o') = true) /\
  (forall key o inner x,
      includes systemFields key = false -> get key d = Some (Obj o) ->
      isRelatedDocument (Obj o) = false ->
      includes systemFields inner = false ->
      get inner o = Some (Obj x) ->
      isRelatedDocument (Obj x) = true ->
      exists o' x', get key (cleanDocumentData d) = Some (Obj o') /\
                    get inner o' = Some (Obj x') /\
                    reserved_keys_removed x x').
Proof.
  split; [| split; [| split; [| split; [| split]]]].
  - intros key H. unfold cleanDocumentData in H.
    rewrite has_key_flat_map_keep in H.
    apply andb_prop in H as [H _]. now apply negb_true_iff in H.
  - intros key v Hk Hg Hrel.
    rewrite get_cleanDocumentData, Hk, Hg. simpl. f_equal.
    destruct v; try discriminate. unfold cleanFieldValue. now rewrite Hrel.
  - intros key l i item Hk Hg Hn Hrel.
    exists (map cleanArrayItem l). split.
    + now rewrite get_cleanDocumentData, Hk, Hg.
    + rewrite nth_error_map, Hn. simpl. f_equal.
      unfold cleanArrayItem. now rewrite Hrel.
  - intros key o Hk Hg Hrel.
    exists (cleanNestedObject o systemFields). split; [| split].
    + rewrite get_cleanDocumentData, Hk, Hg.
      unfold option_map, cleanFieldValue. now rewrite Hrel.
    + apply cleanNestedObject_removes.
    + rewrite <- cleanNestedValue_Obj. apply stripped_cleanNestedValue.
  - intros key l i o Hk Hg Hn Hrel.
    exists (map cleanArrayItem l), (cleanNestedObject o systemFields).
    split; [| split; [| split]].
    + now rewrite get_cleanDocumentData, Hk, Hg.
    + rewrite nth_error_map, Hn. simpl. f_equal.
      unfold cleanArrayItem. now rewrite Hrel.
    + apply cleanNestedObject_removes.
    + rewrite <- cleanNestedValue_Obj. apply stripped_cleanNestedValue.
  - intros key o inner x Hk Hg Hrel Hinner Hx _.
    exists (cleanNestedObject o systemFields),
      (cleanNestedObject x systemFields).
    split; [| split].
    + rewrite get_cleanDocumentData, Hk, Hg.
      unfold option_map, cleanFieldValue. now rewrite Hrel.
    + unfold cleanNestedObject at 1.
      now rewrite get_flat_map_keep, Hinner, Hx.
    + apply cleanNestedObject_removes.
Qed.

(** The amended C1 at [order_doc]: field [customer] collapses to ["u1"],
    element 0 of [lines] collapses to ["l1"], and field [meta] comes out
    with its reserved key removed. *)
Lemma cleanDocumentData_sanitizes_witness :
  get "customer" (cleanDocumentData order_doc) = Some (Str "u1") /\
  (exists l', get "lines" (cleanDocumentData order_doc) = Some (Arr l') /\
              nth_error l' 0 = Some (Str "l1")) /\
  (exists o', get "meta" (cleanDocumentData order_doc) = Some (Obj o') /\
              reserved_keys_removed
                [ ("$createdAt", Str "t"); ("tags", Arr [ Str "x" ]) ] o' /\
              stripped (Obj o') = true) /\
  includes systemFields "total" = false.
Proof.
  destruct (cleanDocumentData_sanitizes order_doc)
    as (Htop & Hrel & Hitem & Hobj & _).
  split; [| split; [| split]].
  - exact (Hrel "customer" _ eq_refl eq_refl eq_refl).
  - exact (Hitem "lines" _ 0%nat _ eq_refl eq_refl eq_refl eq_refl).
  - exact (Hobj "meta" _ eq_refl eq_refl eq_refl).
  - apply Htop. reflexivity.
Defined.

(** C1 as worded fails at [nested_expansion_doc]: the relationship
    expansion under [owner.profile] is stripped to [{name: "Ann"}] instead
    of being collapsed to ["u1"], and the object inside the array of
    arrays under [grid] keeps its [$id] key. *)
Lemma cleanDocumentData_deep_counterexample :
  cleanDocumentData nested_expansion_doc
  = [ ("title", Str "parcel");
      ("owner", Obj [ ("profile", Obj [ ("name", Str "Ann") ]) ]);
      ("grid", Arr [ Arr [ Obj [ ("$id", Str "c1"); ("x", Num "1") ] ] ]) ]
  /\ ~ no_reserved_key_at_any_depth nested_expansion_doc
  /\ ~ collapses_wherever_it_occurs nested_expansion_doc.
Proof.
  split; [reflexivity | split].
  - unfold no_reserved_key_at_any_depth. vm_compute. discriminate.
  - intros H.
    destruct (H "owner" _ [Field "profile"] _
                eq_refl eq_refl eq_refl eq_refl eq_refl)
      as (out0 & Hget & Hat).
    vm_compute in Hget. injection Hget as <-.
    vm_compute in Hat. discriminate.
Qed.




(** * Properties of the paginator *)

Section PaginatorFacts.
Context {World : Type}.
Variable databases : Databases World.

Lemma after_found (keyName : string) (s : string)
      (pre : list object) (x : object) (post : list object) :
  well_keyed keyName (pre ++ x :: post) ->
  get keyName x = Some (Str s) ->
  after keyName (Str s) (pre ++ x :: post) = post.
Proof.
  intros [Hkeys Hnodup] Hx.
  induction pre as [| y pre IH]; simpl in *.
  - rewrite Hx. simpl. now rewrite String.eqb_refl.
  - inversion Hkeys as [| ? ? (t & Ht & _) Hkeys']; subst.
    inversion Hnodup as [| ? ? Hnotin Hnodup']; subst.
    rewrite Ht. simpl.
    destruct (String.eqb_spec t s) as [-> | Hne].
    + exfalso. apply Hnotin. rewrite Ht, <- Hx.
      apply in_map, in_elt.
    + now apply IH.
Qed.

Lemma await_listing (list_call : Z -> option value -> request)
      (keyName : string) (items : list object)
      (limit : Z) (cursor : option value) (s : state World) :
  stable_listing databases list_call keyName items ->
  exists w,
    await databases (list_call limit cursor) s
    = (Returned (Listed (page keyName items limit cursor)),
       mkState w (cacheFile s)
               (log s ++ [Called (list_call limit cursor)
                                 (Listed (page keyName items limit cursor))])).
Proof.
  intros Hstable. unfold await.
  specialize (Hstable (remote s) limit cursor).
  destruct (databases (remote s) (list_call limit cursor)) as [w rp].
  simpl in Hstable. subst rp. now exists w.
Qed.

(** The loop, started on a cursor that stands just before [rest], brings
    back [rest] in [length rest / P + 1] requests. *)
Lemma fetchAllPages_stable (list_call : Z -> option value -> request)
      (keyName : string) (items : list object) (limit : Z) :
  stable_listing databases list_call keyName items ->
  well_keyed keyName items ->
  (0 < limit)%Z ->
  forall fuel rest collected lastId s,
    page keyName items limit (if truthy lastId then lastId else None)
    = firstn (Z.to_nat limit) rest ->
    (exists pre, items = pre ++ rest) ->
    (List.length rest / Z.to_nat limit < fuel)%nat ->
    exists s' calls,
      fetchAllPages databases fuel list_call limit keyName collected lastId s
      = (Returned (collected ++ rest), s') /\
      log s' = log s ++ calls /\
      Forall (fun e => exists rq l, e = Called rq (Listed l)
                                    /\ exists lim c, rq = list_call lim c)
             calls /\
      List.length calls = (List.length rest / Z.to_nat limit + 1)%nat /\
      cacheFile s' = cacheFile s.
Proof.
  intros Hstable Hkeyed Hlimit.
  set (P := Z.to_nat limit).
  assert (HP : (0 < P)%nat) by (subst P; lia).
  induction fuel as [| fuel IH]; intros rest collected lastId s Hpage Hpre Hfuel;
    [lia |].
  cbn [fetchAllPages]. unfold bind.
  destruct (await_listing list_call keyName items limit
              (if truthy lastId then lastId else None) s Hstable)
    as [w Hawait].
  rewrite Hawait, Hpage. fold P.
  set (s1 := mkState w (cacheFile s) _).
  destruct (Z.ltb_spec (Z.of_nat (List.length (firstn P rest))) limit)
    as [Hshort | Hfull].
  - (* last page *)
    rewrite length_firstn in Hshort.
    assert (Hlen : (List.length rest < P)%nat) by (subst P; lia).
    rewrite firstn_all2 by lia.
    exists s1, [Called (list_call limit (if truthy lastId then lastId else None))
                       (Listed (firstn P rest))].
    repeat split.
    + constructor; [| constructor].
      eexists _, _. split; [reflexivity |]. now eexists _, _.
    + rewrite Nat.div_small by exact Hlen. reflexivity.
  - (* full page *)
    rewrite length_firstn in Hfull.
    assert (Hlen : (P <= List.length rest)%nat) by (subst P; lia).
    rewrite length_firstn, Nat.min_l by exact Hlen.
    assert (Hsplit : rest = firstn P rest ++ skipn P rest)
      by (symmetry; apply firstn_skipn).
    destruct (nth_error (firstn P rest) (P - 1)) as [item |] eqn:Hlast.
    2:{ apply nth_error_None in Hlast. rewrite length_firstn in Hlast. lia. }
    assert (Hfront : firstn P rest = firstn (P - 1) rest ++ [item]).
    { rewrite nth_error_firstn in Hlast.
      destruct (Nat.ltb_spec (P - 1) P) as [_ | ?]; [| lia].
      replace P with (S (P - 1)) at 1 by lia.
      destruct (nth_error_split _ _ Hlast) as (l1 & l2 & Hrest & Hl1).
      rewrite Hrest at 1 2. rewrite <- Hl1.
      rewrite firstn_app, (firstn_all2 (n := S (List.length l1))) by lia.
      replace (S (List.length l1) - List.length l1)%nat with 1%nat by lia.
      rewrite firstn_app, Nat.sub_diag, firstn_all. simpl.
      now rewrite app_nil_r. }
    destruct Hpre as [pre Hitems].
    assert (Hitems' : items
                      = (pre ++ firstn (P - 1) rest) ++ item :: skipn P rest).
    { rewrite Hitems, Hsplit at 1. rewrite Hfront.
      now rewrite <- !app_assoc. }
    assert (Hkey : exists t, get keyName item = Some (Str t)
                             /\ t <> EmptyString).
    { destruct Hkeyed as [Hall _]. rewrite Hitems' in Hall.
      apply Forall_app in Hall as [_ Hall].
      now inversion Hall. }
    destruct Hkey as (t & Hget & Hnonempty).
    assert (Htruthy : truthy (get keyName item) = true).
    { rewrite Hget. simpl. apply negb_true_iff.
      now apply String.eqb_neq. }
    destruct (IH (skipn P rest) (collected ++ firstn P rest)
                 (get keyName item) s1)
      as (s' & calls & Hrun & Hlog & Hcalls & Hcount & Hcache).
    + rewrite Htruthy. unfold page. rewrite Hget. fold P.
      f_equal. rewrite Hitems'. apply after_found; [| exact Hget].
      now rewrite <- Hitems'.
    + exists (pre ++ firstn P rest).
      rewrite Hitems, Hsplit at 1. now rewrite app_assoc.
    + rewrite length_skipn.
      assert (Hdiv : (List.length rest / P
                      = 1 + (List.length rest - P) / P)%nat).
      { replace (List.length rest) with
          ((List.length rest - P) + 1 * P)%nat at 1 by lia.
        rewrite Nat.div_add by lia. lia. }
      lia.
    + exists s', (Called (list_call limit
                            (if truthy lastId then lastId else None))
                         (Listed (firstn P rest)) :: calls).
      repeat split.
      * rewrite Hrun. f_equal. f_equal.
        rewrite <- app_assoc. now rewrite <- Hsplit.
      * rewrite Hlog. subst s1. simpl. now rewrite <- app_assoc.
      * constructor; [| exact Hcalls].
        eexists _, _. split; [reflexivity |]. now eexists _, _.
      * simpl. rewrite Hcount, length_skipn.
        replace (List.length rest) with
          ((List.length rest - P) + 1 * P)%nat at 2 by lia.
        rewrite Nat.div_add by lia. lia.
      * exact Hcache.
Qed.

Lemma fetchAll_stable (list_call : Z -> option value -> request)
      (keyName : string) (items : list object) (limit : Z) :
  stable_listing databases list_call keyName items ->
  well_keyed keyName items ->
  (0 < limit)%Z ->
  (forall lim c l, is_listing_call (Called (list_call lim c) (Listed l))) ->
  traverses (fun fuel => fetchAll databases fuel list_call limit keyName)
            items (List.length items / Z.to_nat limit + 1).
Proof.
  intros Hstable Hkeyed Hlimit Hkind fuel s Hfuel.
  destruct (fetchAllPages_stable list_call keyName items limit
              Hstable Hkeyed Hlimit fuel items [] None s)
    as (s1 & calls & Hrun & Hlog & Hcalls & Hcount & Hcache).
  - reflexivity.
  - now exists [].
  - lia.
  - unfold fetchAll, bind. rewrite Hrun. simpl.
    eexists _, calls. repeat split; simpl.
    + now rewrite Hlog, <- app_assoc.
    + eapply Forall_impl; [| exact Hcalls].
      intros e (rq & l & -> & lim & c & ->). apply Hkind.
    + exact Hcount.
    + exact Hcache.
Qed.

End PaginatorFacts.

Lemma fixed_listing_stable (keyName : string) (items : list object) :
  (forall db, stable_listing (fixed_listing keyName items)
                             (ListCollections db) keyName items) /\
  (forall db coll, stable_listing (fixed_listing keyName items)
                                  (ListAttributes db coll) keyName items) /\
  (forall db coll, stable_listing (fixed_listing keyName items)
                                  (ListIndexes db coll) keyName items) /\
  (forall db coll, stable_listing (fixed_listing keyName items)
                                  (ListDocuments db coll) keyName items).
Proof. repeat split. Qed.

Lemma three_docs_well_keyed : well_keyed "$id" three_docs.
Proof.
  split.
  - repeat constructor; eexists; (split; [reflexivity | discriminate]).
  - repeat constructor; simpl; intuition discriminate.
Qed.

(** C2, as amended.  Let a service serve stable forward-ordered pages of a
    listing of N items whose keys are distinct non-empty strings, and let
    the page size P be positive (P is [config.batchSize] for documents and
    100 for collections, attributes and indexes).  Then each of the four
    paginators, run with fuel for [N / P + 1] iterations, returns exactly
    the N items, each once, in the original order, and performs exactly
    [N / P + 1] listing requests ([/] rounding down): one more than
    [ceil(N/P)] whenever P divides N, the empty listing included. *)
Theorem paginator_returns_listing {World : Type}
        (databases : Databases World) (items : list object) :
  (forall batchSize db coll,
      stable_listing databases (ListDocuments db coll) "$id" items ->
      well_keyed "$id" items -> (0 < batchSize)%Z ->
      traverses (fun fuel => fetchAllDocuments databases batchSize fuel db coll)
                items (List.length items / Z.to_nat batchSize + 1)) /\
  (forall db,
      stable_listing databases (ListCollections db) "$id" items ->
      well_keyed "$id" items ->
      traverses (fun fuel => fetchAllCollections databases fuel db)
                items (List.length items / 100 + 1)) /\
  (forall db coll,
      stable_listing databases (ListAttributes db coll) "key" items ->
      well_keyed "key" items ->
      traverses (fun fuel => fetchAllAttributes databases fuel db coll)
                items (List.length items / 100 + 1)) /\
  (forall db coll,
      stable_listing databases (ListIndexes db coll) "key" items ->
      well_keyed "key" items ->
      traverses (fun fuel => fetchAllIndexes databases fuel db coll)
                items (List.length items / 100 + 1)).
Proof.
  repeat split.
  - intros batchSize db coll Hstable Hkeyed Hpos.
    now apply fetchAll_stable.
  - intros db Hstable Hkeyed.
    now apply (fetchAll_stable databases _ "$id" items 100).
  - intros db coll Hstable Hkeyed.
    now apply (fetchAll_stable databases _ "key" items 100).
  - intros db coll Hstable Hkeyed.
    now apply (fetchAll_stable databases _ "key" items 100).
Qed.

(** Three documents in pages of two: two requests, the three documents. *)
Lemma paginator_returns_listing_witness :
  exists s' calls,
    fetchAllDocuments (fixed_listing "$id" three_docs) 2 2
                      "dest" (Some (Str "parcels")) start
    = (Returned three_docs, s') /\
    log s' = log start ++ calls ++ [Fetched three_docs] /\
    Forall is_listing_call calls /\
    List.length calls = 2%nat /\
    cacheFile s' = cacheFile start.
Proof.
  destruct (paginator_returns_listing (fixed_listing "$id" three_docs)
                                      three_docs) as [Hdocs _].
  apply (Hdocs 2%Z "dest" (Some (Str "parcels"))
               (proj2 (proj2 (proj2 (fixed_listing_stable "$id" three_docs)))
                      "dest" (Some (Str "parcels")))
               three_docs_well_keyed eq_refl 2%nat start).
  vm_compute. lia.
Defined.

(** C2 as worded fails when the page size divides the number of items:
    two documents served in stable pages of two are fetched with two
    requests (the second page comes back empty), not [ceil(2/2) = 1]. *)
Lemma paginator_request_count_counterexample :
  let run := fetchAllDocuments (fixed_listing "$id" two_docs) 2 5
                               "dest" (Some (Str "parcels")) start in
  stable_listing (fixed_listing "$id" two_docs)
                 (ListDocuments "dest" (Some (Str "parcels"))) "$id" two_docs
  /\ fst run = Returned two_docs
  /\ log (snd run)
     = [ Called (ListDocuments "dest" (Some (Str "parcels")) 2 None)
                (Listed two_docs);
         Called (ListDocuments "dest" (Some (Str "parcels")) 2
                               (Some (Str "d2")))
                (Listed []);
         Fetched two_docs ]
  /\ requests (log (snd run)) = 2%nat
  /\ ceil_div (List.length two_docs) 2 = 1%nat.
Proof.
  cbv zeta. split; [| repeat split].
  intros w limit cursor. reflexivity.
Qed.

(** * Runs and their logs *)

Section RunFacts.
Context {World : Type}.
Variable databases : Databases World.

Lemma cache_after_app (c : option value) (d1 d2 : list event) :
  cache_after c (d1 ++ d2) = cache_after (cache_after c d1) d2.
Proof.
  revert c. induction d1 as [| e d1 IH]; intros c; [reflexivity |].
  destruct e; simpl; apply IH.
Qed.

Lemma cache_after_unchanged (c : option value) (d : list event) :
  forallb (fun e => negb (is_cache_event e)) d = true ->
  cache_after c d = c.
Proof.
  induction d as [| e d IH]; [reflexivity |]. simpl.
  intros H. apply andb_prop in H as [He Hd].
  destruct e; try discriminate; simpl; now apply IH.
Qed.

Lemma extends_refl (s : state World) : extends s s [].
Proof. split; simpl; [now rewrite app_nil_r | reflexivity]. Qed.

Lemma extends_trans (s s1 s2 : state World) (d1 d2 : list event) :
  extends s s1 d1 -> extends s1 s2 d2 -> extends s s2 (d1 ++ d2).
Proof.
  intros [Hl1 Hc1] [Hl2 Hc2]. split.
  - now rewrite Hl2, Hl1, app_assoc.
  - now rewrite Hc2, Hc1, cache_after_app.
Qed.

Lemma forallb_implies {A : Type} (p q : A -> bool) (l : list A) :
  (forall x, p x = true -> q x = true) ->
  forallb p l = true -> forallb q l = true.
Proof.
  intros Hpq. rewrite !forallb_forall. auto.
Qed.

Lemma filter_none {A : Type} (p q : A -> bool) (l : list A) :
  (forall x, p x = true -> q x = false) ->
  forallb p l = true -> filter q l = [].
Proof.
  intros Hpq. induction l as [| x l IH]; [reflexivity |]. simpl.
  intros H. apply andb_prop in H as [Hx Hl].
  now rewrite (Hpq x Hx), IH.
Qed.

Lemma flat_map_none {A B : Type} (p : A -> bool) (f : A -> list B)
      (l : list A) :
  (forall x, p x = true -> f x = []) ->
  forallb p l = true -> flat_map f l = [].
Proof.
  intros Hpf. induction l as [| x l IH]; [reflexivity |]. simpl.
  intros H. apply andb_prop in H as [Hx Hl].
  now rewrite (Hpf x Hx), IH.
Qed.

Lemma await_run (rq : request) (s : state World) :
  exists rp,
    extends s (snd (await databases rq s)) [Called rq rp] /\
    fst (await databases rq s)
    = match rp with
      | Failed m => Thrown m
      | _ => Returned rp
      end.
Proof.
  unfold await. destruct (databases (remote s) rq) as [w rp].
  exists rp. destruct rp; simpl; repeat split.
Qed.

Lemma listing_failure_counts (rq : request) (m : string) :
  is_listing rq = true ->
  only_index_creation_fails (Called rq (Failed m)) = false.
Proof. destruct rq; discriminate || reflexivity. Qed.

Lemma listing_unanswered_counts (rq : request) :
  is_listing rq = true ->
  only_index_creation_fails (Called rq Created) = false.
Proof. destruct rq; discriminate || reflexivity. Qed.

(** A traversal, whatever the service answers: its events are listing
    calls; it raises only when a listing call is rejected or is answered
    with something that is not a list. *)
Lemma fetchAllPages_run (list_call : Z -> option value -> request)
      (limit : Z) (keyName : string) :
  (forall lim c, is_listing (list_call lim c) = true) ->
  forall fuel collected lastId s,
    let run := fetchAllPages databases fuel list_call limit keyName
                             collected lastId s in
    exists d,
      extends s (snd run) d /\
      forallb listing_call d = true /\
      ((0 < limit)%Z ->
       forall m, fst run = Thrown m ->
                 forallb only_index_creation_fails d = false).
Proof.
  intros Hkind.
  induction fuel as [| fuel IH]; intros collected lastId s; cbv zeta.
  - exists []. split; [apply extends_refl |]. split; [reflexivity |].
    discriminate.
  - cbn [fetchAllPages]. unfold bind.
    set (rq := list_call limit (if truthy lastId then lastId else None)).
    destruct (await_run rq s) as (rp & Hext & Hout).
    destruct (await databases rq s) as [out s1]. simpl in Hext, Hout.
    assert (Hrq : is_listing rq = true) by apply Hkind.
    destruct rp as [m | items |]; subst out.
    + exists [Called rq (Failed m)]. split; [exact Hext |].
      cbn [forallb listing_call]. rewrite Hrq. split; [reflexivity |]. intros _ m' _.
      cbn [forallb]. now rewrite listing_failure_counts.
    + destruct (Z.ltb_spec (Z.of_nat (List.length items)) limit)
        as [Hshort | Hfull].
      * exists [Called rq (Listed items)]. split; [exact Hext |].
        cbn [forallb listing_call]. rewrite Hrq. split; [reflexivity |]. discriminate.
      * destruct (nth_error items (List.length items - 1)) as [item |] eqn:Hn.
        -- destruct (IH (collected ++ items) (get keyName item) s1)
             as (d & Hext' & Hlist & Hthrow).
           exists ([Called rq (Listed items)] ++ d).
           split; [eapply extends_trans; eassumption |].
           rewrite !forallb_app. cbn [forallb listing_call]. rewrite Hrq, Hlist.
           split; [reflexivity |]. intros Hpos m Hm.
           rewrite (Hthrow Hpos m Hm). apply andb_false_r.
        -- exists [Called rq (Listed items)]. split; [exact Hext |].
           cbn [forallb listing_call]. rewrite Hrq. split; [reflexivity |]. intros Hpos m _.
           apply nth_error_None in Hn. lia.
    + exists [Called rq Created]. split; [exact Hext |].
      cbn [forallb listing_call]. rewrite Hrq. split; [reflexivity |]. intros _ m _.
      cbn [forallb]. now rewrite listing_unanswered_counts.
Qed.

Lemma quiet_of_listing_call (e : event) :
  listing_call e = true -> quiet e = true.
Proof. destruct e; try discriminate. exact (fun H => H). Qed.

Lemma not_poll_of_listing_call (e : event) :
  listing_call e = true -> is_poll_event e = false.
Proof. destruct e; try discriminate. reflexivity. Qed.

Lemma fetchAll_run (list_call : Z -> option value -> request)
      (limit : Z) (keyName : string) (fuel : nat) :
  (forall lim c, is_listing (list_call lim c) = true) ->
  spec (fetchAll databases fuel list_call limit keyName) (fetch_post limit).
Proof.
  intros Hkind s. unfold fetchAll, bind.
  destruct (fetchAllPages_run list_call limit keyName Hkind fuel [] None s)
    as (d & Hext & Hlist & Hthrow).
  cbv zeta in Hext, Hthrow.
  destruct (fetchAllPages databases fuel list_call limit keyName [] None s)
    as [[items | m |] s1]; simpl in *.
  - exists (d ++ [Fetched items]). split.
    + eapply extends_trans; [exact Hext |].
      split; [reflexivity | reflexivity].
    + unfold fetch_post. rewrite forallb_app, filter_app. simpl.
      rewrite (forallb_implies _ _ _ quiet_of_listing_call Hlist).
      rewrite (filter_none _ _ _ not_poll_of_listing_call Hlist).
      repeat split. discriminate.
  - exists d. split; [exact Hext |]. unfold fetch_post.
    rewrite (forallb_implies _ _ _ quiet_of_listing_call Hlist).
    rewrite (filter_none _ _ _ not_poll_of_listing_call Hlist).
    repeat split. exact Hthrow.
  - exists d. split; [exact Hext |]. unfold fetch_post.
    rewrite (forallb_implies _ _ _ quiet_of_listing_call Hlist).
    rewrite (filter_none _ _ _ not_poll_of_listing_call Hlist).
    repeat split. discriminate.
Qed.

Lemma bind_run {A B : Type} (c : M World A) (k : A -> M World B)
      (s : state World) :
  bind c k s
  = match c s with
    | (Returned a, s') => k a s'
    | (Thrown m, s') => (Thrown m, s')
    | (OutOfFuel, s') => (OutOfFuel, s')
    end.
Proof. reflexivity. Qed.

(** The extension of the log by a run is determined by the run. *)
Lemma spec_conj {A : Type} (c : M World A)
      (Q1 Q2 : outcome A -> list event -> Prop) :
  spec c Q1 -> spec c Q2 -> spec c (fun out d => Q1 out d /\ Q2 out d).
Proof.
  intros H1 H2 s.
  destruct (H1 s) as (d1 & [Hlog1 Hcache1] & HQ1).
  destruct (H2 s) as (d2 & [Hlog2 Hcache2] & HQ2).
  assert (d1 = d2) by (rewrite Hlog1 in Hlog2; now apply app_inv_head in Hlog2).
  subst d2. exists d1. repeat split; assumption.
Qed.

Lemma fetches_app (d1 d2 : list event) :
  fetches (d1 ++ d2) = (fetches d1 + fetches d2)%nat.
Proof. unfold fetches. now rewrite filter_app, length_app. Qed.

Lemma fetches_poll_events (d : list event) :
  fetches (filter is_poll_event d) = fetches d.
Proof.
  unfold fetches. induction d as [| e d IH]; [reflexivity |].
  destruct e; simpl; now rewrite ?IH.
Qed.

Lemma fetches_misses (misses : list (list object)) :
  fetches (flat_map miss misses) = List.length misses.
Proof.
  induction misses as [| l misses IH]; [reflexivity |].
  simpl. unfold fetches in *. simpl. now rewrite IH.
Qed.

End RunFacts.

(** * Rules for reasoning about runs *)

Section Rules.
Context {World : Type}.

Lemma spec_implies {A : Type} (c : M World A)
      (Q1 Q2 : outcome A -> list event -> Prop) :
  spec c Q1 -> (forall out d, Q1 out d -> Q2 out d) -> spec c Q2.
Proof.
  intros H Himp s. destruct (H s) as (d & Hext & HQ).
  exists d. split; [exact Hext | now apply Himp].
Qed.

(** A fact read on the log of every run holds of the run. *)
Lemma spec_of_log {A : Type} (c : M World A)
      (Q0 Q : outcome A -> list event -> Prop) :
  spec c Q0 ->
  (forall s, exists d, log (snd (c s)) = log s ++ d /\ Q (fst (c s)) d) ->
  spec c Q.
Proof.
  intros H0 H s.
  destruct (H0 s) as (d0 & [Hlog0 Hcache0] & _).
  destruct (H s) as (d & Hlog & HQ).
  assert (d0 = d) by (rewrite Hlog0 in Hlog; now apply app_inv_head in Hlog).
  subst d0. exists d. repeat split; assumption.
Qed.

Lemma spec_log {A : Type} (c : M World A)
      (Q : outcome A -> list event -> Prop) (s : state World) :
  spec c Q ->
  exists d, log (snd (c s)) = log s ++ d /\ Q (fst (c s)) d.
Proof.
  intros H. destruct (H s) as (d & [Hlog _] & HQ). now exists d.
Qed.

Lemma spec_ret {A : Type} (a : A) (Q : outcome A -> list event -> Prop) :
  Q (Returned a) [] -> spec (@ret World A a) Q.
Proof. intros HQ s. exists []. split; [apply extends_refl | exact HQ]. Qed.

Lemma spec_throw {A : Type} (m : string)
      (Q : outcome A -> list event -> Prop) :
  Q (Thrown m) [] -> spec (@throw World A m) Q.
Proof. intros HQ s. exists []. split; [apply extends_refl | exact HQ]. Qed.

Lemma spec_bind {A B : Type} (c : M World A) (k : A -> M World B)
      (Q1 : outcome A -> list event -> Prop)
      (Q : outcome B -> list event -> Prop) :
  spec c Q1 ->
  (forall a d1, Q1 (Returned a) d1 ->
                spec (k a) (fun out d2 => Q out (d1 ++ d2))) ->
  (forall m d1, Q1 (Thrown m) d1 -> Q (Thrown m) d1) ->
  (forall d1, Q1 OutOfFuel d1 -> Q OutOfFuel d1) ->
  spec (bind c k) Q.
Proof.
  intros Hc Hk Ht Ho s. rewrite bind_run.
  destruct (Hc s) as (d1 & Hext1 & HQ1).
  destruct (c s) as [[a | m |] s1]; cbn [fst snd] in *.
  - destruct (Hk a d1 HQ1 s1) as (d2 & Hext2 & HQ).
    exists (d1 ++ d2). split; [eapply extends_trans; eassumption | exact HQ].
  - exists d1. split; [exact Hext1 | now apply Ht].
  - exists d1. split; [exact Hext1 | now apply Ho].
Qed.

Lemma spec_try_catch {A : Type} (c : M World A) (h : string -> M World A)
      (Q1 Q : outcome A -> list event -> Prop) :
  spec c Q1 ->
  (forall m d1, Q1 (Thrown m) d1 ->
                spec (h m) (fun out d2 => Q out (d1 ++ d2))) ->
  (forall a d1, Q1 (Returned a) d1 -> Q (Returned a) d1) ->
  (forall d1, Q1 OutOfFuel d1 -> Q OutOfFuel d1) ->
  spec (try_catch c h) Q.
Proof.
  intros Hc Hh Hr Ho s. unfold try_catch.
  destruct (Hc s) as (d1 & Hext1 & HQ1).
  destruct (c s) as [[a | m |] s1]; cbn [fst snd] in *.
  - exists d1. split; [exact Hext1 | now apply Hr].
  - destruct (Hh m d1 HQ1 s1) as (d2 & Hext2 & HQ).
    exists (d1 ++ d2). split; [eapply extends_trans; eassumption | exact HQ].
  - exists d1. split; [exact Hext1 | now apply Ho].
Qed.

Lemma spec_await (databases : Databases World) (rq : request)
      (Q : outcome reply -> list event -> Prop) :
  (forall rp, Q (match rp with
                 | Failed m => Thrown m
                 | _ => Returned rp
                 end) [Called rq rp]) ->
  spec (await databases rq) Q.
Proof.
  intros HQ s. destruct (await_run databases rq s) as (rp & Hext & Hout).
  exists [Called rq rp]. split; [exact Hext |]. rewrite Hout. apply HQ.
Qed.

Lemma spec_emit (e : event) (Q : outcome unit -> list event -> Prop) :
  negb (is_cache_event e) = true ->
  Q (Returned tt) [e] -> spec (@emit World e) Q.
Proof.
  intros He HQ s. exists [e]. split; [| exact HQ].
  split; [reflexivity |]. cbn. destruct e; try reflexivity; discriminate.
Qed.

(** Invariants of the log. *)
Lemma always_bind {A B : Type} (p : event -> bool) (c : M World A)
      (k : A -> M World B) :
  always p c -> (forall a, always p (k a)) -> always p (bind c k).
Proof.
  intros Hc Hk. unfold always in *.
  eapply spec_bind; [exact Hc | | |]; cbv beta.
  - intros a d1 H1. eapply spec_implies; [apply Hk |]. cbv beta.
    intros _ d2 H2. now rewrite forallb_app, H1, H2.
  - now intros.
  - now intros.
Qed.

Lemma always_try_catch {A : Type} (p : event -> bool) (c : M World A)
      (h : string -> M World A) :
  always p c -> (forall m, always p (h m)) -> always p (try_catch c h).
Proof.
  intros Hc Hh. unfold always in *.
  eapply spec_try_catch; [exact Hc | | |]; cbv beta.
  - intros m d1 H1. eapply spec_implies; [apply Hh |]. cbv beta.
    intros _ d2 H2. now rewrite forallb_app, H1, H2.
  - now intros.
  - now intros.
Qed.

Lemma always_ret {A : Type} (p : event -> bool) (a : A) :
  always p (@ret World A a).
Proof. now apply spec_ret. Qed.

Lemma always_throw {A : Type} (p : event -> bool) (m : string) :
  always p (@throw World A m).
Proof. now apply spec_throw. Qed.

Lemma always_out_of_fuel {A : Type} (p : event -> bool) :
  always p (@out_of_fuel World A).
Proof. intros s. exists []. split; [apply extends_refl | reflexivity]. Qed.

Lemma always_await (p : event -> bool) (databases : Databases World)
      (rq : request) :
  (forall rp, p (Called rq rp) = true) -> always p (await databases rq).
Proof.
  intros Hp. apply spec_await. intros rp. cbn. now rewrite Hp.
Qed.

Lemma always_emit (p : event -> bool) (e : event) :
  negb (is_cache_event e) = true -> p e = true -> always p (@emit World e).
Proof.
  intros He Hp. apply spec_emit; [exact He |]. cbn. now rewrite Hp.
Qed.

Lemma always_implies {A : Type} (p q : event -> bool) (c : M World A) :
  (forall e, p e = true -> q e = true) -> always p c -> always q c.
Proof.
  intros Hpq Hc. eapply spec_implies; [exact Hc |]. cbv beta.
  intros _ d. now apply forallb_implies.
Qed.

End Rules.

(** * Properties of the schema replicator *)

Section SchemaFacts.
Context {World : Type}.
Variable databases : Databases World.

Lemma polling_of_quiet (e : event) : quiet e = true -> polling e = true.
Proof. destruct e; try discriminate; exact (fun H => H). Qed.

Lemma poll_run (fetch : M World (list object)) (limit : Z)
      (key : option value) (n : nat) :
  (0 < limit)%Z ->
  spec fetch (fetch_post limit) ->
  spec (poll fetch key n) (poll_post key n).
Proof.
  intros Hlimit Hfetch.
  induction n as [| n IH]; intros s.
  - exists []. split; [apply extends_refl |].
    split; [reflexivity |]. split; [| discriminate].
    exists []. split; [constructor |]. now split.
  - cbn [poll]. unfold bind.
    destruct (Hfetch s) as (d1 & Hext1 & Hquiet & Hpolls & Hthrow).
    destruct (fetch s) as [[items | m |] s1]; simpl in Hext1, Hpolls, Hthrow |- *.
    + destruct (reports_available key items) eqn:Havail.
      * exists d1. split; [exact Hext1 |].
        split; [exact (forallb_implies _ _ _ polling_of_quiet Hquiet) |].
        split; [| discriminate].
        exists []. split; [constructor |].
        exists items. rewrite Hpolls. repeat split; [exact Havail | simpl; lia].
      * set (s2 := mkState (remote s1) (cacheFile s1) (log s1 ++ [Slept 1000])).
        assert (Hext2 : extends s1 s2 [Slept 1000]) by (now split).
        destruct (IH s2) as (d3 & Hext3 & Hpolling & Hshape & Hthrow3).
        exists (d1 ++ [Slept 1000] ++ d3). split.
        { eapply extends_trans; [exact Hext1 |].
          eapply extends_trans; eassumption. }
        unfold poll_post. rewrite !forallb_app, !filter_app, Hpolls.
        rewrite (forallb_implies _ _ _ polling_of_quiet Hquiet), Hpolling.
        split; [reflexivity |]. split.
        -- destruct Hshape as (misses & Hmisses & Hcase).
           exists (items :: misses). split; [now constructor |].
           destruct (fst (poll fetch key n s2)) as [[|] | m |];
             simpl in Hcase |- *.
           ++ destruct Hcase as (hit & Hhit & Hlen & ->).
              exists hit. repeat split; [exact Hhit | simpl; lia].
           ++ destruct Hcase as [Hlen ->]. split; [simpl; lia | reflexivity].
           ++ destruct Hcase as [Hlen ->]. split; [simpl; lia | reflexivity].
           ++ destruct Hcase as [Hlen ->]. split; [simpl; lia | reflexivity].
        -- intros m Hm. rewrite (Hthrow3 m Hm).
           now rewrite !andb_false_r.
    + exists d1. split; [exact Hext1 |].
      split; [exact (forallb_implies _ _ _ polling_of_quiet Hquiet) |].
      split.
      * exists []. split; [constructor |]. rewrite Hpolls. split; [simpl; lia | reflexivity].
      * intros m' Hm'. now apply (Hthrow Hlimit m).
    + exists d1. split; [exact Hext1 |].
      split; [exact (forallb_implies _ _ _ polling_of_quiet Hquiet) |].
      split; [| discriminate].
      exists []. split; [constructor |]. rewrite Hpolls. split; [simpl; lia | reflexivity].
Qed.

Lemma waitForAttribute_run (fuel : nat) (db : string)
      (coll key : option value) (maxRetries : option nat) :
  spec (waitForAttribute databases fuel db coll key maxRetries)
       (poll_post key (defaulted 30 maxRetries)).
Proof.
  apply (poll_run _ 100); [lia |]. now apply fetchAll_run.
Qed.

Lemma waitForIndex_run (fuel : nat) (db : string)
      (coll key : option value) (maxRetries : option nat) :
  spec (waitForIndex databases fuel db coll key maxRetries)
       (poll_post key (defaulted 60 maxRetries)).
Proof.
  apply (poll_run _ 100); [lia |]. now apply fetchAll_run.
Qed.


Lemma attribute_call_creation (db : string) (coll : option value)
      (attribute : object) (rq : request) :
  attribute_call db coll attribute = Some rq ->
  exists method args, rq = CreateAttribute method db coll args.
Proof.
  unfold attribute_call. cbv zeta.
  repeat match goal with
         | |- context [if ?c then _ else _] => destruct c
         end;
    intros H; inversion H; eauto.
Qed.

Lemma createAttribute_run (db : string) (coll : option value)
      (attribute : object) (s : state World) :
  let run := createAttribute databases db coll attribute s in
  exists d result,
    extends s (snd run) d /\
    fst run = Returned result /\
    match attribute_call db coll attribute with
    | Some rq => exists rp, d = [Called rq rp]
                            /\ result = outcome_of_reply rp
    | None =>
        d = [] /\
        result = mkResult false
                   (Some (String.append "Unknown type: "
                                        (template (get "type" attribute))))
    end.
Proof.
  cbv zeta. unfold createAttribute, try_catch.
  destruct (attribute_call db coll attribute) as [rq |].
  - unfold bind. destruct (await_run databases rq s) as (rp & Hext & Hout).
    destruct (await databases rq s) as [out s1]. simpl in Hext, Hout.
    subst out.
    exists [Called rq rp], (outcome_of_reply rp).
    destruct rp; simpl; (split; [exact Hext |]); (split; [reflexivity |]);
      eexists; split; reflexivity.
  - exists [], (mkResult false
                  (Some (String.append "Unknown type: "
                                       (template (get "type" attribute))))).
    simpl. split; [apply extends_refl |]. repeat split.
Qed.

Lemma createIndex_run (db : string) (coll : option value)
      (index : object) (s : state World) :
  let run := createIndex databases db coll index s in
  exists rp,
    extends s (snd run) [Called (index_call db coll index) rp] /\
    fst run = Returned (outcome_of_reply rp).
Proof.
  cbv zeta. unfold createIndex, try_catch, bind.
  destruct (await_run databases (index_call db coll index) s)
    as (rp & Hext & Hout).
  destruct (await databases (index_call db coll index) s) as [out s1].
  simpl in Hext, Hout. subst out.
  exists rp. destruct rp; simpl; split; (exact Hext || reflexivity).
Qed.


(** ** Accounting for one iteration of [createAttributes] *)

Lemma attribute_creations_polling (d : list event) :
  forallb polling d = true -> attribute_creations d = [].
Proof.
  apply flat_map_none. intros [rq rp | | | | |]; try reflexivity.
  destruct rq; try reflexivity; discriminate.
Qed.

Lemma index_creations_polling (d : list event) :
  forallb polling d = true -> index_creations d = [].
Proof.
  apply flat_map_none. intros [rq rp | | | | |]; try reflexivity.
  destruct rq; try reflexivity; discriminate.
Qed.

Lemma index_failures_polling (d : list event) :
  forallb polling d = true -> index_failures d = [].
Proof.
  apply flat_map_none. intros [rq rp | | | | |]; try reflexivity.
  destruct rq; try reflexivity; discriminate.
Qed.

Lemma attribute_phase_polling (d : list event) :
  forallb polling d = true -> forallb attribute_phase d = true.
Proof.
  apply forallb_implies. intros [rq rp | | | | |]; try (exact (fun H => H)).
  destruct rq; try discriminate; reflexivity.
Qed.

Lemma index_phase_polling (d : list event) :
  forallb polling d = true -> forallb index_phase d = true.
Proof.
  apply forallb_implies. intros [rq rp | | | | |]; try (exact (fun H => H)).
  destruct rq; try discriminate; reflexivity.
Qed.

Lemma prefix_of_cons {A : Type} (x : A) (l1 l2 : list A) :
  prefix_of l1 l2 -> prefix_of (x :: l1) (x :: l2).
Proof. intros [rest ->]. now exists rest. Qed.

Lemma prefix_of_refl {A : Type} (l : list A) : prefix_of l l.
Proof. exists []. now rewrite app_nil_r. Qed.

Lemma creation_failure_more (db : string) (coll : option value)
      (attributes attributes' : list object) (d d' : list event)
      (entry : option value * option string) :
  incl attributes attributes' ->
  incl (attribute_creations d) (attribute_creations d') ->
  creation_failure db coll attributes d entry ->
  creation_failure db coll attributes' d' entry.
Proof.
  intros Hattrs Hd (attribute & Hin & Hkey & Hcase).
  exists attribute. split; [now apply Hattrs |]. split; [exact Hkey |].
  destruct Hcase as [Hunknown | (rq & m & Hcall & Hfailed & Herr)].
  - now left.
  - right. exists rq, m. repeat split; auto.
Qed.

Lemma attributes_post_skip (db : string) (coll : option value)
      (attribute : object) (rest : list object) (acc : tally)
      (out : outcome tally) (d : list event) :
  is_child_relationship attribute = true ->
  attributes_post db coll rest acc out d ->
  attributes_post db coll (attribute :: rest) acc out d.
Proof.
  intros Hchild (Hphase & Hprefix & Hthrow & Hret).
  unfold attributes_post, due_attribute_calls, count_unknown, unknown_type.
  simpl. rewrite Hchild. simpl.
  split; [exact Hphase |]. split; [exact Hprefix |].
  split; [exact Hthrow |].
  intros t Ht. destruct (Hret t Ht) as (Hcalls & Hok & Herr & new & Hnew & Hlen & Hall).
  repeat split; try assumption.
  exists new. repeat split; try assumption.
  eapply Forall_impl; [| exact Hall].
  intros entry. apply creation_failure_more; [| apply incl_refl].
  apply incl_tl, incl_refl.
Qed.

Lemma attributes_post_unknown (db : string) (coll : option value)
      (attribute : object) (rest : list object) (acc : tally)
      (out : outcome tally) (d : list event) :
  is_child_relationship attribute = false ->
  attribute_call db coll attribute = None ->
  attributes_post db coll rest
    (mkTally (successCount acc) (S (errorCount acc))
       (errors acc
        ++ [(get "key" attribute,
             Some (String.append "Unknown type: "
                                 (template (get "type" attribute))))]))
    out d ->
  attributes_post db coll (attribute :: rest) acc out d.
Proof.
  intros Hchild Hcall (Hphase & Hprefix & Hthrow & Hret).
  unfold attributes_post, due_attribute_calls, count_unknown, unknown_type.
  simpl. rewrite Hchild, Hcall. simpl.
  split; [exact Hphase |]. split; [exact Hprefix |].
  split; [exact Hthrow |].
  intros t Ht. simpl in Hret.
  destruct (Hret t Ht) as (Hcalls & Hok & Herr & new & Hnew & Hlen & Hall).
  split; [exact Hcalls |]. split; [exact Hok |].
  split; [unfold count_unknown, unknown_type in Herr; lia |].
  eexists (_ :: new). split; [now rewrite Hnew, <- app_assoc |].
  split; [unfold count_unknown, unknown_type in Hlen; simpl; lia |].
  constructor.
  - exists attribute. split; [now left |]. split; [reflexivity |]. left.
    unfold unknown_type. now rewrite Hchild, Hcall.
  - eapply Forall_impl; [| exact Hall].
    intros entry. apply creation_failure_more; [| apply incl_refl].
    apply incl_tl, incl_refl.
Qed.


Lemma attributes_post_failed (db : string) (coll : option value)
      (attribute : object) (rest : list object) (acc : tally)
      (out : outcome tally) (rq : request) (m : string) (d : list event) :
  is_child_relationship attribute = false ->
  attribute_call db coll attribute = Some rq ->
  attributes_post db coll rest
    (mkTally (successCount acc) (S (errorCount acc))
       (errors acc ++ [(get "key" attribute, Some m)]))
    out d ->
  attributes_post db coll (attribute :: rest) acc out
                  (Called rq (Failed m) :: d).
Proof.
  intros Hchild Hcall (Hphase & Hprefix & Hthrow & Hret).
  destruct (attribute_call_creation _ _ _ _ Hcall) as (method & args & ->).
  unfold attributes_post, due_attribute_calls, count_unknown, unknown_type,
    count_failed, count_accepted.
  simpl. rewrite Hchild, Hcall. simpl.
  split; [exact Hphase |]. split; [now apply prefix_of_cons |].
  split; [reflexivity |].
  intros t Ht. simpl in Hret.
  destruct (Hret t Ht) as (Hcalls & Hok & Herr & new & Hnew & Hlen & Hall).
  unfold count_unknown, unknown_type, count_failed, count_accepted in *.
  split; [now f_equal |]. split; [exact Hok |]. split; [lia |].
  eexists (_ :: new). split; [now rewrite Hnew, <- app_assoc |].
  split; [simpl; lia |].
  constructor.
  - exists attribute. split; [now left |]. split; [reflexivity |]. right.
    eexists _, m. split; [exact Hcall |]. split; [now left | reflexivity].
  - eapply Forall_impl; [| exact Hall].
    intros entry. apply creation_failure_more.
    + apply incl_tl, incl_refl.
    + apply incl_tl, incl_refl.
Qed.

Lemma attributes_post_created (db : string) (coll : option value)
      (attribute : object) (rest : list object) (acc : tally)
      (out : outcome tally) (rq : request) (rp : reply)
      (d2 d3 : list event) :
  is_child_relationship attribute = false ->
  attribute_call db coll attribute = Some rq ->
  success (outcome_of_reply rp) = true ->
  forallb polling d2 = true ->
  attributes_post db coll rest
    (mkTally (S (successCount acc)) (errorCount acc) (errors acc)) out d3 ->
  attributes_post db coll (attribute :: rest) acc out
                  (Called rq rp :: d2 ++ d3).
Proof.
  intros Hchild Hcall Hrp Hpoll (Hphase & Hprefix & Hthrow & Hret).
  destruct (attribute_call_creation _ _ _ _ Hcall) as (method & args & ->).
  assert (Hfailed : failed (CreateAttribute method db coll args, rp) = false)
    by (destruct rp; [discriminate | reflexivity | reflexivity]).
  unfold attributes_post, due_attribute_calls, count_unknown, unknown_type,
    count_failed, count_accepted.
  unfold attribute_creations. simpl. rewrite flat_map_app.
  fold (attribute_creations d2). fold (attribute_creations d3).
  rewrite (attribute_creations_polling d2 Hpoll). simpl.
  rewrite Hchild, Hcall, Hfailed, forallb_app.
  rewrite (attribute_phase_polling d2 Hpoll), Hphase. simpl.
  split; [reflexivity |]. split; [now apply prefix_of_cons |].
  split.
  { intros m Hm. rewrite forallb_app, (Hthrow m Hm).
    now rewrite !andb_false_r. }
  intros t Ht. simpl in Hret.
  destruct (Hret t Ht) as (Hcalls & Hok & Herr & new & Hnew & Hlen & Hall).
  unfold count_unknown, unknown_type, count_failed, count_accepted in *.
  split; [now f_equal |]. split; [lia |]. split; [lia |].
  exists new. split; [exact Hnew |]. split; [exact Hlen |].
  eapply Forall_impl; [| exact Hall].
  intros entry. apply creation_failure_more.
  - apply incl_tl, incl_refl.
  - unfold attribute_creations at 2. simpl. rewrite flat_map_app.
    fold (attribute_creations d2). fold (attribute_creations d3).
    rewrite (attribute_creations_polling d2 Hpoll). simpl.
    apply incl_tl, incl_refl.
Qed.

Lemma attributes_post_cut (db : string) (coll : option value)
      (attribute : object) (rest : list object) (acc : tally)
      (out : outcome tally) (rq : request) (rp : reply) (d2 : list event) :
  is_child_relationship attribute = false ->
  attribute_call db coll attribute = Some rq ->
  forallb polling d2 = true ->
  (forall t, out <> Returned t) ->
  (forall m, out = Thrown m ->
             forallb only_index_creation_fails d2 = false) ->
  attributes_post db coll (attribute :: rest) acc out (Called rq rp :: d2).
Proof.
  intros Hchild Hcall Hpoll Hout Hthrow.
  destruct (attribute_call_creation _ _ _ _ Hcall) as (method & args & ->).
  unfold attributes_post, due_attribute_calls.
  unfold attribute_creations. simpl.
  fold (attribute_creations d2).
  rewrite (attribute_creations_polling d2 Hpoll). simpl.
  rewrite Hchild, Hcall, (attribute_phase_polling d2 Hpoll). simpl.
  split; [reflexivity |]. split; [now eexists |].
  split.
  - intros m Hm. rewrite (Hthrow m Hm). apply andb_false_r.
  - intros t Ht. now destruct (Hout t).
Qed.

Lemma createAttributes_loop_run (fuel : nat) (db : string)
      (coll : option value) (attributes : list object) :
  forall acc,
    spec (createAttributes_loop databases fuel db coll attributes acc)
         (attributes_post db coll attributes acc).
Proof.
  induction attributes as [| attribute rest IH]; intros acc s.
  - exists []. split; [apply extends_refl |].
    split; [reflexivity |]. split; [apply prefix_of_refl |].
    split; [discriminate |].
    intros t Ht. injection Ht as <-.
    unfold count_accepted, count_failed, count_unknown. simpl.
    repeat split; try lia.
    exists []. rewrite app_nil_r. repeat split. constructor.
  - cbn [createAttributes_loop].
    destruct (is_child_relationship attribute) eqn:Hchild.
    { destruct (IH acc s) as (d & Hext & Hpost).
      exists d. split; [exact Hext |]. now apply attributes_post_skip. }
    unfold bind.
    destruct (createAttribute_run db coll attribute s)
      as (d1 & result & Hext1 & Hout1 & Hcase).
    cbv zeta in Hext1, Hout1.
    destruct (createAttribute databases db coll attribute s) as [out1 s1].
    simpl in Hext1, Hout1. subst out1.
    destruct (attribute_call db coll attribute) as [rq |] eqn:Hcall.
    + destruct Hcase as (rp & -> & ->).
      destruct (success (outcome_of_reply rp)) eqn:Hsuccess.
      * destruct (waitForAttribute_run fuel db coll (get "key" attribute) None s1)
          as (d2 & Hext2 & Hpoll & _ & Hthrow2).
        destruct (waitForAttribute databases fuel db coll
                                   (get "key" attribute) None s1)
          as [[b | m |] s2]; simpl in Hext2, Hthrow2 |- *.
        -- destruct (IH (mkTally (S (successCount acc)) (errorCount acc)
                                 (errors acc)) s2)
             as (d3 & Hext3 & Hpost).
           exists ([Called rq rp] ++ d2 ++ d3). split.
           { eapply extends_trans; [exact Hext1 |].
             eapply extends_trans; eassumption. }
           now apply (attributes_post_created db coll attribute rest acc _ rq rp d2 d3).
        -- exists ([Called rq rp] ++ d2). split.
           { eapply extends_trans; eassumption. }
           apply (attributes_post_cut db coll attribute rest acc _ rq rp d2);
             try assumption; [discriminate |].
           intros m0 _. now apply (Hthrow2 m).
        -- exists ([Called rq rp] ++ d2). split.
           { eapply extends_trans; eassumption. }
           apply (attributes_post_cut db coll attribute rest acc _ rq rp d2);
             try assumption; discriminate.
      * destruct rp as [m | |]; try discriminate. simpl.
        destruct (IH (mkTally (successCount acc) (S (errorCount acc))
                              (errors acc ++ [(get "key" attribute, Some m)]))
                     s1)
          as (d3 & Hext3 & Hpost).
        exists ([Called rq (Failed m)] ++ d3). split.
        { eapply extends_trans; eassumption. }
        now apply attributes_post_failed.
    + destruct Hcase as [-> ->]. simpl.
      destruct (IH (mkTally (successCount acc) (S (errorCount acc))
                      (errors acc
                       ++ [(get "key" attribute,
                            Some (String.append "Unknown type: "
                                    (template (get "type" attribute))))]))
                   s1)
        as (d3 & Hext3 & Hpost).
      exists d3. split.
      { apply (extends_trans _ _ _ [] d3 Hext1 Hext3). }
      now apply attributes_post_unknown.
Qed.


(** ** Accounting for one iteration of [createIndexes] *)

Lemma indexes_post_failed (db : string) (coll : option value)
      (index : object) (rest : list object) (acc : tally)
      (out : outcome tally) (m : string) (d : list event) :
  indexes_post db coll rest
    (mkTally (successCount acc) (S (errorCount acc))
       (errors acc ++ [(get "key" index, Some m)]))
    out d ->
  indexes_post db coll (index :: rest) acc out
               (Called (index_call db coll index) (Failed m) :: d).
Proof.
  intros (Hphase & Hprefix & Hthrow & Hret).
  unfold indexes_post, count_failed, count_accepted.
  unfold index_call at 1 2 3 4 5. simpl. fold (index_call db coll index).
  split; [exact Hphase |]. split; [now apply prefix_of_cons |].
  split; [exact Hthrow |].
  intros t Ht. simpl in Hret.
  destruct (Hret t Ht) as (Hcalls & Hok & Herr & Herrors).
  unfold count_failed, count_accepted in *.
  split; [now f_equal |]. split; [exact Hok |]. split; [lia |].
  now rewrite Herrors, <- app_assoc.
Qed.

Lemma indexes_post_created (db : string) (coll : option value)
      (index : object) (rest : list object) (acc : tally)
      (out : outcome tally) (rp : reply) (d2 d3 : list event) :
  success (outcome_of_reply rp) = true ->
  forallb polling d2 = true ->
  indexes_post db coll rest
    (mkTally (S (successCount acc)) (errorCount acc) (errors acc)) out d3 ->
  indexes_post db coll (index :: rest) acc out
               (Called (index_call db coll index) rp :: d2 ++ d3).
Proof.
  intros Hrp Hpoll (Hphase & Hprefix & Hthrow & Hret).
  assert (Hfailed : failed (index_call db coll index, rp) = false)
    by (destruct rp; [discriminate | reflexivity | reflexivity]).
  assert (Hnone : index_failures [Called (index_call db coll index) rp] = [])
    by (destruct rp; [discriminate | reflexivity | reflexivity]).
  unfold indexes_post, count_failed, count_accepted.
  change (Called (index_call db coll index) rp :: d2 ++ d3)
    with ([Called (index_call db coll index) rp] ++ d2 ++ d3).
  unfold index_creations, index_failures.
  rewrite !flat_map_app.
  fold (index_creations d2). fold (index_creations d3).
  fold (index_failures d2). fold (index_failures d3).
  fold (index_failures [Called (index_call db coll index) rp]).
  rewrite Hnone, (index_creations_polling d2 Hpoll),
    (index_failures_polling d2 Hpoll), !forallb_app.
  rewrite (index_phase_polling d2 Hpoll), Hphase. simpl.
  rewrite Hfailed. simpl.
  split; [reflexivity |]. split; [now apply prefix_of_cons |].
  split.
  { intros m Hm. rewrite (Hthrow m Hm).
    now rewrite !andb_false_r. }
  intros t Ht. simpl in Hret.
  destruct (Hret t Ht) as (Hcalls & Hok & Herr & Herrors).
  unfold count_failed, count_accepted in *.
  split; [now f_equal |]. split; [lia |]. split; [lia |]. exact Herrors.
Qed.

Lemma indexes_post_cut (db : string) (coll : option value)
      (index : object) (rest : list object) (acc : tally)
      (out : outcome tally) (rp : reply) (d2 : list event) :
  forallb polling d2 = true ->
  (forall t, out <> Returned t) ->
  (forall m, out = Thrown m ->
             forallb only_index_creation_fails d2 = false) ->
  indexes_post db coll (index :: rest) acc out
               (Called (index_call db coll index) rp :: d2).
Proof.
  intros Hpoll Hout Hthrow.
  unfold indexes_post, index_creations. simpl.
  fold (index_creations d2).
  rewrite (index_creations_polling d2 Hpoll), (index_phase_polling d2 Hpoll).
  simpl. split; [reflexivity |]. split; [now eexists |].
  split.
  - intros m Hm. rewrite (Hthrow m Hm). apply andb_false_r.
  - intros t Ht. now destruct (Hout t).
Qed.

Lemma createIndexes_loop_run (fuel : nat) (db : string)
      (coll : option value) (indexes : list object) :
  forall acc,
    spec (createIndexes_loop databases fuel db coll indexes acc)
         (indexes_post db coll indexes acc).
Proof.
  induction indexes as [| index rest IH]; intros acc s.
  - exists []. split; [apply extends_refl |].
    split; [reflexivity |]. split; [apply prefix_of_refl |].
    split; [discriminate |].
    intros t Ht. injection Ht as <-.
    unfold count_accepted, count_failed. simpl.
    repeat split; try lia. now rewrite app_nil_r.
  - cbn [createIndexes_loop]. unfold bind.
    destruct (createIndex_run db coll index s) as (rp & Hext1 & Hout1).
    cbv zeta in Hext1, Hout1.
    destruct (createIndex databases db coll index s) as [out1 s1].
    simpl in Hext1, Hout1. subst out1.
    destruct (success (outcome_of_reply rp)) eqn:Hsuccess.
    + destruct (waitForIndex_run fuel db coll (get "key" index) None s1)
        as (d2 & Hext2 & Hpoll & _ & Hthrow2).
      destruct (waitForIndex databases fuel db coll (get "key" index) None s1)
        as [[b | m |] s2]; simpl in Hext2, Hthrow2 |- *.
      * destruct (IH (mkTally (S (successCount acc)) (errorCount acc)
                              (errors acc)) s2)
          as (d3 & Hext3 & Hpost).
        exists ([Called (index_call db coll index) rp] ++ d2 ++ d3). split.
        { eapply extends_trans; [exact Hext1 |].
          eapply extends_trans; eassumption. }
        now apply (indexes_post_created db coll index rest acc _ rp d2 d3).
      * exists ([Called (index_call db coll index) rp] ++ d2). split.
        { eapply extends_trans; eassumption. }
        apply (indexes_post_cut db coll index rest acc _ rp d2);
          try assumption; [discriminate |].
        intros m0 _. now apply (Hthrow2 m).
      * exists ([Called (index_call db coll index) rp] ++ d2). split.
        { eapply extends_trans; eassumption. }
        apply (indexes_post_cut db coll index rest acc _ rp d2);
          try assumption; discriminate.
    + destruct rp as [m | |]; try discriminate. simpl.
      destruct (IH (mkTally (successCount acc) (S (errorCount acc))
                            (errors acc ++ [(get "key" index, Some m)])) s1)
        as (d3 & Hext3 & Hpost).
      exists ([Called (index_call db coll index) (Failed m)] ++ d3). split.
      { eapply extends_trans; eassumption. }
      now apply indexes_post_failed.
Qed.


(** ** [cloneCollectionStructure] *)

Lemma createAttributes_guard (fuel : nat) (db : string)
      (coll : option value) (attributes : list object) :
  (if (0 <? List.length attributes)%nat
   then createAttributes databases fuel db coll attributes
   else ret no_tally)
  = createAttributes databases fuel db coll attributes.
Proof. now destruct attributes. Qed.

Lemma createIndexes_guard (fuel : nat) (db : string)
      (coll : option value) (indexes : list object) :
  (if (0 <? List.length indexes)%nat
   then createIndexes databases fuel db coll indexes
   else ret no_tally)
  = createIndexes databases fuel db coll indexes.
Proof. now destruct indexes. Qed.

Lemma index_phase_quiet (d : list event) :
  forallb quiet d = true -> forallb index_phase d = true.
Proof.
  intros H. apply index_phase_polling.
  exact (forallb_implies _ _ _ polling_of_quiet H).
Qed.

Lemma index_failures_quiet (d : list event) :
  forallb quiet d = true -> index_failures d = [].
Proof.
  intros H. apply index_failures_polling.
  exact (forallb_implies _ _ _ polling_of_quiet H).
Qed.

Lemma attribute_creations_quiet (d : list event) :
  forallb quiet d = true -> attribute_creations d = [].
Proof.
  intros H. apply attribute_creations_polling.
  exact (forallb_implies _ _ _ polling_of_quiet H).
Qed.

Lemma cloneCollectionIndexes_run (fuel : nat) (src dst : string)
      (id : option value) (attrResult : tally) (s : state World) :
  let run := cloneCollectionIndexes databases fuel src dst id attrResult s in
  exists d,
    extends s (snd run) d /\
    forallb index_phase d = true /\
    (forall m, fst run <> Thrown m) /\
    (forall r, fst run = Returned r ->
       ((0 < errorCount attrResult)%nat -> structure_success r = false) /\
       (forallb only_index_creation_fails d = true ->
        indexErrors r = index_failures d /\
        structure_success r = negb (0 <? errorCount attrResult)%nat /\
        attributeErrors r = if (0 <? errorCount attrResult)%nat
                            then errors attrResult else [])).
Proof.
  cbv zeta. unfold cloneCollectionIndexes, try_catch, bind.
  destruct (fetchAll_run databases (ListIndexes src id) 100 "key" fuel
              (fun _ _ => eq_refl) s)
    as (d1 & Hext1 & Hq1 & _ & Hthrow1).
  fold (fetchAllIndexes databases fuel src id) in Hext1, Hthrow1 |- *.
  destruct (fetchAllIndexes databases fuel src id s) as [[indexes | m |] s1];
    simpl in Hext1, Hthrow1 |- *.
  - rewrite createIndexes_guard.
    destruct (createIndexes_loop_run fuel dst id indexes no_tally s1)
      as (d2 & Hext2 & Hph & _ & Hthrow2 & Hret2).
    fold (createIndexes databases fuel dst id indexes) in Hext2, Hthrow2, Hret2 |- *.
    destruct (createIndexes databases fuel dst id indexes s1)
      as [[idxResult | m |] s2]; simpl in Hext2, Hthrow2, Hret2 |- *.
    + destruct (Hret2 idxResult eq_refl) as (_ & _ & _ & Herrors).
      simpl in Herrors.
      exists (d1 ++ d2).
      assert (Hfail : index_failures (d1 ++ d2) = errors idxResult).
      { unfold index_failures. rewrite flat_map_app.
        fold (index_failures d1). fold (index_failures d2).
        now rewrite (index_failures_quiet d1 Hq1), Herrors. }
      destruct (0 <? errorCount attrResult)%nat eqn:Hcount; simpl.
      * split; [eapply extends_trans; eassumption |].
        rewrite forallb_app, (index_phase_quiet d1 Hq1), Hph.
        split; [reflexivity |]. split; [discriminate |].
        intros r Hr. injection Hr as <-. simpl. rewrite Hfail. auto.
      * split; [eapply extends_trans; eassumption |].
        rewrite forallb_app, (index_phase_quiet d1 Hq1), Hph.
        split; [reflexivity |]. split; [discriminate |].
        intros r Hr. injection Hr as <-. simpl. rewrite Hfail.
        split; [| auto].
        apply Nat.ltb_ge in Hcount. lia.
    + exists (d1 ++ d2). split; [eapply extends_trans; eassumption |].
      rewrite !forallb_app, (index_phase_quiet d1 Hq1), Hph.
      split; [reflexivity |]. split; [discriminate |].
      intros r Hr. injection Hr as <-. simpl. split; [reflexivity |].
      rewrite (Hthrow2 m eq_refl), andb_false_r. discriminate.
    + exists (d1 ++ d2). split; [eapply extends_trans; eassumption |].
      rewrite forallb_app, (index_phase_quiet d1 Hq1), Hph.
      split; [reflexivity |]. split; discriminate.
  - exists d1. split; [exact Hext1 |].
    rewrite (index_phase_quiet d1 Hq1).
    split; [reflexivity |]. split; [discriminate |].
    intros r Hr. injection Hr as <-. simpl. split; [reflexivity |].
    rewrite (Hthrow1 ltac:(lia) m eq_refl). discriminate.
  - exists d1. split; [exact Hext1 |].
    rewrite (index_phase_quiet d1 Hq1).
    split; [reflexivity |]. split; discriminate.
Qed.


Lemma attribute_creations_index_phase (d : list event) :
  forallb index_phase d = true -> attribute_creations d = [].
Proof.
  apply flat_map_none. intros [rq rp | | | | |]; try reflexivity.
  destruct rq; try reflexivity; discriminate.
Qed.

Lemma index_failures_attribute_phase (d : list event) :
  forallb attribute_phase d = true -> index_failures d = [].
Proof.
  apply flat_map_none. intros [rq rp | | | | |]; try reflexivity.
  destruct rq; try reflexivity; discriminate.
Qed.

Lemma structural_quiet (d : list event) :
  forallb quiet d = true -> forallb structural d = true.
Proof.
  apply forallb_implies. intros [rq rp | | | | |]; try discriminate;
    try reflexivity.
  destruct rq; try discriminate; reflexivity.
Qed.

Lemma structural_attribute_phase (d : list event) :
  forallb attribute_phase d = true -> forallb structural d = true.
Proof.
  apply forallb_implies. intros [rq rp | | | | |]; try discriminate;
    try reflexivity.
  destruct rq; try discriminate; reflexivity.
Qed.

Lemma structural_index_phase (d : list event) :
  forallb index_phase d = true -> forallb structural d = true.
Proof.
  apply forallb_implies. intros [rq rp | | | | |]; try discriminate;
    try reflexivity.
  destruct rq; try discriminate; reflexivity.
Qed.

Lemma count_failed_positive (calls : list (request * reply)) :
  existsb failed calls = true -> (0 < count_failed calls)%nat.
Proof.
  unfold count_failed.
  induction calls as [| c calls IH]; simpl; [discriminate |].
  destruct (failed c); simpl; [lia | exact IH].
Qed.

Lemma structure_body_run (fuel : nat) (src dst : string)
      (id : option value) (s : state World) :
  let run :=
    (attributes <- fetchAllAttributes databases fuel src id ;;
     attrResult <-
       (if (0 <? List.length attributes)%nat
        then createAttributes databases fuel dst id attributes
        else ret no_tally) ;;
     cloneCollectionIndexes databases fuel src dst id attrResult) s in
  exists d,
    extends s (snd run) d /\
    forallb structural d = true /\
    (forall m, fst run = Thrown m ->
               forallb only_index_creation_fails d = false) /\
    (forall r, fst run = Returned r ->
       (existsb failed (attribute_creations d) = true ->
        structure_success r = false) /\
       (forallb only_index_creation_fails d = true ->
        indexErrors r = index_failures d /\
        (structure_success r = true <-> attributeErrors r = []))).
Proof.
  cbv zeta. unfold bind.
  destruct (fetchAll_run databases (ListAttributes src id) 100 "key" fuel
              (fun _ _ => eq_refl) s)
    as (d1 & Hext1 & Hq1 & _ & Hthrow1).
  fold (fetchAllAttributes databases fuel src id) in Hext1, Hthrow1 |- *.
  destruct (fetchAllAttributes databases fuel src id s)
    as [[attributes | m |] s1]; simpl in Hext1, Hthrow1 |- *.
  2:{ exists d1. split; [exact Hext1 |].
      split; [exact (structural_quiet d1 Hq1) |]. split; [| discriminate].
      intros m' _. apply (Hthrow1 ltac:(lia) m eq_refl). }
  2:{ exists d1. split; [exact Hext1 |].
      split; [exact (structural_quiet d1 Hq1) |]. split; discriminate. }
  rewrite createAttributes_guard.
  destruct (createAttributes_loop_run fuel dst id attributes no_tally s1)
    as (d2 & Hext2 & Hph2 & _ & Hthrow2 & Hret2).
  fold (createAttributes databases fuel dst id attributes)
    in Hext2, Hthrow2, Hret2 |- *.
  destruct (createAttributes databases fuel dst id attributes s1)
    as [[attrResult | m |] s2]; simpl in Hext2, Hthrow2, Hret2 |- *.
  2:{ exists (d1 ++ d2). split; [eapply extends_trans; eassumption |].
      rewrite !forallb_app, (structural_quiet d1 Hq1),
        (structural_attribute_phase d2 Hph2).
      split; [reflexivity |]. split; [| discriminate].
      intros m' _. rewrite (Hthrow2 m eq_refl). apply andb_false_r. }
  2:{ exists (d1 ++ d2). split; [eapply extends_trans; eassumption |].
      rewrite !forallb_app, (structural_quiet d1 Hq1),
        (structural_attribute_phase d2 Hph2).
      split; [reflexivity |]. split; discriminate. }
  destruct (cloneCollectionIndexes_run fuel src dst id attrResult s2)
    as (d3 & Hext3 & Hph3 & Hnothrow & Hret3).
  cbv zeta in Hext3, Hnothrow, Hret3.
  destruct (cloneCollectionIndexes databases fuel src dst id attrResult s2)
    as [out3 s3]. simpl in Hext3, Hnothrow, Hret3 |- *.
  exists (d1 ++ d2 ++ d3). split.
  { eapply extends_trans; [exact Hext1 |].
    eapply extends_trans; eassumption. }
  rewrite !forallb_app, (structural_quiet d1 Hq1),
    (structural_attribute_phase d2 Hph2), (structural_index_phase d3 Hph3).
  split; [reflexivity |]. split.
  { intros m Hm. now destruct (Hnothrow m). }
  intros r Hr.
  destruct (Hret2 attrResult eq_refl)
    as (_ & _ & Hcount & new & Hnew & Hlen & _).
  destruct (Hret3 r Hr) as (Hfails & Hclean).
  simpl in Hcount, Hnew.
  assert (Hattr : attribute_creations (d1 ++ d2 ++ d3)
                  = attribute_creations d2).
  { unfold attribute_creations. rewrite !flat_map_app.
    fold (attribute_creations d1). fold (attribute_creations d2).
    fold (attribute_creations d3).
    now rewrite (attribute_creations_quiet d1 Hq1),
      (attribute_creations_index_phase d3 Hph3), app_nil_r. }
  assert (Hidx : index_failures (d1 ++ d2 ++ d3) = index_failures d3).
  { unfold index_failures. rewrite !flat_map_app.
    fold (index_failures d1). fold (index_failures d2).
    fold (index_failures d3).
    now rewrite (index_failures_quiet d1 Hq1),
      (index_failures_attribute_phase d2 Hph2). }
  rewrite Hattr, Hidx. split.
  - intros Hfailed. apply Hfails.
    apply count_failed_positive in Hfailed. lia.
  - intros Hall.
    apply andb_prop in Hall as [_ Hall].
    apply andb_prop in Hall as [_ Hall].
    destruct (Hclean Hall) as (Hi & Hsucc & Ha).
    split; [exact Hi |].
    rewrite Hsucc, Ha, Hnew.
    destruct (0 <? errorCount attrResult)%nat eqn:Hpos; simpl; [| tauto].
    apply Nat.ltb_lt in Hpos.
    split; [discriminate |].
    intros ->. simpl in Hlen. lia.
Qed.

Lemma cloneCollectionStructure_run (fuel : nat) (src dst : string)
      (collection : object) :
  spec (cloneCollectionStructure databases fuel src dst collection)
       structure_post.
Proof.
  intros s. unfold cloneCollectionStructure. cbv zeta.
  set (id := get "$id" collection).
  set (cc := CreateCollection dst _).
  set (body := (attributes <- fetchAllAttributes databases fuel src id ;;
                attrResult <-
                  (if (0 <? List.length attributes)%nat
                   then createAttributes databases fuel dst id attributes
                   else ret no_tally) ;;
                cloneCollectionIndexes databases fuel src dst id attrResult)).
  unfold try_catch, bind.
  destruct (await_run databases cc s) as (rp & Hext0 & Hout0).
  destruct (await databases cc s) as [out0 s0]. simpl in Hext0, Hout0.
  assert (Hcc : forall rp', forallb structural [Called cc rp'] = true
                            /\ attribute_creations [Called cc rp'] = []
                            /\ index_failures [Called cc rp'] = [])
    by (intros rp'; repeat split).
  destruct (structure_body_run fuel src dst id s0)
    as (d & Hext & Hstruct & Hthrow & Hret).
  cbv zeta in Hext, Hthrow, Hret. fold body in Hext, Hthrow, Hret.
  destruct rp as [m | items |]; subst out0.
  { exists [Called cc (Failed m)]. split; [exact Hext0 |].
    split; [reflexivity |]. split; [discriminate |].
    intros r Hr. injection Hr as <-. split; [reflexivity |]. discriminate. }
  all: match type of Hext0 with
       | extends _ _ [Called ?c ?rp] =>
           destruct (Hcc rp) as (Hs & Ha & Hi);
           destruct (body s0) as [[r | m |] s1];
           simpl in Hext, Hthrow, Hret |- *;
           exists ([Called c rp] ++ d);
           (split; [eapply extends_trans; eassumption |]);
           unfold structure_post, attribute_creations, index_failures;
           rewrite !flat_map_app, !forallb_app;
           fold (attribute_creations [Called c rp]);
           fold (index_failures [Called c rp]);
           fold (attribute_creations d); fold (index_failures d);
           rewrite Hs, Ha, Hi, Hstruct; simpl;
           (split; [reflexivity |])
       end.
  all: try (split; discriminate).
  all: split; [discriminate |]; intros r' Hr'; injection Hr' as <-.
  - destruct (Hret r eq_refl) as [Hfailed Hclean].
    split; [exact Hfailed |].
    intros Hall. try (apply andb_prop in Hall as [_ Hall]). now apply Hclean.
  - simpl. split; [reflexivity |].
    rewrite (Hthrow m eq_refl), ?andb_false_r. discriminate.
  - destruct (Hret r eq_refl) as [Hfailed Hclean].
    split; [exact Hfailed |].
    intros Hall. try (apply andb_prop in Hall as [_ Hall]). now apply Hclean.
  - simpl. split; [reflexivity |].
    rewrite (Hthrow m eq_refl), ?andb_false_r. discriminate.
Qed.


(** ** Budgets of re-fetches *)

Lemma poll_shape_fetches (key : option value) (n : nat)
      (out : outcome bool) (d : list event) :
  poll_shape key n out (filter is_poll_event d) -> (fetches d <= n)%nat.
Proof.
  intros (misses & _ & Hcase).
  rewrite <- fetches_poll_events.
  destruct out as [[|] | m |].
  - destruct Hcase as (hit & _ & Hlen & ->).
    rewrite fetches_app, fetches_misses. unfold fetches. simpl. lia.
  - destruct Hcase as [Hlen ->]. rewrite fetches_misses. lia.
  - destruct Hcase as [Hlen ->]. rewrite fetches_misses. lia.
  - destruct Hcase as [Hlen ->]. rewrite fetches_misses. lia.
Qed.

Lemma createAttributes_loop_fetches (fuel : nat) (db : string)
      (coll : option value) (attributes : list object) :
  forall acc,
    spec (createAttributes_loop databases fuel db coll attributes acc)
         (fun _ d =>
            (fetches d <= 30 * List.length (attribute_creations d))%nat).
Proof.
  induction attributes as [| attribute rest IH]; intros acc s.
  - exists []. split; [apply extends_refl |]. simpl. unfold fetches. simpl. lia.
  - cbn [createAttributes_loop].
    destruct (is_child_relationship attribute); [apply IH |].
    unfold bind.
    destruct (createAttribute_run db coll attribute s)
      as (d1 & result & Hext1 & Hout1 & Hcase).
    cbv zeta in Hext1, Hout1.
    destruct (createAttribute databases db coll attribute s) as [out1 s1].
    simpl in Hext1, Hout1. subst out1.
    assert (Hd1 : fetches d1 = 0%nat
                  /\ (List.length (attribute_creations d1) <= 1)%nat
                  /\ (success result = true ->
                      List.length (attribute_creations d1) = 1%nat)).
    { destruct (attribute_call db coll attribute) as [rq |] eqn:Hcall.
      - destruct Hcase as (rp & -> & ->).
        destruct (attribute_call_creation _ _ _ _ Hcall)
          as (method & args & ->).
        repeat split; simpl; lia.
      - destruct Hcase as [-> ->]. repeat split; simpl; [lia | discriminate]. }
    destruct Hd1 as (Hf1 & Hle1 & Hone).
    destruct (success result) eqn:Hsuccess.
    + specialize (Hone eq_refl).
      destruct (waitForAttribute_run fuel db coll (get "key" attribute) None s1)
        as (d2 & Hext2 & Hpoll & Hshape & _).
      pose proof (poll_shape_fetches _ _ _ _ Hshape) as Hf2.
      cbn [defaulted] in Hf2.
      pose proof (attribute_creations_polling d2 Hpoll) as Hc2.
      destruct (waitForAttribute databases fuel db coll
                                 (get "key" attribute) None s1)
        as [[b | m |] s2]; simpl in Hext2 |- *.
      * destruct (IH (mkTally (S (successCount acc)) (errorCount acc)
                              (errors acc)) s2)
          as (d3 & Hext3 & Hf3).
        exists (d1 ++ d2 ++ d3). split.
        { eapply extends_trans; [exact Hext1 |].
          eapply extends_trans; eassumption. }
        unfold attribute_creations in *.
        rewrite !flat_map_app, !length_app, !fetches_app, Hc2. simpl. lia.
      * exists (d1 ++ d2). split; [eapply extends_trans; eassumption |].
        unfold attribute_creations in *.
        rewrite !flat_map_app, !length_app, !fetches_app, Hc2. simpl. lia.
      * exists (d1 ++ d2). split; [eapply extends_trans; eassumption |].
        unfold attribute_creations in *.
        rewrite !flat_map_app, !length_app, !fetches_app, Hc2. simpl. lia.
    + destruct (IH (mkTally (successCount acc) (S (errorCount acc))
                      (errors acc ++ [(get "key" attribute, error result)]))
                   s1)
        as (d3 & Hext3 & Hf3).
      exists (d1 ++ d3). split; [eapply extends_trans; eassumption |].
      unfold attribute_creations in *.
      rewrite !flat_map_app, !length_app, !fetches_app. lia.
Qed.

Lemma createIndexes_loop_fetches (fuel : nat) (db : string)
      (coll : option value) (indexes : list object) :
  forall acc,
    spec (createIndexes_loop databases fuel db coll indexes acc)
         (fun _ d =>
            (fetches d <= 60 * List.length (index_creations d))%nat).
Proof.
  induction indexes as [| index rest IH]; intros acc s.
  - exists []. split; [apply extends_refl |]. simpl. unfold fetches. simpl. lia.
  - cbn [createIndexes_loop]. unfold bind.
    destruct (createIndex_run db coll index s) as (rp & Hext1 & Hout1).
    cbv zeta in Hext1, Hout1.
    destruct (createIndex databases db coll index s) as [out1 s1].
    simpl in Hext1, Hout1. subst out1.
    set (d1 := [Called (index_call db coll index) rp]) in *.
    assert (Hd1 : fetches d1 = 0%nat
                  /\ List.length (index_creations d1) = 1%nat)
      by (split; reflexivity).
    destruct Hd1 as (Hf1 & Hone).
    destruct (success (outcome_of_reply rp)) eqn:Hsuccess.
    + destruct (waitForIndex_run fuel db coll (get "key" index) None s1)
        as (d2 & Hext2 & Hpoll & Hshape & _).
      pose proof (poll_shape_fetches _ _ _ _ Hshape) as Hf2.
      cbn [defaulted] in Hf2.
      pose proof (index_creations_polling d2 Hpoll) as Hc2.
      destruct (waitForIndex databases fuel db coll (get "key" index) None s1)
        as [[b | m |] s2]; simpl in Hext2 |- *.
      * destruct (IH (mkTally (S (successCount acc)) (errorCount acc)
                              (errors acc)) s2)
          as (d3 & Hext3 & Hf3).
        exists (d1 ++ d2 ++ d3). split.
        { eapply extends_trans; [exact Hext1 |].
          eapply extends_trans; eassumption. }
        unfold index_creations in *.
        rewrite !flat_map_app, !length_app, !fetches_app, Hc2. simpl. lia.
      * exists (d1 ++ d2). split; [eapply extends_trans; eassumption |].
        unfold index_creations in *.
        rewrite !flat_map_app, !length_app, !fetches_app, Hc2. simpl. lia.
      * exists (d1 ++ d2). split; [eapply extends_trans; eassumption |].
        unfold index_creations in *.
        rewrite !flat_map_app, !length_app, !fetches_app, Hc2. simpl. lia.
    + destruct (IH (mkTally (successCount acc) (S (errorCount acc))
                      (errors acc
                       ++ [(get "key" index, error (outcome_of_reply rp))]))
                   s1)
        as (d3 & Hext3 & Hf3).
      exists (d1 ++ d3). split; [eapply extends_trans; eassumption |].
      unfold index_creations in *.
      rewrite !flat_map_app, !length_app, !fetches_app. lia.
Qed.


(** ** Enough fuel

    When every listing fits in one page, one unit of fuel is enough for
    each traversal, and no run ends for lack of fuel. *)

Lemma fetchAll_settles (list_call : Z -> option value -> request)
      (limit : Z) (keyName : string) (fuel : nat) (s : state World) :
  one_page limit databases ->
  settles (fst (fetchAll databases (S fuel) list_call limit keyName s)).
Proof.
  intros Hone. unfold fetchAll, bind. cbn [fetchAllPages]. unfold bind.
  set (rq := list_call limit (if truthy None then None else None)).
  unfold await.
  pose proof (Hone (remote s) rq) as Hshort.
  destruct (databases (remote s) rq) as [w [m | items |]]; simpl in *;
    try discriminate.
  specialize (Hshort items eq_refl).
  apply Z.ltb_lt in Hshort. rewrite Hshort. discriminate.
Qed.

Lemma poll_settles (fetch : M World (list object)) (key : option value)
      (n : nat) :
  (forall s, settles (fst (fetch s))) ->
  forall s, settles (fst (poll fetch key n s)).
Proof.
  intros Hfetch. induction n as [| n IH]; intros s; [discriminate |].
  cbn [poll]. unfold bind. specialize (Hfetch s).
  destruct (fetch s) as [[items | m |] s1]; simpl in *;
    [| discriminate | now destruct Hfetch].
  destruct (reports_available key items); [discriminate |].
  apply IH.
Qed.

Lemma createAttributes_loop_settles (fuel : nat) (db : string)
      (coll : option value) (attributes : list object) :
  one_page 100 databases ->
  forall acc s,
    settles (fst (createAttributes_loop databases (S fuel) db coll
                                        attributes acc s)).
Proof.
  intros Hone.
  induction attributes as [| attribute rest IH]; intros acc s;
    [discriminate |].
  cbn [createAttributes_loop].
  destruct (is_child_relationship attribute); [apply IH |].
  unfold bind.
  destruct (createAttribute_run db coll attribute s)
    as (d1 & result & _ & Hout1 & _).
  cbv zeta in Hout1.
  destruct (createAttribute databases db coll attribute s) as [out1 s1].
  simpl in Hout1. subst out1.
  destruct (success result); [| apply IH].
  pose proof (poll_settles
                (fetchAllAttributes databases (S fuel) db coll)
                (get "key" attribute) (defaulted 30 None)
                (fun s' => fetchAll_settles _ 100 "key" fuel s' Hone) s1)
    as Hpoll.
  fold (waitForAttribute databases (S fuel) db coll (get "key" attribute) None)
    in Hpoll.
  destruct (waitForAttribute databases (S fuel) db coll
                             (get "key" attribute) None s1)
    as [[b | m |] s2]; simpl in *;
    [apply IH | discriminate | now destruct Hpoll].
Qed.

Lemma createIndexes_loop_settles (fuel : nat) (db : string)
      (coll : option value) (indexes : list object) :
  one_page 100 databases ->
  forall acc s,
    settles (fst (createIndexes_loop databases (S fuel) db coll
                                     indexes acc s)).
Proof.
  intros Hone.
  induction indexes as [| index rest IH]; intros acc s; [discriminate |].
  cbn [createIndexes_loop]. unfold bind.
  destruct (createIndex_run db coll index s) as (rp & _ & Hout1).
  cbv zeta in Hout1.
  destruct (createIndex databases db coll index s) as [out1 s1].
  simpl in Hout1. subst out1.
  destruct (success (outcome_of_reply rp)); [| apply IH].
  pose proof (poll_settles
                (fetchAllIndexes databases (S fuel) db coll)
                (get "key" index) (defaulted 60 None)
                (fun s' => fetchAll_settles _ 100 "key" fuel s' Hone) s1)
    as Hpoll.
  fold (waitForIndex databases (S fuel) db coll (get "key" index) None)
    in Hpoll.
  destruct (waitForIndex databases (S fuel) db coll (get "key" index) None s1)
    as [[b | m |] s2]; simpl in *;
    [apply IH | discriminate | now destruct Hpoll].
Qed.

Lemma cloneCollectionStructure_returns (fuel : nat) (src dst : string)
      (collection : object) (s : state World) :
  one_page 100 databases ->
  exists r,
    fst (cloneCollectionStructure databases (S fuel) src dst collection s)
    = Returned r.
Proof.
  intros Hone. unfold cloneCollectionStructure. cbv zeta.
  set (id := get "$id" collection).
  set (cc := CreateCollection dst _).
  unfold try_catch. unfold bind at 1.
  destruct (await_run databases cc s) as (rp & _ & Hout0).
  destruct (await databases cc s) as [out0 s0]. simpl in Hout0.
  destruct rp as [m | items |]; subst out0; [now eexists | |].
  all: unfold bind at 1;
    pose proof (fetchAll_settles (ListAttributes src id) 100 "key" fuel s0 Hone)
      as Hfetch;
    fold (fetchAllAttributes databases (S fuel) src id) in Hfetch;
    destruct (fetchAllAttributes databases (S fuel) src id s0)
      as [[attributes | m |] s1]; simpl in Hfetch |- *;
    [| now eexists | now destruct Hfetch].
  all: rewrite createAttributes_guard; unfold bind at 1;
    pose proof (createAttributes_loop_settles fuel dst id attributes Hone
                                              no_tally s1) as Hattrs;
    fold (createAttributes databases (S fuel) dst id attributes) in Hattrs;
    destruct (createAttributes databases (S fuel) dst id attributes s1)
      as [[attrResult | m |] s2]; simpl in Hattrs |- *;
    [| now eexists | now destruct Hattrs].
  all: unfold cloneCollectionIndexes, try_catch; unfold bind at 1;
    pose proof (fetchAll_settles (ListIndexes src id) 100 "key" fuel s2 Hone)
      as Hfetch2;
    fold (fetchAllIndexes databases (S fuel) src id) in Hfetch2;
    destruct (fetchAllIndexes databases (S fuel) src id s2)
      as [[indexes | m |] s3]; simpl in Hfetch2 |- *;
    [| now eexists | now destruct Hfetch2].
  all: rewrite createIndexes_guard; unfold bind;
    pose proof (createIndexes_loop_settles fuel dst id indexes Hone
                                           no_tally s3) as Hidx;
    fold (createIndexes databases (S fuel) dst id indexes) in Hidx;
    destruct (createIndexes databases (S fuel) dst id indexes s3)
      as [[idxResult | m |] s4]; simpl in Hidx |- *;
    [| now eexists | now destruct Hidx].
  all: destruct (0 <? errorCount attrResult)%nat; now eexists.
Qed.

End SchemaFacts.

(** * Properties of the orchestrator *)

Section SnapshotFacts.

Lemma as_objects_map_Obj (docs : list object) :
  as_objects (map Obj docs) = Some docs.
Proof.
  induction docs as [| doc docs IH]; [reflexivity |].
  simpl. now rewrite IH.
Qed.

Lemma read_entry_snapshot_entry (cd : collection_docs) :
  read_entry (snapshot_entry cd) = Some cd.
Proof.
  destruct cd as [[id |] [name |] docs]; unfold read_entry, snapshot_entry;
    simpl; now rewrite as_objects_map_Obj.
Qed.

Lemma read_entries_snapshot (cds : list collection_docs) :
  read_entries (map snapshot_entry cds) = Some cds.
Proof.
  induction cds as [| cd cds IH]; [reflexivity |].
  cbn [map read_entries]. now rewrite read_entry_snapshot_entry, IH.
Qed.

(** Reading the snapshot back gives the collections that were written. *)
Lemma read_collections_cacheData (src dst fetchedAt : string)
      (cds : list collection_docs) :
  read_collections (cacheData src dst fetchedAt cds) = Some cds.
Proof. unfold read_collections, cacheData. simpl. apply read_entries_snapshot. Qed.

End SnapshotFacts.

Section OrchestratorFacts.
Context {World : Type}.
Variable databases : Databases World.
Variable now : World -> string.
Variable stringify : value -> string.
Variable batchSize : Z.

Lemma substring_of_run (name : option value) :
  spec (@substring_of World name)
       (fun out d =>
          d = [] /\
          out = match name with
                | Some (Str _) => Returned tt
                | _ => Thrown TypeError
                end).
Proof.
  unfold substring_of.
  destruct name as [[| | | name | |] |];
    (apply spec_ret || apply spec_throw); now split.
Qed.

Lemma clone_structures_run (fuel : nat) (src dst : string)
      (collections : list object) :
  forall r,
    spec (clone_structures databases fuel src dst collections r)
         (fun out d =>
            forallb structural d = true /\
            (forall r', out = Returned r' ->
                        documents_success r' = documents_success r
                        /\ documents_failed r' = documents_failed r
                        /\ documents_errors r' = documents_errors r)).
Proof.
  induction collections as [| collection rest IH]; intros r.
  - apply spec_ret. split; [reflexivity |].
    intros r' Hr'. now injection Hr' as <-.
  - cbn [clone_structures].
    eapply spec_bind; [apply substring_of_run | | |]; cbv beta.
    2: now intros m d1 [-> _].
    2: now intros d1 [-> _].
    intros [] d1 [-> _]. cbn [app].
    eapply spec_bind;
      [apply (cloneCollectionStructure_run databases fuel src dst
                                           collection) | | |];
      cbv beta.
    + intros result d1 (Hs1 & _).
      eapply spec_implies; [apply IH |]. cbv beta.
      intros out d2 (Hs2 & Hcounts).
      split; [now rewrite forallb_app, Hs1, Hs2 |].
      intros r' Hr'. destruct (Hcounts r' Hr') as (-> & -> & ->).
      now destruct (structure_success result).
    + intros m d1 (Hs1 & _). split; [exact Hs1 | discriminate].
    + intros d1 (Hs1 & _). split; [exact Hs1 | discriminate].
Qed.

Lemma fetch_documents_run (fuel : nat) (src : string)
      (collections : list object) :
  forall acc,
    spec (fetch_documents databases batchSize fuel src collections acc)
         (fetch_documents_post collections acc).
Proof.
  induction collections as [| collection rest IH]; intros acc s.
  - exists []. split; [apply extends_refl |]. split; [reflexivity |].
    intros cds Hcds. injection Hcds as <-.
    exists []. rewrite app_nil_r. repeat split. constructor.
  - cbn [fetch_documents]. unfold bind.
    destruct (fetchAll_run databases
                (ListDocuments src (get "$id" collection)) batchSize "$id"
                fuel (fun _ _ => eq_refl) s)
      as (d1 & Hext1 & Hq1 & Hpolls & _).
    fold (fetchAllDocuments databases batchSize fuel src
                            (get "$id" collection)) in Hext1, Hpolls |- *.
    destruct (fetchAllDocuments databases batchSize fuel src
                                (get "$id" collection) s)
      as [[docs | m |] s1]; simpl in Hext1, Hpolls |- *.
    + destruct (IH (acc ++ [mkCollectionDocs (get "$id" collection)
                                             (get "name" collection) docs])
                   s1)
        as (d2 & Hext2 & Hq2 & Hret).
      exists (d1 ++ d2). split; [eapply extends_trans; eassumption |].
      split; [now rewrite forallb_app, Hq1, Hq2 |].
      intros cds Hcds. destruct (Hret cds Hcds) as (new & -> & Hall & Hids & Hnames).
      eexists (_ :: new). split; [now rewrite <- app_assoc |].
      split; [| split; simpl; now f_equal].
      constructor.
      * simpl. apply in_or_app. left.
        assert (Hin : In (Fetched docs) (filter is_poll_event d1))
          by (rewrite Hpolls; now left).
        now apply filter_In in Hin.
      * eapply Forall_impl; [| exact Hall].
        intros cd Hin. apply in_or_app. now right.
    + exists d1. split; [exact Hext1 |]. split; [exact Hq1 | discriminate].
    + exists d1. split; [exact Hext1 |]. split; [exact Hq1 | discriminate].
Qed.

Lemma build_queue_run (fuel : nat) (dst : string) (missingOnly : bool)
      (collections : list collection_docs) :
  forall queue skipped,
    spec (build_queue databases stringify batchSize fuel dst missingOnly
                      collections queue skipped)
         (fun _ d => forallb quiet d = true).
Proof.
  induction collections as [| collData rest IH]; intros queue skipped s.
  - exists []. split; [apply extends_refl | reflexivity].
  - cbn [build_queue]. destruct missingOnly; [| apply IH].
    unfold bind at 1. unfold buildExistingRecordSet, bind.
    destruct (fetchAll_run databases
                (ListDocuments dst (collectionId collData)) batchSize "$id"
                fuel (fun _ _ => eq_refl) s)
      as (d1 & Hext1 & Hq1 & _).
    fold (fetchAllDocuments databases batchSize fuel dst
                            (collectionId collData)) in Hext1 |- *.
    destruct (fetchAllDocuments databases batchSize fuel dst
                                (collectionId collData) s)
      as [[docs | m |] s1]; simpl in Hext1 |- *.
    + match goal with
      | |- context [build_queue _ _ _ _ _ _ _ ?q ?k s1] =>
          destruct (IH q k s1) as (d2 & Hext2 & Hq2)
      end.
      exists (d1 ++ d2). split; [eapply extends_trans; eassumption |].
      now rewrite forallb_app, Hq1, Hq2.
    + exists d1. split; [exact Hext1 | exact Hq1].
    + exists d1. split; [exact Hext1 | exact Hq1].
Qed.


Lemma add_document_error_messages (name : option value)
      (entry : option value * string) (groups : document_errors) :
  Permutation (recorded_messages (add_document_error name entry groups))
              (recorded_messages groups ++ [snd entry]).
Proof.
  unfold recorded_messages.
  induction groups as [| [n entries] rest IH]; cbn [add_document_error].
  - cbn. apply Permutation_refl.
  - destruct (strict_eq_opt n name); cbn [flat_map fst snd].
    + rewrite map_app, <- !app_assoc. apply Permutation_app_head.
      apply Permutation_app_comm.
    + rewrite <- app_assoc. now apply Permutation_app_head.
Qed.

Lemma creations_recorded_refl (r : results) : creations_recorded r r [].
Proof.
  unfold creations_recorded, accepted, rejected. cbn.
  rewrite app_nil_r. repeat split; try lia. apply Permutation_refl.
Qed.

Lemma creations_recorded_trans (r r1 r2 : results) (d1 d2 : list event) :
  creations_recorded r r1 d1 ->
  creations_recorded r1 r2 d2 ->
  creations_recorded r r2 (d1 ++ d2).
Proof.
  unfold creations_recorded, accepted, rejected, rejection_messages.
  intros (Hok1 & Hko1 & Hp1) (Hok2 & Hko2 & Hp2).
  rewrite !filter_app, !length_app, flat_map_app.
  split; [lia |]. split; [lia |].
  eapply Permutation_trans; [exact Hp2 |].
  rewrite app_assoc. now apply Permutation_app_tail.
Qed.

Lemma insert_documents_run (dst : string) (coll name : option value)
      (documents : list object) :
  forall r,
    spec (insert_documents databases dst coll name documents r)
         (insertion_post (List.length documents) r).
Proof.
  induction documents as [| document rest IH]; intros r.
  - apply spec_ret. split; [reflexivity |]. split; [reflexivity |].
    exists r. split; [reflexivity | apply creations_recorded_refl].
  - intros s. cbn [insert_documents]. unfold try_catch, bind.
    set (rq := CreateDocument dst coll (cleanDocumentData document)).
    destruct (await_run databases rq s) as (rp & Hext1 & Hout1).
    destruct (await databases rq s) as [out1 s1]. simpl in Hext1, Hout1.
    destruct rp as [m | items |]; subst out1; simpl;
      match goal with
      | |- context [insert_documents _ _ _ _ _ ?r1 s1] =>
          destruct (IH r1 s1)
            as (d2 & Hext2 & Hdocs & Hlen & r' & Hr' & Hrec)
      end;
      match type of Hext1 with
      | extends _ _ ?d1 => exists (d1 ++ d2)
      end;
      (split; [eapply extends_trans; eassumption |]);
      (split; [exact Hdocs |]);
      (split; [simpl; now rewrite Hlen |]);
      exists r'; (split; [exact Hr' |]);
      (eapply creations_recorded_trans; [| exact Hrec]);
      unfold creations_recorded, accepted, rejected, rejection_messages;
      cbn; rewrite ?app_nil_r;
      (split; [lia |]); (split; [lia |]);
      first [apply Permutation_refl
            | apply (add_document_error_messages name
                       (get "$id" document, m))].
Qed.

Lemma process_queue_run (dst : string) (queue : list collection_docs) :
  forall r,
    spec (process_queue databases dst queue r) (queue_post r).
Proof.
  induction queue as [| q rest IH]; intros r.
  - apply spec_ret. split; [reflexivity |]. split; [discriminate |].
    intros r' Hr'. injection Hr' as <-. apply creations_recorded_refl.
  - cbn [process_queue].
    destruct (List.length (documents q) =? 0)%nat; [apply IH |].
    eapply spec_bind; [apply substring_of_run | | |]; cbv beta.
    2:{ intros m d1 [-> _]. split; [reflexivity |].
        split; discriminate. }
    2:{ intros d1 [-> H]. now destruct (collectionName q) as [[] |]. }
    intros [] d0 [-> _]. cbn [app].
    eapply spec_bind;
      [apply (insert_documents_run dst (collectionId q) (collectionName q)
                                   (documents q) r) | | |];
      cbv beta.
    + intros r1 d1 (Hdocs1 & _ & r1' & Hr1 & Hrec1).
      injection Hr1 as <-.
      eapply spec_implies; [apply IH |]. cbv beta.
      intros out d2 (Hdocs2 & Hsettles & Hcounts).
      split; [now rewrite forallb_app, Hdocs1, Hdocs2 |].
      split; [exact Hsettles |].
      intros r' Hr'. eapply creations_recorded_trans; [exact Hrec1 |].
      now apply Hcounts.
    + intros m d1 (_ & _ & r1' & Hr1 & _). discriminate Hr1.
    + intros d1 (_ & _ & r1' & Hr1 & _). discriminate Hr1.
Qed.


Lemma quiet_not_cache (d : list event) :
  forallb quiet d = true ->
  forallb (fun e => negb (is_cache_event e)) d = true.
Proof.
  apply forallb_implies. intros [rq rp | | | | |]; try discriminate;
    reflexivity.
Qed.

Lemma creation_not_cache (d : list event) :
  forallb is_document_creation d = true ->
  forallb (fun e => negb (is_cache_event e)) d = true.
Proof.
  apply forallb_implies. intros [rq rp | | | | |]; try discriminate;
    reflexivity.
Qed.

Lemma cloneDatabase_run (fuel : nat) (src dst : string)
      (cloneStructure cloneData missingOnly : bool) :
  spec (cloneDatabase databases now stringify batchSize fuel src dst
                      cloneStructure cloneData missingOnly)
       (cloneDatabase_post now src dst (cloneData || missingOnly)).
Proof.
  intros s. unfold cloneDatabase. rewrite bind_run.
  destruct (fetchAll_run databases (ListCollections src) 100 "$id" fuel
              (fun _ _ => eq_refl) s)
    as (d1 & Hext1 & Hq1 & _).
  fold (fetchAllCollections databases fuel src) in Hext1 |- *.
  destruct (fetchAllCollections databases fuel src s)
    as [[collections | m |] s1]; simpl in Hext1 |- *.
  2,3: exists d1; (split; [exact Hext1 |]); left;
    (split; [exact (structural_quiet d1 Hq1) | discriminate]).
  destruct (List.length collections =? 0)%nat.
  { exists d1. split; [exact Hext1 |]. left.
    split; [exact (structural_quiet d1 Hq1) |]. now intros _ r _. }
  rewrite bind_run.
  assert (Hstructures :
            exists d2,
              extends s1 (snd ((if cloneStructure
                                then clone_structures databases fuel src dst
                                                      collections no_results
                                else ret no_results) s1)) d2 /\
              forallb structural d2 = true /\
              (forall r', fst ((if cloneStructure
                                then clone_structures databases fuel src dst
                                                      collections no_results
                                else ret no_results) s1) = Returned r' ->
                          documents_success r' = 0%nat
                          /\ documents_failed r' = 0%nat
                          /\ documents_errors r' = [])).
  { destruct cloneStructure.
    - apply clone_structures_run.
    - exists []. split; [apply extends_refl |].
      split; [reflexivity |].
      intros r' Hr'. now injection Hr' as <-. }
  destruct Hstructures as (d2 & Hext2 & Hs2 & Hcounts2).
  destruct ((if cloneStructure
             then clone_structures databases fuel src dst collections
                                   no_results
             else ret no_results) s1)
    as [[r | m |] s2]; simpl in Hext2, Hcounts2 |- *.
  2,3: exists (d1 ++ d2);
    (split; [eapply extends_trans; eassumption |]); left;
    rewrite forallb_app, (structural_quiet d1 Hq1), Hs2;
    (split; [reflexivity | discriminate]).
  destruct (Hcounts2 r eq_refl) as (Hsucc0 & Hfail0 & Herrs0).
  destruct (cloneData || missingOnly) eqn:Hdata.
  2:{ exists (d1 ++ d2). split; [eapply extends_trans; eassumption |]. left.
      rewrite forallb_app, (structural_quiet d1 Hq1), Hs2.
      split; [reflexivity | discriminate]. }
  rewrite bind_run.
  destruct (fetch_documents_run fuel src collections [] s2)
    as (d3 & Hext3 & Hq3 & Hret3).
  destruct (fetch_documents databases batchSize fuel src collections [] s2)
    as [[collectionDocs | m |] s3]; simpl in Hext3, Hret3 |- *.
  2,3: exists (d1 ++ d2 ++ d3);
    (split; [eapply extends_trans; [exact Hext1 |];
             eapply extends_trans; eassumption |]); left;
    rewrite !forallb_app, (structural_quiet d1 Hq1), Hs2,
      (structural_quiet d3 Hq3);
    (split; [reflexivity | discriminate]).
  destruct (Hret3 collectionDocs eq_refl) as (new & Hnew & Hfetched & _).
  simpl in Hnew. subst new.
  set (data := cacheData src dst (now (remote s3)) collectionDocs).
  rewrite bind_run. unfold clock. cbv beta iota.
  rewrite bind_run. unfold writeCacheFile. cbv beta iota.
  rewrite bind_run. unfold readCacheFile. cbn [cacheFile remote log].
  cbv beta iota. rewrite read_collections_cacheData. fold data.
  set (s5 := mkState (remote s3) (Some data)
                     ((log s3 ++ [CacheWritten data]) ++ [CacheRead])).
  assert (Hext5 : extends s3 s5 [CacheWritten data; CacheRead]).
  { split; simpl; [now rewrite <- app_assoc | reflexivity]. }
  assert (Htaken : snapshot_taken now src dst data
                     ((d1 ++ d2 ++ d3) ++ [CacheWritten data; CacheRead])).
  { exists (d1 ++ d2 ++ d3), (remote s3), collectionDocs.
    split; [reflexivity |]. split; [reflexivity |].
    rewrite !forallb_app, (structural_quiet d1 Hq1), Hs2,
      (structural_quiet d3 Hq3).
    split; [reflexivity |].
    eapply Forall_impl; [| exact Hfetched].
    intros cd Hin. apply in_or_app. right. apply in_or_app. now right. }
  assert (Hext05 : extends s s5
                     ((d1 ++ d2 ++ d3) ++ [CacheWritten data; CacheRead])).
  { eapply extends_trans; [| exact Hext5].
    eapply extends_trans; [exact Hext1 |].
    eapply extends_trans; eassumption. }
  rewrite bind_run.
  destruct (build_queue_run fuel dst missingOnly collectionDocs [] 0%nat s5)
    as (d5 & Hext6 & Hq5).
  destruct (build_queue databases stringify batchSize fuel dst missingOnly
                        collectionDocs [] 0 s5)
    as [[[processQueue skipped] | m |] s6]; simpl in Hext6 |- *.
  2,3: exists (((d1 ++ d2 ++ d3) ++ [CacheWritten data; CacheRead]) ++ d5);
    (split; [eapply extends_trans; eassumption |]); right; right;
    (split; [discriminate |]);
    exists ((d1 ++ d2 ++ d3) ++ [CacheWritten data; CacheRead]), data, d5,
      [];
    rewrite app_nil_r; auto.
  rewrite bind_run.
  assert (Hinserts :
            exists d6,
              extends s6 (snd ((if (0 <? docs_to_process processQueue)%nat
                                then process_queue databases dst processQueue
                                       (documents_skipped_more skipped r)
                                else ret (documents_skipped_more skipped r))
                                 s6)) d6 /\
              queue_post (documents_skipped_more skipped r)
                (fst ((if (0 <? docs_to_process processQueue)%nat
                       then process_queue databases dst processQueue
                              (documents_skipped_more skipped r)
                       else ret (documents_skipped_more skipped r)) s6)) d6).
  { destruct (0 <? docs_to_process processQueue)%nat.
    - apply process_queue_run.
    - exists []. split; [apply extends_refl |].
      split; [reflexivity |]. split; [discriminate |].
      intros r' Hr'. injection Hr' as <-. apply creations_recorded_refl. }
  destruct Hinserts as (d6 & Hext7 & Hdocs6 & _ & Hcounts6).
  destruct ((if (0 <? docs_to_process processQueue)%nat
             then process_queue databases dst processQueue
                    (documents_skipped_more skipped r)
             else ret (documents_skipped_more skipped r)) s6)
    as [[r' | m |] s7]; simpl in Hext7, Hcounts6 |- *.
  2,3: exists ((((d1 ++ d2 ++ d3) ++ [CacheWritten data; CacheRead]) ++ d5)
               ++ d6);
    (split; [eapply extends_trans; [eapply extends_trans; eassumption |];
             exact Hext7 |]);
    right; right; (split; [discriminate |]);
    exists ((d1 ++ d2 ++ d3) ++ [CacheWritten data; CacheRead]), data, d5,
      d6;
    (split; [now rewrite <- !app_assoc |]); auto.
  destruct (Hcounts6 r' eq_refl) as (Hok & Hko & Hperm).
  assert (Hcache7 : cacheFile s7 = Some data).
  { destruct Hext6 as [_ Hc6]. destruct Hext7 as [_ Hc7].
    rewrite Hc7, Hc6.
    rewrite (cache_after_unchanged _ d6 (creation_not_cache d6 Hdocs6)).
    now rewrite (cache_after_unchanged _ d5 (quiet_not_cache d5 Hq5)). }
  rewrite bind_run. unfold deleteCacheFile. rewrite Hcache7. simpl.
  exists ((((d1 ++ d2 ++ d3) ++ [CacheWritten data; CacheRead]) ++ d5)
          ++ d6 ++ [CacheDeleted]).
  split.
  { eapply extends_trans; [eapply extends_trans; eassumption |].
    eapply extends_trans; [exact Hext7 |].
    split; simpl; [reflexivity |]. reflexivity. }
  right. left. exists r'. split; [reflexivity |].
  exists ((d1 ++ d2 ++ d3) ++ [CacheWritten data; CacheRead]), data, d5, d6.
  split; [now rewrite <- !app_assoc |].
  split; [exact Htaken |]. split; [exact Hq5 |]. split; [exact Hdocs6 |].
  simpl in Hok, Hko, Hperm. rewrite Herrs0 in Hperm.
  split; [lia |]. split; [lia | exact Hperm].
Qed.


(** ** Enough fuel for [cloneDatabase] *)





End OrchestratorFacts.

(** * The snapshot *)

Section SnapshotShape.
Context {World : Type}.
Variable now : World -> string.

Lemma snapshot_taken_cache (src dst : string) (data : value)
      (taken : list event) (c : option value) :
  snapshot_taken now src dst data taken ->
  cache_after c taken = Some data
  /\ filter is_document_creation taken = []
  /\ ~ In CacheDeleted taken
  /\ (forall data', In (CacheWritten data') taken -> data' = data).
Proof.
  intros (before & w & cds & -> & _ & Hbefore & _).
  assert (Hnocache : forallb (fun e => negb (is_cache_event e)) before = true).
  { eapply forallb_implies; [| exact Hbefore].
    intros e He. unfold structural in He.
    now apply andb_prop in He as [He _]. }
  assert (Hnodocs : filter is_document_creation before = []).
  { eapply filter_none; [| exact Hbefore].
    intros e He. unfold structural in He.
    apply andb_prop in He as [_ He]. now apply negb_true_iff in He. }
  assert (Hnot : forall e, is_cache_event e = true -> ~ In e before).
  { intros e He Hin. rewrite forallb_forall in Hnocache.
    specialize (Hnocache e Hin). now rewrite He in Hnocache. }
  repeat split.
  - rewrite cache_after_app, (cache_after_unchanged _ before Hnocache).
    reflexivity.
  - now rewrite filter_app, Hnodocs.
  - intros Hin. apply in_app_or in Hin as [Hin | [Hin | [Hin | []]]];
      try discriminate. now apply (Hnot CacheDeleted).
  - intros data' Hin.
    apply in_app_or in Hin as [Hin | [Hin | [Hin | []]]]; try discriminate.
    + now apply (Hnot (CacheWritten data')) in Hin.
    + now injection Hin.
Qed.

Lemma quiet_facts (d : list event) :
  forallb quiet d = true ->
  filter is_document_creation d = []
  /\ (forall e, is_cache_event e = true -> ~ In e d)
  /\ (forall c, cache_after c d = c).
Proof.
  intros Hq. repeat split.
  - eapply filter_none; [| exact Hq].
    intros [rq rp | | | | |]; try discriminate; try reflexivity.
    destruct rq; try discriminate; reflexivity.
  - intros e He Hin. pose proof (quiet_not_cache d Hq) as Hnc.
    rewrite forallb_forall in Hnc. specialize (Hnc e Hin).
    now rewrite He in Hnc.
  - intros c. apply cache_after_unchanged. now apply quiet_not_cache.
Qed.

Lemma structural_facts (d : list event) :
  forallb structural d = true ->
  filter is_document_creation d = []
  /\ (forall e, is_cache_event e = true -> ~ In e d)
  /\ (forall c, cache_after c d = c).
Proof.
  intros Hs.
  assert (Hnocache : forallb (fun e => negb (is_cache_event e)) d = true).
  { eapply forallb_implies; [| exact Hs].
    intros e He. unfold structural in He.
    now apply andb_prop in He as [He _]. }
  repeat split.
  - eapply filter_none; [| exact Hs].
    intros e He. unfold structural in He.
    apply andb_prop in He as [_ He]. now apply negb_true_iff in He.
  - intros e He Hin. rewrite forallb_forall in Hnocache.
    specialize (Hnocache e Hin). now rewrite He in Hnocache.
  - intros c. now apply cache_after_unchanged.
Qed.

End SnapshotShape.




Lemma snapshot_entry_fields (cd : collection_docs) :
  exists entry,
    snapshot_entry cd = Obj entry /\
    get "collectionId" entry = collectionId cd /\
    get "collectionName" entry = collectionName cd /\
    get "documentCount" entry
    = Some (number_of_nat (List.length (documents cd))) /\
    get "documents" entry = Some (Arr (map Obj (documents cd))) /\
    incl (map fst entry)
         [ "collectionId"; "collectionName"; "documentCount"; "documents" ] /\
    (collectionId cd <> None -> collectionName cd <> None ->
     map fst entry
     = [ "collectionId"; "collectionName"; "documentCount"; "documents" ]).
Proof.
  destruct cd as [[id |] [name |] docs]; eexists; (split; [reflexivity |]);
    simpl; repeat split; try congruence;
    intros k Hk; simpl in *; tauto.
Qed.

Lemma written_snapshot {World : Type} (now : World -> string)
      (src dst : string) (flag : bool) (out : outcome results)
      (d : list event) (data : value) :
  cloneDatabase_post now src dst flag out d ->
  In (CacheWritten data) d ->
  exists w collectionDocs,
    data = cacheData src dst (now w) collectionDocs /\
    Forall (fun cd => In (Fetched (documents cd)) d) collectionDocs.
Proof.
  intros Hpost Hin.
  assert (Htaken :
            forall taken data0 rest,
              d = taken ++ rest ->
              snapshot_taken now src dst data0 taken ->
              (forall e, is_cache_event e = true -> In e rest ->
                         e = CacheDeleted) ->
              exists w collectionDocs,
                data = cacheData src dst (now w) collectionDocs /\
                Forall (fun cd => In (Fetched (documents cd)) d)
                       collectionDocs).
  { intros taken data0 rest -> Htaken Hrest.
    destruct (snapshot_taken_cache now _ _ _ _ None Htaken)
      as (_ & _ & _ & Hone).
    apply in_app_or in Hin as [Hin | Hin].
    - rewrite (Hone data Hin).
      destruct Htaken as (before & w & cds & -> & -> & _ & Hfetched).
      exists w, cds. split; [reflexivity |].
      eapply Forall_impl; [| exact Hfetched].
      intros cd Hcd. apply in_or_app. left. apply in_or_app. now left.
    - now apply Hrest in Hin. }
  destruct Hpost as [[Hstruct _]
                    | [(r & _ & taken & data0 & queueing & inserts
                        & Hd & Hsnap & Hq & Hdocs & _)
                      | (_ & taken & data0 & queueing & inserts
                         & Hd & Hsnap & Hq & Hdocs)]].
  - destruct (structural_facts d Hstruct) as (_ & Hnc & _).
    now apply Hnc in Hin.
  - apply (Htaken taken data0 _ Hd Hsnap).
    intros e He He_in.
    apply in_app_or in He_in as [He_in | He_in].
    + now apply (quiet_facts queueing Hq) in He_in.
    + apply in_app_or in He_in as [He_in | [<- | []]]; [| reflexivity].
      pose proof (creation_not_cache inserts Hdocs) as Hnc.
      rewrite forallb_forall in Hnc. specialize (Hnc e He_in).
      now rewrite He in Hnc.
  - apply (Htaken taken data0 _ Hd Hsnap).
    intros e He He_in.
    apply in_app_or in He_in as [He_in | He_in].
    + now apply (quiet_facts queueing Hq) in He_in.
    + pose proof (creation_not_cache inserts Hdocs) as Hnc.
      rewrite forallb_forall in Hnc. specialize (Hnc e He_in).
      now rewrite He in Hnc.
Qed.

(** C8, as amended.  Whatever a run of [cloneDatabase] writes to the
    snapshot file is a record with exactly the fields [sourceDbId],
    [destDbId], [fetchedAt] (a reading of the clock) and [collections],
    in this order.  Each entry of [collections] holds a list of documents
    fetched during the run under [documents] and its length under
    [documentCount], and the collection's [$id] and [name] under
    [collectionId] and [collectionName]; it has no other field, and when
    the collection has an identifier and a name its fields are exactly
    these four. *)
Theorem snapshot_contents {World : Type} (databases : Databases World)
        (now : World -> string) (stringify : value -> string)
        (batchSize : Z) (fuel : nat) (sourceDbId destDbId : string)
        (cloneStructure cloneData missingOnly : bool) (s : state World) :
  let run := cloneDatabase databases now stringify batchSize fuel
                           sourceDbId destDbId
                           cloneStructure cloneData missingOnly s in
  exists d,
    log (snd run) = log s ++ d /\
    forall data,
      In (CacheWritten data) d ->
      exists w collectionDocs,
        data = Obj [ ("sourceDbId", Str sourceDbId);
                     ("destDbId", Str destDbId);
                     ("fetchedAt", Str (now w));
                     ("collections",
                       Arr (map snapshot_entry collectionDocs)) ] /\
        Forall
          (fun cd =>
             In (Fetched (documents cd)) d /\
             exists entry,
               snapshot_entry cd = Obj entry /\
               get "collectionId" entry = collectionId cd /\
               get "collectionName" entry = collectionName cd /\
               get "documentCount" entry
               = Some (number_of_nat (List.length (documents cd))) /\
               get "documents" entry = Some (Arr (map Obj (documents cd))) /\
               incl (map fst entry)
                    [ "collectionId"; "collectionName"; "documentCount";
                      "documents" ] /\
               (collectionId cd <> None -> collectionName cd <> None ->
                map fst entry
                = [ "collectionId"; "collectionName"; "documentCount";
                    "documents" ]))
          collectionDocs.
Proof.
  cbv zeta.
  destruct (cloneDatabase_run databases now stringify batchSize fuel
              sourceDbId destDbId cloneStructure cloneData missingOnly s)
    as (d & [Hlog _] & Hpost).
  exists d. split; [exact Hlog |].
  intros data Hin.
  destruct (written_snapshot now _ _ _ _ _ _ Hpost Hin)
    as (w & cds & -> & Hfetched).
  exists w, cds. split; [reflexivity |].
  eapply Forall_impl; [| exact Hfetched].
  intros cd Hcd. split; [exact Hcd |]. apply snapshot_entry_fields.
Qed.

(** The amended C8 on a run that copies one collection of two
    documents. *)
Lemma snapshot_contents_witness :
  exists w collectionDocs,
    parcels_snapshot
    = Obj [ ("sourceDbId", Str "source"); ("destDbId", Str "dest");
            ("fetchedAt", Str (noon w));
            ("collections", Arr (map snapshot_entry collectionDocs)) ] /\
    Forall
      (fun cd =>
         exists entry,
           snapshot_entry cd = Obj entry /\
           get "documentCount" entry
           = Some (number_of_nat (List.length (documents cd))))
      collectionDocs.
Proof.
  destruct (snapshot_contents (documents_service true true) noon to_json
              100 1 "source" "dest" false true false start)
    as (d & Hlog & Hwritten).
  cbv zeta in Hlog.
  destruct (Hwritten parcels_snapshot) as (w & cds & Hdata & Hall).
  { vm_compute in Hlog. subst d.
    repeat first [left; reflexivity | right]. }
  exists w, cds. split; [exact Hdata |].
  eapply Forall_impl; [| exact Hall].
  intros cd (_ & entry & Hentry & _ & _ & Hcount & _).
  now exists entry.
Defined.

(** C8 as worded fails on the names of the first two fields: the
    snapshot written by a run that copies one collection has the fields
    [sourceDbId] and [destDbId], and neither [sourceId] nor [destId]. *)
Lemma snapshot_field_names_counterexample :
  let run := cloneDatabase (documents_service true true) noon to_json 100 1
                           "source" "dest" false true false start in
  exists o,
    In (CacheWritten (Obj o)) (log (snd run)) /\
    map fst o = [ "sourceDbId"; "destDbId"; "fetchedAt"; "collections" ] /\
    map fst o <> worded_field_names /\
    get "sourceId" o = None /\
    get "destId" o = None.
Proof.
  cbv zeta. eexists. split.
  - vm_compute. repeat first [left; reflexivity | right].
  - repeat split. discriminate.
Qed.

(** * Properties of the diff engine *)

Section DiffFacts.
Variable stringify : value -> string.

Lemma strict_eq_refl (v : value) :
  is_scalar v = true -> strict_eq v v = true.
Proof.
  destruct v; try discriminate; intros _; simpl.
  - reflexivity.
  - apply Bool.eqb_reflx.
  - apply String.eqb_refl.
  - apply String.eqb_refl.
Qed.

Lemma set_has_add (v w : value) (set : list value) :
  set_has w (set_add v set) = set_has w set || (negb (set_has v set)
                                                && strict_eq w v).
Proof.
  unfold set_add, set_has.
  destruct (existsb (strict_eq v) set); simpl.
  - now rewrite orb_false_r.
  - rewrite existsb_app. simpl. now rewrite orb_false_r.
Qed.

Lemma set_has_add_same (v : value) (set : list value) :
  is_scalar v = true -> set_has v (set_add v set) = true.
Proof.
  intros Hv. rewrite set_has_add, (strict_eq_refl v Hv).
  now destruct (set_has v set).
Qed.

Lemma set_has_add_other (v w : value) (set : list value) :
  set_has w set = true -> set_has w (set_add v set) = true.
Proof. intros H. now rewrite set_has_add, H. Qed.

(** The loop of [buildExistingRecordSet] files each document under its
    [record_key]. *)
Lemma existing_keys_record_key (f : option string) (docs : list object) :
  forall set,
    existing_keys stringify f docs set
    = fold_left (fun acc doc => set_add (record_key stringify f doc) acc)
                docs set.
Proof.
  induction docs as [| doc docs IH]; intros set; [reflexivity |].
  cbn [existing_keys fold_left]. rewrite IH. f_equal.
  unfold record_key.
  destruct (field_given f && truthy (field_of f doc)) eqn:Hcase;
    [| reflexivity].
  destruct (field_of f doc); [reflexivity |].
  now rewrite andb_false_r in Hcase.
Qed.

Lemma isDocumentMissing_record_key (doc : object) (set : list value)
      (f : option string) :
  isDocumentMissing stringify doc set f
  = negb (set_has (record_key stringify f doc) set).
Proof.
  unfold isDocumentMissing, record_key.
  destruct (field_given f && truthy (field_of f doc)) eqn:Hcase;
    [| reflexivity].
  destruct (field_of f doc); [reflexivity |].
  now rewrite andb_false_r in Hcase.
Qed.

Lemma fold_keys_grows (f : option string) (docs : list object) (w : value) :
  forall set,
    set_has w set = true ->
    set_has w (fold_left (fun acc doc =>
                            set_add (record_key stringify f doc) acc)
                         docs set) = true.
Proof.
  induction docs as [| doc docs IH]; intros set H; [exact H |].
  simpl. apply IH. now apply set_has_add_other.
Qed.

Lemma fold_keys_holds (f : option string) (docs : list object)
      (doc : object) :
  In doc docs ->
  is_scalar (record_key stringify f doc) = true ->
  forall set,
    set_has (record_key stringify f doc)
            (fold_left (fun acc doc' =>
                          set_add (record_key stringify f doc') acc)
                       docs set) = true.
Proof.
  intros Hin Hscalar.
  induction docs as [| doc' docs IH]; intros set; [destruct Hin |].
  simpl. destruct Hin as [-> | Hin].
  - apply fold_keys_grows. now apply set_has_add_same.
  - now apply IH.
Qed.

Lemma fold_keys_only (f : option string) (docs : list object)
      (P : value -> Prop) :
  Forall (fun doc => P (record_key stringify f doc)) docs ->
  forall set,
    Forall P set ->
    Forall P (fold_left (fun acc doc =>
                           set_add (record_key stringify f doc) acc)
                        docs set).
Proof.
  induction 1 as [| doc docs Hdoc _ IH]; intros set Hset; [exact Hset |].
  simpl. apply IH. unfold set_add.
  destruct (set_has (record_key stringify f doc) set); [exact Hset |].
  apply Forall_app. split; [exact Hset | now constructor].
Qed.

Lemma configured_field_given (collectionId : option value) (f : string) :
  getUniqueIdentifierField collectionId = Some f ->
  field_given (Some f) = true.
Proof.
  unfold getUniqueIdentifierField.
  destruct collectionId as [[| | | id | |] |]; try discriminate.
  unfold identifierMap. simpl.
  destruct (String.eqb id "packaging_records");
    [intros H; now injection H as <- |].
  destruct (String.eqb id "packaging_items");
    [intros H; now injection H as <- | discriminate].
Qed.

Lemma record_key_fallback (f : string) (doc : object) :
  truthy (get f doc) = false ->
  record_key stringify (Some f) doc
  = Str (stringify (Obj (cleanDocumentData doc))).
Proof.
  intros H. unfold record_key. simpl. now rewrite H, andb_false_r.
Qed.

Lemma record_key_field (f : string) (doc : object) (v : value) :
  field_given (Some f) = true ->
  get f doc = Some v -> truthy (Some v) = true ->
  record_key stringify (Some f) doc = v.
Proof.
  intros Hf Hget Hv. unfold record_key. rewrite Hf. simpl.
  now rewrite Hget, Hv.
Qed.

Lemma existing_keys_has_field (f : string) (docs : list object)
      (doc : object) (v : value) :
  field_given (Some f) = true ->
  In doc docs -> get f doc = Some v ->
  truthy (Some v) = true -> is_scalar v = true ->
  set_has v (existing_keys stringify (Some f) docs []) = true.
Proof.
  intros Hf Hin Hget Hv Hscalar.
  rewrite existing_keys_record_key.
  rewrite <- (record_key_field f doc v Hf Hget Hv).
  apply fold_keys_holds; [exact Hin |].
  now rewrite (record_key_field f doc v).
Qed.

Lemma existing_keys_lacks (f : string) (docs : list object) (c : value) :
  Forall (fun doc => strict_eq c (record_key stringify (Some f) doc) = false)
         docs ->
  set_has c (existing_keys stringify (Some f) docs []) = false.
Proof.
  intros Hall. rewrite existing_keys_record_key.
  pose proof (fold_keys_only (Some f) docs
                (fun x => strict_eq c x = false) Hall [] (Forall_nil _))
    as Hset.
  unfold set_has. apply not_true_is_false. intros Hex.
  apply existsb_exists in Hex as (x & Hin & Hx).
  rewrite Forall_forall in Hset. specialize (Hset x Hin). congruence.
Qed.

End DiffFacts.

(** C10.  For a collection with a configured identifier field [f], the
    key is chosen document by document.  A document, source or
    destination, in which [f] is absent or holds a falsy value is looked
    up, and filed, under the serialization of its sanitized fields; a
    document in which [f] holds a truthy value is looked up under that
    value, and filed under it (found again there when the value is a
    scalar).  The same set thus holds keys of both kinds. *)
Theorem keying_is_per_document (stringify : value -> string)
        (collectionId : option value) (f : string) :
  getUniqueIdentifierField collectionId = Some f ->
  (forall doc existingSet,
      truthy (get f doc) = false ->
      isDocumentMissing stringify doc existingSet (Some f)
      = negb (set_has (Str (stringify (Obj (cleanDocumentData doc))))
                      existingSet)) /\
  (forall doc v existingSet,
      get f doc = Some v -> truthy (Some v) = true ->
      isDocumentMissing stringify doc existingSet (Some f)
      = negb (set_has v existingSet)) /\
  (forall existingDocs doc,
      In doc existingDocs -> truthy (get f doc) = false ->
      set_has (Str (stringify (Obj (cleanDocumentData doc))))
              (existing_keys stringify (Some f) existingDocs []) = true) /\
  (forall existingDocs doc v,
      In doc existingDocs -> get f doc = Some v ->
      truthy (Some v) = true -> is_scalar v = true ->
      set_has v (existing_keys stringify (Some f) existingDocs []) = true).
Proof.
  intros Hconfigured.
  pose proof (configured_field_given _ _ Hconfigured) as Hf.
  repeat split.
  - intros doc set Hfalsy.
    now rewrite isDocumentMissing_record_key, record_key_fallback.
  - intros doc v set Hget Hv.
    now rewrite isDocumentMissing_record_key,
      (record_key_field stringify f doc v).
  - intros docs doc Hin Hfalsy.
    rewrite existing_keys_record_key.
    rewrite <- (record_key_fallback stringify f doc Hfalsy).
    apply fold_keys_holds; [exact Hin |].
    now rewrite record_key_fallback.
  - intros docs doc v Hin Hget Hv Hscalar.
    now apply (existing_keys_has_field stringify f docs doc v).
Qed.

(** C10 on [packaging_records]: of two destination documents, the one
    with waybill number [W1] is filed under [W1] and the one whose waybill
    number is empty under its serialized fields. *)
Lemma keying_is_per_document_witness :
  existing_keys to_json (Some "waybill_number")
                [ waybill "d1" "W1"; unnumbered ] []
  = [ Str "W1"; Str (to_json (Obj (cleanDocumentData unnumbered))) ] /\
  set_has (Str "W1")
          (existing_keys to_json (Some "waybill_number")
                         [ waybill "d1" "W1"; unnumbered ] []) = true /\
  set_has (Str (to_json (Obj (cleanDocumentData unnumbered))))
          (existing_keys to_json (Some "waybill_number")
                         [ waybill "d1" "W1"; unnumbered ] []) = true /\
  isDocumentMissing to_json unnumbered [ Str "W1" ] (Some "waybill_number")
  = negb (set_has (Str (to_json (Obj (cleanDocumentData unnumbered))))
                  [ Str "W1" ]).
Proof.
  destruct (keying_is_per_document to_json (Some (Str "packaging_records"))
              "waybill_number" eq_refl)
    as (Hsource & _ & Hfallback & Hfield).
  split; [reflexivity |]. split; [| split].
  - apply (Hfield _ (waybill "d1" "W1")); try reflexivity. now left.
  - apply Hfallback; [| reflexivity]. right. now left.
  - apply Hsource. reflexivity.
Defined.

Lemma identifier_facts (v : value) :
  identifier v = true -> truthy (Some v) = true /\ is_scalar v = true.
Proof. unfold identifier. intros H. now apply andb_prop in H. Qed.

(** C6.  Let a collection have a configured identifier field [f], let
    the destination serve (in stable pages) documents whose values under
    [f] are the identifiers [a] and [b], both occurring, and let three
    source documents carry [a], [b] and [c] under [f], [c] being another
    identifier.  Then [buildExistingRecordSet] returns a set against
    which [isDocumentMissing] finds the documents keyed [a] and [b]
    present and the document keyed [c] missing: the filter of
    [cloneDatabase] keeps exactly the third. *)
Theorem diff_engine_selects_missing {World : Type}
        (databases : Databases World) (stringify : value -> string)
        (batchSize : Z) (fuel : nat) (destDbId : string)
        (collectionId : option value) (f : string) (a b c : value)
        (existingDocs : list object) (sa sb sc : object)
        (s : state World) :
  getUniqueIdentifierField collectionId = Some f ->
  stable_listing databases (ListDocuments destDbId collectionId) "$id"
                 existingDocs ->
  well_keyed "$id" existingDocs ->
  (0 < batchSize)%Z ->
  (List.length existingDocs / Z.to_nat batchSize < fuel)%nat ->
  identifier a = true -> identifier b = true -> identifier c = true ->
  strict_eq c a = false -> strict_eq c b = false ->
  Forall (fun doc => get f doc = Some a \/ get f doc = Some b) existingDocs ->
  Exists (fun doc => get f doc = Some a) existingDocs ->
  Exists (fun doc => get f doc = Some b) existingDocs ->
  get f sa = Some a -> get f sb = Some b -> get f sc = Some c ->
  exists existingSet s',
    buildExistingRecordSet stringify databases batchSize fuel destDbId
                           collectionId s
    = (Returned (existingSet, Some f), s') /\
    isDocumentMissing stringify sa existingSet (Some f) = false /\
    isDocumentMissing stringify sb existingSet (Some f) = false /\
    isDocumentMissing stringify sc existingSet (Some f) = true /\
    filter (fun doc => isDocumentMissing stringify doc existingSet (Some f))
           [ sa; sb; sc ] = [ sc ].
Proof.
  intros Hconfigured Hstable Hkeyed Hlimit Hfuel Ha Hb Hc Hca Hcb
         Hall Hsome_a Hsome_b Hsa Hsb Hsc.
  pose proof (configured_field_given _ _ Hconfigured) as Hf.
  destruct (identifier_facts a Ha) as [Hta Hsa'].
  destruct (identifier_facts b Hb) as [Htb Hsb'].
  destruct (identifier_facts c Hc) as [Htc Hsc'].
  destruct (fetchAll_stable databases (ListDocuments destDbId collectionId)
              "$id" existingDocs batchSize Hstable Hkeyed Hlimit
              (fun _ _ _ => I) fuel s ltac:(lia))
    as (s' & calls & Hrun & _).
  exists (existing_keys stringify (Some f) existingDocs []), s'.
  unfold buildExistingRecordSet, bind.
  fold (fetchAllDocuments databases batchSize fuel destDbId collectionId)
    in Hrun.
  rewrite Hrun, Hconfigured. simpl.
  assert (Hpresent :
            forall v, identifier v = true ->
                      Exists (fun doc => get f doc = Some v) existingDocs ->
                      set_has v (existing_keys stringify (Some f)
                                               existingDocs []) = true).
  { intros v Hv Hex. destruct (identifier_facts v Hv) as [Htv Hsv].
    apply Exists_exists in Hex as (doc & Hin & Hget).
    now apply (existing_keys_has_field stringify f existingDocs doc v). }
  assert (Habsent : set_has c (existing_keys stringify (Some f)
                                             existingDocs []) = false).
  { apply existing_keys_lacks.
    eapply Forall_impl; [| exact Hall].
    intros doc [Hget | Hget].
    - now rewrite (record_key_field stringify f doc a Hf Hget Hta).
    - now rewrite (record_key_field stringify f doc b Hf Hget Htb). }
  assert (Hma : isDocumentMissing stringify sa
                  (existing_keys stringify (Some f) existingDocs [])
                  (Some f) = false).
  { rewrite isDocumentMissing_record_key,
      (record_key_field stringify f sa a Hf Hsa Hta).
    now rewrite (Hpresent a Ha Hsome_a). }
  assert (Hmb : isDocumentMissing stringify sb
                  (existing_keys stringify (Some f) existingDocs [])
                  (Some f) = false).
  { rewrite isDocumentMissing_record_key,
      (record_key_field stringify f sb b Hf Hsb Htb).
    now rewrite (Hpresent b Hb Hsome_b). }
  assert (Hmc : isDocumentMissing stringify sc
                  (existing_keys stringify (Some f) existingDocs [])
                  (Some f) = true).
  { rewrite isDocumentMissing_record_key,
      (record_key_field stringify f sc c Hf Hsc Htc).
    now rewrite Habsent. }
  split; [reflexivity |]. split; [exact Hma |]. split; [exact Hmb |].
  split; [exact Hmc |].
  cbn [filter]. now rewrite Hma, Hmb, Hmc.
Qed.

Lemma waybills_well_keyed :
  well_keyed "$id" [ waybill "d1" "A"; waybill "d2" "B" ].
Proof.
  split.
  - repeat constructor; eexists; (split; [reflexivity | discriminate]).
  - repeat constructor; simpl; intuition discriminate.
Qed.

(** C6 on [packaging_records]: the destination holds waybills [A] and
    [B], the source [A], [B] and [C]. *)
Lemma diff_engine_selects_missing_witness :
  exists existingSet s',
    buildExistingRecordSet to_json
      (fixed_listing "$id" [ waybill "d1" "A"; waybill "d2" "B" ])
      100 1 "dest" (Some (Str "packaging_records")) start
    = (Returned (existingSet, Some "waybill_number"), s') /\
    isDocumentMissing to_json (waybill "s1" "A") existingSet
                      (Some "waybill_number") = false /\
    isDocumentMissing to_json (waybill "s2" "B") existingSet
                      (Some "waybill_number") = false /\
    isDocumentMissing to_json (waybill "s3" "C") existingSet
                      (Some "waybill_number") = true /\
    filter (fun doc => isDocumentMissing to_json doc existingSet
                                         (Some "waybill_number"))
           [ waybill "s1" "A"; waybill "s2" "B"; waybill "s3" "C" ]
    = [ waybill "s3" "C" ].
Proof.
  apply (diff_engine_selects_missing
           (fixed_listing "$id" [ waybill "d1" "A"; waybill "d2" "B" ])
           to_json 100 1 "dest" (Some (Str "packaging_records"))
           "waybill_number" (Str "A") (Str "B") (Str "C")
           [ waybill "d1" "A"; waybill "d2" "B" ]).
  - reflexivity.
  - intros w limit cursor. reflexivity.
  - exact waybills_well_keyed.
  - reflexivity.
  - vm_compute. lia.
  - reflexivity.
  - reflexivity.
  - reflexivity.
  - reflexivity.
  - reflexivity.
  - repeat constructor; simpl; tauto.
  - constructor. reflexivity.
  - apply Exists_cons_tl. constructor. reflexivity.
  - reflexivity.
  - reflexivity.
  - reflexivity.
Defined.

(** * Further properties of the sanitizer *)

Lemma cleanNestedValue_fixes_stripped (v : value) :
  stripped v = true -> cleanNestedValue systemFields v = v.
Proof.
  induction v as [| | | | items IH | entries IH] using value_nested_ind;
    try reflexivity; intros Hs.
  - simpl. f_equal.
    induction IH as [| x r Hx _ IHr]; simpl in *; [reflexivity |].
    apply andb_prop in Hs as [Hsx Hsr].
    rewrite (IHr Hsr). f_equal.
    destruct x; try reflexivity. now apply Hx.
  - simpl. f_equal.
    induction IH as [| [k x] r Hx _ IHr]; simpl in *; [reflexivity |].
    apply andb_prop in Hs as [Hsx Hsr].
    apply andb_prop in Hsx as [Hk Hsx].
    apply negb_true_iff in Hk. rewrite Hk. simpl.
    now rewrite (Hx Hsx), (IHr Hsr).
Qed.

Lemma stripped_lacks_system_key (key : string) (o : object) :
  includes systemFields key = true ->
  stripped (Obj o) = true -> has_key key o = false.
Proof.
  intros Hkey. unfold has_key.
  induction o as [| [k x] r IH]; [reflexivity |].
  cbn [stripped forallb existsb fst snd]. intros Hs.
  apply andb_prop in Hs as [Hsx Hsr].
  apply andb_prop in Hsx as [Hk _]. apply negb_true_iff in Hk.
  rewrite (IH Hsr), orb_false_r.
  destruct (String.eqb_spec key k) as [<- | Hne]; [| reflexivity].
  congruence.
Qed.

Lemma stripped_not_related (v : value) :
  stripped v = true -> isRelatedDocument v = false.
Proof.
  destruct v as [| | | | l | o]; try reflexivity.
  intros Hs. unfold isRelatedDocument.
  now rewrite (stripped_lacks_system_key "$id" o eq_refl Hs).
Qed.

Lemma cleanFieldValue_fixes_stripped (v : value) :
  stripped v = true -> cleanFieldValue v = v.
Proof.
  intros Hs. destruct v as [| | | | l | o]; try reflexivity.
  - simpl. f_equal.
    induction l as [| x r IH]; simpl in *; [reflexivity |].
    apply andb_prop in Hs as [Hsx Hsr].
    rewrite (IH Hsr). f_equal.
    unfold cleanArrayItem.
    destruct x as [| | | | l' | o']; try reflexivity.
    rewrite (stripped_not_related _ Hsx).
    rewrite <- cleanNestedValue_Obj.
    now apply cleanNestedValue_fixes_stripped.
  - change (cleanFieldValue (Obj o))
      with (if isRelatedDocument (Obj o) then dollar_id (Obj o)
            else Obj (cleanNestedObject o systemFields)).
    rewrite (stripped_not_related _ Hs).
    rewrite <- cleanNestedValue_Obj.
    now apply cleanNestedValue_fixes_stripped.
Qed.

(** X1.  [cleanDocumentData] keeps every property whose key is not one
    of the seven system fields, in the order of the input, and a property
    that holds a scalar (null, boolean, number or string) keeps its
    value. *)
Theorem cleanDocumentData_keeps_user_fields (d : object) :
  map fst (cleanDocumentData d)
  = filter (fun key => negb (includes systemFields key)) (map fst d)
  /\ (forall key v,
         includes systemFields key = false ->
         get key d = Some v -> is_scalar v = true ->
         get key (cleanDocumentData d) = Some v).
Proof.
  split.
  - unfold cleanDocumentData.
    induction d as [| [k x] r IH]; simpl; [reflexivity |].
    destruct (includes systemFields k); simpl; now rewrite IH.
  - intros key v Hkey Hget Hv.
    rewrite get_cleanDocumentData, Hkey, Hget. simpl.
    now destruct v.
Qed.

Lemma cleanDocumentData_keeps_user_fields_witness :
  includes systemFields "total" = false /\
  get "total" (cleanDocumentData order_doc) = Some (Num "30").
Proof.
  split; [reflexivity |].
  apply (proj2 (cleanDocumentData_keeps_user_fields order_doc));
    reflexivity.
Defined.

(** X2.  A document in which no object carries a system field (neither
    the document, nor an object reached through object properties and
    through the object elements of array properties) is returned as it
    is. *)
Theorem cleanDocumentData_fixes_user_data (d : object) :
  stripped (Obj d) = true -> cleanDocumentData d = d.
Proof.
  unfold cleanDocumentData.
  induction d as [| [k x] r IH]; simpl; [reflexivity |].
  intros Hs. apply andb_prop in Hs as [Hsx Hsr].
  apply andb_prop in Hsx as [Hk Hsx]. apply negb_true_iff in Hk.
  rewrite Hk. simpl.
  now rewrite (cleanFieldValue_fixes_stripped _ Hsx), (IH Hsr).
Qed.

Lemma cleanDocumentData_fixes_user_data_witness :
  stripped (Obj plain_doc) = true /\ cleanDocumentData plain_doc = plain_doc.
Proof.
  split; [reflexivity |].
  apply cleanDocumentData_fixes_user_data. reflexivity.
Defined.

(** * Further properties of the paginator *)

Section PaginatorTraces.
Context {World : Type}.
Variable databases : Databases World.

(** The three ways a traversal ends, read on the log. *)
Lemma fetchAllPages_trace (list_call : Z -> option value -> request)
      (limit : Z) (keyName : string) :
  forall fuel collected lastId s,
    let run := fetchAllPages databases fuel list_call limit keyName
                             collected lastId s in
    exists ps,
      Forall (full_page limit) ps /\
      cacheFile (snd run) = cacheFile s /\
      match fst run with
      | Returned items =>
          exists last,
            (Z.of_nat (List.length last) < limit)%Z /\
            log (snd run)
            = log s ++ calls_for list_call limit keyName
                                 (cursor_of lastId) (ps ++ [last]) /\
            items = collected ++ List.concat (ps ++ [last])
      | Thrown m =>
          exists rp,
            log (snd run)
            = log s ++ calls_for list_call limit keyName
                                 (cursor_of lastId) ps
              ++ [Called (list_call limit
                            (cursor_after keyName (cursor_of lastId) ps))
                         rp] /\
            match rp with
            | Failed m' => m = m'
            | Created => m = TypeError
            | Listed l => l = [] /\ (limit <= 0)%Z /\ m = TypeError
            end
      | OutOfFuel =>
          log (snd run)
          = log s ++ calls_for list_call limit keyName (cursor_of lastId) ps
          /\ List.length ps = fuel
      end.
Proof.
  induction fuel as [| fuel IH]; intros collected lastId s run.
  - exists []. subst run. simpl. rewrite app_nil_r. repeat split; constructor.
  - subst run. cbn [fetchAllPages]. rewrite bind_run.
    unfold await. fold (cursor_of lastId).
    destruct (databases (remote s) (list_call limit (cursor_of lastId)))
      as [w rp] eqn:Hrp.
    destruct rp as [m | items |].
    + exists []. cbn. repeat split; [constructor |].
      exists (Failed m). now split.
    + destruct (Z.of_nat (List.length items) <? limit)%Z eqn:Hshort.
      * exists []. cbn. repeat split; [constructor |].
        exists items. repeat split; [now apply Z.ltb_lt | now rewrite app_nil_r].
      * apply Z.ltb_ge in Hshort.
        destruct (nth_error items (List.length items - 1)) as [item |] eqn:Hn.
        -- assert (Hfull : full_page limit items).
           { split; [exact Hshort |]. intros ->. now destruct (0 - 1)%nat. }
           set (s1 := mkState w (cacheFile s)
                        (log s ++ [Called (list_call limit (cursor_of lastId))
                                          (Listed items)])).
           destruct (IH (collected ++ items) (get keyName item) s1)
             as [ps [Hps [Hcache Hout]]].
           exists (items :: ps). split; [now constructor |].
           split; [exact Hcache |].
           assert (Hnext : next_cursor keyName items
                           = cursor_of (get keyName item)).
           { unfold next_cursor. now rewrite Hn. }
           destruct (fst (fetchAllPages databases fuel list_call limit
                            keyName (collected ++ items)
                            (get keyName item) s1)) as [res | m |].
           ++ destruct Hout as [last [Hlast [Hlog Hres]]].
              exists last. split; [exact Hlast |]. split.
              ** rewrite Hlog. subst s1. cbn [log].
                 rewrite <- app_assoc. cbn. now rewrite Hnext.
              ** rewrite Hres. cbn. now rewrite <- app_assoc.
           ++ destruct Hout as [rp [Hlog Hm]].
              exists rp. split; [| exact Hm].
              rewrite Hlog. subst s1. cbn [log].
              rewrite <- !app_assoc. cbn.
              unfold cursor_after. cbn. now rewrite Hnext.
           ++ destruct Hout as [Hlog Hlen]. split.
              ** rewrite Hlog. subst s1. cbn [log].
                 rewrite <- app_assoc. cbn. now rewrite Hnext.
              ** cbn. now rewrite Hlen.
        -- exists []. cbn. repeat split; [constructor |].
           exists (Listed items).
           split; [reflexivity |].
           destruct items as [| x r].
           ++ repeat split. cbn in Hshort. lia.
           ++ exfalso. apply nth_error_None in Hn. cbn in Hn. lia.
    + exists []. cbn. repeat split; [constructor |].
      exists Created. now split.
Qed.

Lemma fetchAll_trace (list_call : Z -> option value -> request)
      (limit : Z) (keyName : string) (fuel : nat) (s : state World) :
  let run := fetchAll databases fuel list_call limit keyName s in
  exists d,
    log (snd run) = log s ++ d /\
    (forall items, fst run = Returned items ->
                   collected_run list_call limit keyName items d) /\
    ((0 < limit)%Z ->
     forall m, fst run = Thrown m ->
               failed_run list_call limit keyName m d) /\
    (forall rq m, In (Called rq (Failed m)) d -> fst run = Thrown m).
Proof.
  intros run. subst run. unfold fetchAll. rewrite bind_run.
  destruct (fetchAllPages_trace list_call limit keyName fuel [] None s)
    as [ps [Hps [_ Hout]]].
  assert (Hin : forall c qs rq m,
             ~ In (Called rq (Failed m))
                  (calls_for list_call limit keyName c qs)).
  { intros c qs. revert c.
    induction qs as [| q r IHq]; intros c rq m; cbn; [tauto |].
    intros [H | H]; [discriminate | now apply IHq in H]. }
  destruct (fetchAllPages databases fuel list_call limit keyName [] None s)
    as [[items | m |] s1]; cbn [fst snd] in *.
  - destruct Hout as [last [Hlast [Hlog Hitems]]].
    exists (calls_for list_call limit keyName None (ps ++ [last])
            ++ [Fetched items]).
    cbn. rewrite Hlog, <- app_assoc.
    split; [reflexivity |]. split; [| split].
    + intros items' [= <-]. exists ps, last. now repeat split.
    + discriminate.
    + intros rq m Hin'. exfalso.
      apply in_app_or in Hin' as [H | [H | []]]; [| discriminate].
      now apply Hin in H.
  - destruct Hout as [rp [Hlog Hm]].
    exists (calls_for list_call limit keyName None ps
            ++ [Called (list_call limit (cursor_after keyName None ps)) rp]).
    split; [exact Hlog |]. split; [discriminate |]. split.
    + intros Hpos m' [= <-]. exists ps, rp. repeat split; [exact Hps |].
      destruct rp as [m' | l |].
      * left. now rewrite Hm.
      * destruct Hm as [_ [Hle _]]. lia.
      * right. now split.
    + intros rq m' Hin'.
      apply in_app_or in Hin' as [H | [H | []]]; [now apply Hin in H |].
      injection H as <- ->. now rewrite Hm.
  - destruct Hout as [Hlog _].
    exists (calls_for list_call limit keyName None ps).
    split; [exact Hlog |]. split; [discriminate |]. split; [discriminate |].
    intros rq m H. now apply Hin in H.
Qed.

End PaginatorTraces.

(** X3.  Whatever the service answers, a paginator that returns has
    received a run of pages of at least the page size followed by one
    shorter page; its first request carried no cursor and every later
    request the key of the last item of the page before (no cursor when
    that key is missing or falsy); and what it returns is these pages put
    end to end, in the order received. *)
Theorem paginator_collects_pages {World : Type}
        (databases : Databases World) (fuel : nat) (s : state World)
        (items : list object) :
  (forall batchSize db coll,
      let run := fetchAllDocuments databases batchSize fuel db coll s in
      fst run = Returned items ->
      exists d, log (snd run) = log s ++ d /\
                collected_run (ListDocuments db coll) batchSize "$id"
                              items d) /\
  (forall db,
      let run := fetchAllCollections databases fuel db s in
      fst run = Returned items ->
      exists d, log (snd run) = log s ++ d /\
                collected_run (ListCollections db) 100 "$id" items d) /\
  (forall db coll,
      let run := fetchAllAttributes databases fuel db coll s in
      fst run = Returned items ->
      exists d, log (snd run) = log s ++ d /\
                collected_run (ListAttributes db coll) 100 "key" items d) /\
  (forall db coll,
      let run := fetchAllIndexes databases fuel db coll s in
      fst run = Returned items ->
      exists d, log (snd run) = log s ++ d /\
                collected_run (ListIndexes db coll) 100 "key" items d).
Proof.
  split; [| split; [| split]].
  - intros batchSize db coll run Hret. subst run.
    unfold fetchAllDocuments in *.
    destruct (fetchAll_trace databases (ListDocuments db coll) batchSize
                             "$id" fuel s) as [d [Hlog [Hcol _]]].
    exists d. split; [exact Hlog | now apply Hcol].
  - intros db run Hret. subst run. unfold fetchAllCollections in *.
    destruct (fetchAll_trace databases (ListCollections db) 100
                             "$id" fuel s) as [d [Hlog [Hcol _]]].
    exists d. split; [exact Hlog | now apply Hcol].
  - intros db coll run Hret. subst run. unfold fetchAllAttributes in *.
    destruct (fetchAll_trace databases (ListAttributes db coll) 100
                             "key" fuel s) as [d [Hlog [Hcol _]]].
    exists d. split; [exact Hlog | now apply Hcol].
  - intros db coll run Hret. subst run. unfold fetchAllIndexes in *.
    destruct (fetchAll_trace databases (ListIndexes db coll) 100
                             "key" fuel s) as [d [Hlog [Hcol _]]].
    exists d. split; [exact Hlog | now apply Hcol].
Qed.

Lemma paginator_collects_pages_witness :
  exists d,
    log (snd (fetchAllDocuments (fixed_listing "$id" three_docs) 2 2
                                "dest" (Some (Str "parcels")) start))
    = log start ++ d /\
    collected_run (ListDocuments "dest" (Some (Str "parcels"))) 2 "$id"
                  three_docs d.
Proof.
  apply (proj1 (paginator_collects_pages (fixed_listing "$id" three_docs)
                  2 start three_docs)).
  reflexivity.
Defined.

(** X4.  With a positive page size, a paginator raises exactly when a
    listing request is rejected (or is answered with something that
    holds no list): the failing request is the last call of the run, the
    exception carries the message of the rejection, the pages received
    before it are dropped, and no rejected request is ever followed by
    another request. *)
Theorem paginator_stops_at_rejection {World : Type}
        (databases : Databases World) (fuel : nat) (s : state World) :
  (forall batchSize db coll,
      (0 < batchSize)%Z ->
      let run := fetchAllDocuments databases batchSize fuel db coll s in
      exists d,
        log (snd run) = log s ++ d /\
        (forall m, fst run = Thrown m ->
                   failed_run (ListDocuments db coll) batchSize "$id" m d) /\
        (forall rq m, In (Called rq (Failed m)) d -> fst run = Thrown m)) /\
  (forall db,
      let run := fetchAllCollections databases fuel db s in
      exists d,
        log (snd run) = log s ++ d /\
        (forall m, fst run = Thrown m ->
                   failed_run (ListCollections db) 100 "$id" m d) /\
        (forall rq m, In (Called rq (Failed m)) d -> fst run = Thrown m)) /\
  (forall db coll,
      let run := fetchAllAttributes databases fuel db coll s in
      exists d,
        log (snd run) = log s ++ d /\
        (forall m, fst run = Thrown m ->
                   failed_run (ListAttributes db coll) 100 "key" m d) /\
        (forall rq m, In (Called rq (Failed m)) d -> fst run = Thrown m)) /\
  (forall db coll,
      let run := fetchAllIndexes databases fuel db coll s in
      exists d,
        log (snd run) = log s ++ d /\
        (forall m, fst run = Thrown m ->
                   failed_run (ListIndexes db coll) 100 "key" m d) /\
        (forall rq m, In (Called rq (Failed m)) d -> fst run = Thrown m)).
Proof.
  split; [| split; [| split]].
  - intros batchSize db coll Hpos run. subst run. unfold fetchAllDocuments.
    destruct (fetchAll_trace databases (ListDocuments db coll) batchSize
                             "$id" fuel s) as [d [Hlog [_ [Hthrow Hrej]]]].
    exists d. split; [exact Hlog |]. split; [now apply Hthrow | exact Hrej].
  - intros db run. subst run. unfold fetchAllCollections.
    destruct (fetchAll_trace databases (ListCollections db) 100
                             "$id" fuel s) as [d [Hlog [_ [Hthrow Hrej]]]].
    exists d. split; [exact Hlog |]. split; [now apply Hthrow | exact Hrej].
  - intros db coll run. subst run. unfold fetchAllAttributes.
    destruct (fetchAll_trace databases (ListAttributes db coll) 100
                             "key" fuel s) as [d [Hlog [_ [Hthrow Hrej]]]].
    exists d. split; [exact Hlog |]. split; [now apply Hthrow | exact Hrej].
  - intros db coll run. subst run. unfold fetchAllIndexes.
    destruct (fetchAll_trace databases (ListIndexes db coll) 100
                             "key" fuel s) as [d [Hlog [_ [Hthrow Hrej]]]].
    exists d. split; [exact Hlog |]. split; [now apply Hthrow | exact Hrej].
Qed.

Lemma paginator_stops_at_rejection_witness :
  (0 < 100)%Z /\
  exists d,
    log (snd (fetchAllDocuments (documents_service true false) 100 3
                                "dest" (Some (Str "parcels")) start))
    = log start ++ d /\
    (forall m,
        fst (fetchAllDocuments (documents_service true false) 100 3
                               "dest" (Some (Str "parcels")) start)
        = Thrown m ->
        failed_run (ListDocuments "dest" (Some (Str "parcels"))) 100 "$id"
                   m d) /\
    (forall rq m,
        In (Called rq (Failed m)) d ->
        fst (fetchAllDocuments (documents_service true false) 100 3
                               "dest" (Some (Str "parcels")) start)
        = Thrown m).
Proof.
  split; [lia |].
  apply (proj1 (paginator_stops_at_rejection (documents_service true false)
                  3 start)).
  lia.
Defined.

(** X5.  [fetchAllDocuments] cannot return when [config.batchSize] is
    zero or negative (a negative [BATCH_SIZE] is taken as it is by
    [parseInt(...) || 100]): no page is shorter than such a page size, so
    the loop goes on until a request fails or an empty page makes it
    raise a [TypeError]. *)
Theorem fetchAllDocuments_needs_positive_batch {World : Type}
        (databases : Databases World) (batchSize : Z) (fuel : nat)
        (db : string) (coll : option value) (s : state World) :
  (batchSize <= 0)%Z ->
  forall items,
    fst (fetchAllDocuments databases batchSize fuel db coll s)
    <> Returned items.
Proof.
  intros Hle items Hret. unfold fetchAllDocuments in Hret.
  destruct (fetchAll_trace databases (ListDocuments db coll) batchSize
                           "$id" fuel s) as [d [_ [Hcol _]]].
  destruct (Hcol items Hret) as [ps [last [_ [_ [_ Hshort]]]]]. lia.
Qed.

Lemma fetchAllDocuments_needs_positive_batch_witness :
  (-5 <= 0)%Z /\
  forall items,
    fst (fetchAllDocuments (fixed_listing "$id" three_docs) (-5) 4
                           "dest" (Some (Str "parcels")) start)
    <> Returned items.
Proof.
  split; [lia |].
  apply fetchAllDocuments_needs_positive_batch. lia.
Defined.

(** * Further properties of the schema replicator *)

Section SchemaMore.
Context {World : Type}.
Variable databases : Databases World.

Lemma calls_for_answered (list_call : Z -> option value -> request)
      (limit : Z) (keyName : string) (ps : list (list object)) :
  forall cursor,
    forallb only_index_creation_fails
            (calls_for list_call limit keyName cursor ps) = true.
Proof.
  induction ps as [| p rest IH]; intros cursor; [reflexivity |].
  cbn [calls_for forallb]. rewrite IH, andb_true_r.
  unfold only_index_creation_fails.
  now destruct (list_call limit cursor).
Qed.

(** A traversal that returns was answered at every request. *)
Lemma fetchAll_answered (list_call : Z -> option value -> request)
      (limit : Z) (keyName : string) (fuel : nat) :
  (forall lim c, is_listing (list_call lim c) = true) ->
  spec (fetchAll databases fuel list_call limit keyName)
       (fun out d =>
          forall items, out = Returned items ->
                        forallb only_index_creation_fails d = true).
Proof.
  intros Hkind.
  eapply spec_of_log; [apply (fetchAll_run databases _ _ _ _ Hkind) |].
  intros s.
  destruct (fetchAll_trace databases list_call limit keyName fuel s)
    as (d & Hlog & Hcol & _).
  exists d. split; [exact Hlog |].
  intros items Hret.
  destruct (Hcol items Hret) as (ps & last & -> & _).
  rewrite forallb_app, calls_for_answered. reflexivity.
Qed.

Lemma poll_answered (fetch : M World (list object)) (key : option value)
      (n : nat) :
  spec fetch (fun out d =>
                forall items, out = Returned items ->
                              forallb only_index_creation_fails d = true) ->
  spec (poll fetch key n)
       (fun out d =>
          forall b, out = Returned b ->
                    forallb only_index_creation_fails d = true).
Proof.
  intros Hfetch. induction n as [| n IH]; cbn [poll].
  - now apply spec_ret.
  - eapply spec_bind; [exact Hfetch | | |]; cbv beta; try discriminate.
    intros items d1 H1. specialize (H1 items eq_refl).
    destruct (reports_available key items).
    + apply spec_ret. intros _ _. now rewrite app_nil_r.
    + unfold sleep.
      eapply spec_bind with (Q1 := fun _ d => d = [Slept 1000]);
        [now apply spec_emit | | |]; cbv beta; try discriminate.
      intros _ d2 ->.
      eapply spec_implies; [exact IH |]. cbv beta.
      intros out d3 H3 b Hb.
      rewrite !forallb_app, H1, (H3 b Hb). reflexivity.
Qed.

Lemma waitForAttribute_answered (fuel : nat) (db : string)
      (coll key : option value) (n : option nat) :
  spec (waitForAttribute databases fuel db coll key n)
       (fun out d =>
          forall b, out = Returned b ->
                    forallb only_index_creation_fails d = true).
Proof.
  apply poll_answered. now apply fetchAll_answered.
Qed.

Lemma waitForIndex_answered (fuel : nat) (db : string)
      (coll key : option value) (n : option nat) :
  spec (waitForIndex databases fuel db coll key n)
       (fun out d =>
          forall b, out = Returned b ->
                    forallb only_index_creation_fails d = true).
Proof.
  apply poll_answered. now apply fetchAll_answered.
Qed.

Lemma createAttribute_spec (db : string) (coll : option value)
      (attribute : object) :
  spec (createAttribute databases db coll attribute)
       (fun out d =>
          exists result,
            out = Returned result /\
            (success result = true ->
             forallb only_index_creation_fails d = true)).
Proof.
  intros s.
  destruct (createAttribute_run databases db coll attribute s)
    as (d & result & Hext & Hout & Hcase).
  exists d. split; [exact Hext |]. exists result. split; [exact Hout |].
  destruct (attribute_call db coll attribute) as [rq |] eqn:Hcall.
  - destruct Hcase as (rp & -> & ->).
    destruct (attribute_call_creation db coll attribute rq Hcall)
      as (method & args & ->).
    now destruct rp.
  - destruct Hcase as [-> ->]. discriminate.
Qed.

Lemma createAttributes_loop_clean (fuel : nat) (db : string)
      (coll : option value) (attributes : list object) :
  forall acc,
    spec (createAttributes_loop databases fuel db coll attributes acc)
         (fun out d =>
            forall t, out = Returned t ->
                      (errorCount acc <= errorCount t)%nat /\
                      (errorCount t = errorCount acc ->
                       forallb only_index_creation_fails d = true)).
Proof.
  induction attributes as [| attribute rest IH]; intros acc;
    cbn [createAttributes_loop].
  - apply spec_ret. intros t [= <-]. now split.
  - destruct (is_child_relationship attribute); [apply IH |].
    eapply spec_bind; [apply createAttribute_spec | | |]; cbv beta.
    2: now intros m d1 (result & Hout & _).
    2: now intros d1 (result & Hout & _).
    intros result d1 (result' & [= <-] & Hclean1).
    destruct (success result).
    + eapply spec_bind; [apply waitForAttribute_answered | | |]; cbv beta;
        try discriminate.
      intros b d2 H2. specialize (H2 b eq_refl).
      eapply spec_implies; [apply IH |]. cbv beta.
      intros out d3 H3 t Ht. destruct (H3 t Ht) as [Hle Hok]. cbn in Hle, Hok.
      split; [exact Hle |]. intros Heq.
      rewrite !forallb_app, (Hclean1 eq_refl), H2, (Hok Heq). reflexivity.
    + eapply spec_implies; [apply IH |]. cbv beta.
      intros out d3 H3 t Ht. destruct (H3 t Ht) as [Hle Hok]. cbn in Hle, Hok.
      split; [lia |]. intros Heq. lia.
Qed.

Lemma createIndex_spec (db : string) (coll : option value)
      (index : object) :
  spec (createIndex databases db coll index)
       (fun out d =>
          forallb only_index_creation_fails d = true /\
          exists result, out = Returned result).
Proof.
  intros s.
  destruct (createIndex_run databases db coll index s) as (rp & Hext & Hout).
  eexists. split; [exact Hext |]. split; [| eexists; exact Hout].
  now destruct rp.
Qed.

Lemma createIndexes_loop_clean (fuel : nat) (db : string)
      (coll : option value) (indexes : list object) :
  forall acc,
    spec (createIndexes_loop databases fuel db coll indexes acc)
         (fun out d =>
            forall t, out = Returned t ->
                      forallb only_index_creation_fails d = true).
Proof.
  induction indexes as [| index rest IH]; intros acc;
    cbn [createIndexes_loop].
  - now apply spec_ret.
  - eapply spec_bind; [apply createIndex_spec | | |]; cbv beta.
    2: now intros m d1 (_ & result & Hout).
    2: now intros d1 (_ & result & Hout).
    intros result d1 (Hclean1 & _).
    destruct (success result).
    + eapply spec_bind; [apply waitForIndex_answered | | |]; cbv beta;
        try discriminate.
      intros b d2 H2. specialize (H2 b eq_refl).
      eapply spec_implies; [apply IH |]. cbv beta.
      intros out d3 H3 t Ht.
      rewrite !forallb_app, Hclean1, H2, (H3 t Ht). reflexivity.
    + eapply spec_implies; [apply IH |]. cbv beta.
      intros out d3 H3 t Ht.
      rewrite !forallb_app, Hclean1, (H3 t Ht). reflexivity.
Qed.

Lemma cloneCollectionIndexes_clean (fuel : nat) (src dst : string)
      (id : option value) (attrResult : tally) :
  spec (cloneCollectionIndexes databases fuel src dst id attrResult)
       (fun out d =>
          forall r, out = Returned r -> structure_success r = true ->
                    forallb only_index_creation_fails d = true /\
                    errorCount attrResult = 0%nat /\
                    attributeErrors r = [] /\
                    structure_error r = None).
Proof.
  unfold cloneCollectionIndexes.
  eapply spec_try_catch
    with (Q1 := fun out d =>
                  forall r, out = Returned r -> structure_success r = true ->
                            forallb only_index_creation_fails d = true /\
                            errorCount attrResult = 0%nat /\
                            attributeErrors r = [] /\
                            structure_error r = None);
    cbv beta;
    try (intros ? ? H; exact H); try (intros ? H; exact H).
  2:{ intros m d1 _. unfold structure_caught. apply spec_ret.
      intros r [= <-]. discriminate. }
  eapply spec_bind;
    [apply (fetchAll_answered (ListIndexes src id) 100 "key" fuel
                              (fun _ _ => eq_refl)) | | |];
    cbv beta; try discriminate.
  intros indexes d1 H1. specialize (H1 indexes eq_refl).
  rewrite createIndexes_guard.
  eapply spec_bind; [apply createIndexes_loop_clean | | |];
    cbv beta; try discriminate.
  intros idxResult d2 H2. specialize (H2 idxResult eq_refl).
  destruct (0 <? errorCount attrResult)%nat eqn:Hcount.
  - apply spec_ret. intros r [= <-]. discriminate.
  - apply spec_ret. intros r [= <-] _. cbn.
    rewrite !forallb_app, H1, H2. apply Nat.ltb_ge in Hcount.
    repeat split. lia.
Qed.

Lemma cloneCollectionStructure_clean (fuel : nat) (src dst : string)
      (collection : object) :
  spec (cloneCollectionStructure databases fuel src dst collection)
       (fun out d =>
          forall r, out = Returned r -> structure_success r = true ->
                    forallb only_index_creation_fails d = true /\
                    attributeErrors r = [] /\
                    structure_error r = None).
Proof.
  unfold cloneCollectionStructure. cbv zeta.
  eapply spec_try_catch
    with (Q1 := fun out d =>
                  forall r, out = Returned r -> structure_success r = true ->
                            forallb only_index_creation_fails d = true /\
                            attributeErrors r = [] /\
                            structure_error r = None);
    cbv beta;
    try (intros ? ? H; exact H); try (intros ? H; exact H).
  2:{ intros m d1 _. unfold structure_caught. apply spec_ret.
      intros r [= <-]. discriminate. }
  eapply spec_bind
    with (Q1 := fun out d =>
                  forall rp, out = Returned rp ->
                             forallb only_index_creation_fails d = true);
    [apply spec_await; intros rp; now destruct rp | | |];
    cbv beta; try discriminate.
  intros rp d0 H0. specialize (H0 rp eq_refl).
  eapply spec_bind;
    [apply (fetchAll_answered (ListAttributes src (get "$id" collection))
                              100 "key" fuel (fun _ _ => eq_refl)) | | |];
    cbv beta; try discriminate.
  intros attributes d1 H1. specialize (H1 attributes eq_refl).
  rewrite createAttributes_guard.
  eapply spec_bind;
    [apply (createAttributes_loop_clean fuel dst (get "$id" collection)
                                        attributes no_tally) | | |];
    cbv beta; try discriminate.
  intros attrResult d2 H2. destruct (H2 attrResult eq_refl) as [_ H2'].
  eapply spec_implies; [apply cloneCollectionIndexes_clean |]. cbv beta.
  intros out d3 H3 r Hr Hsuccess.
  destruct (H3 r Hr Hsuccess) as (Hclean3 & Hcount & Herrors & Herror).
  rewrite !forallb_app, H0, H1, (H2' Hcount), Hclean3. now repeat split.
Qed.

(** The log of [cloneCollectionStructure]: the creation of the
    collection, an attribute part, an index part. *)
Lemma cloneCollectionStructure_shape (fuel : nat) (src dst : string)
      (collection : object) :
  spec (cloneCollectionStructure databases fuel src dst collection)
       (fun out d =>
          exists rp d1 d2,
            d = Called (CreateCollection dst
                          [get "$id" collection; get "name" collection;
                           get "$permissions" collection;
                           get "documentSecurity" collection;
                           get "enabled" collection]) rp :: d1 ++ d2 /\
            forallb attribute_phase d1 = true /\
            forallb index_phase d2 = true /\
            (forall m, rp = Failed m ->
                       d1 = [] /\ d2 = [] /\
                       out = Returned (mkStructure false (Some m) [] []))).
Proof.
  unfold cloneCollectionStructure. cbv zeta.
  set (cc := CreateCollection dst _).
  eapply spec_try_catch
    with (Q1 := fun out d =>
                  exists rp d1 d2,
                    d = Called cc rp :: d1 ++ d2 /\
                    forallb attribute_phase d1 = true /\
                    forallb index_phase d2 = true /\
                    (forall m, rp = Failed m ->
                               d1 = [] /\ d2 = [] /\ out = Thrown m));
    cbv beta.
  - eapply spec_bind
      with (Q1 := fun out d =>
                    exists rp, d = [Called cc rp] /\
                               out = match rp with
                                     | Failed m => Thrown m
                                     | _ => Returned rp
                                     end);
      [apply spec_await; intros rp; now exists rp | | |]; cbv beta.
    + intros rp0 d0 (rp & -> & Hout).
      assert (Hrp : forall m, rp <> Failed m)
        by (intros m ->; discriminate Hout).
      eapply spec_bind;
        [apply (fetchAll_run databases
                  (ListAttributes src (get "$id" collection)) 100 "key" fuel
                  (fun _ _ => eq_refl)) | | |]; cbv beta.
      * intros attributes d1 (Hq1 & _).
        rewrite createAttributes_guard.
        assert (Ha1 : forallb attribute_phase d1 = true)
          by (apply attribute_phase_polling;
              exact (forallb_implies _ _ _ polling_of_quiet Hq1)).
        eapply spec_bind;
          [apply (createAttributes_loop_run databases fuel dst
                    (get "$id" collection) attributes no_tally) | | |];
          cbv beta.
        -- intros attrResult d2 (Ha2 & _).
           intros s.
           destruct (cloneCollectionIndexes_run databases fuel src dst
                       (get "$id" collection) attrResult s)
             as (d3 & Hext3 & Hi3 & _).
           exists d3. split; [exact Hext3 |].
           exists rp, (d1 ++ d2), d3.
           split; [cbn; now rewrite <- !app_assoc |].
           split; [now rewrite forallb_app, Ha1, Ha2 |].
           split; [exact Hi3 |]. intros m Hm. now destruct (Hrp m).
        -- intros m d2 (Ha2 & _).
           exists rp, (d1 ++ d2), [].
           split; [cbn; now rewrite <- !app_assoc, app_nil_r |].
           split; [now rewrite forallb_app, Ha1, Ha2 |].
           split; [reflexivity |]. intros m' Hm. now destruct (Hrp m').
        -- intros d2 (Ha2 & _).
           exists rp, (d1 ++ d2), [].
           split; [cbn; now rewrite <- !app_assoc, app_nil_r |].
           split; [now rewrite forallb_app, Ha1, Ha2 |].
           split; [reflexivity |]. intros m' Hm. now destruct (Hrp m').
      * intros m d1 (Hq1 & _).
        exists rp, d1, [].
        split; [cbn; now rewrite app_nil_r |].
        split; [apply attribute_phase_polling;
                exact (forallb_implies _ _ _ polling_of_quiet Hq1) |].
        split; [reflexivity |]. intros m' Hm. now destruct (Hrp m').
      * intros d1 (Hq1 & _).
        exists rp, d1, [].
        split; [cbn; now rewrite app_nil_r |].
        split; [apply attribute_phase_polling;
                exact (forallb_implies _ _ _ polling_of_quiet Hq1) |].
        split; [reflexivity |]. intros m' Hm. now destruct (Hrp m').
    + intros m d0 (rp & -> & Hout).
      exists rp, [], [].
      split; [reflexivity |]. split; [reflexivity |].
      split; [reflexivity |].
      intros m' ->. injection Hout as ->. now repeat split.
    + intros d0 (rp & -> & Hout). destruct rp; discriminate Hout.
  - intros m d (rp & d1 & d2 & -> & Ha & Hi & Hfailed).
    unfold structure_caught. apply spec_ret.
    exists rp, d1, d2. rewrite app_nil_r.
    split; [reflexivity |]. split; [exact Ha |]. split; [exact Hi |].
    intros m' Hm. destruct (Hfailed m' Hm) as (-> & -> & [= ->]).
    now repeat split.
  - intros r d (rp & d1 & d2 & -> & Ha & Hi & Hfailed).
    exists rp, d1, d2. repeat split; try assumption.
    all: destruct (Hfailed m H) as (? & ? & ?); try assumption.
    discriminate.
  - intros d (rp & d1 & d2 & -> & Ha & Hi & Hfailed).
    exists rp, d1, d2. repeat split; try assumption.
    all: destruct (Hfailed m H) as (? & ? & ?); try assumption.
    discriminate.
Qed.

End SchemaMore.

(** X6.  [cloneCollectionStructure] begins by creating the collection in
    the destination database under the [$id], name, permissions, document
    security and enabled flag of the source collection.  When that call
    is rejected nothing else is attempted and the result is a failure
    carrying the message of the rejection, with no attribute or index
    error.  Otherwise the rest of the run is an attribute part (listings,
    attribute creations and their readiness polls) followed by an index
    part (listings, index creations and their polls): no attribute is
    created once the first index has been. *)
Theorem cloneCollectionStructure_phases {World : Type}
        (databases : Databases World) (fuel : nat)
        (sourceDbId destDbId : string) (collection : object)
        (s : state World) :
  let run := cloneCollectionStructure databases fuel sourceDbId destDbId
                                      collection s in
  exists rp d1 d2,
    log (snd run)
    = log s ++ Called (CreateCollection destDbId
                         [get "$id" collection; get "name" collection;
                          get "$permissions" collection;
                          get "documentSecurity" collection;
                          get "enabled" collection]) rp :: d1 ++ d2 /\
    forallb attribute_phase d1 = true /\
    forallb index_phase d2 = true /\
    (forall m, rp = Failed m ->
               d1 = [] /\ d2 = [] /\
               fst run = Returned (mkStructure false (Some m) [] [])).
Proof.
  intros run. subst run.
  destruct (spec_log _ _ s
              (cloneCollectionStructure_shape databases fuel sourceDbId
                                              destDbId collection))
    as (d & Hlog & rp & d1 & d2 & -> & H).
  now exists rp, d1, d2.
Qed.

Lemma cloneCollectionStructure_phases_witness :
  fst (cloneCollectionStructure refusing_service 1 "source" "dest"
                                parcels start)
  = Returned (mkStructure false (Some "unauthorized") [] []) /\
  List.length (log (snd (cloneCollectionStructure refusing_service 1
                           "source" "dest" parcels start))) = 1%nat.
Proof.
  destruct (cloneCollectionStructure_phases refusing_service 1
              "source" "dest" parcels start)
    as (rp & d1 & d2 & Hlog & _ & _ & Hfailed).
  assert (Hrp : rp = Failed "unauthorized").
  { vm_compute in Hlog. now injection Hlog as <- _. }
  destruct (Hfailed _ Hrp) as (-> & -> & Hout).
  split; [exact Hout |]. now rewrite Hlog.
Defined.

(** X7.  [cloneCollectionStructure] reports a success only for a run in
    which nothing went wrong but index creations: if the result is a
    success, then no call of the run was rejected except index creation
    calls (the collection was created, every listing was answered, the
    readiness polls included, and every attribute creation was accepted),
    and the result carries no error message and no attribute error. *)
Theorem cloneCollectionStructure_success_is_clean {World : Type}
        (databases : Databases World) (fuel : nat)
        (sourceDbId destDbId : string) (collection : object)
        (s : state World) :
  let run := cloneCollectionStructure databases fuel sourceDbId destDbId
                                      collection s in
  exists d,
    log (snd run) = log s ++ d /\
    forall r,
      fst run = Returned r -> structure_success r = true ->
      forallb only_index_creation_fails d = true /\
      attributeErrors r = [] /\
      structure_error r = None.
Proof.
  intros run. subst run.
  exact (spec_log _ _ s
           (cloneCollectionStructure_clean databases fuel sourceDbId
                                           destDbId collection)).
Qed.

Lemma cloneCollectionStructure_success_is_clean_witness :
  forallb only_index_creation_fails
          (log (snd (cloneCollectionStructure
                       (schema_service true false "available") 1
                       "source" "dest" parcels start))) = true /\
  existsb is_failure
          (log (snd (cloneCollectionStructure
                       (schema_service true false "available") 1
                       "source" "dest" parcels start))) = true.
Proof.
  destruct (cloneCollectionStructure_success_is_clean
              (schema_service true false "available") 1
              "source" "dest" parcels start) as (d & Hlog & Hclean).
  destruct (Hclean _ eq_refl eq_refl) as (Hd & _ & _).
  split; [rewrite Hlog; exact Hd | reflexivity].
Defined.

(** * Further properties of the diff engine *)

Section DiffMore.
Variable stringify : value -> string.

Lemma cleanDocumentData_twice (d : object) :
  scalar_identifiers d = true ->
  cleanDocumentData (cleanDocumentData d) = cleanDocumentData d.
Proof.
  unfold cleanDocumentData.
  induction d as [| [k v] rest IH]; simpl; intros Hs; [reflexivity |].
  apply andb_prop in Hs as [Hv Hrest].
  destruct (includes systemFields k) eqn:Hk; simpl.
  - now apply IH.
  - rewrite Hk, IH by assumption. simpl in Hv.
    rewrite cleanFieldValue_idempotent; [reflexivity |].
    destruct v; exact Hv.
Qed.

Lemma cleanDocumentData_user_fields (e : object) :
  cleanDocumentData (user_fields e) = cleanDocumentData e.
Proof.
  unfold cleanDocumentData, user_fields.
  induction e as [| [k v] rest IH]; [reflexivity |].
  cbn [filter flat_map fst].
  destruct (includes systemFields k) eqn:Hk; cbn [negb flat_map app].
  - exact IH.
  - now rewrite Hk, IH.
Qed.

Lemma get_user_fields (key : string) (e : object) :
  includes systemFields key = false ->
  get key (user_fields e) = get key e.
Proof.
  intros Hkey. unfold user_fields.
  induction e as [| [k v] rest IH]; [reflexivity |].
  cbn [filter fst get].
  destruct (includes systemFields k) eqn:Hk; cbn [negb get].
  - rewrite IH. destruct (String.eqb_spec key k) as [-> | Hne];
      [congruence | reflexivity].
  - now rewrite IH.
Qed.

Lemma configured_field_is_user_field (collectionId : option value)
      (f : string) :
  getUniqueIdentifierField collectionId = Some f ->
  includes systemFields f = false.
Proof.
  unfold getUniqueIdentifierField.
  destruct collectionId as [[| | | id | |] |]; try discriminate.
  unfold identifierMap. cbn [lookup].
  destruct (String.eqb id "packaging_records"); [now intros [= <-] |].
  destruct (String.eqb id "packaging_items"); [now intros [= <-] |].
  discriminate.
Qed.

Lemma strict_eq_eq (a b : value) : strict_eq a b = true -> a = b.
Proof.
  destruct a, b; try discriminate; cbn; intros H.
  - reflexivity.
  - apply Bool.eqb_prop in H. now subst.
  - apply String.eqb_eq in H. now subst.
  - apply String.eqb_eq in H. now subst.
Qed.

Lemma set_has_fold_keys (f : option string) (docs : list object)
      (w : value) :
  forall set,
    set_has w (fold_left (fun acc doc =>
                            set_add (record_key stringify f doc) acc)
                         docs set)
    = set_has w set
      || existsb (fun e => strict_eq w (record_key stringify f e)) docs.
Proof.
  induction docs as [| e rest IH]; intros set; cbn [fold_left existsb].
  - now rewrite orb_false_r.
  - rewrite IH, set_has_add, <- orb_assoc.
    destruct (strict_eq w (record_key stringify f e)) eqn:Heq;
      [| now rewrite andb_false_r].
    rewrite andb_true_r. apply strict_eq_eq in Heq. subst w.
    now destruct (set_has (record_key stringify f e) set).
Qed.

Lemma record_key_of_copy (collectionId : option value) (d e : object) :
  scalar_identifiers d = true ->
  (forall v, field_of (getUniqueIdentifierField collectionId) d = Some v ->
             is_scalar v = true) ->
  user_fields e = cleanDocumentData d ->
  record_key stringify (getUniqueIdentifierField collectionId) e
  = record_key stringify (getUniqueIdentifierField collectionId) d.
Proof.
  intros Hids Hscalar Hcopy. unfold record_key.
  assert (Hclean : cleanDocumentData e = cleanDocumentData d).
  { rewrite <- cleanDocumentData_user_fields, Hcopy.
    now apply cleanDocumentData_twice. }
  destruct (getUniqueIdentifierField collectionId) as [f |] eqn:Hf;
    [| cbn; now rewrite Hclean].
  pose proof (configured_field_is_user_field collectionId f Hf) as Huser.
  assert (Hfield : get f e = get f d).
  { rewrite <- (get_user_fields f e Huser), Hcopy, get_cleanDocumentData,
      Huser.
    destruct (get f d) as [v |] eqn:Hget; [| reflexivity].
    specialize (Hscalar v Hget). cbn. now destruct v. }
  cbn [field_of]. now rewrite Hfield, Hclean.
Qed.

End DiffMore.

(** X8.  A document that was cloned earlier is found again.  Let [d] be
    a source document whose relationship identifiers are scalars and
    whose identifier field, if the collection has one and the document
    carries it, holds a scalar.  If the destination holds a document
    whose properties other than system fields are the sanitized fields
    of [d] (what [createDocument] was given for [d]), then [d] is not
    missing from the set built from the destination. *)
Theorem cloned_document_is_found (stringify : value -> string)
        (collectionId : option value) (d e : object)
        (existingDocs : list object) :
  let identifierField := getUniqueIdentifierField collectionId in
  scalar_identifiers d = true ->
  (forall v, field_of identifierField d = Some v -> is_scalar v = true) ->
  user_fields e = cleanDocumentData d ->
  In e existingDocs ->
  isDocumentMissing stringify d
    (existing_keys stringify identifierField existingDocs [])
    identifierField = false.
Proof.
  intros identifierField Hids Hscalar Hcopy Hin. subst identifierField.
  rewrite isDocumentMissing_record_key, existing_keys_record_key.
  rewrite set_has_fold_keys. cbn [set_has existsb orb].
  apply negb_false_iff, existsb_exists. exists e. split; [exact Hin |].
  rewrite (record_key_of_copy stringify collectionId d e Hids Hscalar Hcopy).
  apply strict_eq_refl. unfold record_key.
  destruct (field_given (getUniqueIdentifierField collectionId)
            && truthy (field_of (getUniqueIdentifierField collectionId) d));
    [| reflexivity].
  destruct (field_of (getUniqueIdentifierField collectionId) d) as [v |]
    eqn:Hv; [now apply Hscalar | reflexivity].
Qed.

Lemma cloned_document_is_found_witness :
  scalar_identifiers order_doc = true /\
  user_fields order_copy = cleanDocumentData order_doc /\
  isDocumentMissing to_json order_doc
    (existing_keys to_json (getUniqueIdentifierField (Some (Str "orders")))
                   [ plain_doc; order_copy ] [])
    (getUniqueIdentifierField (Some (Str "orders"))) = false.
Proof.
  split; [reflexivity |]. split; [reflexivity |].
  apply (cloned_document_is_found to_json (Some (Str "orders"))
           order_doc order_copy [ plain_doc; order_copy ]).
  - reflexivity.
  - discriminate.
  - reflexivity.
  - right. now left.
Defined.

(** X9.  For a collection that has no configured identifier field, a
    document is missing exactly when no document of the destination has
    the same serialization of its sanitized fields: the system fields of
    either document play no part in the comparison. *)
Theorem unconfigured_collection_compares_fields
        (stringify : value -> string) (collectionId : option value)
        (doc : object) (existingDocs : list object) :
  getUniqueIdentifierField collectionId = None ->
  isDocumentMissing stringify doc
    (existing_keys stringify (getUniqueIdentifierField collectionId)
                   existingDocs [])
    (getUniqueIdentifierField collectionId)
  = negb (existsb
            (fun e => String.eqb
                        (stringify (Obj (cleanDocumentData doc)))
                        (stringify (Obj (cleanDocumentData e))))
            existingDocs).
Proof.
  intros ->.
  rewrite isDocumentMissing_record_key, existing_keys_record_key.
  rewrite set_has_fold_keys. reflexivity.
Qed.

Lemma unconfigured_collection_compares_fields_witness :
  getUniqueIdentifierField (Some (Str "orders")) = None /\
  isDocumentMissing to_json order_doc
    (existing_keys to_json (getUniqueIdentifierField (Some (Str "orders")))
                   [ plain_doc ] [])
    (getUniqueIdentifierField (Some (Str "orders")))
  = negb (existsb
            (fun e => String.eqb
                        (to_json (Obj (cleanDocumentData order_doc)))
                        (to_json (Obj (cleanDocumentData e))))
            [ plain_doc ]).
Proof.
  split; [reflexivity |].
  apply unconfigured_collection_compares_fields. reflexivity.
Defined.

(** X10.  A document whose configured identifier field holds an object
    or an array (the expansion of a related document, for one) is always
    found missing, whatever the destination holds: the set is searched
    for that very object, and no object of another response is it. *)
Theorem object_identifier_is_always_missing (stringify : value -> string)
        (collectionId : option value) (f : string) (doc : object)
        (v : value) (existingSet : list value) :
  getUniqueIdentifierField collectionId = Some f ->
  get f doc = Some v -> is_scalar v = false ->
  isDocumentMissing stringify doc existingSet (Some f) = true.
Proof.
  intros Hf Hget Hv. unfold isDocumentMissing.
  rewrite (configured_field_given collectionId f Hf).
  cbn [field_of andb]. rewrite Hget.
  assert (Hnone : set_has v existingSet = false).
  { unfold set_has. induction existingSet as [| x r IH]; [reflexivity |].
    cbn [existsb]. rewrite IH. now destruct v. }
  destruct v; try discriminate; cbn [truthy]; now rewrite Hnone.
Qed.

Lemma object_identifier_is_always_missing_witness :
  isDocumentMissing to_json expanded_item
    (existing_keys to_json (Some "packaging_record_id") [ expanded_item ] [])
    (Some "packaging_record_id") = true.
Proof.
  apply (object_identifier_is_always_missing to_json
           (Some (Str "packaging_items")) "packaging_record_id"
           expanded_item
           (Obj [ ("$id", Str "r1");
                  ("$collectionId", Str "packaging_records") ])).
  - reflexivity.
  - reflexivity.
  - reflexivity.
Defined.

(** * Further properties of the orchestrator *)

Section Permissions.
Context {World : Type}.
Variable databases : Databases World.
Variable p : event -> bool.
Hypothesis p_fetched : forall items, p (Fetched items) = true.

Lemma always_fetchAllPages (list_call : Z -> option value -> request)
      (limit : Z) (keyName : string) :
  (forall lim c rp, p (Called (list_call lim c) rp) = true) ->
  forall fuel collected lastId,
    always p (fetchAllPages databases fuel list_call limit keyName
                            collected lastId).
Proof.
  intros Hp. induction fuel as [| fuel IH]; intros collected lastId;
    cbn [fetchAllPages].
  - apply always_out_of_fuel.
  - apply always_bind; [apply always_await; intros rp; apply Hp |].
    intros [m | items |]; try apply always_throw.
    destruct (Z.of_nat (List.length items) <? limit)%Z;
      [apply always_ret |].
    destruct (nth_error items (List.length items - 1));
      [apply IH | apply always_throw].
Qed.

Lemma always_fetchAll (list_call : Z -> option value -> request)
      (limit : Z) (keyName : string) (fuel : nat) :
  (forall lim c rp, p (Called (list_call lim c) rp) = true) ->
  always p (fetchAll databases fuel list_call limit keyName).
Proof.
  intros Hp. unfold fetchAll.
  apply always_bind; [now apply always_fetchAllPages |].
  intros items. apply always_bind; [| intros _; apply always_ret].
  apply always_emit; [reflexivity | apply p_fetched].
Qed.

Lemma always_poll (fetch : M World (list object)) (key : option value)
      (n : nat) :
  p (Slept 1000) = true -> always p fetch -> always p (poll fetch key n).
Proof.
  intros Hsleep Hfetch. induction n as [| n IH]; cbn [poll].
  - apply always_ret.
  - apply always_bind; [exact Hfetch |]. intros items.
    destruct (reports_available key items); [apply always_ret |].
    apply always_bind; [| intros _; exact IH].
    now apply always_emit.
Qed.

Section Structure.
Variables src dst : string.
Hypothesis p_sleep : p (Slept 1000) = true.
Hypothesis p_attributes :
  forall db coll lim c rp,
    db = src \/ db = dst -> p (Called (ListAttributes db coll lim c) rp) = true.
Hypothesis p_indexes :
  forall db coll lim c rp,
    db = src \/ db = dst -> p (Called (ListIndexes db coll lim c) rp) = true.
Hypothesis p_collection :
  forall args rp, p (Called (CreateCollection dst args) rp) = true.
Hypothesis p_attribute :
  forall method coll args rp,
    p (Called (CreateAttribute method dst coll args) rp) = true.
Hypothesis p_index :
  forall coll args rp, p (Called (CreateIndex dst coll args) rp) = true.

Lemma always_createAttributes_loop (fuel : nat) (coll : option value)
      (attributes : list object) :
  forall acc,
    always p (createAttributes_loop databases fuel dst coll attributes acc).
Proof.
  induction attributes as [| attribute rest IH]; intros acc;
    cbn [createAttributes_loop].
  - apply always_ret.
  - destruct (is_child_relationship attribute); [apply IH |].
    apply always_bind.
    + unfold createAttribute.
      apply always_try_catch; [| intros m; apply always_ret].
      destruct (attribute_call dst coll attribute) as [rq |] eqn:Hcall;
        [| apply always_ret].
      destruct (attribute_call_creation dst coll attribute rq Hcall)
        as (method & args & ->).
      apply always_bind; [| intros _; apply always_ret].
      apply always_await. intros rp. apply p_attribute.
    + intros result. destruct (success result); [| apply IH].
      apply always_bind; [| intros _; apply IH].
      apply always_poll; [exact p_sleep |].
      apply always_fetchAll. intros lim c rp. apply p_attributes. now right.
Qed.

Lemma always_createIndexes_loop (fuel : nat) (coll : option value)
      (indexes : list object) :
  forall acc,
    always p (createIndexes_loop databases fuel dst coll indexes acc).
Proof.
  induction indexes as [| index rest IH]; intros acc;
    cbn [createIndexes_loop].
  - apply always_ret.
  - apply always_bind.
    + unfold createIndex, index_call.
      apply always_try_catch; [| intros m; apply always_ret].
      apply always_bind; [| intros _; apply always_ret].
      apply always_await. intros rp. apply p_index.
    + intros result. destruct (success result); [| apply IH].
      apply always_bind; [| intros _; apply IH].
      apply always_poll; [exact p_sleep |].
      apply always_fetchAll. intros lim c rp. apply p_indexes. now right.
Qed.

Lemma always_cloneCollectionStructure (fuel : nat) (collection : object) :
  always p (cloneCollectionStructure databases fuel src dst collection).
Proof.
  unfold cloneCollectionStructure. cbv zeta.
  apply always_try_catch; [| intros m; apply always_ret].
  apply always_bind;
    [apply always_await; intros rp; apply p_collection |].
  intros _. apply always_bind.
  { apply always_fetchAll. intros lim c rp. apply p_attributes. now left. }
  intros attributes. apply always_bind.
  { rewrite createAttributes_guard. apply always_createAttributes_loop. }
  intros attrResult. unfold cloneCollectionIndexes.
  apply always_try_catch; [| intros m; apply always_ret].
  apply always_bind.
  { apply always_fetchAll. intros lim c rp. apply p_indexes. now left. }
  intros indexes. apply always_bind.
  { rewrite createIndexes_guard. apply always_createIndexes_loop. }
  intros idxResult.
  destruct (0 <? errorCount attrResult)%nat; apply always_ret.
Qed.

Lemma always_substring_of (name : option value) :
  always p (@substring_of World name).
Proof.
  unfold substring_of.
  destruct name as [[| | | name | |] |];
    apply always_ret || apply always_throw.
Qed.

Lemma always_clone_structures (fuel : nat) (collections : list object) :
  forall r,
    always p (clone_structures databases fuel src dst collections r).
Proof.
  induction collections as [| collection rest IH]; intros r;
    cbn [clone_structures].
  - apply always_ret.
  - apply always_bind; [apply always_substring_of | intros _].
    apply always_bind; [apply always_cloneCollectionStructure |].
    intros result. apply IH.
Qed.

End Structure.

Section Documents.
Variable stringify : value -> string.
Variable batchSize : Z.

Lemma always_fetch_documents (fuel : nat) (src : string)
      (collections : list object) :
  (forall coll lim c rp,
      p (Called (ListDocuments src coll lim c) rp) = true) ->
  forall acc,
    always p (fetch_documents databases batchSize fuel src collections acc).
Proof.
  intros Hp. induction collections as [| collection rest IH]; intros acc;
    cbn [fetch_documents].
  - apply always_ret.
  - apply always_bind; [| intros docs; apply IH].
    apply always_fetchAll. intros lim c rp. apply Hp.
Qed.

Lemma always_build_queue (fuel : nat) (dst : string) (missingOnly : bool)
      (collections : list collection_docs) :
  (missingOnly = true ->
   forall coll lim c rp,
     p (Called (ListDocuments dst coll lim c) rp) = true) ->
  forall queue skipped,
    always p (build_queue databases stringify batchSize fuel dst
                          missingOnly collections queue skipped).
Proof.
  intros Hp. induction collections as [| collData rest IH];
    intros queue skipped; cbn [build_queue].
  - apply always_ret.
  - destruct missingOnly; [| apply IH].
    apply always_bind.
    + unfold buildExistingRecordSet.
      apply always_bind; [| intros docs; apply always_ret].
      apply always_fetchAll. intros lim c rp. now apply Hp.
    + intros [existingSet identifierField]. apply IH.
Qed.

Lemma always_insert_documents (dst : string) (coll name : option value)
      (documents : list object) :
  (forall data rp, p (Called (CreateDocument dst coll data) rp) = true) ->
  forall r,
    always p (insert_documents databases dst coll name documents r).
Proof.
  intros Hp. induction documents as [| document rest IH]; intros r;
    cbn [insert_documents].
  - apply always_ret.
  - cbv zeta. apply always_bind; [| intros r'; apply IH].
    apply always_try_catch; [| intros m; apply always_ret].
    apply always_bind; [| intros _; apply always_ret].
    apply always_await. intros rp. apply Hp.
Qed.

Lemma always_process_queue (dst : string) (queue : list collection_docs) :
  (forall coll data rp,
      p (Called (CreateDocument dst coll data) rp) = true) ->
  forall r, always p (process_queue databases dst queue r).
Proof.
  intros Hp. induction queue as [| q rest IH]; intros r;
    cbn [process_queue].
  - apply always_ret.
  - destruct (List.length (documents q) =? 0)%nat; [apply IH |].
    apply always_bind; [| intros _].
    { unfold substring_of.
      destruct (collectionName q) as [[| | | name | |] |];
        apply always_ret || apply always_throw. }
    apply always_bind; [| intros r'; apply IH].
    apply always_insert_documents. intros data rp. apply Hp.
Qed.

End Documents.

Lemma always_clock (now : World -> string) : always p (clock now).
Proof. intros s. exists []. split; [apply extends_refl | reflexivity]. Qed.

Lemma always_writeCacheFile (data : value) :
  p (CacheWritten data) = true -> always p (@writeCacheFile World data).
Proof.
  intros Hp s. exists [CacheWritten data].
  split; [now split |]. cbn. now rewrite Hp.
Qed.

Lemma always_readCacheFile :
  p CacheRead = true -> always p (@readCacheFile World).
Proof.
  intros Hp s. unfold readCacheFile.
  destruct (cacheFile s) as [data |] eqn:Hc.
  - exists [CacheRead]. split; [now split |]. cbn. now rewrite Hp.
  - exists []. split; [apply extends_refl | reflexivity].
Qed.

Lemma always_deleteCacheFile :
  p CacheDeleted = true -> always p (@deleteCacheFile World).
Proof.
  intros Hp s. unfold deleteCacheFile.
  destruct (cacheFile s) as [data |] eqn:Hc.
  - exists [CacheDeleted]. split; [now split |]. cbn. now rewrite Hp.
  - exists []. split; [apply extends_refl | reflexivity].
Qed.

End Permissions.

Section PermittedRuns.
Context {World : Type}.
Variable databases : Databases World.
Variable now : World -> string.
Variable stringify : value -> string.
Variable batchSize : Z.

Lemma cloneDatabase_permitted (fuel : nat) (src dst : string)
      (cloneStructure cloneData missingOnly : bool) :
  always (permitted src dst cloneStructure cloneData missingOnly)
         (cloneDatabase databases now stringify batchSize fuel src dst
                        cloneStructure cloneData missingOnly).
Proof.
  set (p := permitted src dst cloneStructure cloneData missingOnly).
  assert (Hfetched : forall items, p (Fetched items) = true)
    by reflexivity.
  unfold cloneDatabase.
  apply always_bind.
  { apply always_fetchAll; [exact Hfetched |].
    intros lim c rp. cbn. apply String.eqb_refl. }
  intros collections.
  destruct (List.length collections =? 0)%nat; [apply always_ret |].
  apply always_bind.
  { destruct cloneStructure eqn:Hstructure; [| apply always_ret].
    apply always_clone_structures; try exact Hfetched; subst p; cbn;
      intros; rewrite ?String.eqb_refl; try reflexivity.
    all: match goal with
         | H : _ \/ _ |- _ => destruct H as [-> | ->]
         end; now rewrite String.eqb_refl, ?orb_true_r. }
  intros r.
  destruct (cloneData || missingOnly) eqn:Hdata; [| apply always_ret].
  apply always_bind.
  { apply always_fetch_documents; [exact Hfetched |].
    intros coll lim c rp. subst p. cbn.
    now rewrite Hdata, String.eqb_refl. }
  intros collectionDocs.
  apply always_bind; [apply always_clock |]. intros fetchedAt.
  apply always_bind.
  { apply always_writeCacheFile. subst p. cbn. exact Hdata. }
  intros _. apply always_bind.
  { apply always_readCacheFile. subst p. cbn. exact Hdata. }
  intros cachedData.
  destruct (read_collections cachedData) as [cachedCollections |];
    [| apply always_throw].
  apply always_bind.
  { apply always_build_queue; [exact Hfetched |].
    intros -> coll lim c rp. subst p. cbn.
    now rewrite String.eqb_refl, orb_true_r. }
  intros [processQueue skipped].
  apply always_bind.
  { destruct (0 <? docs_to_process processQueue)%nat; [| apply always_ret].
    apply always_process_queue.
    intros coll data rp. subst p. cbn. now rewrite Hdata, String.eqb_refl. }
  intros r'. apply always_bind; [| intros _; apply always_ret].
  apply always_deleteCacheFile. subst p. cbn. exact Hdata.
Qed.

End PermittedRuns.

(** ** Counting collections and documents *)

Section Accounting.
Context {World : Type}.
Variable databases : Databases World.
Variable now : World -> string.
Variable stringify : value -> string.
Variable batchSize : Z.

Lemma docs_to_process_from (queue : list collection_docs) :
  forall n,
    fold_left (fun n q => (n + List.length (documents q))%nat) queue n
    = (n + docs_to_process queue)%nat.
Proof.
  unfold docs_to_process.
  induction queue as [| q rest IH]; intros n; cbn [fold_left]; [lia |].
  rewrite IH, (IH (0 + _)%nat). lia.
Qed.

Lemma docs_to_process_cons (q : collection_docs)
      (queue : list collection_docs) :
  docs_to_process (q :: queue)
  = (List.length (documents q) + docs_to_process queue)%nat.
Proof.
  unfold docs_to_process at 1. cbn [fold_left].
  now rewrite docs_to_process_from.
Qed.

Lemma docs_to_process_app (queue : list collection_docs)
      (q : collection_docs) :
  docs_to_process (queue ++ [q])
  = (docs_to_process queue + List.length (documents q))%nat.
Proof.
  unfold docs_to_process at 1. rewrite fold_left_app. cbn [fold_left].
  now rewrite docs_to_process_from.
Qed.

Lemma error_entries_add (name : option value)
      (entry : option value * string) (groups : document_errors) :
  error_entries (add_document_error name entry groups)
  = S (error_entries groups).
Proof.
  induction groups as [| [n entries] rest IH]; [reflexivity |].
  cbn [add_document_error].
  destruct (strict_eq_opt n name); cbn [error_entries fold_right snd].
  - rewrite length_app. cbn. fold (error_entries rest). lia.
  - fold (error_entries (add_document_error name entry rest)).
    fold (error_entries rest). rewrite IH. lia.
Qed.

Lemma written_documents_app (d1 d2 : list event) :
  written_documents (d1 ++ d2)
  = (written_documents d1 + written_documents d2)%nat.
Proof.
  induction d1 as [| e d1 IH]; [reflexivity |].
  cbn. fold (written_documents (d1 ++ d2)). fold (written_documents d1).
  rewrite IH. destruct e; lia.
Qed.

Lemma written_documents_none (d : list event) :
  forallb (fun e => negb (is_cache_event e)) d = true ->
  written_documents d = 0%nat.
Proof.
  induction d as [| e d IH]; [reflexivity |].
  cbn [forallb]. intros H. apply andb_prop in H as [He Hd].
  cbn. fold (written_documents d). rewrite (IH Hd).
  now destruct e.
Qed.

Lemma structural_not_cache (d : list event) :
  forallb structural d = true ->
  forallb (fun e => negb (is_cache_event e)) d = true.
Proof.
  apply forallb_implies. intros e He. unfold structural in He.
  now apply andb_prop in He as [He _].
Qed.

Lemma creations_quiet (d : list event) :
  forallb quiet d = true -> filter is_document_creation d = [].
Proof.
  apply filter_none. intros e He. destruct e as [rq rp | | | | |];
    try reflexivity.
  now destruct rq.
Qed.

Lemma creations_structural (d : list event) :
  forallb structural d = true -> filter is_document_creation d = [].
Proof.
  apply filter_none. intros e He. unfold structural in He.
  apply andb_prop in He as [_ He]. now apply negb_true_iff in He.
Qed.

Lemma creations_all (d : list event) :
  forallb is_document_creation d = true ->
  filter is_document_creation d = d.
Proof.
  induction d as [| e d IH]; [reflexivity |]. cbn.
  intros H. apply andb_prop in H as [He Hd]. now rewrite He, (IH Hd).
Qed.

Lemma structures_counted_refl (r : results) : structures_counted 0 r r.
Proof. unfold structures_counted. repeat split; lia. Qed.

Lemma documents_counted_refl (r : results) : documents_counted 0 r r.
Proof. unfold documents_counted. repeat split; lia. Qed.

Lemma documents_counted_trans (n m : nat) (r r1 r2 : results) :
  documents_counted n r r1 -> documents_counted m r1 r2 ->
  documents_counted (n + m) r r2.
Proof.
  unfold documents_counted.
  intros (H1 & H2 & H3 & H4 & H5 & H6 & H7)
         (K1 & K2 & K3 & K4 & K5 & K6 & K7).
  repeat split; try congruence; lia.
Qed.

Lemma clone_structures_counted (fuel : nat) (src dst : string)
      (collections : list object) :
  forall r,
    spec (clone_structures databases fuel src dst collections r)
         (fun out d =>
            forall r', out = Returned r' ->
                       structures_counted (List.length collections) r r').
Proof.
  induction collections as [| collection rest IH]; intros r;
    cbn [clone_structures].
  - apply spec_ret. intros r' [= <-]. apply structures_counted_refl.
  - eapply spec_bind with (Q1 := fun _ _ => True);
      [eapply spec_implies; [apply substring_of_run | easy] | | |];
      cbv beta; try discriminate.
    intros _ d0 _.
    eapply spec_bind with (Q1 := fun _ _ => True);
      [eapply spec_implies;
       [apply (cloneCollectionStructure_run databases) | easy] | | |];
      cbv beta; try discriminate.
    intros result d1 _.
    eapply spec_implies; [apply IH |]. cbv beta.
    intros out d2 H r' Hr'. specialize (H r' Hr').
    unfold structures_counted in *.
    destruct H as (H1 & H2 & H3 & H4 & H5 & H6 & H7).
    destruct (structure_success result);
      [unfold structure_succeeded in * | unfold structure_failed in *];
      cbn [documents_success documents_failed documents_skipped
           documents_errors collections_success collections_failed
           collections_errors collections_attributeErrors List.length] in *;
      rewrite ?length_app in *; cbn [List.length] in *.
    + repeat split; try assumption; lia.
    + repeat split; try assumption; try lia.
      destruct (0 <? List.length (attributeErrors result))%nat;
        cbn [List.length] in *; lia.
Qed.

Lemma insert_documents_counted (dst : string) (coll name : option value)
      (documents : list object) :
  forall r,
    spec (insert_documents databases dst coll name documents r)
         (fun out d =>
            forall r', out = Returned r' ->
                       documents_counted (List.length documents) r r').
Proof.
  induction documents as [| document rest IH]; intros r;
    cbn [insert_documents].
  - apply spec_ret. intros r' [= <-]. apply documents_counted_refl.
  - cbv zeta.
    eapply spec_bind
      with (Q1 := fun out _ =>
                    forall r1, out = Returned r1 -> documents_counted 1 r r1);
      cbv beta; try discriminate.
    + eapply spec_try_catch with (Q1 := fun out _ =>
                    forall r1, out = Returned r1 -> documents_counted 1 r r1);
        cbv beta.
      * eapply spec_bind with (Q1 := fun _ _ => True);
          [apply spec_await; easy | | |]; cbv beta; try discriminate.
        intros _ d1 _. apply spec_ret. intros r1 [= <-].
        unfold documents_counted, document_succeeded. cbn.
        repeat split; lia.
      * intros m d1 _. apply spec_ret. intros r1 [= <-].
        unfold documents_counted, document_failed. cbn.
        rewrite error_entries_add. repeat split; lia.
      * intros a d1 H. exact H.
      * intros d1 H. exact H.
    + intros r1 d1 H1. specialize (H1 r1 eq_refl).
      eapply spec_implies; [apply IH |]. cbv beta.
      intros out d2 H2 r' Hr'.
      exact (documents_counted_trans 1 _ _ _ _ H1 (H2 r' Hr')).
Qed.

Lemma process_queue_counted (dst : string) (queue : list collection_docs) :
  forall r,
    spec (process_queue databases dst queue r)
         (fun out d =>
            forallb is_document_creation d = true /\
            forall r', out = Returned r' ->
                       List.length d = docs_to_process queue /\
                       documents_counted (docs_to_process queue) r r').
Proof.
  induction queue as [| q rest IH]; intros r; cbn [process_queue].
  - apply spec_ret. split; [reflexivity |]. intros r' [= <-].
    repeat split. apply documents_counted_refl.
  - rewrite docs_to_process_cons.
    destruct (List.length (documents q) =? 0)%nat eqn:Hlen.
    + apply Nat.eqb_eq in Hlen. rewrite Hlen. apply IH.
    + eapply spec_bind; [apply substring_of_run | | |]; cbv beta.
      2: now intros m d0 [-> _].
      2: now intros d0 [-> _].
      intros [] d0 [-> _]. cbn [app].
      eapply spec_bind;
        [apply (spec_conj _ _ _
                  (insert_documents_run databases dst (collectionId q)
                     (collectionName q) (documents q) r)
                  (insert_documents_counted dst (collectionId q)
                     (collectionName q) (documents q) r)) | | |];
        cbv beta.
      * intros r1 d1 [(Hc1 & Hlen1 & _) H1]. specialize (H1 r1 eq_refl).
        eapply spec_implies; [apply IH |]. cbv beta.
        intros out d2 (Hc2 & Hret2).
        split; [now rewrite forallb_app, Hc1, Hc2 |].
        intros r' Hout. destruct (Hret2 r' Hout) as (Hlen2 & H2).
        split; [rewrite length_app; lia |].
        exact (documents_counted_trans _ _ _ _ _ H1 H2).
      * intros m d1 [(_ & _ & r' & Hout & _) _]. discriminate.
      * intros d1 [(_ & _ & r' & Hout & _) _]. discriminate.
Qed.

Lemma build_queue_counted (fuel : nat) (dst : string) (missingOnly : bool)
      (collections : list collection_docs) :
  forall queue skipped,
    spec (build_queue databases stringify batchSize fuel dst missingOnly
                      collections queue skipped)
         (fun out d =>
            forall queue' skipped',
              out = Returned (queue', skipped') ->
              (docs_to_process queue' + skipped'
               = docs_to_process queue + skipped
                 + docs_to_process collections)%nat /\
              (missingOnly = false -> skipped' = skipped)).
Proof.
  induction collections as [| collData rest IH]; intros queue skipped;
    cbn [build_queue].
  - apply spec_ret. intros queue' skipped' [= <- <-].
    unfold docs_to_process at 3. cbn. split; [lia | reflexivity].
  - rewrite docs_to_process_cons. destruct missingOnly.
    + eapply spec_bind with (Q1 := fun _ _ => True); cbv beta;
        try discriminate.
      * unfold buildExistingRecordSet.
        eapply spec_implies;
          [apply (always_bind (fun _ => true)) |]; try easy.
        -- apply always_fetchAll; easy.
        -- intros docs. apply always_ret.
      * intros [existingSet identifierField] d1 _.
        eapply spec_implies; [apply IH |]. cbv beta.
        intros out d2 H queue' skipped' Hout.
        destruct (H queue' skipped' Hout) as [Hsum _].
        split; [| discriminate].
        rewrite docs_to_process_app in Hsum. cbn [documents] in Hsum.
        pose proof (filter_length_le
                      (fun doc => isDocumentMissing stringify doc
                                    existingSet identifierField)
                      (documents collData)) as Hle.
        lia.
    + eapply spec_implies; [apply IH |]. cbv beta.
      intros out d2 H queue' skipped' Hout.
      destruct (H queue' skipped' Hout) as [Hsum Hskip].
      rewrite docs_to_process_app in Hsum. cbn [documents] in Hsum.
      split; [lia | exact Hskip].
Qed.

Lemma fetch_documents_total (fuel : nat) (src : string)
      (collections : list object) :
  forall acc,
    spec (fetch_documents databases batchSize fuel src collections acc)
         (fun _ d => forallb quiet d = true).
Proof.
  intros acc. eapply spec_implies; [apply fetch_documents_run |].
  cbv beta. now intros out d [H _].
Qed.

Lemma calls_for_listing (list_call : Z -> option value -> request)
      (limit : Z) (keyName : string) (ps : list (list object)) :
  (forall lim c, is_listing (list_call lim c) = true) ->
  forall cursor,
    forallb listing_call (calls_for list_call limit keyName cursor ps)
    = true.
Proof.
  intros Hkind. induction ps as [| q rest IH]; intros cursor;
    [reflexivity |].
  cbn. now rewrite Hkind, IH.
Qed.

(** Reading the snapshot back right after it was written. *)
Lemma spec_snapshot {A : Type} (data : value) (k : value -> M World A)
      (Q : outcome A -> list event -> Prop) :
  spec (k data) (fun out d => Q out (CacheWritten data :: CacheRead :: d)) ->
  spec (writeCacheFile data ;;; (cachedData <- readCacheFile ;; k cachedData))
       Q.
Proof.
  intros H s. rewrite bind_run. unfold writeCacheFile. cbv beta iota.
  rewrite bind_run. unfold readCacheFile. cbn [cacheFile remote log].
  cbv beta iota.
  set (s1 := mkState (remote s) (Some data)
                     ((log s ++ [CacheWritten data]) ++ [CacheRead])).
  destruct (H s1) as (d & [Hlog Hcache] & HQ).
  exists (CacheWritten data :: CacheRead :: d). split; [| exact HQ].
  split.
  - rewrite Hlog. subst s1. cbn [log]. now rewrite <- !app_assoc.
  - rewrite Hcache. reflexivity.
Qed.

Lemma cloneDatabase_accounting (fuel : nat) (src dst : string)
      (cloneStructure cloneData missingOnly : bool) :
  spec (cloneDatabase databases now stringify batchSize fuel src dst
                      cloneStructure cloneData missingOnly)
       (fun out d =>
          forall r, out = Returned r ->
            (exists listing collections rest,
                d = listing ++ Fetched collections :: rest /\
                forallb listing_call listing = true /\
                structures_counted
                  (if cloneStructure then List.length collections else 0)
                  no_results
                  (mkResults (collections_success r) (collections_failed r)
                             (collections_errors r)
                             (collections_attributeErrors r) 0 0 0 [])) /\
            (documents_success r + documents_failed r + documents_skipped r
             = written_documents d)%nat /\
            List.length (filter is_document_creation d)
            = (documents_success r + documents_failed r)%nat /\
            error_entries (documents_errors r) = documents_failed r /\
            (missingOnly = false -> documents_skipped r = 0%nat)).
Proof.
  unfold cloneDatabase.
  eapply spec_bind
    with (Q1 := fun out d =>
                  forall collections,
                    out = Returned collections ->
                    exists listing,
                      d = listing ++ [Fetched collections] /\
                      forallb listing_call listing = true);
    cbv beta; try discriminate.
  { eapply spec_of_log;
      [apply (fetchAll_run databases (ListCollections src) 100 "$id" fuel
                           (fun _ _ => eq_refl)) |].
    intros s.
    destruct (fetchAll_trace databases (ListCollections src) 100 "$id"
                             fuel s) as (d & Hlog & Hcol & _).
    exists d. split; [exact Hlog |]. intros collections Hret.
    destruct (Hcol collections Hret) as (ps & last & -> & _).
    eexists. split; [reflexivity |].
    now apply calls_for_listing. }
  intros collections d1 H1.
  destruct (H1 collections eq_refl) as (listing & -> & Hlisting).
  assert (Hd1 : forallb (fun e => negb (is_cache_event e))
                        (listing ++ [Fetched collections]) = true).
  { rewrite forallb_app. cbn. rewrite andb_true_r.
    apply quiet_not_cache.
    exact (forallb_implies _ _ _ quiet_of_listing_call Hlisting). }
  assert (Hc1 : filter is_document_creation
                       (listing ++ [Fetched collections]) = []).
  { apply creations_quiet. rewrite forallb_app. cbn. rewrite andb_true_r.
    exact (forallb_implies _ _ _ quiet_of_listing_call Hlisting). }
  destruct (List.length collections =? 0)%nat eqn:Hempty.
  { apply spec_ret. intros r [= <-]. rewrite app_nil_r.
    apply Nat.eqb_eq in Hempty.
    split; [| split; [| split; [| split]]].
    - exists listing, collections, []. split; [reflexivity |].
      split; [exact Hlisting |]. rewrite Hempty.
      destruct cloneStructure; apply structures_counted_refl.
    - now rewrite (written_documents_none _ Hd1).
    - now rewrite Hc1.
    - reflexivity.
    - reflexivity. }
  eapply spec_bind
    with (Q1 := fun out d =>
                  forallb structural d = true /\
                  forall r, out = Returned r ->
                            structures_counted
                              (if cloneStructure
                               then List.length collections else 0)
                              no_results r);
    cbv beta; try discriminate.
  { destruct cloneStructure.
    - eapply spec_implies;
        [apply (spec_conj _ _ _
                  (clone_structures_run databases fuel src dst collections
                                        no_results)
                  (clone_structures_counted fuel src dst collections
                                            no_results)) |].
      cbv beta. now intros out d [(Hs & _) Hc].
    - apply spec_ret. split; [reflexivity |].
      intros r [= <-]. apply structures_counted_refl. }
  intros r0 d2 [Hs2 H2]. specialize (H2 r0 eq_refl).
  pose proof (structural_not_cache d2 Hs2) as Hd2.
  pose proof (creations_structural d2 Hs2) as Hc2.
  assert (Hcollections :
            forall rest r,
              collections_success r = collections_success r0 ->
              collections_failed r = collections_failed r0 ->
              collections_errors r = collections_errors r0 ->
              collections_attributeErrors r
              = collections_attributeErrors r0 ->
              exists listing' collections' rest',
                (listing ++ [Fetched collections]) ++ d2 ++ rest
                = listing' ++ Fetched collections' :: rest' /\
                forallb listing_call listing' = true /\
                structures_counted
                  (if cloneStructure then List.length collections' else 0)
                  no_results
                  (mkResults (collections_success r) (collections_failed r)
                             (collections_errors r)
                             (collections_attributeErrors r) 0 0 0 [])).
  { intros rest r E1 E2 E3 E4.
    exists listing, collections, (d2 ++ rest).
    split; [now rewrite <- app_assoc |]. split; [exact Hlisting |].
    rewrite E1, E2, E3, E4. unfold structures_counted in *. cbn in *.
    destruct H2 as (_ & _ & _ & _ & K5 & K6 & K7). repeat split; assumption. }
  destruct H2 as (Z1 & Z2 & Z3 & Z4 & _). cbn in Z1, Z2, Z3, Z4.
  destruct (cloneData || missingOnly) eqn:Hdata.
  2:{ apply spec_ret. intros r [= <-]. rewrite app_nil_r.
      split; [| split; [| split; [| split]]].
      - rewrite <- (app_nil_r d2). now apply Hcollections.
      - set (d1 := listing ++ [Fetched collections]) in *.
        rewrite written_documents_app, (written_documents_none _ Hd1),
          (written_documents_none _ Hd2). lia.
      - set (d1 := listing ++ [Fetched collections]) in *.
        rewrite filter_app, Hc1, Hc2. cbn. lia.
      - now rewrite Z4, Z2.
      - now intros _. }
  eapply spec_bind; [apply (fetch_documents_total fuel src collections []) | | |];
    cbv beta; try discriminate.
  intros collectionDocs d3 Hq3.
  pose proof (quiet_not_cache d3 Hq3) as Hd3.
  pose proof (creations_quiet d3 Hq3) as Hc3.
  eapply spec_bind
    with (Q1 := fun out d => d = [] /\ exists t, out = Returned t);
    cbv beta.
  { intros s. exists []. split; [apply extends_refl |].
    split; [reflexivity |]. now eexists. }
  2: now intros m d4 [_ [t Ht]].
  2: now intros d4 [_ [t Ht]].
  intros fetchedAt d4 [-> _].
  apply spec_snapshot. rewrite read_collections_cacheData.
  set (data := cacheData src dst fetchedAt collectionDocs).
  eapply spec_bind;
    [apply (spec_conj _ _ _
              (build_queue_run databases stringify batchSize fuel dst
                               missingOnly collectionDocs [] 0%nat)
              (build_queue_counted fuel dst missingOnly collectionDocs
                                   [] 0%nat)) | | |];
    cbv beta; try discriminate.
  intros [processQueue skipped] d5 [Hq5 H5].
  destruct (H5 processQueue skipped eq_refl) as [Hsum Hskip].
  unfold docs_to_process at 2 in Hsum. cbn [fold_left] in Hsum.
  pose proof (quiet_not_cache d5 Hq5) as Hd5.
  pose proof (creations_quiet d5 Hq5) as Hc5.
  eapply spec_bind
    with (Q1 := fun out d =>
                  forallb is_document_creation d = true /\
                  forall r', out = Returned r' ->
                             List.length d = docs_to_process processQueue /\
                             documents_counted
                               (docs_to_process processQueue)
                               (documents_skipped_more skipped r0) r');
    cbv beta; try discriminate.
  { destruct (0 <? docs_to_process processQueue)%nat eqn:Hpos.
    - apply process_queue_counted.
    - apply Nat.ltb_ge in Hpos.
      assert (Hzero : docs_to_process processQueue = 0%nat) by lia.
      rewrite Hzero. apply spec_ret. split; [reflexivity |].
      intros r' [= <-]. split; [reflexivity |].
      apply documents_counted_refl. }
  intros r1 d6 (Hcr6 & Hret6).
  destruct (Hret6 r1 eq_refl) as (Hlen6 & H6).
  pose proof (creation_not_cache d6 Hcr6) as Hd6.
  eapply spec_bind
    with (Q1 := fun out d =>
                  forallb (fun e => negb (is_document_creation e)) d = true /\
                  written_documents d = 0%nat);
    cbv beta; try discriminate.
  { intros s. unfold deleteCacheFile.
    destruct (cacheFile s) as [c |] eqn:Hc.
    - exists [CacheDeleted]. split; [now split |]. now split.
    - exists []. split; [apply extends_refl |]. now split. }
  intros _ d7 [Hn7 Hw7].
  apply spec_ret. intros r [= <-]. rewrite app_nil_r.
  destruct H6 as (E1 & E2 & E3 & E4 & E5 & E6 & E7).
  unfold documents_skipped_more in *. 
  cbn [documents_success documents_failed documents_skipped documents_errors
       collections_success collections_failed collections_errors
       collections_attributeErrors] in *.
  split; [| split; [| split; [| split]]].
  - apply Hcollections; assumption.
  - set (d1 := listing ++ [Fetched collections]) in *.
    rewrite !written_documents_app, (written_documents_none _ Hd1),
      (written_documents_none _ Hd2), (written_documents_none _ Hd3).
    cbn [written_documents fold_right app].
    fold (written_documents (d5 ++ d6 ++ d7)).
    rewrite !written_documents_app, (written_documents_none _ Hd5),
      (written_documents_none _ Hd6), Hw7.
    unfold snapshot_documents. subst data.
    rewrite read_collections_cacheData. lia.
  - set (d1 := listing ++ [Fetched collections]) in *.
    rewrite !filter_app, Hc1, Hc2, Hc3. cbn [app filter is_document_creation].
    rewrite !filter_app, Hc5, (creations_all _ Hcr6).
    rewrite (filter_none _ _ _ (fun e H => proj1 (negb_true_iff _) H) Hn7).
    cbn [app]. rewrite app_nil_r. lia.
  - rewrite Z4, Z2 in E7. cbn in E7. lia.
  - intros Hm. rewrite E5, Z3, (Hskip Hm). reflexivity.
Qed.

End Accounting.

(** X11.  A run of [cloneDatabase] stays within its options and never
    writes to the source database.  Collections are listed in the source
    only; every creation call names the destination database;
    collections, attributes and indexes are created, attributes and
    indexes listed and readiness polls slept only when [cloneStructure]
    is set; documents are created, the source documents listed and the
    snapshot file touched only when [cloneData] or [missingOnly] is set;
    and the documents of the destination are listed only when
    [missingOnly] is set. *)
Theorem cloneDatabase_keeps_to_its_options {World : Type}
        (databases : Databases World) (now : World -> string)
        (stringify : value -> string) (batchSize : Z) (fuel : nat)
        (sourceDbId destDbId : string)
        (cloneStructure cloneData missingOnly : bool) (s : state World) :
  let run := cloneDatabase databases now stringify batchSize fuel
                           sourceDbId destDbId
                           cloneStructure cloneData missingOnly s in
  exists d,
    log (snd run) = log s ++ d /\
    forallb (permitted sourceDbId destDbId
                       cloneStructure cloneData missingOnly) d = true /\
    (forall rq rp db,
        In (Called rq rp) d -> written_database rq = Some db ->
        db = destDbId).
Proof.
  intros run. subst run.
  destruct (spec_log _ _ s
              (cloneDatabase_permitted databases now stringify batchSize
                 fuel sourceDbId destDbId cloneStructure cloneData
                 missingOnly)) as (d & Hlog & Hd).
  exists d. split; [exact Hlog |]. split; [exact Hd |].
  intros rq rp db Hin Hdb.
  rewrite forallb_forall in Hd. specialize (Hd _ Hin).
  destruct rq; try discriminate; injection Hdb as <-; cbn in Hd;
    apply andb_prop in Hd as [_ Hd]; now apply String.eqb_eq in Hd.
Qed.

Lemma cloneDatabase_keeps_to_its_options_witness :
  forallb (permitted "source" "dest" false true false)
          (log (snd (cloneDatabase (documents_service true true) noon to_json
                                   100 1 "source" "dest" false true false
                                   start)))
  = true.
Proof.
  destruct (cloneDatabase_keeps_to_its_options
              (documents_service true true) noon to_json 100 1
              "source" "dest" false true false start)
    as (d & Hlog & Hd & _).
  rewrite Hlog. exact Hd.
Defined.

(** X12.  Every document of the snapshot is accounted for once.  When a
    run of [cloneDatabase] returns, the documents it counts as copied,
    failed and skipped add up to the number of documents in the snapshot
    it wrote (to none when it wrote no snapshot); the copied and the
    failed ones are as many as the document creation calls of the run;
    [results.documents.errors] holds one entry for each failed document;
    and nothing is skipped unless [missingOnly] is set. *)
Theorem cloneDatabase_accounts_for_every_document {World : Type}
        (databases : Databases World) (now : World -> string)
        (stringify : value -> string) (batchSize : Z) (fuel : nat)
        (sourceDbId destDbId : string)
        (cloneStructure cloneData missingOnly : bool) (s : state World) :
  let run := cloneDatabase databases now stringify batchSize fuel
                           sourceDbId destDbId
                           cloneStructure cloneData missingOnly s in
  exists d,
    log (snd run) = log s ++ d /\
    forall r,
      fst run = Returned r ->
      (documents_success r + documents_failed r + documents_skipped r
       = written_documents d)%nat /\
      List.length (filter is_document_creation d)
      = (documents_success r + documents_failed r)%nat /\
      error_entries (documents_errors r) = documents_failed r /\
      (missingOnly = false -> documents_skipped r = 0%nat).
Proof.
  intros run. subst run.
  destruct (spec_log _ _ s
              (cloneDatabase_accounting databases now stringify batchSize
                 fuel sourceDbId destDbId cloneStructure cloneData
                 missingOnly)) as (d & Hlog & Hd).
  exists d. split; [exact Hlog |]. intros r Hr.
  now destruct (Hd r Hr) as (_ & H).
Qed.

Lemma cloneDatabase_accounts_for_every_document_witness :
  exists r,
    fst (cloneDatabase (documents_service false true) noon to_json 100 1
                       "source" "dest" false false true start)
    = Returned r /\
    (documents_success r + documents_failed r + documents_skipped r
     = 2)%nat /\
    error_entries (documents_errors r) = documents_failed r.
Proof.
  destruct (cloneDatabase_accounts_for_every_document
              (documents_service false true) noon to_json 100 1
              "source" "dest" false false true start)
    as (d & Hlog & Hd).
  eexists. split; [vm_compute; reflexivity |].
  destruct (Hd _ eq_refl) as (Hsum & _ & Herrors & _).
  split; [| exact Herrors].
  etransitivity; [exact Hsum |].
  vm_compute in Hlog. subst d. reflexivity.
Defined.

(** X13.  When a run of [cloneDatabase] returns, the collections it
    counts as cloned and as failed add up to the number of collections
    the first traversal found in the source when [cloneStructure] is set
    (to none otherwise); [results.collections.errors] holds one entry
    for each failed collection, and [attributeErrors] at most one. *)
Theorem cloneDatabase_counts_every_collection {World : Type}
        (databases : Databases World) (now : World -> string)
        (stringify : value -> string) (batchSize : Z) (fuel : nat)
        (sourceDbId destDbId : string)
        (cloneStructure cloneData missingOnly : bool) (s : state World) :
  let run := cloneDatabase databases now stringify batchSize fuel
                           sourceDbId destDbId
                           cloneStructure cloneData missingOnly s in
  exists d,
    log (snd run) = log s ++ d /\
    forall r,
      fst run = Returned r ->
      exists listing collections rest,
        d = listing ++ Fetched collections :: rest /\
        forallb listing_call listing = true /\
        (collections_success r + collections_failed r
         = if cloneStructure then List.length collections else 0)%nat /\
        List.length (collections_errors r) = collections_failed r /\
        (List.length (collections_attributeErrors r)
         <= collections_failed r)%nat.
Proof.
  intros run. subst run.
  destruct (spec_log _ _ s
              (cloneDatabase_accounting databases now stringify batchSize
                 fuel sourceDbId destDbId cloneStructure cloneData
                 missingOnly)) as (d & Hlog & Hd).
  exists d. split; [exact Hlog |]. intros r Hr.
  destruct (Hd r Hr)
    as ((listing & collections & rest & Heq & Hlisting & Hcount) & _).
  exists listing, collections, rest.
  split; [exact Heq |]. split; [exact Hlisting |].
  unfold structures_counted in Hcount. cbn in Hcount.
  destruct Hcount as (_ & _ & _ & _ & K5 & K6 & K7).
  repeat split; lia.
Qed.

Lemma cloneDatabase_counts_every_collection_witness :
  exists r,
    fst (cloneDatabase (schema_service false true "available") noon to_json
                       100 1 "source" "dest" true false false start)
    = Returned r /\
    (collections_success r + collections_failed r = 1)%nat /\
    List.length (collections_errors r) = collections_failed r.
Proof.
  destruct (cloneDatabase_counts_every_collection
              (schema_service false true "available") noon to_json 100 1
              "source" "dest" true false false start)
    as (d & Hlog & Hd).
  eexists. split; [vm_compute; reflexivity |].
  destruct (Hd _ eq_refl)
    as (listing & collections & rest & Heq & Hlisting & Hsum & Herrors & _).
  split; [| exact Herrors].
  etransitivity; [exact Hsum |].
  vm_compute in Hlog. subst d.
  destruct listing as [| e1 [| e2 listing]]; cbn [app] in Heq.
  - discriminate Heq.
  - injection Heq as _ <- _. reflexivity.
  - injection Heq as H1 H2 _. subst e1 e2. discriminate Hlisting.
Defined.

(** * The schema replicator against the vocabulary of its claims *)

(** ** The tests of the code and the vocabulary *)

Lemma strict_eq_opt_reads (v : option value) (s : string) :
  strict_eq_opt v (Some (Str s)) = reads v s.
Proof. destruct v as [[] |]; reflexivity. Qed.

Lemma is_child_relationship_child_side (attribute : object) :
  is_child_relationship attribute = child_side attribute.
Proof.
  unfold is_child_relationship, child_side.
  now rewrite !strict_eq_opt_reads.
Qed.

Ltac split_on_type t :=
  destruct (String.eqb t "string");
  [| destruct (String.eqb t "integer");
     [| destruct (String.eqb t "float");
        [| destruct (String.eqb t "double");
           [| destruct (String.eqb t "boolean");
              [| destruct (String.eqb t "datetime");
                 [| destruct (String.eqb t "email");
                    [| destruct (String.eqb t "ip");
                       [| destruct (String.eqb t "url");
                          [| destruct (String.eqb t "enum");
                             [| destruct (String.eqb t "relationship")
                             ]]]]]]]]]].

Lemma attribute_call_creates (db : string) (coll : option value)
      (attribute : object) (rq : request) :
  attribute_call db coll attribute = Some rq ->
  creates db coll attribute rq.
Proof.
  unfold attribute_call, creates, creation_method. cbv zeta.
  rewrite !strict_eq_opt_reads.
  destruct (get "type" attribute) as [[| b | n | t | l | o] |];
    cbn [reads orb]; try discriminate.
  cbn [find creation_methods fst snd option_map].
  split_on_type t; cbn [orb option_map snd];
    intros H; inversion H; subst; clear H;
    do 2 eexists; (split; [reflexivity |]); (split; [reflexivity |]);
    cbn [In]; tauto.
Qed.

Lemma attribute_call_known (db : string) (coll : option value)
      (attribute : object) :
  known_type attribute
  = match attribute_call db coll attribute with
    | Some _ => true
    | None => false
    end.
Proof.
  unfold attribute_call, known_type, creation_method. cbv zeta.
  rewrite !strict_eq_opt_reads.
  destruct (get "type" attribute) as [[| b | n | t | l | o] |];
    cbn [reads orb]; try reflexivity.
  cbn [find creation_methods fst snd option_map].
  split_on_type t; reflexivity.
Qed.

Lemma unknown_type_unsupported (db : string) (coll : option value)
      (attribute : object) :
  unknown_type db coll attribute
  = negb (child_side attribute) && negb (known_type attribute).
Proof.
  unfold unknown_type.
  rewrite is_child_relationship_child_side, (attribute_call_known db coll).
  now destruct (attribute_call db coll attribute).
Qed.

Lemma count_unknown_unsupported (db : string) (coll : option value)
      (attributes : list object) :
  count_unknown db coll attributes = List.length (unsupported attributes).
Proof.
  unfold count_unknown, unsupported. f_equal.
  apply filter_ext. intros a. apply unknown_type_unsupported.
Qed.

Lemma due_attribute_calls_submitted (db : string) (coll : option value)
      (attributes : list object) :
  Forall2 (fun attribute rq =>
             attribute_call db coll attribute = Some rq /\
             creates db coll attribute rq)
          (submitted attributes)
          (due_attribute_calls db coll attributes).
Proof.
  unfold submitted, due_attribute_calls.
  induction attributes as [| attribute rest IH]; [constructor |].
  cbn [filter flat_map].
  change (is_child_relationship attribute) with (child_side attribute).
  rewrite (attribute_call_known db coll attribute).
  destruct (child_side attribute); cbn [negb andb]; [exact IH |].
  destruct (attribute_call db coll attribute) as [rq |] eqn:Hcall;
    cbn [app]; [| exact IH].
  constructor; [| exact IH].
  split; [exact Hcall | now apply attribute_call_creates].
Qed.

Lemma strict_eq_opt_true (a b : option value) :
  strict_eq_opt a b = true <->
  a = b /\ match b with
           | Some v => is_scalar v = true
           | None => True
           end.
Proof.
  destruct a as [x |], b as [y |]; cbn [strict_eq_opt];
    try (split; [discriminate | intros [[=] _]]); [| tauto].
  split.
  - intros H. pose proof (strict_eq_eq x y H) as ->.
    split; [reflexivity |]. now destruct y.
  - intros [[= ->] Hy]. now apply strict_eq_refl.
Qed.

Lemma reports_available_shows (key : option value) (items : list object) :
  reports_available key items = true <-> shows_available key items.
Proof.
  unfold reports_available, shows_available.
  induction items as [| item rest IH]; cbn [find].
  - split; [discriminate |].
    intros (before & x & after & Heq & _). now destruct before.
  - destruct (strict_eq_opt (get "key" item) key) eqn:Hkey.
    + apply strict_eq_opt_true in Hkey. split.
      * intros Hstatus. apply strict_eq_opt_true in Hstatus as [Hstatus _].
        exists [], item, rest. now repeat split.
      * intros (before & x & after & Heq & Hbefore & Hx & Hstatus).
        destruct before as [| y before]; cbn [app] in Heq.
        -- injection Heq as <- <-. apply strict_eq_opt_true. now split.
        -- injection Heq as <- _. inversion Hbefore; subst. contradiction.
    + assert (Hnot : ~ same_key key item).
      { intros H. apply strict_eq_opt_true in H. congruence. }
      rewrite IH. split.
      * intros (before & x & after & -> & Hbefore & Hx & Hstatus).
        exists (item :: before), x, after. repeat split; try assumption.
        -- now constructor.
        -- apply Hx.
        -- apply Hx.
      * intros (before & x & after & Heq & Hbefore & Hx & Hstatus).
        destruct before as [| y before]; cbn [app] in Heq.
        -- injection Heq as <- <-. contradiction.
        -- injection Heq as <- ->. inversion Hbefore; subst.
           exists before, x, after.
           split; [reflexivity |]. split; [assumption |]. now split.
Qed.

Lemma poll_shape_polled (key : option value) (n : nat) (out : outcome bool)
      (evs : list event) :
  poll_shape key n out evs -> polled key n out evs.
Proof.
  intros (misses & Hmisses & Hcase). exists misses. split.
  - eapply Forall_impl; [| exact Hmisses]. cbv beta. intros items H Hshows.
    apply reports_available_shows in Hshows. congruence.
  - destruct out as [[|] | m |]; try exact Hcase.
    destruct Hcase as (hit & Hhit & Hrest). exists hit.
    split; [now apply reports_available_shows | exact Hrest].
Qed.

Section Replicator.
Context {World : Type}.
Variable databases : Databases World.

(** ** The creation loops, round by round *)

Lemma createAttribute_called (db : string) (coll : option value)
      (attribute : object) :
  spec (createAttribute databases db coll attribute)
       (fun out d =>
          match attribute_call db coll attribute with
          | Some rq =>
              exists rp, d = [Called rq rp]
                         /\ out = Returned (outcome_of_reply rp)
          | None =>
              d = [] /\
              out = Returned
                      (mkResult false
                         (Some (String.append "Unknown type: "
                                  (template (get "type" attribute)))))
          end).
Proof.
  intros s.
  destruct (createAttribute_run databases db coll attribute s)
    as (d & result & Hext & Hout & Hcase).
  exists d. split; [exact Hext |]. cbv zeta in Hout. rewrite Hout.
  destruct (attribute_call db coll attribute).
  - destruct Hcase as (rp & -> & ->). now exists rp.
  - now destruct Hcase as [-> ->].
Qed.

Lemma createIndex_called (db : string) (coll : option value)
      (index : object) :
  spec (createIndex databases db coll index)
       (fun out d =>
          exists rp, d = [Called (index_call db coll index) rp]
                     /\ out = Returned (outcome_of_reply rp)).
Proof.
  intros s.
  destruct (createIndex_run databases db coll index s) as (rp & Hext & Hout).
  eexists. split; [exact Hext |]. now exists rp.
Qed.

Lemma createAttributes_loop_rounds (fuel : nat) (db : string)
      (coll : option value) (attributes : list object) :
  forall acc,
    spec (createAttributes_loop databases fuel db coll attributes acc)
         (fun out d =>
            exists complete,
              rounds 30 passed_over (creates db coll) attributes complete d /\
              (complete = true <-> exists t, out = Returned t)).
Proof.
  induction attributes as [| attribute rest IH]; intros acc;
    cbn [createAttributes_loop].
  - apply spec_ret. exists true. split; [constructor |].
    split; [now exists acc | reflexivity].
  - destruct (is_child_relationship attribute) eqn:Hchild;
      rewrite is_child_relationship_child_side in Hchild.
    { eapply spec_implies; [apply IH |]. cbv beta.
      intros out d (complete & Hrounds & Hcomplete).
      exists complete. split; [| exact Hcomplete].
      apply round_passed; [| exact Hrounds].
      unfold passed_over. now rewrite Hchild. }
    eapply spec_bind; [apply createAttribute_called | | |]; cbv beta.
    2: intros m d1 H; destruct (attribute_call db coll attribute);
       [now destruct H as (rp & _ & H) | now destruct H as [_ H]].
    2: intros d1 H; destruct (attribute_call db coll attribute);
       [now destruct H as (rp & _ & H) | now destruct H as [_ H]].
    intros result d1 H.
    destruct (attribute_call db coll attribute) as [rq |] eqn:Hcall.
    + destruct H as (rp & -> & [= ->]).
      pose proof (attribute_call_creates _ _ _ _ Hcall) as Hcreates.
      assert (Hpass : passed_over attribute = false).
      { unfold passed_over.
        now rewrite Hchild, (attribute_call_known db coll), Hcall. }
      destruct (success (outcome_of_reply rp)) eqn:Hsuccess.
      * assert (Hrp : forall m, rp <> Failed m)
          by (intros m ->; discriminate Hsuccess).
        eapply spec_bind; [apply waitForAttribute_run | | |]; cbv beta.
        -- intros answer d2 (Hpolling & Hshape & _).
           eapply spec_implies; [apply IH |]. cbv beta.
           intros out d (complete & Hrounds & Hcomplete).
           exists complete. split; [| exact Hcomplete].
           cbn [app]. eapply round_polled; try eassumption.
           apply poll_shape_polled. exact Hshape.
        -- intros m d2 (Hpolling & Hshape & _).
           exists false. split.
           ++ cbn [app].
              apply round_cut with (out := Thrown m); try assumption;
                [discriminate | now apply poll_shape_polled].
           ++ split; [discriminate | intros (t & [=])].
        -- intros d2 (Hpolling & Hshape & _).
           exists false. split.
           ++ cbn [app].
              apply round_cut with (out := OutOfFuel); try assumption;
                [discriminate | now apply poll_shape_polled].
           ++ split; [discriminate | intros (t & [=])].
      * destruct rp as [m | items |]; try discriminate Hsuccess.
        eapply spec_implies; [apply IH |]. cbv beta.
        intros out d (complete & Hrounds & Hcomplete).
        exists complete. split; [| exact Hcomplete].
        cbn [app]. now apply round_rejected.
    + destruct H as [-> [= ->]]. cbn [success].
      eapply spec_implies; [apply IH |]. cbv beta.
      intros out d (complete & Hrounds & Hcomplete).
      exists complete. split; [| exact Hcomplete].
      apply round_passed; [| exact Hrounds].
      unfold passed_over.
      rewrite (attribute_call_known db coll), Hcall. apply orb_true_r.
Qed.

Lemma index_call_creates (db : string) (coll : option value)
      (index : object) :
  creates_index db coll index (index_call db coll index).
Proof. unfold creates_index, index_call. now eexists. Qed.

Lemma createIndexes_loop_rounds (fuel : nat) (db : string)
      (coll : option value) (indexes : list object) :
  forall acc,
    spec (createIndexes_loop databases fuel db coll indexes acc)
         (fun out d =>
            exists complete,
              rounds 60 (fun _ => false) (creates_index db coll)
                     indexes complete d /\
              (complete = true <-> exists t, out = Returned t)).
Proof.
  induction indexes as [| index rest IH]; intros acc;
    cbn [createIndexes_loop].
  - apply spec_ret. exists true. split; [constructor |].
    split; [now exists acc | reflexivity].
  - eapply spec_bind; [apply createIndex_called | | |]; cbv beta.
    2: now intros m d1 (rp & _ & H).
    2: now intros d1 (rp & _ & H).
    intros result d1 (rp & -> & [= ->]).
    pose proof (index_call_creates db coll index) as Hcreates.
    destruct (success (outcome_of_reply rp)) eqn:Hsuccess.
    + assert (Hrp : forall m, rp <> Failed m)
        by (intros m ->; discriminate Hsuccess).
      eapply spec_bind; [apply waitForIndex_run | | |]; cbv beta.
      * intros answer d2 (Hpolling & Hshape & _).
        eapply spec_implies; [apply IH |]. cbv beta.
        intros out d (complete & Hrounds & Hcomplete).
        exists complete. split; [| exact Hcomplete].
        cbn [app]. eapply round_polled; try eassumption; [reflexivity |].
        apply poll_shape_polled. exact Hshape.
      * intros m d2 (Hpolling & Hshape & _).
        exists false. split.
        -- cbn [app].
           apply round_cut with (out := Thrown m); try assumption;
             [reflexivity | discriminate | now apply poll_shape_polled].
        -- split; [discriminate | intros (t & [=])].
      * intros d2 (Hpolling & Hshape & _).
        exists false. split.
        -- cbn [app].
           apply round_cut with (out := OutOfFuel); try assumption;
             [reflexivity | discriminate | now apply poll_shape_polled].
        -- split; [discriminate | intros (t & [=])].
    + destruct rp as [m | items |]; try discriminate Hsuccess.
      eapply spec_implies; [apply IH |]. cbv beta.
      intros out d (complete & Hrounds & Hcomplete).
      exists complete. split; [| exact Hcomplete].
      cbn [app]. now apply round_rejected.
Qed.

End Replicator.

(** ** Which calls of a run were answered *)

Lemma forallb_agree {A : Type} (p q r : A -> bool) (l : list A) :
  (forall x, r x = true -> p x = q x) ->
  forallb r l = true -> forallb p l = forallb q l.
Proof.
  intros H. induction l as [| x l IH]; [reflexivity |].
  cbn [forallb]. intros Hl. apply andb_prop in Hl as [Hx Hl].
  now rewrite (H x Hx), (IH Hl).
Qed.

Lemma only_creations_fail_weaker (e : event) :
  only_index_creation_fails e = true -> only_creations_fail e = true.
Proof. destruct e as [[] [] | | | | |]; cbn; auto. Qed.

Lemma only_creations_fail_polling (e : event) :
  polling e = true -> only_creations_fail e = only_index_creation_fails e.
Proof. destruct e as [[] [] | | | | |]; cbn; auto; discriminate. Qed.

Lemma only_creations_fail_index_phase (e : event) :
  index_phase e = true ->
  only_creations_fail e = only_index_creation_fails e.
Proof. destruct e as [[] [] | | | | |]; cbn; auto; discriminate. Qed.

Lemma fetched_lists_poll_events (d : list event) :
  fetched_lists (filter is_poll_event d) = fetched_lists d.
Proof.
  unfold fetched_lists. induction d as [| e d IH]; [reflexivity |].
  destruct e; cbn [filter is_poll_event flat_map app]; now rewrite ?IH.
Qed.

Lemma fetched_lists_app (d1 d2 : list event) :
  fetched_lists (d1 ++ d2) = fetched_lists d1 ++ fetched_lists d2.
Proof. apply flat_map_app. Qed.

Lemma index_failures_app (d1 d2 : list event) :
  index_failures (d1 ++ d2) = index_failures d1 ++ index_failures d2.
Proof. apply flat_map_app. Qed.

Lemma attribute_creations_app (d1 d2 : list event) :
  attribute_creations (d1 ++ d2)
  = attribute_creations d1 ++ attribute_creations d2.
Proof. apply flat_map_app. Qed.

Lemma count_failed_none (calls : list (request * reply)) :
  count_failed calls = 0%nat <-> existsb failed calls = false.
Proof.
  unfold count_failed. induction calls as [| call calls IH]; [easy |].
  cbn [filter existsb]. destruct (failed call); cbn [List.length orb];
    [easy | exact IH].
Qed.

Section Answered.
Context {World : Type}.
Variable databases : Databases World.

Lemma fetchAll_answered_post (list_call : Z -> option value -> request)
      (limit : Z) (keyName : string) (fuel : nat) :
  (forall lim c, is_listing (list_call lim c) = true) ->
  (0 < limit)%Z ->
  spec (fetchAll databases fuel list_call limit keyName)
       (fun out d =>
          forallb quiet d = true /\
          answered_post out d /\
          (forall items, out = Returned items -> fetched_lists d = [items])).
Proof.
  intros Hkind Hlimit.
  eapply spec_implies;
    [apply (spec_conj _ _ _
              (fetchAll_run databases list_call limit keyName fuel Hkind)
              (fetchAll_answered databases list_call limit keyName fuel
                                 Hkind)) |].
  cbv beta. intros out d ((Hquiet & Hpolls & Hthrown) & Hanswered).
  split; [exact Hquiet |]. split; [split |].
  - intros items ->.
    exact (forallb_implies _ _ _ only_creations_fail_weaker
                           (Hanswered items eq_refl)).
  - intros m ->.
    rewrite (forallb_agree only_creations_fail only_index_creation_fails
                           polling d only_creations_fail_polling).
    + now apply (Hthrown Hlimit m).
    + exact (forallb_implies _ _ _ (polling_of_quiet) Hquiet).
  - intros items ->.
    now rewrite <- fetched_lists_poll_events, Hpolls.
Qed.

Lemma poll_answered_post (fetch : M World (list object))
      (key : option value) (n : nat) :
  spec fetch answered_post -> spec (poll fetch key n) answered_post.
Proof.
  intros Hfetch. induction n as [| n IH]; cbn [poll].
  - apply spec_ret. split; [reflexivity | discriminate].
  - eapply spec_bind; [exact Hfetch | | |]; cbv beta.
    + intros items d1 [H1 _]. specialize (H1 items eq_refl).
      destruct (reports_available key items).
      * apply spec_ret. rewrite app_nil_r. split; [auto | discriminate].
      * unfold sleep.
        eapply spec_bind
          with (Q1 := fun out d => out = Returned tt /\ d = [Slept 1000]);
          [now apply spec_emit | | |]; cbv beta;
          try (intros ? ? [? _]; discriminate);
          try (intros ? [? _]; discriminate).
        intros _ d2 [_ ->].
        eapply spec_implies; [exact IH |]. cbv beta.
        intros out d3 [Hreturned Hthrown]. split.
        -- intros b Hb. now rewrite !forallb_app, H1, (Hreturned b Hb).
        -- intros m Hm.
           now rewrite !forallb_app, (Hthrown m Hm), !andb_false_r.
    + intros m d1 [_ H1]. split; [discriminate |].
      intros m' _. exact (H1 m eq_refl).
    + intros d1 _. split; discriminate.
Qed.

Lemma waitForAttribute_answered_post (fuel : nat) (db : string)
      (coll key : option value) (maxRetries : option nat) :
  spec (waitForAttribute databases fuel db coll key maxRetries)
       answered_post.
Proof.
  apply poll_answered_post.
  eapply spec_implies;
    [apply (fetchAll_answered_post (ListAttributes db coll) 100 "key" fuel
              (fun _ _ => eq_refl)); lia |].
  now intros out d (_ & H & _).
Qed.

Lemma waitForIndex_answered_post (fuel : nat) (db : string)
      (coll key : option value) (maxRetries : option nat) :
  spec (waitForIndex databases fuel db coll key maxRetries) answered_post.
Proof.
  apply poll_answered_post.
  eapply spec_implies;
    [apply (fetchAll_answered_post (ListIndexes db coll) 100 "key" fuel
              (fun _ _ => eq_refl)); lia |].
  now intros out d (_ & H & _).
Qed.

Lemma createAttributes_loop_answered (fuel : nat) (db : string)
      (coll : option value) (attributes : list object) :
  forall acc,
    spec (createAttributes_loop databases fuel db coll attributes acc)
         answered_post.
Proof.
  induction attributes as [| attribute rest IH]; intros acc;
    cbn [createAttributes_loop].
  - apply spec_ret. split; [reflexivity | discriminate].
  - destruct (is_child_relationship attribute); [apply IH |].
    eapply spec_bind; [apply createAttribute_called | | |]; cbv beta.
    2: intros m d1 H; destruct (attribute_call db coll attribute);
       [now destruct H as (rp & _ & H) | now destruct H as [_ H]].
    2: intros d1 H; destruct (attribute_call db coll attribute);
       [now destruct H as (rp & _ & H) | now destruct H as [_ H]].
    intros result d1 H.
    assert (H1 : forallb only_creations_fail d1 = true).
    { destruct (attribute_call db coll attribute) as [rq |] eqn:Hcall.
      - destruct H as (rp & -> & _).
        destruct (attribute_call_creation db coll attribute rq Hcall)
          as (method & args & ->).
        now destruct rp.
      - now destruct H as [-> _]. }
    clear H.
    assert (Hrest : forall acc',
               spec (createAttributes_loop databases fuel db coll rest acc')
                    (fun out d2 => answered_post out (d1 ++ d2))).
    { intros acc'. eapply spec_implies; [apply IH |]. cbv beta.
      intros out d2 [Hreturned Hthrown]. split.
      - intros t Ht. now rewrite forallb_app, H1, (Hreturned t Ht).
      - intros m Hm. now rewrite forallb_app, (Hthrown m Hm), andb_false_r. }
    destruct (success result); [| apply Hrest].
    eapply spec_bind; [apply waitForAttribute_answered_post | | |];
      cbv beta.
    + intros b d2 [H2 _]. specialize (H2 b eq_refl).
      eapply spec_implies; [apply IH |]. cbv beta.
      intros out d3 [Hreturned Hthrown]. split.
      * intros t Ht. now rewrite !forallb_app, H1, H2, (Hreturned t Ht).
      * intros m Hm.
        now rewrite !forallb_app, (Hthrown m Hm), !andb_false_r.
    + intros m d2 [_ H2]. split; [discriminate |]. intros m' _.
      now rewrite forallb_app, (H2 m eq_refl), andb_false_r.
    + intros d2 _. split; discriminate.
Qed.

Lemma createIndexes_loop_answered (fuel : nat) (db : string)
      (coll : option value) (indexes : list object) :
  forall acc,
    spec (createIndexes_loop databases fuel db coll indexes acc)
         answered_post.
Proof.
  induction indexes as [| index rest IH]; intros acc;
    cbn [createIndexes_loop].
  - apply spec_ret. split; [reflexivity | discriminate].
  - eapply spec_bind; [apply createIndex_called | | |]; cbv beta.
    2: now intros m d1 (rp & _ & H).
    2: now intros d1 (rp & _ & H).
    intros result d1 (rp & -> & _).
    assert (H1 : forallb only_creations_fail
                         [Called (index_call db coll index) rp] = true)
      by now destruct rp.
    assert (Hrest : forall acc',
               spec (createIndexes_loop databases fuel db coll rest acc')
                    (fun out d2 =>
                       answered_post
                         out ([Called (index_call db coll index) rp]
                              ++ d2))).
    { intros acc'. eapply spec_implies; [apply IH |]. cbv beta.
      intros out d2 [Hreturned Hthrown]. split.
      - intros t Ht. now rewrite forallb_app, H1, (Hreturned t Ht).
      - intros m Hm. now rewrite forallb_app, (Hthrown m Hm), andb_false_r. }
    destruct (success result); [| apply Hrest].
    eapply spec_bind; [apply waitForIndex_answered_post | | |]; cbv beta.
    + intros b d2 [H2 _]. specialize (H2 b eq_refl).
      eapply spec_implies; [apply IH |]. cbv beta.
      intros out d3 [Hreturned Hthrown]. split.
      * intros t Ht. now rewrite !forallb_app, H1, H2, (Hreturned t Ht).
      * intros m Hm.
        now rewrite !forallb_app, (Hthrown m Hm), !andb_false_r.
    + intros m d2 [_ H2]. split; [discriminate |]. intros m' _.
      now rewrite forallb_app, (H2 m eq_refl), andb_false_r.
    + intros d2 _. split; discriminate.
Qed.

(** When a call of the index part was not answered, the result is the
    one of the [catch] block. *)
Lemma cloneCollectionIndexes_unanswered (fuel : nat) (src dst : string)
      (id : option value) (attrResult : tally) :
  spec (cloneCollectionIndexes databases fuel src dst id attrResult)
       (fun out d =>
          forall r, out = Returned r ->
                    forallb only_creations_fail d = false ->
                    structure_success r = false /\ indexErrors r = []).
Proof.
  unfold cloneCollectionIndexes.
  eapply spec_try_catch with (Q1 := answered_post); cbv beta.
  - eapply spec_bind;
      [apply (fetchAll_answered_post (ListIndexes src id) 100
                "key" fuel (fun _ _ => eq_refl)); lia | | |]; cbv beta.
    + intros indexes d1 (_ & [H1 _] & _). specialize (H1 indexes eq_refl).
      rewrite createIndexes_guard.
      eapply spec_bind; [apply createIndexes_loop_answered | | |];
        cbv beta.
      * intros idxResult d2 [H2 _]. specialize (H2 idxResult eq_refl).
        assert (Hall : forallb only_creations_fail ((d1 ++ d2) ++ []) = true)
          by now rewrite app_nil_r, forallb_app, H1, H2.
        destruct (0 <? errorCount attrResult)%nat; apply spec_ret;
          rewrite <- app_assoc in Hall;
          (split; [intros r _; exact Hall | discriminate]).
      * intros m d2 [_ H2]. split; [discriminate |]. intros m' _.
        now rewrite forallb_app, (H2 m eq_refl), andb_false_r.
      * intros d2 _. split; discriminate.
    + intros m d1 (_ & [_ H1] & _). split; [discriminate |].
      intros m' _. exact (H1 m eq_refl).
    + intros d1 _. split; discriminate.
  - intros m d1 _. unfold structure_caught. apply spec_ret.
    intros r [= <-] _. now split.
  - intros r d1 [H1 _] r' [= <-] Hfalse.
    rewrite (H1 r eq_refl) in Hfalse. discriminate.
  - intros d1 _ r [=].
Qed.

End Answered.

(** ** The result of [cloneCollectionStructure], read off the log *)

Section Policy.
Context {World : Type}.
Variable databases : Databases World.

Lemma cloneCollectionIndexes_policy (fuel : nat) (src dst : string)
      (id : option value) (attrResult : tally) :
  spec (cloneCollectionIndexes databases fuel src dst id attrResult)
       (fun out d =>
          forallb index_phase d = true /\
          (forall m, out <> Thrown m) /\
          forall r, out = Returned r ->
            (forallb only_creations_fail d = true ->
             indexErrors r = index_failures d /\
             structure_success r = negb (0 <? errorCount attrResult)%nat) /\
            (forallb only_creations_fail d = false ->
             structure_success r = false /\ indexErrors r = [])).
Proof.
  assert (Hrun :
            spec (cloneCollectionIndexes databases fuel src dst id attrResult)
                 (fun out d =>
                    forallb index_phase d = true /\
                    (forall m, out <> Thrown m) /\
                    (forall r, out = Returned r ->
                       ((0 < errorCount attrResult)%nat ->
                        structure_success r = false) /\
                       (forallb only_index_creation_fails d = true ->
                        indexErrors r = index_failures d /\
                        structure_success r
                        = negb (0 <? errorCount attrResult)%nat /\
                        attributeErrors r
                        = if (0 <? errorCount attrResult)%nat
                          then errors attrResult else [])))).
  { intros s.
    destruct (cloneCollectionIndexes_run databases fuel src dst id
                                         attrResult s) as (d & Hext & H).
    exists d. split; [exact Hext | exact H]. }
  eapply spec_implies;
    [apply (spec_conj _ _ _ Hrun
              (cloneCollectionIndexes_unanswered databases fuel src dst id
                                                 attrResult)) |].
  cbv beta. intros out d ((Hphase & Hnothrow & Hret) & Hunanswered).
  split; [exact Hphase |]. split; [exact Hnothrow |].
  intros r Hr. split.
  - intros Htrue.
    rewrite (forallb_agree _ _ _ d only_creations_fail_index_phase Hphase)
      in Htrue.
    destruct (Hret r Hr) as [_ Hclean].
    destruct (Hclean Htrue) as (Hindex & Hsuccess & _). now split.
  - now apply Hunanswered.
Qed.

Lemma cloneCollectionStructure_policy (fuel : nat) (src dst : string)
      (collection : object) :
  spec (cloneCollectionStructure databases fuel src dst collection)
       (fun out d =>
          forall r, out = Returned r ->
            (forallb only_creations_fail d = true ->
             indexErrors r = index_failures d /\
             exists attributes,
               hd_error (fetched_lists d) = Some attributes /\
               (structure_success r = true <->
                existsb failed (attribute_creations d) = false /\
                unsupported attributes = [])) /\
            (forallb only_creations_fail d = false ->
             structure_success r = false /\ indexErrors r = [])).
Proof.
  unfold cloneCollectionStructure. cbv zeta.
  set (id := get "$id" collection).
  set (cc := CreateCollection dst _).
  eapply spec_try_catch
    with (Q1 := fun out d =>
                  (forall r, out = Returned r ->
                     (forallb only_creations_fail d = true ->
                      indexErrors r = index_failures d /\
                      exists attributes,
                        hd_error (fetched_lists d) = Some attributes /\
                        (structure_success r = true <->
                         existsb failed (attribute_creations d) = false /\
                         unsupported attributes = [])) /\
                     (forallb only_creations_fail d = false ->
                      structure_success r = false /\ indexErrors r = [])) /\
                  (forall m, out = Thrown m ->
                             forallb only_creations_fail d = false));
    cbv beta.
  2:{ intros m d1 [_ Hthrown]. unfold structure_caught. apply spec_ret.
      intros r [= <-]. rewrite app_nil_r. split.
      - intros Htrue. rewrite (Hthrown m eq_refl) in Htrue. discriminate.
      - intros _. now split. }
  2:{ intros r d1 [Hreturned _]. exact Hreturned. }
  2:{ intros d1 _ r [=]. }
  eapply spec_bind
    with (Q1 := fun out d =>
                  exists rp, d = [Called cc rp] /\
                             out = match rp with
                                   | Failed m => Thrown m
                                   | _ => Returned rp
                                   end);
    [apply spec_await; intros rp; now exists rp | | |]; cbv beta.
  2:{ intros m d0 (rp & -> & Hout). split; [discriminate |].
      intros m' _. destruct rp; try discriminate Hout. reflexivity. }
  2:{ intros d0 (rp & -> & Hout). destruct rp; discriminate Hout. }
  intros rp0 d0 (rp & -> & Hout).
  assert (H0 : forallb only_creations_fail [Called cc rp] = true)
    by (destruct rp; try discriminate Hout; reflexivity).
  eapply spec_bind;
    [apply (fetchAll_answered_post databases (ListAttributes src id) 100
              "key" fuel (fun _ _ => eq_refl)); lia | | |]; cbv beta.
  2:{ intros m d1 (_ & [_ Hthrown] & _). split; [discriminate |].
      intros m' _.
      now rewrite forallb_app, (Hthrown m eq_refl), andb_false_r. }
  2:{ intros d1 _. split; discriminate. }
  intros attributes d1 (Hquiet1 & [Hanswered1 _] & Hfetched1).
  specialize (Hanswered1 attributes eq_refl).
  specialize (Hfetched1 attributes eq_refl).
  rewrite createAttributes_guard.
  eapply spec_bind;
    [apply (spec_conj _ _ _
              (createAttributes_loop_run databases fuel dst id attributes
                                         no_tally)
              (createAttributes_loop_answered databases fuel dst id
                                              attributes no_tally))
    | | |]; cbv beta.
  2:{ intros m d2 (_ & [_ Hthrown]). split; [discriminate |].
      intros m' _.
      now rewrite !forallb_app, (Hthrown m eq_refl), !andb_false_r. }
  2:{ intros d2 _. split; discriminate. }
  intros attrResult d2 ((Hphase2 & _ & _ & Hret2) & [Hanswered2 _]).
  specialize (Hanswered2 attrResult eq_refl).
  destruct (Hret2 attrResult eq_refl) as (_ & _ & Hcount & _).
  cbn [errorCount no_tally] in Hcount.
  eapply spec_implies; [apply cloneCollectionIndexes_policy |]. cbv beta.
  intros out d3 (Hphase3 & Hnothrow & Hret3).
  split; [| intros m Hm; now destruct (Hnothrow m)].
  intros r Hr. destruct (Hret3 r Hr) as [Htrue3 Hfalse3].
  rewrite !forallb_app, H0, Hanswered1, Hanswered2. cbn [andb].
  split; [| exact Hfalse3].
  intros Htrue. destruct (Htrue3 Htrue) as [Hindex Hsuccess].
  rewrite !index_failures_app, !fetched_lists_app, !attribute_creations_app.
  rewrite (index_failures_quiet d1 Hquiet1),
    (index_failures_attribute_phase d2 Hphase2),
    (attribute_creations_quiet d1 Hquiet1),
    (attribute_creations_index_phase d3 Hphase3), Hfetched1.
  subst cc. cbn [index_failures attribute_creations fetched_lists flat_map
                   app hd_error].
  rewrite app_nil_r.
  split; [exact Hindex |]. exists attributes. split; [reflexivity |].
  rewrite Hsuccess, Hcount, count_unknown_unsupported.
  rewrite <- count_failed_none.
  destruct (count_failed (attribute_creations d2)) as [| failures];
    destruct (unsupported attributes) as [| attribute others];
    cbn; split; try tauto; try discriminate; intros [H1 H2];
    discriminate.
Qed.

End Policy.

(** * The schema replicator's error policy *)

Lemma schema_service_one_page (a i : bool) (status : string) :
  one_page 100 (schema_service a i status).
Proof.
  intros w rq items. destruct rq; simpl; try discriminate;
    try (intros H; injection H as <-; simpl; lia).
  - destruct a; discriminate.
  - destruct i; discriminate.
Qed.

Lemma relations_service_one_page : one_page 100 relations_service.
Proof.
  intros w rq items. destruct rq; simpl; try discriminate;
    intros H; injection H as <-; simpl; lia.
Qed.

Lemma unlistable_service_one_page : one_page 100 unlistable_service.
Proof.
  intros w rq items. destruct rq; simpl; try discriminate;
    try (intros H; injection H as <-; simpl; lia).
  - destruct (String.eqb databaseId "source"); [| discriminate].
    intros H; injection H as <-; simpl; lia.
  - destruct (hd None args) as [[| | | [| c k] | |] |]; try discriminate.
    repeat (match goal with
            | |- context [match ?x with _ => _ end] => destruct x
            end; try discriminate).
Qed.

(** C3, as amended.  [cloneCollectionStructure] never raises, and
    whenever it returns a result [r]: if at least one attribute creation
    call of the run was rejected, [r] is a failure.  When every call of
    the run that is not a creation of an attribute or of an index was
    answered, the index error list of [r] holds exactly the rejected
    index creations, in order, and [r] is a success exactly when no
    attribute creation was rejected and the source list, the first list
    the run fetched, holds no attribute of a type that cannot be created
    other than child-side ones.  When some other call was rejected or not
    answered with a list, [r] is a failure whose index error list is
    empty, whatever index creations were rejected before.  When every
    listing of the service fits in one page of 100 the run does return a
    result. *)
Theorem cloneCollectionStructure_failure_policy {World : Type}
        (databases : Databases World) (fuel : nat)
        (sourceDbId destDbId : string) (collection : object)
        (s : state World) :
  let run := cloneCollectionStructure databases fuel sourceDbId destDbId
                                      collection s in
  (one_page 100 databases -> (0 < fuel)%nat ->
   exists r, fst run = Returned r) /\
  exists d,
    log (snd run) = log s ++ d /\
    (forall m, fst run <> Thrown m) /\
    (forall r, fst run = Returned r ->
       (existsb failed (attribute_creations d) = true ->
        structure_success r = false) /\
       (forallb only_creations_fail d = true ->
        indexErrors r = index_failures d /\
        exists attributes,
          hd_error (fetched_lists d) = Some attributes /\
          (structure_success r = true <->
           existsb failed (attribute_creations d) = false /\
           unsupported attributes = [])) /\
       (forallb only_creations_fail d = false ->
        structure_success r = false /\ indexErrors r = [])).
Proof.
  cbv zeta. split.
  - intros Hone Hfuel. destruct fuel as [| fuel]; [lia |].
    now apply cloneCollectionStructure_returns.
  - destruct (spec_conj _ _ _
                (cloneCollectionStructure_run databases fuel sourceDbId
                   destDbId collection)
                (cloneCollectionStructure_policy databases fuel sourceDbId
                   destDbId collection) s)
      as (d & [Hlog _] & (_ & Hnothrow & Hrun) & Hpolicy).
    exists d. split; [exact Hlog |]. split; [exact Hnothrow |].
    intros r Hr. destruct (Hpolicy r Hr) as [Htrue Hfalse].
    split; [apply (Hrun r Hr) |]. now split.
Qed.

(** C3 on three runs.  With attribute creations rejected the result is a
    failure.  With index creations rejected and attributes accepted the
    result is a success that lists the rejected index.  With an index
    creation rejected and a later listing rejected, the result is a
    failure that lists no index. *)
Lemma cloneCollectionStructure_failure_policy_witness :
  (exists r,
      fst (cloneCollectionStructure (schema_service false true "available")
             1 "source" "dest" parcels start) = Returned r
      /\ structure_success r = false) /\
  (exists r,
      fst (cloneCollectionStructure (schema_service true false "available")
             1 "source" "dest" parcels start) = Returned r
      /\ structure_success r = true
      /\ indexErrors r = [ (Some (Str "by_title"), Some "index_invalid") ]) /\
  (exists r,
      fst (cloneCollectionStructure unlistable_service
             1 "source" "dest" parcels start) = Returned r
      /\ structure_success r = false
      /\ indexErrors r = []).
Proof.
  split; [| split].
  - destruct (cloneCollectionStructure_failure_policy
                (schema_service false true "available") 1 "source" "dest"
                parcels start) as [Hreturns (d & Hlog & _ & Hret)].
    destruct (Hreturns (schema_service_one_page _ _ _) (le_n 1)) as [r Hr].
    exists r. split; [exact Hr |].
    vm_compute in Hlog. subst d.
    destruct (Hret r Hr) as (Hfailed & _).
    apply Hfailed. reflexivity.
  - destruct (cloneCollectionStructure_failure_policy
                (schema_service true false "available") 1 "source" "dest"
                parcels start) as [Hreturns (d & Hlog & _ & Hret)].
    destruct (Hreturns (schema_service_one_page _ _ _) (le_n 1)) as [r Hr].
    exists r. split; [exact Hr |].
    vm_compute in Hlog. subst d.
    destruct (Hret r Hr) as (_ & Hanswered & _).
    destruct (Hanswered eq_refl)
      as (Hindex & attributes & Hsource & Hsuccess).
    split; [| exact Hindex].
    apply Hsuccess. injection Hsource as <-. split; reflexivity.
  - destruct (cloneCollectionStructure_failure_policy
                unlistable_service 1 "source" "dest" parcels start)
      as [Hreturns (d & Hlog & _ & Hret)].
    destruct (Hreturns unlistable_service_one_page (le_n 1)) as [r Hr].
    exists r. split; [exact Hr |].
    vm_compute in Hlog. subst d.
    destruct (Hret r Hr) as (_ & _ & Hunanswered).
    exact (Hunanswered eq_refl).
Defined.

(** C3 as worded fails on [unlistable_service]: the source collection
    has no attribute, so no attribute creation fails; the creation of the
    index [by_title] is rejected; the poll that follows the creation of
    [by_weight] cannot list the indexes of the destination.  The result
    is a failure, and its index error list is empty although the log
    holds the rejected index creation. *)
Lemma cloneCollectionStructure_indexes_counterexample :
  fst (cloneCollectionStructure unlistable_service 1 "source" "dest"
         parcels start)
  = Returned (mkStructure false (Some "service_unavailable") [] []) /\
  attribute_creations
    (log (snd (cloneCollectionStructure unlistable_service 1 "source"
                 "dest" parcels start))) = [] /\
  index_failures
    (log (snd (cloneCollectionStructure unlistable_service 1 "source"
                 "dest" parcels start)))
  = [ (Some (Str "by_title"), Some "index_invalid") ].
Proof. repeat split. Qed.

Lemma polled_true_iff (key : option value) (n : nat)
      (out : outcome bool) (d : list event) :
  polled key n out (filter is_poll_event d) ->
  (out = Returned true <->
   exists items, In (Fetched items) d /\ shows_available key items).
Proof.
  intros (misses & Hmisses & Hcase).
  assert (Hin_miss :
            forall items, In (Fetched items) (flat_map miss misses) ->
                          ~ shows_available key items).
  { intros items Hin. apply in_flat_map in Hin as (l & Hl & Hin).
    rewrite Forall_forall in Hmisses.
    destruct Hin as [Heq | [Heq | []]]; [| discriminate].
    injection Heq as <-. now apply Hmisses. }
  assert (Hfilter : forall items,
             In (Fetched items) d <->
             In (Fetched items) (filter is_poll_event d)).
  { intros items. rewrite filter_In. simpl. tauto. }
  split.
  - intros ->. destruct Hcase as (hit & Hhit & _ & Heq).
    exists hit. split; [| exact Hhit].
    apply Hfilter. rewrite Heq. apply in_or_app. right. now left.
  - intros (items & Hin & Havail). apply Hfilter in Hin.
    destruct out as [[|] | m |]; [reflexivity | | |];
      destruct Hcase as [_ Heq]; rewrite Heq in Hin;
      apply Hin_miss in Hin; contradiction.
Qed.

Lemma polled_fetches (key : option value) (n : nat)
      (out : outcome bool) (d : list event) :
  polled key n out (filter is_poll_event d) ->
  (fetches d <= n)%nat /\ (out = Returned false -> fetches d = n).
Proof.
  intros (misses & _ & Hcase).
  rewrite <- fetches_poll_events.
  destruct out as [[|] | m |].
  - destruct Hcase as (hit & _ & Hlen & ->).
    rewrite fetches_app, fetches_misses. unfold fetches. simpl.
    split; [lia | discriminate].
  - destruct Hcase as [Hlen ->]. rewrite fetches_misses.
    split; [lia | now intros _].
  - destruct Hcase as [Hlen ->]. rewrite fetches_misses.
    split; [lia | discriminate].
  - destruct Hcase as [Hlen ->]. rewrite fetches_misses.
    split; [lia | discriminate].
Qed.

Lemma attribute_creations_called (d : list event) (rq : request)
      (rp : reply) :
  In (rq, rp) (attribute_creations d) -> In (Called rq rp) d.
Proof.
  unfold attribute_creations. intros Hin.
  apply in_flat_map in Hin as (e & He & Hin).
  destruct e as [rq' rp' | | | | |]; try contradiction.
  destruct rq'; try contradiction.
  destruct Hin as [[= <- <-] | []]. exact He.
Qed.

Lemma creation_failure_recorded (db : string) (coll : option value)
      (attributes : list object) (d : list event)
      (entry : option value * option string) :
  creation_failure db coll attributes d entry ->
  recorded_failure db coll attributes d entry.
Proof.
  intros (attribute & Hin & Hkey & Hcase).
  exists attribute. split; [exact Hin |]. split; [exact Hkey |].
  destruct Hcase as [[Hunknown Hmessage] | (rq & m & Hcall & Hcalled & Hm)].
  - left. rewrite unknown_type_unsupported in Hunknown.
    apply andb_prop in Hunknown as [Hchild Hknown].
    apply negb_true_iff in Hchild, Hknown. now repeat split.
  - right. exists rq, m. split; [now apply attribute_call_creates |].
    split; [now apply attribute_creations_called | exact Hm].
Qed.

(** C4.  A readiness poll whose budget is [maxRetries], 30 for
    [waitForAttribute] and 60 for [waitForIndex] when the caller leaves
    it out, does nothing but re-fetch the list and sleep 1000 ms after
    each re-fetched list that does not show the key available, a list
    showing the key available when the first item that carries the key
    has the status [available].  It returns [true] exactly when a
    re-fetch of the run shows the key available, which ends the poll
    within the budget; after exactly as many misses as the budget it
    returns [false]; it raises only when a listing call is rejected
    or not answered with a list.  [createAttributes] and
    [createIndexes] leave the budget out and do not look at the answer:
    after each accepted creation comes a poll for the key of the item
    with the budget 30 (resp. 60), then the next item, whatever the poll
    answered; the counters and the error list they return are determined
    by the creation calls alone, every entry of the error list being a
    creation failure.  When every listing of the service fits in one page
    of 100, none of these runs ends for lack of fuel. *)
Theorem readiness_poll_policy {World : Type} (databases : Databases World)
        (fuel : nat) (databaseId : string) (collectionId : option value)
        (s : state World) :
  (forall key maxRetries,
      let run := waitForAttribute databases fuel databaseId collectionId
                                  key maxRetries s in
      let budget := defaulted 30 maxRetries in
      (one_page 100 databases -> (0 < fuel)%nat -> settles (fst run)) /\
      exists d,
        log (snd run) = log s ++ d /\
        forallb polling d = true /\
        polled key budget (fst run) (filter is_poll_event d) /\
        (fetches d <= budget)%nat /\
        (fst run = Returned true <->
         exists items, In (Fetched items) d /\ shows_available key items) /\
        (fst run = Returned false -> fetches d = budget) /\
        (forall m, fst run = Thrown m ->
                   forallb only_creations_fail d = false)) /\
  (forall key maxRetries,
      let run := waitForIndex databases fuel databaseId collectionId
                              key maxRetries s in
      let budget := defaulted 60 maxRetries in
      (one_page 100 databases -> (0 < fuel)%nat -> settles (fst run)) /\
      exists d,
        log (snd run) = log s ++ d /\
        forallb polling d = true /\
        polled key budget (fst run) (filter is_poll_event d) /\
        (fetches d <= budget)%nat /\
        (fst run = Returned true <->
         exists items, In (Fetched items) d /\ shows_available key items) /\
        (fst run = Returned false -> fetches d = budget) /\
        (forall m, fst run = Thrown m ->
                   forallb only_creations_fail d = false)) /\
  (forall attributes,
      let run := createAttributes databases fuel databaseId collectionId
                                  attributes s in
      (one_page 100 databases -> (0 < fuel)%nat -> settles (fst run)) /\
      exists d complete,
        log (snd run) = log s ++ d /\
        rounds 30 passed_over (creates databaseId collectionId)
               attributes complete d /\
        (complete = true <-> exists t, fst run = Returned t) /\
        (forall t, fst run = Returned t ->
           successCount t = count_accepted (attribute_creations d) /\
           errorCount t
           = (count_failed (attribute_creations d)
              + List.length (unsupported attributes))%nat /\
           List.length (errors t) = errorCount t /\
           Forall (recorded_failure databaseId collectionId attributes d)
                  (errors t))) /\
  (forall indexes,
      let run := createIndexes databases fuel databaseId collectionId
                               indexes s in
      (one_page 100 databases -> (0 < fuel)%nat -> settles (fst run)) /\
      exists d complete,
        log (snd run) = log s ++ d /\
        rounds 60 (fun _ => false) (creates_index databaseId collectionId)
               indexes complete d /\
        (complete = true <-> exists t, fst run = Returned t) /\
        (forall t, fst run = Returned t ->
           successCount t = count_accepted (index_creations d) /\
           errorCount t = count_failed (index_creations d) /\
           errors t = index_failures d)).
Proof.
  split; [| split; [| split]].
  - intros key maxRetries. cbv zeta. split.
    { intros Hone Hfuel. destruct fuel as [| fuel]; [lia |].
      apply poll_settles. intros s'. now apply fetchAll_settles. }
    destruct (spec_conj _ _ _
                (waitForAttribute_run databases fuel databaseId collectionId
                                      key maxRetries)
                (waitForAttribute_answered_post databases fuel databaseId
                                                collectionId key maxRetries)
                s)
      as (d & [Hlog _] & (Hpolling & Hshape & _) & [_ Hthrown]).
    apply poll_shape_polled in Hshape.
    exists d. split; [exact Hlog |]. split; [exact Hpolling |].
    split; [exact Hshape |].
    split; [apply (polled_fetches _ _ _ _ Hshape) |].
    split; [apply (polled_true_iff _ _ _ _ Hshape) |].
    split; [apply (polled_fetches _ _ _ _ Hshape) | exact Hthrown].
  - intros key maxRetries. cbv zeta. split.
    { intros Hone Hfuel. destruct fuel as [| fuel]; [lia |].
      apply poll_settles. intros s'. now apply fetchAll_settles. }
    destruct (spec_conj _ _ _
                (waitForIndex_run databases fuel databaseId collectionId
                                  key maxRetries)
                (waitForIndex_answered_post databases fuel databaseId
                                            collectionId key maxRetries)
                s)
      as (d & [Hlog _] & (Hpolling & Hshape & _) & [_ Hthrown]).
    apply poll_shape_polled in Hshape.
    exists d. split; [exact Hlog |]. split; [exact Hpolling |].
    split; [exact Hshape |].
    split; [apply (polled_fetches _ _ _ _ Hshape) |].
    split; [apply (polled_true_iff _ _ _ _ Hshape) |].
    split; [apply (polled_fetches _ _ _ _ Hshape) | exact Hthrown].
  - intros attributes. cbv zeta. split.
    { intros Hone Hfuel. destruct fuel as [| fuel]; [lia |].
      now apply createAttributes_loop_settles. }
    destruct (spec_conj _ _ _
                (createAttributes_loop_run databases fuel databaseId
                   collectionId attributes no_tally)
                (createAttributes_loop_rounds databases fuel databaseId
                   collectionId attributes no_tally) s)
      as (d & [Hlog _] & (_ & _ & _ & Hret)
          & (complete & Hrounds & Hcomplete)).
    exists d, complete. split; [exact Hlog |]. split; [exact Hrounds |].
    split; [exact Hcomplete |].
    intros t Ht.
    destruct (Hret t Ht) as (Hcalls & Hok & Herr & new & Hnew & Hlen & Hall).
    simpl in Hok, Herr, Hnew. subst new.
    rewrite count_unknown_unsupported in Herr, Hlen.
    split; [exact Hok |]. split; [exact Herr |]. split; [lia |].
    eapply Forall_impl; [| exact Hall].
    intros entry. apply creation_failure_recorded.
  - intros indexes. cbv zeta. split.
    { intros Hone Hfuel. destruct fuel as [| fuel]; [lia |].
      now apply createIndexes_loop_settles. }
    destruct (spec_conj _ _ _
                (createIndexes_loop_run databases fuel databaseId
                   collectionId indexes no_tally)
                (createIndexes_loop_rounds databases fuel databaseId
                   collectionId indexes no_tally) s)
      as (d & [Hlog _] & (_ & _ & _ & Hret)
          & (complete & Hrounds & Hcomplete)).
    exists d, complete. split; [exact Hlog |]. split; [exact Hrounds |].
    split; [exact Hcomplete |].
    intros t Ht.
    destruct (Hret t Ht) as (Hcalls & Hok & Herr & Herrors).
    simpl in Hok, Herr, Herrors. auto.
Qed.

(** C4 on a service that reports [weight] available and keeps [title]
    in [processing], and that lists no index [by_weight].  The poll for
    [weight] returns [true] on its first re-fetch, which shows the key
    available in third place.  The poll for [title] returns [false]
    after 30 re-fetches and the poll for [by_weight] after 60.
    [createAttributes] nevertheless goes on from [title] to [weight],
    reaches the end of the list and returns two successes and no
    error. *)
Lemma readiness_poll_policy_witness :
  (fst (waitForAttribute (schema_service true true "processing") 1 "dest"
          (Some (Str "parcels")) (Some (Str "weight")) None start)
   = Returned true /\
   exists items,
     In (Fetched items)
        (log (snd (waitForAttribute (schema_service true true "processing")
                     1 "dest" (Some (Str "parcels")) (Some (Str "weight"))
                     None start))) /\
     shows_available (Some (Str "weight")) items) /\
  (fst (waitForAttribute (schema_service true true "processing") 1 "dest"
          (Some (Str "parcels")) (Some (Str "title")) None start)
   = Returned false /\
   fetches (log (snd (waitForAttribute
                        (schema_service true true "processing") 1 "dest"
                        (Some (Str "parcels")) (Some (Str "title")) None
                        start))) = 30%nat) /\
  (settles (fst (waitForIndex (schema_service true true "processing") 1
                   "dest" (Some (Str "parcels")) (Some (Str "by_weight"))
                   None start)) /\
   fst (waitForIndex (schema_service true true "processing") 1 "dest"
          (Some (Str "parcels")) (Some (Str "by_weight")) None start)
   = Returned false /\
   fetches (log (snd (waitForIndex
                        (schema_service true true "processing") 1 "dest"
                        (Some (Str "parcels")) (Some (Str "by_weight")) None
                        start))) = 60%nat) /\
  (fst (createAttributes (schema_service true true "processing") 1 "dest"
          (Some (Str "parcels"))
          [ title_attribute "available"; owner_attribute; weight_attribute ]
          start)
   = Returned (mkTally 2 0 []) /\
   rounds 30 passed_over (creates "dest" (Some (Str "parcels")))
          [ title_attribute "available"; owner_attribute; weight_attribute ]
          true
          (log (snd (createAttributes
                       (schema_service true true "processing") 1 "dest"
                       (Some (Str "parcels"))
                       [ title_attribute "available"; owner_attribute;
                         weight_attribute ] start)))).
Proof.
  destruct (readiness_poll_policy (schema_service true true "processing")
              1 "dest" (Some (Str "parcels")) start)
    as (Hwait & Hwait_index & Hattrs & _).
  split; [| split; [| split]].
  - split; [vm_compute; reflexivity |].
    destruct (Hwait (Some (Str "weight")) None)
      as (_ & d & Hlog & _ & _ & _ & Htrue & _).
    cbv zeta in Hlog, Htrue. change (log start) with (@nil event) in Hlog.
    rewrite app_nil_l in Hlog. rewrite Hlog.
    apply Htrue. vm_compute. reflexivity.
  - split; [vm_compute; reflexivity |].
    destruct (Hwait (Some (Str "title")) None)
      as (_ & d & Hlog & _ & _ & _ & _ & Hfalse & _).
    cbv zeta in Hlog, Hfalse. change (log start) with (@nil event) in Hlog.
    rewrite app_nil_l in Hlog. rewrite Hlog.
    apply Hfalse. vm_compute. reflexivity.
  - destruct (Hwait_index (Some (Str "by_weight")) None)
      as (Hsettles & d & Hlog & _ & _ & _ & _ & Hfalse & _).
    split; [apply Hsettles; [apply schema_service_one_page | lia] |].
    split; [vm_compute; reflexivity |].
    cbv zeta in Hlog, Hfalse. change (log start) with (@nil event) in Hlog.
    rewrite app_nil_l in Hlog. rewrite Hlog.
    apply Hfalse. vm_compute. reflexivity.
  - split; [vm_compute; reflexivity |].
    destruct (Hattrs [ title_attribute "available"; owner_attribute;
                       weight_attribute ])
      as (_ & d & complete & Hlog & Hrounds & Hcomplete & _).
    cbv zeta in Hlog, Hcomplete.
    change (log start) with (@nil event) in Hlog.
    rewrite app_nil_l in Hlog. rewrite Hlog.
    assert (Hend : complete = true)
      by (apply Hcomplete; exists (mkTally 2 0 []); vm_compute; reflexivity).
    subst complete. exact Hrounds.
Defined.

Lemma Forall2_prefix {A B : Type} (R : A -> B -> Prop) (l : list A)
      (l1 rest : list B) :
  Forall2 R l (l1 ++ rest) -> Forall2 R (firstn (List.length l1) l) l1.
Proof.
  revert l. induction l1 as [| y l1 IH]; intros l H; [constructor |].
  inversion H as [| x y' l' rest' Hxy Hrest]; subst.
  cbn [List.length firstn]. constructor; [exact Hxy | now apply IH].
Qed.

Lemma count_accepted_failed (calls : list (request * reply)) :
  (count_accepted calls + count_failed calls)%nat = List.length calls.
Proof.
  unfold count_accepted, count_failed.
  induction calls as [| call calls IH]; [reflexivity |].
  simpl. destruct (failed call); simpl; lia.
Qed.

Lemma submitted_and_unsupported (attributes : list object) :
  (List.length (submitted attributes)
   + List.length (unsupported attributes))%nat
  = List.length (filter (fun attribute => negb (child_side attribute))
                        attributes).
Proof.
  unfold submitted, unsupported.
  induction attributes as [| attribute rest IH]; [reflexivity |].
  cbn [filter].
  destruct (child_side attribute); cbn [negb andb]; [exact IH |].
  destruct (known_type attribute); cbn [negb List.length]; lia.
Qed.

(** C5, as amended.  The creation calls issued by a run of
    [createAttributes] stand, one for one and in source order, for the
    first attributes of the list that are to be submitted: the
    attributes that are not child-side relationship attributes and whose
    type has a creation call.  Each call is the call of the method for
    the type of its attribute and carries the key of the attribute.  No
    call stands for a child-side relationship attribute, nor for an
    attribute of a type that cannot be created.  When the run returns,
    the calls stand for all the attributes to be submitted, and every
    attribute that is not child-side has been counted exactly once, as a
    success or as an error, an attribute of a type that cannot be created
    as an error.  A run is cut short only by a poll whose listing call
    was rejected or not answered with a list.  When every listing of the
    service fits in one page of 100, the run returns or raises. *)
Theorem createAttributes_skips_child_side {World : Type}
        (databases : Databases World) (fuel : nat) (databaseId : string)
        (collectionId : option value) (attributes : list object)
        (s : state World) :
  let run := createAttributes databases fuel databaseId collectionId
                              attributes s in
  let stands_for := fun attribute rq =>
                      attribute_call databaseId collectionId attribute
                      = Some rq /\
                      creates databaseId collectionId attribute rq in
  (one_page 100 databases -> (0 < fuel)%nat -> settles (fst run)) /\
  exists d,
    log (snd run) = log s ++ d /\
    (exists n, Forall2 stands_for (firstn n (submitted attributes))
                       (map fst (attribute_creations d))) /\
    (forall m, fst run = Thrown m ->
               forallb only_creations_fail d = false) /\
    (forall t, fst run = Returned t ->
       Forall2 stands_for (submitted attributes)
               (map fst (attribute_creations d)) /\
       (successCount t + errorCount t)%nat
       = List.length (filter (fun attribute => negb (child_side attribute))
                             attributes) /\
       errorCount t
       = (count_failed (attribute_creations d)
          + List.length (unsupported attributes))%nat).
Proof.
  cbv zeta. split.
  { intros Hone Hfuel. destruct fuel as [| fuel]; [lia |].
    now apply createAttributes_loop_settles. }
  destruct (spec_conj _ _ _
              (createAttributes_loop_run databases fuel databaseId
                 collectionId attributes no_tally)
              (createAttributes_loop_answered databases fuel databaseId
                 collectionId attributes no_tally) s)
    as (d & [Hlog _] & (_ & Hprefix & _ & Hret) & [_ Hthrown]).
  pose proof (due_attribute_calls_submitted databaseId collectionId
                                            attributes) as Hdue.
  exists d. split; [exact Hlog |]. split; [| split; [exact Hthrown |]].
  - destruct Hprefix as [rest Hrest]. rewrite Hrest in Hdue.
    exists (List.length (map fst (attribute_creations d))).
    now apply Forall2_prefix with (rest := rest).
  - intros t Ht.
    destruct (Hret t Ht) as (Hcalls & Hok & Herr & _).
    simpl in Hok, Herr. rewrite count_unknown_unsupported in Herr.
    split; [now rewrite Hcalls |]. split; [| exact Herr].
    rewrite <- submitted_and_unsupported.
    rewrite (Forall2_length Hdue), <- Hcalls, length_map.
    rewrite <- (count_accepted_failed (attribute_creations d)). lia.
Qed.

(** C5 on a list of four attributes whose second is the child side and
    whose third is the parent side of a relationship: three calls, for
    [title], for [keeper] and for [weight], in that order, and none for
    [owner]. *)
Lemma createAttributes_skips_child_side_witness :
  settles (fst (createAttributes relations_service 1 "dest"
                  (Some (Str "parcels"))
                  [ title_attribute "available"; owner_attribute;
                    keeper_attribute; weight_attribute ] start)) /\
  submitted [ title_attribute "available"; owner_attribute;
              keeper_attribute; weight_attribute ]
  = [ title_attribute "available"; keeper_attribute; weight_attribute ] /\
  Forall2 (fun attribute rq =>
             attribute_call "dest" (Some (Str "parcels")) attribute
             = Some rq /\
             creates "dest" (Some (Str "parcels")) attribute rq)
          [ title_attribute "available"; keeper_attribute; weight_attribute ]
          (map fst
               (attribute_creations
                  (log (snd (createAttributes relations_service 1 "dest"
                               (Some (Str "parcels"))
                               [ title_attribute "available";
                                 owner_attribute; keeper_attribute;
                                 weight_attribute ] start))))) /\
  map fst
      (attribute_creations
         (log (snd (createAttributes relations_service 1 "dest"
                      (Some (Str "parcels"))
                      [ title_attribute "available"; owner_attribute;
                        keeper_attribute; weight_attribute ] start))))
  = [ CreateAttribute "createStringAttribute" "dest" (Some (Str "parcels"))
        [ Some (Str "title"); Some (Num "128"); Some (Boolean true); None;
          Some (Boolean false) ];
      CreateAttribute "createRelationshipAttribute" "dest"
        (Some (Str "parcels"))
        [ Some (Str "users"); Some (Str "oneToMany"); Some (Boolean true);
          Some (Str "keeper"); Some (Str "parcels");
          Some (Str "restrict") ];
      CreateAttribute "createIntegerAttribute" "dest" (Some (Str "parcels"))
        [ Some (Str "weight"); Some (Boolean false); None; None; None;
          Some (Boolean false) ] ].
Proof.
  destruct (createAttributes_skips_child_side
              relations_service 1 "dest" (Some (Str "parcels"))
              [ title_attribute "available"; owner_attribute;
                keeper_attribute; weight_attribute ] start)
    as (Hsettles & d & Hlog & _ & _ & Hret).
  split; [apply Hsettles; [apply relations_service_one_page | lia] |].
  split; [reflexivity |].
  cbv zeta in Hlog, Hret. change (log start) with (@nil event) in Hlog.
  rewrite app_nil_l in Hlog. rewrite Hlog.
  split.
  - exact (proj1 (Hret (mkTally 3 0 []) ltac:(vm_compute; reflexivity))).
  - rewrite <- Hlog. vm_compute. reflexivity.
Defined.

(** C5 as worded fails on an attribute of a type that has no creation
    call: [location] is not a child-side relationship attribute, and no
    call is issued for it; it is counted as an error. *)
Lemma createAttributes_unknown_type_counterexample :
  child_side location_attribute = false /\
  fst (createAttributes (schema_service true true "available") 1 "dest"
         (Some (Str "parcels"))
         [ title_attribute "available"; location_attribute;
           weight_attribute ] start)
  = Returned (mkTally 2 1 [ (Some (Str "location"),
                             Some "Unknown type: point") ]) /\
  map fst
      (attribute_creations
         (log (snd (createAttributes (schema_service true true "available")
                      1 "dest" (Some (Str "parcels"))
                      [ title_attribute "available"; location_attribute;
                        weight_attribute ] start))))
  = [ CreateAttribute "createStringAttribute" "dest" (Some (Str "parcels"))
        [ Some (Str "title"); Some (Num "128"); Some (Boolean true); None;
          Some (Boolean false) ];
      CreateAttribute "createIntegerAttribute" "dest" (Some (Str "parcels"))
        [ Some (Str "weight"); Some (Boolean false); None; None; None;
          Some (Boolean false) ] ].
Proof. repeat split. Qed.

(** * Properties of the CSV export *)

Section CsvFacts.
Variable stringify : value -> string.

Lemma string_app_assoc (a b c : string) :
  String.append (String.append a b) c = String.append a (String.append b c).
Proof. induction a as [| x a IH]; cbn; [reflexivity | now rewrite IH]. Qed.

Lemma string_app_nil_r (a : string) : String.append a EmptyString = a.
Proof. induction a as [| x a IH]; cbn; [reflexivity | now rewrite IH]. Qed.

Lemma push_app (field : string) (c : ascii) (s : string) :
  String.append (push field c) s = String.append field (String c s).
Proof. unfold push. now rewrite string_app_assoc. Qed.

(** A cell is written as its text would be. *)
Lemma escapeCSVField_text (v : option value) :
  escapeCSVField stringify v
  = escapeCSVField stringify (Some (Str (cell_text stringify v))).
Proof.
  destruct v as [[| b | n | s | l | o] |]; try reflexivity.
Qed.

Lemma escapeCSVField_cases (s : string) :
  (escapeCSVField stringify (Some (Str s)) = s /\
   contains comma s = false /\ contains double_quote s = false /\
   contains line_feed s = false)
  \/ escapeCSVField stringify (Some (Str s))
     = String double_quote
         (String.append (double_quotes s) (String double_quote EmptyString)).
Proof.
  unfold escapeCSVField. cbn [ToString].
  destruct (contains comma s); [now right |].
  destruct (contains double_quote s); [now right |].
  destruct (contains line_feed s); [now right |].
  destruct (contains carriage_return s || startsWith space s
            || endsWith space s) eqn:H.
  - right. cbn [orb].
    destruct (contains carriage_return s); [reflexivity |].
    destruct (startsWith space s); [reflexivity |].
    cbn in H. now rewrite H.
  - left. cbn [orb].
    destruct (contains carriage_return s); [discriminate |].
    destruct (startsWith space s); [discriminate |].
    cbn in H. rewrite H. now repeat split.
Qed.

Lemma read_separated (m : mode) (field : string) (row : list string)
      (rest : string) :
  m <> Quoted ->
  match rest with
  | EmptyString => True
  | String c _ => c = comma \/ c = line_feed
  end ->
  read m field row rest = read Plain field row rest.
Proof.
  intros Hm Hsep. destruct rest as [| c r]; [reflexivity |].
  destruct Hsep as [-> | ->]; destruct m; try reflexivity; contradiction.
Qed.

Lemma read_plain_run (s : string) :
  forall (m : mode) (field : string) (row : list string) (rest : string),
    m <> Quoted ->
    contains comma s = false -> contains double_quote s = false ->
    contains line_feed s = false ->
    match rest with
    | EmptyString => True
    | String c _ => c = comma \/ c = line_feed
    end ->
    read m field row (String.append s rest)
    = read Plain (String.append field s) row rest.
Proof.
  induction s as [| c s IH]; intros m field row rest Hm Hc Hq Hl Hsep.
  - cbn [String.append]. rewrite string_app_nil_r.
    now apply read_separated.
  - cbn [contains] in Hc, Hq, Hl.
    apply orb_false_elim in Hc as [Hc Hc'].
    apply orb_false_elim in Hq as [Hq Hq'].
    apply orb_false_elim in Hl as [Hl Hl'].
    cbn [String.append read]. rewrite Hc, Hq, Hl.
    rewrite <- push_app.
    destruct m; try contradiction;
      apply IH; try assumption; discriminate.
Qed.

Lemma read_quoted_run (s : string) :
  forall (field : string) (row : list string) (rest : string),
    match rest with
    | EmptyString => True
    | String c _ => c = comma \/ c = line_feed
    end ->
    read Quoted field row
         (String.append (double_quotes s) (String double_quote rest))
    = read Plain (String.append field s) row rest.
Proof.
  induction s as [| c s IH]; intros field row rest Hsep.
  - cbn. rewrite string_app_nil_r.
    apply read_separated; [discriminate | exact Hsep].
  - cbn [double_quotes]. destruct (Ascii.eqb c double_quote) eqn:Hc.
    + apply Ascii.eqb_eq in Hc. subst c.
      cbn [String.append read]. cbn [Ascii.eqb Bool.eqb double_quote comma
                                       line_feed andb].
      rewrite IH by exact Hsep. now rewrite push_app.
    + cbn [String.append read]. rewrite Hc.
      rewrite IH by exact Hsep. now rewrite push_app.
Qed.

Lemma read_field (s : string) (row : list string) (rest : string) :
  match rest with
  | EmptyString => True
  | String c _ => c = comma \/ c = line_feed
  end ->
  read FieldStart EmptyString row
       (String.append (escapeCSVField stringify (Some (Str s))) rest)
  = read Plain s row rest.
Proof.
  intros Hsep.
  destruct (escapeCSVField_cases s) as [(-> & Hc & Hq & Hl) | ->].
  - now rewrite read_plain_run.
  - cbn [String.append]. rewrite string_app_assoc. cbn [String.append].
    cbn [read]. cbn [Ascii.eqb Bool.eqb double_quote comma line_feed andb].
    now rewrite read_quoted_run.
Qed.

Lemma concat_two (sep x y : string) (l : list string) :
  String.concat sep (x :: y :: l)
  = String.append x (String.append sep (String.concat sep (y :: l))).
Proof. reflexivity. Qed.

Lemma read_line (fields : list string) :
  forall (row : list string) (rest : string),
    fields <> [] ->
    match rest with
    | EmptyString => True
    | String c _ => c = line_feed
    end ->
    read FieldStart EmptyString row
         (String.append
            (String.concat ","
               (map (fun s => escapeCSVField stringify (Some (Str s)))
                    fields))
            rest)
    = read Plain (last fields EmptyString) (row ++ removelast fields) rest.
Proof.
  induction fields as [| f fields IH]; intros row rest Hne Hsep;
    [contradiction |].
  destruct fields as [| f' fields].
  - cbn [map String.concat last removelast]. rewrite app_nil_r.
    apply read_field. destruct rest; [exact I | now right].
  - change (map (fun s => escapeCSVField stringify (Some (Str s)))
                (f :: f' :: fields))
      with (escapeCSVField stringify (Some (Str f))
            :: escapeCSVField stringify (Some (Str f'))
            :: map (fun s => escapeCSVField stringify (Some (Str s)))
                   fields).
    rewrite concat_two, !string_app_assoc.
    change (String.append "," ?x) with (String comma x).
    rewrite read_field by (now left).
    change (read Plain f row (String comma ?x))
      with (read FieldStart EmptyString (row ++ [f]) x).
    specialize (IH (row ++ [f]) rest).
    change (map (fun s => escapeCSVField stringify (Some (Str s)))
                (f' :: fields))
      with (escapeCSVField stringify (Some (Str f'))
            :: map (fun s => escapeCSVField stringify (Some (Str s)))
                   fields) in IH.
    rewrite IH; [| discriminate | exact Hsep].
    rewrite <- app_assoc. reflexivity.
Qed.

Lemma read_table (rows : list (list string)) :
  rows <> [] ->
  Forall (fun fields => fields <> []) rows ->
  read_csv
    (String.concat (String line_feed EmptyString)
       (map (fun fields =>
               String.concat ","
                 (map (fun s => escapeCSVField stringify (Some (Str s)))
                      fields))
            rows))
  = rows.
Proof.
  unfold read_csv.
  induction rows as [| fields rows IH]; intros Hne Hall; [contradiction |].
  inversion Hall as [| ? ? Hfields Hrows]; subst.
  destruct rows as [| fields' rows].
  - cbn [map String.concat].
    rewrite <- (string_app_nil_r (String.concat _ _)).
    rewrite read_line by (exact Hfields || exact I).
    cbn [read app]. now rewrite <- app_removelast_last.
  - change (map ?g (fields :: fields' :: rows))
      with (g fields :: g fields' :: map g rows).
    rewrite concat_two.
    change (String.append (String line_feed EmptyString) ?x)
      with (String line_feed x).
    rewrite read_line; [| exact Hfields | reflexivity].
    change (read Plain ?f ?r (String line_feed ?x))
      with ((r ++ [f]) :: read FieldStart EmptyString [] x).
    cbn [app].
    rewrite <- app_removelast_last by exact Hfields.
    f_equal. apply IH; [discriminate | exact Hrows].
Qed.

End CsvFacts.

Lemma includes_In (l : list string) (key : string) :
  includes l key = true <-> In key l.
Proof.
  unfold includes. rewrite existsb_exists. split.
  - intros (x & Hin & Heq). apply String.eqb_eq in Heq. now subst.
  - intros Hin. exists key. split; [exact Hin | apply String.eqb_refl].
Qed.

Lemma has_key_In (key : string) (doc : object) :
  has_key key doc = true <-> In key (map fst doc).
Proof.
  unfold has_key. rewrite existsb_exists, in_map_iff. split.
  - intros (kv & Hin & Heq). apply String.eqb_eq in Heq.
    exists kv. now split.
  - intros (kv & Heq & Hin). exists kv. split; [exact Hin |].
    subst key. apply String.eqb_refl.
Qed.

Lemma In_add_key (x key : string) (keys : list string) :
  In x (add_key key keys) <-> x = key \/ In x keys.
Proof.
  unfold add_key. destruct (includes keys key) eqn:Hin.
  - apply includes_In in Hin. split; [now right |].
    intros [-> | H]; assumption.
  - rewrite in_app_iff. cbn. intuition.
Qed.

Lemma NoDup_add_key (key : string) (keys : list string) :
  NoDup keys -> NoDup (add_key key keys).
Proof.
  intros Hnd. unfold add_key. destruct (includes keys key) eqn:Hin;
    [exact Hnd |].
  assert (Hnot : ~ In key keys).
  { intros H. apply includes_In in H. congruence. }
  apply NoDup_app; [exact Hnd | repeat constructor; now intros [] |].
  intros x Hx [<- | []]. contradiction.
Qed.

Lemma keys_of_document (cond : string -> bool) (ks : list string) :
  forall keys,
    (NoDup keys ->
     NoDup (fold_left (fun keys key =>
                         if cond key then add_key key keys else keys)
                      ks keys)) /\
    (forall x,
        In x (fold_left (fun keys key =>
                           if cond key then add_key key keys else keys)
                        ks keys)
        <-> In x keys \/ (In x ks /\ cond x = true)).
Proof.
  induction ks as [| k ks IH]; intros keys; cbn [fold_left].
  - split; [easy |]. intros x. cbn. tauto.
  - destruct (IH (if cond k then add_key k keys else keys)) as [Hnd Hin].
    split.
    + intros H. apply Hnd. destruct (cond k); [| exact H].
      now apply NoDup_add_key.
    + intros x. rewrite Hin. cbn [In].
      destruct (cond k) eqn:Hk.
      * rewrite In_add_key. split.
        -- intros [[-> | H] | [H1 H2]]; auto.
        -- intros [H | [[<- | H1] H2]]; auto.
      * split.
        -- intros [H | [H1 H2]]; auto.
        -- intros [H | [[<- | H1] H2]]; auto. congruence.
Qed.

Lemma allKeys_spec (documents : list object) (includeSystemFields : bool) :
  NoDup (allKeys documents includeSystemFields) /\
  (forall key,
      In key (allKeys documents includeSystemFields)
      <-> exists doc,
          In doc documents /\ has_key key doc = true /\
          includeSystemFields || negb (includes systemFields key) = true).
Proof.
  unfold allKeys.
  set (cond := fun key =>
                 includeSystemFields || negb (includes systemFields key)).
  assert (H : forall keys,
             (NoDup keys ->
              NoDup (fold_left
                       (fun keys doc =>
                          fold_left (fun keys key =>
                                       if cond key then add_key key keys
                                       else keys)
                                    (map fst doc) keys)
                       documents keys)) /\
             (forall key,
                 In key (fold_left
                           (fun keys doc =>
                              fold_left (fun keys key =>
                                           if cond key then add_key key keys
                                           else keys)
                                        (map fst doc) keys)
                           documents keys)
                 <-> In key keys
                     \/ exists doc, In doc documents /\
                                    has_key key doc = true /\
                                    cond key = true)).
  { induction documents as [| doc documents IH]; intros keys;
      cbn [fold_left].
    - split; [easy |]. intros key. split; [now left |].
      intros [H | (doc & [] & _)]. exact H.
    - destruct (keys_of_document cond (map fst doc) keys) as [Hnd1 Hin1].
      destruct (IH (fold_left (fun keys key =>
                                 if cond key then add_key key keys else keys)
                              (map fst doc) keys)) as [Hnd Hin].
      split; [intros H; now apply Hnd, Hnd1 |].
      intros key. rewrite Hin, Hin1. split.
      + intros [[H | [H1 H2]] | (d & Hd & Hk & Hc)].
        * now left.
        * right. exists doc. split; [now left |].
          split; [now apply has_key_In | exact H2].
        * right. exists d. split; [now right | now split].
      + intros [H | (d & [<- | Hd] & Hk & Hc)].
        * left. now left.
        * left. right. split; [now apply has_key_In | exact Hc].
        * right. exists d. now repeat split. }
  destruct (H []) as [Hnd Hin]. subst cond. cbv beta in Hnd, Hin.
  split; [apply Hnd; constructor |].
  intros key. rewrite Hin. cbn [In]. tauto.
Qed.

Lemma insert_perm (compare : string -> string -> Z) (x : string)
      (l : list string) :
  Permutation (insert compare x l) (x :: l).
Proof.
  induction l as [| y l IH]; cbn [insert]; [reflexivity |].
  destruct (compare x y <? 0)%Z; [reflexivity |].
  rewrite IH. apply perm_swap.
Qed.

Lemma sort_perm (compare : string -> string -> Z) (l : list string) :
  Permutation (sort compare l) l.
Proof.
  unfold sort.
  assert (H : forall acc,
             Permutation (fold_left (fun sorted x => insert compare x sorted)
                                    l acc)
                         (l ++ acc)).
  { induction l as [| x l IH]; intros acc; cbn [fold_left app];
      [reflexivity |].
    rewrite IH, insert_perm. symmetry. apply Permutation_middle. }
  rewrite (H []). now rewrite app_nil_r.
Qed.

Section HeaderFacts.
Variable localeCompare : string -> string -> Z.

(** System keys first. *)
Lemma insert_dollar_first (x : string) (ds os : list string) :
  Forall (fun k => startsWith "$"%char k = true) ds ->
  Forall (fun k => startsWith "$"%char k = false) os ->
  exists ds' os',
    insert (compareHeaders localeCompare) x (ds ++ os) = ds' ++ os' /\
    Forall (fun k => startsWith "$"%char k = true) ds' /\
    Forall (fun k => startsWith "$"%char k = false) os'.
Proof.
  intros Hds Hos. induction Hds as [| y ds Hy Hds IH].
  - cbn [app]. destruct (startsWith "$"%char x) eqn:Hx.
    + exists [x], os. repeat split; [| now constructor | exact Hos].
      destruct os as [| y os]; [reflexivity |].
      inversion Hos as [| ? ? Hy _]; subst.
      cbn [insert]. unfold compareHeaders. now rewrite Hx, Hy.
    + exists [], (insert (compareHeaders localeCompare) x os).
      repeat split; [constructor |].
      eapply Permutation_Forall; [symmetry; apply insert_perm |].
      now constructor.
  - cbn [app insert].
    destruct (compareHeaders localeCompare x y <? 0)%Z eqn:Hlt.
    + assert (Hx : startsWith "$"%char x = true).
      { unfold compareHeaders in Hlt. rewrite Hy in Hlt.
        destruct (startsWith "$"%char x); [reflexivity |].
        cbn in Hlt. discriminate. }
      exists (x :: y :: ds), os. repeat split; [| exact Hos].
      now repeat constructor.
    + destruct IH as (ds' & os' & Heq & Hds' & Hos').
      exists (y :: ds'), os'. rewrite Heq. repeat split; [| exact Hos'].
      now constructor.
Qed.

Lemma sort_dollar_first (l : list string) :
  exists ds os,
    sort (compareHeaders localeCompare) l = ds ++ os /\
    Forall (fun k => startsWith "$"%char k = true) ds /\
    Forall (fun k => startsWith "$"%char k = false) os.
Proof.
  unfold sort.
  assert (H : forall acc,
             (exists ds os,
                 acc = ds ++ os /\
                 Forall (fun k => startsWith "$"%char k = true) ds /\
                 Forall (fun k => startsWith "$"%char k = false) os) ->
             exists ds os,
               fold_left (fun sorted x =>
                            insert (compareHeaders localeCompare) x sorted)
                         l acc = ds ++ os /\
               Forall (fun k => startsWith "$"%char k = true) ds /\
               Forall (fun k => startsWith "$"%char k = false) os).
  { induction l as [| x l IH]; intros acc Hacc; cbn [fold_left];
      [exact Hacc |].
    apply IH. destruct Hacc as (ds & os & -> & Hds & Hos).
    now apply insert_dollar_first. }
  apply H. exists [], []. repeat split; constructor.
Qed.

(** Order, for a comparison that never puts each of two strings after the
    other. *)
Lemma insert_sorted (compare : string -> string -> Z) (x : string)
      (l : list string) :
  (forall a b, (0 <= compare a b)%Z -> (compare b a <= 0)%Z) ->
  Sorted (fun a b => (compare a b <= 0)%Z) l ->
  Sorted (fun a b => (compare a b <= 0)%Z) (insert compare x l).
Proof.
  intros Htotal Hs. induction Hs as [| y l Hs IH Hhd]; cbn [insert].
  - repeat constructor.
  - destruct (compare x y <? 0)%Z eqn:Hlt.
    + apply Z.ltb_lt in Hlt. constructor; [now constructor |].
      constructor. lia.
    + apply Z.ltb_ge in Hlt. constructor; [exact IH |].
      destruct l as [| z l]; cbn [insert].
      * constructor. now apply Htotal.
      * destruct (compare x z <? 0)%Z.
        -- constructor. now apply Htotal.
        -- constructor. now inversion Hhd.
Qed.

Lemma sort_sorted (compare : string -> string -> Z) (l : list string) :
  (forall a b, (0 <= compare a b)%Z -> (compare b a <= 0)%Z) ->
  Sorted (fun a b => (compare a b <= 0)%Z) (sort compare l).
Proof.
  intros Htotal. unfold sort.
  assert (H : forall acc,
             Sorted (fun a b => (compare a b <= 0)%Z) acc ->
             Sorted (fun a b => (compare a b <= 0)%Z)
                    (fold_left (fun sorted x => insert compare x sorted)
                               l acc)).
  { induction l as [| x l IH]; intros acc Hacc; cbn [fold_left];
      [exact Hacc |].
    apply IH. now apply insert_sorted. }
  apply H. constructor.
Qed.

Lemma compareHeaders_total :
  (forall a b, (0 <= localeCompare a b)%Z -> (localeCompare b a <= 0)%Z) ->
  forall a b,
    (0 <= compareHeaders localeCompare a b)%Z ->
    (compareHeaders localeCompare b a <= 0)%Z.
Proof.
  intros Htotal a b. unfold compareHeaders.
  destruct (startsWith "$"%char a), (startsWith "$"%char b); cbn;
    try lia; apply Htotal.
Qed.

End HeaderFacts.

(** X14.  [escapeCSVField] loses nothing of the text of a value: read by
    a CSV reader, the field it writes is one record of one field, the
    text of the value (nothing for [null] and [undefined]), whatever
    commas, double quotes, line breaks or spaces the text holds.  Two
    values are written alike only if their texts are equal. *)
Theorem escapeCSVField_reads_back (stringify : value -> string) :
  (forall value,
      read_csv (escapeCSVField stringify value)
      = [ [ cell_text stringify value ] ]) /\
  (forall v1 v2,
      escapeCSVField stringify v1 = escapeCSVField stringify v2 ->
      cell_text stringify v1 = cell_text stringify v2).
Proof.
  assert (H : forall value,
             read_csv (escapeCSVField stringify value)
             = [ [ cell_text stringify value ] ]).
  { intros value. rewrite escapeCSVField_text. unfold read_csv.
    rewrite <- (string_app_nil_r (escapeCSVField _ _)).
    now rewrite read_field. }
  split; [exact H |].
  intros v1 v2 Heq.
  pose proof (H v1) as H1. rewrite Heq, (H v2) in H1. now injection H1.
Qed.

Lemma escapeCSVField_reads_back_witness :
  escapeCSVField to_json (Some (Num "5"))
  = escapeCSVField to_json (Some (Str "5")) /\
  cell_text to_json (Some (Num "5")) = cell_text to_json (Some (Str "5")).
Proof.
  split; [reflexivity |].
  apply (proj2 (escapeCSVField_reads_back to_json)). reflexivity.
Defined.

(** X15.  The header row of [documentsToCSV] names each key once: the
    headers are exactly the keys that occur in some document, the system
    fields being left out unless [includeSystemFields] is set; the keys
    that begin with [$] come before all others; and when [localeCompare]
    never puts each of two strings after the other, the headers stand in
    the order of the comparator. *)
Theorem headers_are_the_keys (localeCompare : string -> string -> Z)
        (documents : list object) (includeSystemFields : bool) :
  let h := headers localeCompare documents includeSystemFields in
  NoDup h /\
  (forall key,
      In key h
      <-> exists doc,
          In doc documents /\ has_key key doc = true /\
          includeSystemFields || negb (includes systemFields key) = true) /\
  (exists ds os,
      h = ds ++ os /\
      Forall (fun k => startsWith "$"%char k = true) ds /\
      Forall (fun k => startsWith "$"%char k = false) os) /\
  ((forall a b, (0 <= localeCompare a b)%Z -> (localeCompare b a <= 0)%Z) ->
   Sorted (fun a b => (compareHeaders localeCompare a b <= 0)%Z) h).
Proof.
  intros h. subst h. unfold headers.
  destruct (allKeys_spec documents includeSystemFields) as [Hnd Hin].
  pose proof (sort_perm (compareHeaders localeCompare)
                        (allKeys documents includeSystemFields)) as Hperm.
  split; [| split; [| split]].
  - eapply Permutation_NoDup; [symmetry; exact Hperm | exact Hnd].
  - intros key. rewrite <- Hin. split; apply Permutation_in;
      [exact Hperm | symmetry; exact Hperm].
  - apply sort_dollar_first.
  - intros Htotal. apply sort_sorted.
    now apply compareHeaders_total.
Qed.

Lemma headers_are_the_keys_witness :
  headers by_characters two_notes true
  = [ "$createdAt"; "$id"; "body"; "pages"; "title" ] /\
  Sorted (fun a b => (compareHeaders by_characters a b <= 0)%Z)
         (headers by_characters two_notes true).
Proof.
  split; [reflexivity |].
  apply (headers_are_the_keys by_characters two_notes true).
  intros a b. unfold by_characters.
  rewrite (String.compare_antisym a b).
  destruct (String.compare b a); cbn; lia.
Defined.

(** X16.  The text [documentsToCSV] returns for a non-empty list of
    documents with at least one header reads back, under a CSV reader,
    as the header names followed by one record for each document, in
    order, each holding under every header the text of the document's
    value for it, and nothing where the document has no such property. *)
Theorem documentsToCSV_reads_back (stringify : value -> string)
        (localeCompare : string -> string -> Z)
        (documents : list object) (includeSystemFields : bool) :
  documents <> [] ->
  headers localeCompare documents includeSystemFields <> [] ->
  read_csv (documentsToCSV stringify localeCompare documents
                           includeSystemFields)
  = table stringify localeCompare documents includeSystemFields.
Proof.
  intros Hdocs Hheaders. unfold documentsToCSV.
  destruct documents as [| doc documents]; [contradiction |].
  cbn [List.length Nat.eqb].
  set (docs := doc :: documents) in *.
  assert (Hlines :
            lines stringify localeCompare docs includeSystemFields
            = map (fun fields =>
                     String.concat ","
                       (map (fun s =>
                               escapeCSVField stringify (Some (Str s)))
                            fields))
                  (table stringify localeCompare docs includeSystemFields)).
  { unfold lines, table. cbn [map]. f_equal.
    rewrite map_map. apply map_ext. intros d.
    rewrite map_map. f_equal. apply map_ext. intros header.
    apply escapeCSVField_text. }
  rewrite Hlines. apply read_table; [discriminate |].
  unfold table. constructor; [exact Hheaders |].
  apply Forall_forall. intros fields Hin.
  apply in_map_iff in Hin as (d & <- & _).
  intros Hnil. apply map_eq_nil in Hnil. contradiction.
Qed.

Lemma documentsToCSV_reads_back_witness :
  read_csv (documentsToCSV to_json by_characters two_notes false)
  = [ [ "body"; "pages"; "title" ];
      [ "plain"; EmptyString; "Hello, world" ];
      [ EmptyString; "12"; EmptyString ] ].
Proof.
  rewrite (documentsToCSV_reads_back to_json by_characters two_notes false).
  - reflexivity.
  - discriminate.
  - discriminate.
Defined.

(** * Properties of the copy loop *)

Section CopyFacts.
Context {World : Type}.
Variable databases : Databases World.

Lemma copyDocuments_loop_run (dst : string) (coll : option value)
      (documents : list object) :
  forall acc (s : state World),
    let run := copyDocuments_loop databases dst coll documents acc s in
    exists replies,
      List.length replies = List.length documents /\
      log (snd run) = log s ++ creation_log dst coll documents replies /\
      cacheFile (snd run) = cacheFile s /\
      fst run
      = Returned
          (mkTally
             (successCount acc
              + successCount (copy_tally documents replies))
             (errorCount acc + errorCount (copy_tally documents replies))
             (errors acc ++ errors (copy_tally documents replies))).
Proof.
  induction documents as [| document rest IH]; intros acc s run; subst run.
  - exists []. cbn. rewrite !Nat.add_0_r, !app_nil_r.
    repeat split. now destruct acc.
  - cbn [copyDocuments_loop]. cbv zeta. rewrite bind_run.
    unfold try_catch. rewrite bind_run. unfold await.
    destruct (databases (remote s)
                        (CreateDocument dst coll (cleanDocumentData document)))
      as [w rp].
    set (s1 := mkState w (cacheFile s)
                 (log s ++ [Called (CreateDocument dst coll
                                      (cleanDocumentData document)) rp])).
    destruct rp as [m | items |]; cbn [fst snd ret];
      match goal with
      | |- context [copyDocuments_loop databases dst coll rest ?a ?st] =>
          destruct (IH a st) as (replies & Hlen & Hlog & Hcache & Hout)
      end;
      [exists (Failed m :: replies) | exists (Listed items :: replies)
       | exists (Created :: replies)];
      (split; [cbn; now rewrite Hlen |]);
      (split; [rewrite Hlog; subst s1; cbn; now rewrite <- app_assoc |]);
      (split; [rewrite Hcache; reflexivity |]);
      rewrite Hout; cbn; f_equal; f_equal; try lia;
      now rewrite <- ?app_assoc.
Qed.

End CopyFacts.

(** X17.  [copyDocuments] never raises and never stops early: it makes
    exactly one [createDocument] call for each document, in order, in the
    database and collection it was given, with the document's sanitized
    fields; [successCount] and [errorCount] are the numbers of accepted
    and rejected calls, and [errors] holds, in order, the [$id] of each
    rejected document with the message of its rejection. *)
Theorem copyDocuments_copies_each_once {World : Type}
        (databases : Databases World) (destDatabaseId : string)
        (collectionId : option value) (documents : list object)
        (s : state World) :
  let run := copyDocuments databases destDatabaseId collectionId
                           documents s in
  exists replies,
    List.length replies = List.length documents /\
    log (snd run)
    = log s ++ creation_log destDatabaseId collectionId documents replies /\
    fst run = Returned (copy_tally documents replies).
Proof.
  intros run. subst run. unfold copyDocuments.
  destruct (copyDocuments_loop_run databases destDatabaseId collectionId
                                   documents no_tally s)
    as (replies & Hlen & Hlog & _ & Hout).
  exists replies. split; [exact Hlen |]. split; [exact Hlog |].
  rewrite Hout. reflexivity.
Qed.

(** X18.  [copyCollection] reads the documents of the collection in the
    source database and creates them in the destination database.  When
    it returns, its log is one traversal of the source documents followed
    by one creation call for each document found; the result carries the
    name of the collection and the counts of [copyDocuments]; and when
    the traversal fails the exception is raised before anything was
    created. *)
Theorem copyCollection_reads_then_writes {World : Type}
        (databases : Databases World) (batchSize : Z)
        (sourceDatabaseId destDatabaseId : string) (fuel : nat)
        (collection : object) (s : state World) :
  let run := copyCollection databases batchSize sourceDatabaseId
                            destDatabaseId fuel collection s in
  exists d,
    log (snd run) = log s ++ d /\
    (forall name result,
        fst run = Returned (name, result) ->
        name = get "name" collection /\
        exists documents replies traversal,
          d = traversal
              ++ creation_log destDatabaseId (get "$id" collection)
                              documents replies /\
          collected_run (ListDocuments sourceDatabaseId
                                       (get "$id" collection))
                        batchSize "$id" documents traversal /\
          List.length replies = List.length documents /\
          result = copy_tally documents replies) /\
    ((forall r, fst run <> Returned r) -> forallb quiet d = true).
Proof.
  intros run. subst run. unfold copyCollection. cbv zeta.
  rewrite bind_run. unfold fetchAllDocuments.
  destruct (fetchAll_trace databases
              (ListDocuments sourceDatabaseId (get "$id" collection))
              batchSize "$id" fuel s) as (d1 & Hlog1 & Hcol & _).
  destruct (fetchAll_run databases
              (ListDocuments sourceDatabaseId (get "$id" collection))
              batchSize "$id" fuel (fun _ _ => eq_refl) s)
    as (d1' & [Hlog1' _] & Hq1 & _).
  assert (d1' = d1)
    by (rewrite Hlog1 in Hlog1'; now apply app_inv_head in Hlog1').
  subst d1'.
  destruct (fetchAll databases fuel
              (ListDocuments sourceDatabaseId (get "$id" collection))
              batchSize "$id" s) as [[documents | m |] s1];
    cbn [fst snd] in *.
  2,3: exists d1; (split; [exact Hlog1 |]); (split; [discriminate |]);
    intros _; exact Hq1.
  specialize (Hcol documents eq_refl).
  destruct (List.length documents =? 0)%nat eqn:Hempty.
  - apply Nat.eqb_eq, length_zero_iff_nil in Hempty. subst documents.
    exists d1. split; [exact Hlog1 |]. split.
    + intros name result [= <- <-]. split; [reflexivity |].
      exists [], [], d1. cbn. rewrite app_nil_r. now repeat split.
    + intros Hnot. now destruct (Hnot (get "name" collection, mkTally 0 0 [])).
  - rewrite bind_run. unfold copyDocuments.
    destruct (copyDocuments_loop_run databases destDatabaseId
                (get "$id" collection) documents no_tally s1)
      as (replies & Hlen & Hlog2 & _ & Hout).
    destruct (copyDocuments_loop databases destDatabaseId
                (get "$id" collection) documents no_tally s1)
      as [out2 s2]. cbn [fst snd] in *. subst out2. cbn [fst snd ret].
    exists (d1 ++ creation_log destDatabaseId (get "$id" collection)
                               documents replies).
    split; [rewrite Hlog2, Hlog1; now rewrite <- app_assoc |].
    split.
    + intros name result [= <- <-]. split; [reflexivity |].
      exists documents, replies, d1. now repeat split.
    + intros Hnot. now edestruct Hnot.
Qed.

Lemma copyCollection_reads_then_writes_witness :
  exists result documents replies,
    fst (copyCollection (documents_service false true) 100 "source" "dest"
                        1 parcels start)
    = Returned (Some (Str "Parcels"), result) /\
    errorCount result = 2%nat /\
    List.length replies = List.length documents /\
    result = copy_tally documents replies.
Proof.
  destruct (copyCollection_reads_then_writes (documents_service false true)
              100 "source" "dest" 1 parcels start)
    as (d & Hlog & Hret & _).
  destruct (Hret (Some (Str "Parcels"))
                 (mkTally 0 2 [ (Some (Str "d1"), Some "document_invalid");
                                (Some (Str "d2"), Some "document_invalid") ])
                 eq_refl)
    as (_ & documents & replies & traversal & _ & _ & Hlen & Hresult).
  eexists. exists documents, replies.
  split; [vm_compute; reflexivity |].
  split; [reflexivity |]. split; [exact Hlen | exact Hresult].
Defined.

(** * Rules for reasoning about runs of the tool *)

Section ToolRules.
Context {World : Type}.

Lemma tbind_run {A B : Type} (c : T World A) (k : A -> T World B)
      (sh : state World * host) :
  tbind c k sh
  = match c sh with
    | (Returns a, sh') => k a sh'
    | (Throws name message, sh') => (Throws name message, sh')
    | (Exits code, sh') => (Exits code, sh')
    | (Starves, sh') => (Starves, sh')
    end.
Proof. reflexivity. Qed.

Lemma tspec_implies {A : Type} (c : T World A)
      (Q1 Q2 : ending A -> list event -> list effect -> Prop) :
  tspec c Q1 -> (forall out d j, Q1 out d j -> Q2 out d j) -> tspec c Q2.
Proof.
  intros H Himp sh. destruct (H sh) as (d & j & Hlog & Hj & Hc & HQ).
  exists d, j. repeat split; try assumption. now apply Himp.
Qed.

Lemma tspec_ret {A : Type} (a : A)
      (Q : ending A -> list event -> list effect -> Prop) :
  Q (Returns a) [] [] -> tspec (@tret World A a) Q.
Proof.
  intros HQ sh. exists [], []. cbn. rewrite !app_nil_r. now repeat split.
Qed.

Lemma tspec_throw {A : Type} (name message : string)
      (Q : ending A -> list event -> list effect -> Prop) :
  Q (Throws name message) [] [] -> tspec (@tthrow World A name message) Q.
Proof.
  intros HQ sh. exists [], []. cbn. rewrite !app_nil_r. now repeat split.
Qed.

Lemma tspec_exit {A : Type} (code : Z)
      (Q : ending A -> list event -> list effect -> Prop) :
  Q (Exits code) [] [] -> tspec (@exit World A code) Q.
Proof.
  intros HQ sh. exists [], []. cbn. rewrite !app_nil_r. now repeat split.
Qed.

Lemma tspec_bind {A B : Type} (c : T World A) (k : A -> T World B)
      (Q1 : ending A -> list event -> list effect -> Prop)
      (Q : ending B -> list event -> list effect -> Prop) :
  tspec c Q1 ->
  (forall a d1 j1,
      Q1 (Returns a) d1 j1 ->
      tspec (k a) (fun out d2 j2 => Q out (d1 ++ d2) (j1 ++ j2))) ->
  (forall name message d1 j1,
      Q1 (Throws name message) d1 j1 -> Q (Throws name message) d1 j1) ->
  (forall code d1 j1, Q1 (Exits code) d1 j1 -> Q (Exits code) d1 j1) ->
  (forall d1 j1, Q1 Starves d1 j1 -> Q Starves d1 j1) ->
  tspec (tbind c k) Q.
Proof.
  intros Hc Hk Ht He Hs sh. rewrite tbind_run.
  destruct (Hc sh) as (d1 & j1 & Hlog1 & Hj1 & Hc1 & HQ1).
  destruct (c sh) as [[a | name message | code |] sh1]; cbn [fst snd] in *.
  - destruct (Hk a d1 j1 HQ1 sh1) as (d2 & j2 & Hlog2 & Hj2 & Hc2 & HQ).
    exists (d1 ++ d2), (j1 ++ j2).
    rewrite Hlog2, Hlog1, Hj2, Hj1, Hc2, Hc1, !app_assoc, cache_after_app.
    now repeat split.
  - exists d1, j1. repeat split; try assumption. now apply Ht.
  - exists d1, j1. repeat split; try assumption. now apply He.
  - exists d1, j1. repeat split; try assumption. now apply Hs.
Qed.

Lemma tspec_try_catch {A : Type} (c : T World A)
      (h : string -> string -> T World A)
      (Q1 Q : ending A -> list event -> list effect -> Prop) :
  tspec c Q1 ->
  (forall name message d1 j1,
      Q1 (Throws name message) d1 j1 ->
      tspec (h name message)
            (fun out d2 j2 => Q out (d1 ++ d2) (j1 ++ j2))) ->
  (forall a d1 j1, Q1 (Returns a) d1 j1 -> Q (Returns a) d1 j1) ->
  (forall code d1 j1, Q1 (Exits code) d1 j1 -> Q (Exits code) d1 j1) ->
  (forall d1 j1, Q1 Starves d1 j1 -> Q Starves d1 j1) ->
  tspec (ttry_catch c h) Q.
Proof.
  intros Hc Hh Hr He Hs sh. unfold ttry_catch.
  destruct (Hc sh) as (d1 & j1 & Hlog1 & Hj1 & Hc1 & HQ1).
  destruct (c sh) as [[a | name message | code |] sh1]; cbn [fst snd] in *.
  - exists d1, j1. repeat split; try assumption. now apply Hr.
  - destruct (Hh name message d1 j1 HQ1 sh1)
      as (d2 & j2 & Hlog2 & Hj2 & Hc2 & HQ).
    exists (d1 ++ d2), (j1 ++ j2).
    rewrite Hlog2, Hlog1, Hj2, Hj1, Hc2, Hc1, !app_assoc, cache_after_app.
    now repeat split.
  - exists d1, j1. repeat split; try assumption. now apply He.
  - exists d1, j1. repeat split; try assumption. now apply Hs.
Qed.

Lemma tspec_lift {A : Type} (c : M World A)
      (Q0 : outcome A -> list event -> Prop)
      (Q : ending A -> list event -> list effect -> Prop) :
  spec c Q0 ->
  (forall out d, Q0 out d -> Q (ending_of out) d []) ->
  tspec (lift c) Q.
Proof.
  intros Hc HQ [s h]. unfold lift. cbn [fst snd].
  destruct (Hc s) as (d & [Hlog Hcache] & H0).
  exists d, []. specialize (HQ _ _ H0).
  destruct (c s) as [[a | m |] s1]; cbn [fst snd ending_of] in *;
    rewrite app_nil_r; now repeat split.
Qed.

Lemma tspec_outside {A : Type} (step : World -> World * A)
      (entry : A -> effect)
      (Q : ending A -> list event -> list effect -> Prop) :
  (forall a, Q (Returns a) [] [entry a]) ->
  tspec (outside step entry) Q.
Proof.
  intros HQ [s h]. unfold outside. cbn [fst snd].
  destruct (step (remote s)) as [w a].
  exists [], [entry a]. cbn. rewrite app_nil_r. now repeat split.
Qed.

Lemma tspec_record (e : effect)
      (Q : ending unit -> list event -> list effect -> Prop) :
  Q (Returns tt) [] [e] -> tspec (@record World e) Q.
Proof.
  intros HQ [s h]. exists [], [e]. cbn. rewrite app_nil_r. now repeat split.
Qed.

Lemma tspec_ensure_directory
      (Q : ending unit -> list event -> list effect -> Prop) :
  Q (Returns tt) [] [] -> Q (Returns tt) [] [DirectoryMade] ->
  tspec (@ensure_directory World) Q.
Proof.
  intros H0 H1 [s h]. unfold ensure_directory. cbn [snd].
  destruct (directory h).
  - exists [], []. cbn. rewrite !app_nil_r. now repeat split.
  - exists [], [DirectoryMade]. cbn. rewrite app_nil_r. now repeat split.
Qed.

Lemma tspec_log {A : Type} (c : T World A)
      (Q : ending A -> list event -> list effect -> Prop)
      (sh : state World * host) :
  tspec c Q ->
  exists d j,
    log (fst (snd (c sh))) = log (fst sh) ++ d /\
    journal (snd (snd (c sh))) = journal (snd sh) ++ j /\
    Q (fst (c sh)) d j.
Proof.
  intros H. destruct (H sh) as (d & j & Hlog & Hj & _ & HQ).
  now exists d, j.
Qed.

End ToolRules.

Section ToolFacts.
Context {World : Type}.
Variable databases : Databases World.
Variable databases_get : World -> string -> World * option object.
Variable databases_deleteCollection :
  World -> string -> option value -> World * reply.
Variable select : World -> World * option clone_mode.
Variable confirm : World -> string -> World * option bool.

Lemma await_confirm_run (message : string) :
  tspec (await_confirm confirm message)
        (fun out d j =>
           d = [] /\
           exists answer,
             j = [Confirmed message answer] /\
             out = match answer with
                   | Some b => Returns b
                   | None => Throws ExitPromptError closed_prompt
                   end).
Proof.
  unfold await_confirm.
  eapply tspec_bind
    with (Q1 := fun out d j =>
                  d = [] /\ exists answer,
                      j = [Confirmed message answer] /\
                      out = Returns answer);
    cbv beta.
  - apply tspec_outside. intros a. split; [reflexivity |]. now exists a.
  - intros answer d1 j1 (-> & a & -> & [= <-]).
    destruct answer as [b |]; [apply tspec_ret | apply tspec_throw];
      (split; [reflexivity |]); eexists; now split.
  - now intros name message' d1 j1 (_ & a & _ & H).
  - now intros code d1 j1 (_ & a & _ & H).
  - now intros d1 j1 (_ & a & _ & H).
Qed.

Lemma await_select_run :
  tspec (await_select select)
        (fun out d j =>
           d = [] /\
           exists answer,
             j = [Selected answer] /\
             out = match answer with
                   | Some mode => Returns mode
                   | None => Throws ExitPromptError closed_prompt
                   end).
Proof.
  unfold await_select.
  eapply tspec_bind
    with (Q1 := fun out d j =>
                  d = [] /\ exists answer,
                      j = [Selected answer] /\ out = Returns answer);
    cbv beta.
  - apply tspec_outside. intros a. split; [reflexivity |]. now exists a.
  - intros answer d1 j1 (-> & a & -> & [= <-]).
    destruct answer as [mode |]; [apply tspec_ret | apply tspec_throw];
      (split; [reflexivity |]); eexists; now split.
  - now intros name message' d1 j1 (_ & a & _ & H).
  - now intros code d1 j1 (_ & a & _ & H).
  - now intros d1 j1 (_ & a & _ & H).
Qed.

Lemma getDatabaseInfo_run (databaseId : string) :
  tspec (getDatabaseInfo databases_get databaseId)
        (fun out d j =>
           d = [] /\
           exists db,
             j = [Got databaseId db] /\
             out = Returns
                     match db with
                     | Some o => mkInfo true (get "name" o) (get "$id" o)
                     | None => mkInfo false (Some Null)
                                      (Some (Str databaseId))
                     end).
Proof.
  unfold getDatabaseInfo, await_get.
  eapply tspec_try_catch
    with (Q1 := fun out d j =>
                  d = [] /\
                  exists db,
                    j = [Got databaseId db] /\
                    match db with
                    | Some o =>
                        out = Returns (mkInfo true (get "name" o)
                                              (get "$id" o))
                    | None => exists name message, out = Throws name message
                    end);
    cbv beta.
  - eapply tspec_bind
      with (Q1 := fun out d j =>
                    d = [] /\ exists db,
                        j = [Got databaseId db] /\
                        match db with
                        | Some o => out = Returns o
                        | None => exists name message,
                                  out = Throws name message
                        end);
      cbv beta.
    + eapply tspec_bind
        with (Q1 := fun out d j =>
                      d = [] /\ exists db,
                          j = [Got databaseId db] /\ out = Returns db);
        cbv beta.
      * apply tspec_outside. intros a. split; [reflexivity |]. now exists a.
      * intros db d1 j1 (-> & a & -> & [= <-]).
        destruct db as [o |]; [apply tspec_ret | apply tspec_throw];
          (split; [reflexivity |]); eexists; (split; [reflexivity |]);
          [reflexivity | now eexists; eexists].
      * now intros name message d1 j1 (_ & a & _ & H).
      * now intros code d1 j1 (_ & a & _ & H).
      * now intros d1 j1 (_ & a & _ & H).
    + intros o d1 j1 (-> & db & -> & Hdb).
      destruct db as [o' |]; [| now destruct Hdb as (? & ? & ?)].
      injection Hdb as <-. apply tspec_ret.
      split; [reflexivity |]. exists (Some o). now split.
    + intros name message d1 j1 (-> & db & -> & Hdb).
      split; [reflexivity |]. exists db. split; [reflexivity |].
      destruct db; [discriminate | now eexists; eexists].
    + intros code d1 j1 (-> & db & -> & Hdb).
      destruct db; [discriminate | now destruct Hdb as (? & ? & ?)].
    + intros d1 j1 (-> & db & -> & Hdb).
      destruct db; [discriminate | now destruct Hdb as (? & ? & ?)].
  - intros name message d1 j1 (-> & db & -> & Hdb).
    apply tspec_ret. split; [reflexivity |]. exists db.
    split; [reflexivity |]. destruct db; [discriminate | reflexivity].
  - intros a d1 j1 (-> & db & -> & Hdb).
    split; [reflexivity |]. exists db. split; [reflexivity |].
    destruct db; [exact Hdb | now destruct Hdb as (? & ? & ?)].
  - intros code d1 j1 (-> & db & -> & Hdb).
    destruct db; [discriminate | now destruct Hdb as (? & ? & ?)].
  - intros d1 j1 (-> & db & -> & Hdb).
    destruct db; [discriminate | now destruct Hdb as (? & ? & ?)].
Qed.

End ToolFacts.

(** * Properties of the parts of the tool *)

Section ToolParts.
Context {World : Type}.
Variable databases : Databases World.
Variable databases_get : World -> string -> World * option object.
Variable databases_deleteCollection :
  World -> string -> option value -> World * reply.
Variable select : World -> World * option clone_mode.
Variable confirm : World -> string -> World * option bool.
Variable now : World -> string.
Variable stringify : value -> string.
Variable localeCompare : string -> string -> Z.
Variable join : string -> string -> string.
Variable styleText : string -> string -> string.
Variable cwd : string.
Variable batchSize : Z.

Lemma confirmMigration_run (sourceDb destDb : database_info) :
  tspec (confirmMigration confirm styleText sourceDb destDb)
        (fun out d j =>
           d = [] /\
           if shown sourceDb && shown destDb
           then (out = Returns true /\ thrice_confirmed j)
                \/ (out = Exits 0 /\ broken_off (Some false) j)
                \/ (out = Throws ExitPromptError closed_prompt
                    /\ broken_off None j)
           else out = Throws "TypeError" TypeError /\ j = []).
Proof.
  unfold confirmMigration.
  destruct (shown sourceDb && shown destDb); cbn [negb];
    [| apply tspec_throw; now repeat split].
  eapply tspec_bind; [apply await_confirm_run | | | |]; cbv beta.
  2:{ intros name message d1 j1 (-> & [[] |] & -> & [= -> ->]).
      split; [reflexivity |]. right. right. split; [reflexivity |].
      eexists [], _. split; [reflexivity | cbn; lia]. }
  2: now intros code d1 j1 (_ & [[] |] & _ & H).
  2: now intros d1 j1 (_ & [[] |] & _ & H).
  intros b1 d1 j1 (-> & [b1' |] & -> & [= <-]).
  destruct b1; cbn [negb].
  2:{ apply tspec_exit. split; [reflexivity |]. right. left.
      split; [reflexivity |]. eexists [], _. split; [reflexivity | cbn; lia]. }
  eapply tspec_bind; [apply await_confirm_run | | | |]; cbv beta.
  2:{ intros name message d2 j2 (-> & [[] |] & -> & [= -> ->]).
      split; [reflexivity |]. right. right. split; [reflexivity |].
      eexists [_], _. split; [reflexivity | cbn; lia]. }
  2: now intros code d2 j2 (_ & [[] |] & _ & H).
  2: now intros d2 j2 (_ & [[] |] & _ & H).
  intros b2 d2 j2 (-> & [b2' |] & -> & [= <-]).
  destruct b2; cbn [negb].
  2:{ apply tspec_exit. split; [reflexivity |]. right. left.
      split; [reflexivity |]. eexists [_], _.
      split; [reflexivity | cbn; lia]. }
  eapply tspec_bind; [apply await_confirm_run | | | |]; cbv beta.
  2:{ intros name message d3 j3 (-> & [[] |] & -> & [= -> ->]).
      split; [reflexivity |]. right. right. split; [reflexivity |].
      eexists [_; _], _. split; [reflexivity | cbn; lia]. }
  2: now intros code d3 j3 (_ & [[] |] & _ & H).
  2: now intros d3 j3 (_ & [[] |] & _ & H).
  intros b3 d3 j3 (-> & [b3' |] & -> & [= <-]).
  destruct b3; cbn [negb].
  - apply tspec_ret. split; [reflexivity |]. left.
    split; [reflexivity |]. now eexists; eexists; eexists.
  - apply tspec_exit. split; [reflexivity |]. right. left.
    split; [reflexivity |]. eexists [_; _], _.
    split; [reflexivity | cbn; lia].
Qed.

Lemma drop_loop_run (databaseId : string) (collections : list object) :
  forall acc (sh : state World * host),
    let run := drop_loop databases_deleteCollection databaseId collections
                         acc sh in
    exists replies,
      List.length replies = List.length collections /\
      journal (snd (snd run))
      = journal (snd sh)
        ++ deletion_journal databaseId collections replies /\
      log (fst (snd run)) = log (fst sh) /\
      cacheFile (fst (snd run)) = cacheFile (fst sh) /\
      fst run
      = Returns
          (mkDrop
             (dropped acc + dropped (drop_tally collections replies))
             (drop_errors acc
              ++ drop_errors (drop_tally collections replies))).
Proof.
  induction collections as [| collection rest IH]; intros acc sh run;
    subst run.
  - exists []. cbn. rewrite Nat.add_0_r, !app_nil_r.
    repeat split. now destruct acc.
  - cbn [drop_loop]. rewrite tbind_run. unfold ttry_catch.
    rewrite tbind_run. unfold await_delete. rewrite tbind_run.
    unfold outside. destruct sh as [s h]. cbn [fst snd].
    destruct (databases_deleteCollection (remote s) databaseId
                                         (get "$id" collection))
      as [w rp].
    destruct rp as [m | items |]; cbn [fst snd tret tthrow];
      match goal with
      | |- context [drop_loop _ databaseId rest ?a ?st] =>
          destruct (IH a st) as (replies & Hlen & Hj & Hlog & Hcache & Hout)
      end;
      [exists (Failed m :: replies) | exists (Listed items :: replies)
       | exists (Created :: replies)];
      (split; [cbn; now rewrite Hlen |]);
      (split; [rewrite Hj; cbn; now rewrite <- app_assoc |]);
      (split; [rewrite Hlog; reflexivity |]);
      (split; [rewrite Hcache; reflexivity |]);
      rewrite Hout; cbn; f_equal; f_equal; try lia;
      now rewrite <- ?app_assoc.
Qed.

Lemma dropDestinationCollections_run (fuel : nat) (databaseId : string) :
  tspec (dropDestinationCollections databases databases_deleteCollection
                                    fuel databaseId)
        (fun out d j =>
           forallb quiet d = true /\
           (forall code, out <> Exits code) /\
           (forall name message, out = Throws name message ->
                                 name = "Error") /\
           (forall r, out = Returns r ->
              exists collections replies,
                collected_run (ListCollections databaseId) 100 "$id"
                              collections d /\
                List.length replies = List.length collections /\
                j = deletion_journal databaseId collections replies /\
                r = drop_tally collections replies) /\
           ((forall r, out <> Returns r) -> j = [])).
Proof.
  unfold dropDestinationCollections.
  eapply tspec_bind
    with (Q1 := fun out d j =>
                  forallb quiet d = true /\ j = [] /\
                  (forall code, out <> Exits code) /\
                  (forall name message, out = Throws name message ->
                                        name = "Error") /\
                  (forall collections,
                      out = Returns collections ->
                      collected_run (ListCollections databaseId) 100 "$id"
                                    collections d));
    cbv beta.
  - eapply tspec_lift
      with (Q0 := fun out d =>
                    forallb quiet d = true /\
                    forall collections,
                      out = Returned collections ->
                      collected_run (ListCollections databaseId) 100 "$id"
                                    collections d).
    + unfold fetchAllCollections.
      eapply spec_of_log;
        [apply (fetchAll_run databases (ListCollections databaseId) 100
                             "$id" fuel (fun _ _ => eq_refl)) |].
      intros s.
      destruct (fetchAll_trace databases (ListCollections databaseId) 100
                               "$id" fuel s) as (d & Hlog & Hcol & _).
      destruct (fetchAll_run databases (ListCollections databaseId) 100
                             "$id" fuel (fun _ _ => eq_refl) s)
        as (d' & [Hlog' _] & Hq & _).
      assert (d' = d)
        by (rewrite Hlog in Hlog'; now apply app_inv_head in Hlog').
      subst d'. exists d. now repeat split.
    + intros out d [Hq Hcol]. split; [exact Hq |]. split; [reflexivity |].
      destruct out as [a | m |]; cbn [ending_of];
        (split; [discriminate |]); split; try discriminate.
      * intros collections [= <-]. now apply Hcol.
      * now intros name message [= <- _].
  - intros collections d1 j1 (Hq & -> & _ & _ & Hcol).
    specialize (Hcol collections eq_refl).
    destruct (List.length collections =? 0)%nat eqn:Hempty.
    + apply Nat.eqb_eq, length_zero_iff_nil in Hempty. subst collections.
      apply tspec_ret. rewrite !app_nil_r.
      split; [exact Hq |]. split; [discriminate |].
      split; [discriminate |]. split.
      * intros r [= <-]. exists [], []. now repeat split.
      * intros Hnot. now destruct (Hnot (mkDrop 0 [])).
    + intros sh.
      destruct (drop_loop_run databaseId collections (mkDrop 0 []) sh)
        as (replies & Hlen & Hj & Hlog & Hcache & Hout).
      exists [], (deletion_journal databaseId collections replies).
      rewrite !app_nil_r. split; [exact Hlog |]. split; [exact Hj |].
      split; [exact Hcache |]. rewrite Hout.
      split; [exact Hq |]. split; [discriminate |].
      split; [discriminate |]. split.
      * intros r [= <-]. exists collections, replies. now repeat split.
      * intros Hnot. now edestruct Hnot.
  - intros name message d1 j1 (Hq & -> & _ & Hname & _).
    split; [exact Hq |]. split; [discriminate |]. split.
    { intros name' message' [= <- <-]. now apply (Hname name message). }
    split; [discriminate | reflexivity].
  - intros code d1 j1 (_ & _ & Hcode & _). now destruct (Hcode code).
  - intros d1 j1 (Hq & -> & _). split; [exact Hq |].
    split; [discriminate |]. split; [discriminate |].
    split; [discriminate | reflexivity].
Qed.

End ToolParts.

(** X19.  [dropDestinationCollections] lists the collections of the
    database it is given and then deletes each of them, in order, by its
    [$id], in that database and in no other.  A rejected deletion does not
    stop the loop: when the run returns, one deletion was requested for
    every collection listed, [dropped] is the number of accepted ones and
    [errors] holds, in order, the name of each collection whose deletion
    was rejected with the message of the rejection.  When the listing
    fails, the exception is raised before anything was deleted. *)
Theorem dropDestinationCollections_deletes_each_once {World : Type}
        (databases : Databases World)
        (databases_deleteCollection :
           World -> string -> option value -> World * reply)
        (fuel : nat) (databaseId : string) (sh : state World * host) :
  let run := dropDestinationCollections databases
               databases_deleteCollection fuel databaseId sh in
  exists d j,
    log (fst (snd run)) = log (fst sh) ++ d /\
    journal (snd (snd run)) = journal (snd sh) ++ j /\
    forallb quiet d = true /\
    (forall r,
        fst run = Returns r ->
        exists collections replies,
          collected_run (ListCollections databaseId) 100 "$id"
                        collections d /\
          List.length replies = List.length collections /\
          j = deletion_journal databaseId collections replies /\
          r = drop_tally collections replies) /\
    ((forall r, fst run <> Returns r) -> j = []).
Proof.
  intros run. subst run.
  destruct (tspec_log _ _ sh
              (dropDestinationCollections_run databases
                 databases_deleteCollection fuel databaseId))
    as (d & j & Hlog & Hj & Hq & _ & _ & Hret & Hnot).
  exists d, j. now repeat split.
Qed.

Lemma dropDestinationCollections_deletes_each_once_witness :
  exists r,
    fst (dropDestinationCollections (schema_service true true "available")
           (deleting false) 1 "dest" begin) = Returns r /\
    dropped r = 0%nat /\
    drop_errors r = [ (Some (Str "Parcels"), "forbidden") ] /\
    journal (snd (snd (dropDestinationCollections
                         (schema_service true true "available")
                         (deleting false) 1 "dest" begin)))
    = [ Deleted "dest" (Some (Str "parcels")) (Failed "forbidden") ].
Proof.
  destruct (dropDestinationCollections_deletes_each_once
              (schema_service true true "available") (deleting false)
              1 "dest" begin)
    as (d & j & Hlog & Hj & _ & Hret & _).
  eexists. split; [vm_compute; reflexivity |].
  destruct (Hret _ eq_refl) as (collections & replies & _ & _ & _ & Hr).
  repeat split.
Defined.

(** X20.  [confirmMigration] asks at most three confirmations and
    returns only when the user has answered yes to all three.  At the
    first answer that is a no it ends the process with exit code 0, and
    when the user closes a prompt the exception of the prompt is raised;
    in both cases no further confirmation is asked.  When an id, or the
    name of a database that exists, is not a string, it raises a
    [TypeError] before it asks anything.  It makes no call on the
    service. *)
Theorem confirmMigration_needs_three_yes {World : Type}
        (confirm : World -> string -> World * option bool)
        (styleText : string -> string -> string)
        (sourceDb destDb : database_info) (sh : state World * host) :
  let run := confirmMigration confirm styleText sourceDb destDb sh in
  log (fst (snd run)) = log (fst sh) /\
  exists j,
    journal (snd (snd run)) = journal (snd sh) ++ j /\
    if shown sourceDb && shown destDb
    then (fst run = Returns true /\ thrice_confirmed j)
         \/ (fst run = Exits 0 /\ broken_off (Some false) j)
         \/ (fst run = Throws ExitPromptError closed_prompt
             /\ broken_off None j)
    else fst run = Throws "TypeError" TypeError /\ j = [].
Proof.
  intros run. subst run.
  destruct (tspec_log _ _ sh
              (confirmMigration_run confirm styleText sourceDb destDb))
    as (d & j & Hlog & Hj & -> & H).
  rewrite app_nil_r in Hlog. split; [exact Hlog |]. now exists j.
Qed.

(** ** The CSV export *)

Ltac conjuncts := repeat match goal with |- _ /\ _ => split end.

Section ExportFacts.
Context {World : Type}.
Variable databases : Databases World.
Variable now : World -> string.
Variable stringify : value -> string.
Variable localeCompare : string -> string -> Z.
Variable join : string -> string -> string.
Variable cwd : string.
Variable batchSize : Z.

Lemma clock_run :
  spec (clock now) (fun out d => d = [] /\ exists w, out = Returned (now w)).
Proof.
  intros s. exists []. split; [apply extends_refl |].
  split; [reflexivity |]. now exists (remote s).
Qed.

Lemma fetched_in_run (list_call : Z -> option value -> request)
      (limit : Z) (keyName : string) (fuel : nat) :
  (forall lim c, is_listing (list_call lim c) = true) ->
  spec (fetchAll databases fuel list_call limit keyName)
       (fun out d =>
          forallb quiet d = true /\
          forall items, out = Returned items -> In (Fetched items) d).
Proof.
  intros Hkind. eapply spec_implies; [now apply fetchAll_run |].
  cbv beta. intros out d (Hq & Hpoll & _). split; [exact Hq |].
  intros items ->.
  assert (H : In (Fetched items) (filter is_poll_event d))
    by (rewrite Hpoll; now left).
  now apply filter_In in H.
Qed.

Lemma lifted_traversal (list_call : Z -> option value -> request)
      (limit : Z) (keyName : string) (fuel : nat) :
  (forall lim c, is_listing (list_call lim c) = true) ->
  tspec (lift (fetchAll databases fuel list_call limit keyName))
        (fun out d j =>
           forallb quiet d = true /\ j = [] /\
           (forall code, out <> Exits code) /\
           (forall name message, out = Throws name message ->
                                 name = "Error") /\
           (forall items, out = Returns items -> In (Fetched items) d)).
Proof.
  intros Hkind.
  eapply tspec_lift; [now apply fetched_in_run |]. cbv beta.
  intros out d [Hq Hin]. split; [exact Hq |]. split; [reflexivity |].
  destruct out as [a | m |]; cbn [ending_of];
    (split; [discriminate |]); split; try discriminate.
  - intros items [= <-]. now apply Hin.
  - now intros name message [= <- _].
Qed.

Lemma exportCollectionToCSV_run (collectionName : option value)
      (documents : list object) (includeSystemFields : bool) :
  tspec (exportCollectionToCSV now stringify localeCompare join cwd
                               collectionName documents includeSystemFields)
        (fun out d j =>
           d = [] /\
           exists w made,
             let name :=
               String.append (template collectionName)
                 (String.append "_"
                    (String.append (substring 0 19 (dashes (now w)))
                                   ".csv")) in
             out = Returns (mkEntry None
                              (Some (join (CSV_EXPORT_DIR join cwd) name))
                              (Some name) (List.length documents)) /\
             j = made
                 ++ [ FileWritten
                        (join (CSV_EXPORT_DIR join cwd) name)
                        (documentsToCSV stringify localeCompare documents
                                        includeSystemFields) ] /\
             (made = [] \/ made = [ DirectoryMade ])).
Proof.
  unfold exportCollectionToCSV.
  eapply tspec_bind
    with (Q1 := fun out d j =>
                  out = Returns tt /\ d = [] /\
                  (j = [] \/ j = [ DirectoryMade ]));
    cbv beta.
  { apply tspec_ensure_directory; auto. }
  2: now intros name message d1 j1 (H & _).
  2: now intros code d1 j1 (H & _).
  2: now intros d1 j1 (H & _).
  intros _ d1 made (_ & -> & Hmade).
  eapply tspec_bind
    with (Q1 := fun out d j =>
                  d = [] /\ j = [] /\ exists w, out = Returns (now w));
    cbv beta.
  { eapply tspec_lift; [apply clock_run |]. cbv beta.
    intros out d (-> & w & ->). repeat split. now exists w. }
  2: now intros name message d2 j2 (_ & _ & w & H).
  2: now intros code d2 j2 (_ & _ & w & H).
  2: now intros d2 j2 (_ & _ & w & H).
  intros iso d2 j2 (-> & -> & w & [= ->]). cbv zeta.
  eapply tspec_bind
    with (Q1 := fun out d j =>
                  out = Returns tt /\ d = [] /\
                  j = [ FileWritten
                          (join (CSV_EXPORT_DIR join cwd)
                             (String.append (template collectionName)
                                (String.append "_"
                                   (String.append
                                      (substring 0 19 (dashes (now w)))
                                      ".csv"))))
                          (documentsToCSV stringify localeCompare documents
                                          includeSystemFields) ]);
    cbv beta.
  { apply tspec_record. repeat split. }
  2: now intros name message d3 j3 (H & _).
  2: now intros code d3 j3 (H & _).
  2: now intros d3 j3 (H & _).
  intros _ d3 j3 (_ & -> & ->).
  apply tspec_ret. split; [reflexivity |].
  exists w, made. cbv zeta. rewrite !app_nil_r. now repeat split.
Qed.

Lemma exported_more (includeSystemFields : bool) (d d' : list event)
      (j j' : list effect) (collection : object) (e : export_entry) :
  incl d d' -> incl j j' ->
  exported stringify localeCompare join now (CSV_EXPORT_DIR join cwd)
           includeSystemFields d j collection e ->
  exported stringify localeCompare join now (CSV_EXPORT_DIR join cwd)
           includeSystemFields d' j' collection e.
Proof.
  intros Hd Hj (Hname & documents & Hin & Hcount & Hfile).
  split; [exact Hname |]. exists documents.
  split; [now apply Hd |]. split; [exact Hcount |].
  destruct documents as [| doc documents]; [exact Hfile |].
  destruct Hfile as (w & Hfn & Hfp & Hw).
  exists w. cbv zeta. split; [exact Hfn |]. split; [exact Hfp |].
  now apply Hj.
Qed.

Lemma export_loop_run (fuel : nat) (sourceDbId : string)
      (includeSystemFields : bool) (collections : list object) :
  forall results,
    tspec (export_loop databases now stringify localeCompare join cwd
                       batchSize fuel sourceDbId includeSystemFields
                       collections results)
          (fun out d j =>
             forallb quiet d = true /\
             forallb is_export_effect j = true /\
             (forall code, out <> Exits code) /\
             (forall name message, out = Throws name message ->
                                   name <> ExitPromptError) /\
             (forall r,
                 out = Returns r ->
                 exportDir r = exportDir results /\
                 exists new,
                   export_collections r = export_collections results ++ new /\
                   Forall2 (exported stringify localeCompare join now
                                     (CSV_EXPORT_DIR join cwd)
                                     includeSystemFields d j)
                           collections new /\
                   totalRecords r
                   = (totalRecords results
                      + list_sum (map recordCount new))%nat /\
                   List.length (filter is_file_written j)
                   = List.length
                       (filter (fun e => (0 <? recordCount e)%nat) new))).
Proof.
  induction collections as [| collection rest IH]; intros results;
    cbn [export_loop].
  - apply tspec_ret. conjuncts; try reflexivity; try discriminate.
    intros r [= <-]. split; [reflexivity |]. exists [].
    rewrite app_nil_r. cbn. conjuncts; [reflexivity | constructor | lia
                                        | reflexivity].
  - assert (Hfail : tspec (@tthrow World export_results "TypeError" TypeError)
                      (fun out d j =>
                         forallb quiet d = true /\
                         forallb is_export_effect j = true /\
                         (forall code, out <> Exits code) /\
                         (forall name message,
                             out = Throws name message ->
                             name <> ExitPromptError) /\
                         (forall r,
                             out = Returns r ->
                             exportDir r = exportDir results /\
                             exists new,
                               export_collections r
                               = export_collections results ++ new /\
                               Forall2 (exported stringify localeCompare
                                          join now (CSV_EXPORT_DIR join cwd)
                                          includeSystemFields d j)
                                       (collection :: rest) new /\
                               totalRecords r
                               = (totalRecords results
                                  + list_sum (map recordCount new))%nat /\
                               List.length (filter is_file_written j)
                               = List.length
                                   (filter (fun e => (0 <? recordCount e)%nat)
                                           new)))).
    { apply tspec_throw. conjuncts; try reflexivity; try discriminate.
      intros name message [= <- _]. discriminate. }
    destruct (get "name" collection) as [[| | | name | |] |] eqn:Hname;
      try exact Hfail.
    clear Hfail.
    eapply tspec_bind;
      [apply (lifted_traversal
                (ListDocuments sourceDbId (get "$id" collection))
                batchSize "$id" fuel (fun _ _ => eq_refl)) | | | |];
      cbv beta.
    2:{ intros nm message d1 j1 (Hq & -> & _ & Hnm & _).
        conjuncts; try assumption; try reflexivity; try discriminate.
        intros nm' message' [= <- _]. rewrite (Hnm nm message eq_refl).
        discriminate. }
    2:{ intros code d1 j1 (_ & _ & Hcode & _). now destruct (Hcode code). }
    2:{ intros d1 j1 (Hq & -> & _).
        conjuncts; try assumption; try reflexivity; discriminate. }
    intros documents d1 j1 (Hq1 & -> & _ & _ & Hin1).
    specialize (Hin1 documents eq_refl).
    destruct (0 <? List.length documents)%nat eqn:Hpos.
    + eapply tspec_bind;
        [apply (exportCollectionToCSV_run (Some (Str name)) documents
                                          includeSystemFields) | | | |];
        cbv beta.
      2: now intros nm message d2 j2 (_ & w & made & H & _).
      2: now intros code d2 j2 (_ & w & made & H & _).
      2: now intros d2 j2 (_ & w & made & H & _).
      intros exportResult d2 j2 (-> & w & made & [= ->] & -> & Hmade).
      cbn [filepath filename recordCount].
      eapply tspec_implies; [apply IH |]. cbv beta.
      intros out d3 j3 (Hq3 & He3 & Hcode & Hnm & Hret).
      cbn [app].
      split; [now rewrite forallb_app, Hq1, Hq3 |].
      split.
      { rewrite !forallb_app, He3. cbn.
        now destruct Hmade as [-> | ->]. }
      split; [exact Hcode |]. split; [exact Hnm |].
      intros r Hr. destruct (Hret r Hr) as (Hdir & new & Hnew & Hall & Htotal & Hfiles).
      cbn [exportDir export_collections totalRecords] in Hdir, Hnew, Htotal.
      split; [exact Hdir |].
      eexists (_ :: new). split; [now rewrite Hnew, <- app_assoc |].
      split; [| split].
      * constructor.
        -- split; [cbn; now rewrite Hname |]. exists documents.
           split; [apply in_or_app; left; exact Hin1 |].
           split; [reflexivity |].
           destruct documents as [| doc documents]; [discriminate Hpos |].
           exists w. cbv zeta. cbn [filename filepath].
           rewrite Hname. repeat split.
           apply in_or_app. left. apply in_or_app. right. now left.
        -- eapply Forall2_impl; [| exact Hall].
           intros c e. apply exported_more.
           ++ intros x Hx. apply in_or_app. now right.
           ++ intros x Hx. apply in_or_app. now right.
      * rewrite Htotal. cbn [map list_sum fold_right recordCount].
        fold (list_sum (map recordCount new)). lia.
      * rewrite !filter_app, !length_app, Hfiles. cbn [map filter recordCount].
        rewrite Hpos. cbn [List.length].
        destruct Hmade as [-> | ->]; cbn; lia.
    + eapply tspec_implies; [apply IH |]. cbv beta.
      intros out d3 j3 (Hq3 & He3 & Hcode & Hnm & Hret).
      split; [now rewrite forallb_app, Hq1, Hq3 |].
      split; [exact He3 |]. split; [exact Hcode |]. split; [exact Hnm |].
      intros r Hr.
      destruct (Hret r Hr) as (Hdir & new & Hnew & Hall & Htotal & Hfiles).
      cbn [exportDir export_collections totalRecords] in Hdir, Hnew, Htotal.
      split; [exact Hdir |].
      eexists (_ :: new). split; [now rewrite Hnew, <- app_assoc |].
      apply Nat.ltb_ge in Hpos.
      assert (Hnil : documents = [])
        by (destruct documents; [reflexivity | cbn in Hpos; lia]).
      subst documents.
      split; [| split].
      * constructor.
        -- split; [cbn; now rewrite Hname |]. exists [].
           split; [apply in_or_app; now left |]. now repeat split.
        -- eapply Forall2_impl; [| exact Hall].
           intros c e. apply exported_more.
           ++ intros x Hx. apply in_or_app. now right.
           ++ intros x Hx. exact Hx.
      * rewrite Htotal. cbn [map list_sum fold_right recordCount].
        fold (list_sum (map recordCount new)). lia.
      * cbn [app filter recordCount Nat.ltb Nat.leb]. exact Hfiles.
Qed.

Lemma exportToCSV_run (fuel : nat) (sourceDbId : string)
      (includeSystemFields : bool) :
  tspec (exportToCSV databases now stringify localeCompare join cwd
                     batchSize fuel sourceDbId includeSystemFields)
        (fun out d j =>
           forallb quiet d = true /\
           forallb is_export_effect j = true /\
           (forall code, out <> Exits code) /\
           (forall name message, out = Throws name message ->
                                 name <> ExitPromptError) /\
           (forall r,
               out = Returns r ->
               exportDir r = CSV_EXPORT_DIR join cwd /\
               totalRecords r
               = list_sum (map recordCount (export_collections r)) /\
               List.length (filter is_file_written j)
               = List.length
                   (filter (fun e => (0 <? recordCount e)%nat)
                           (export_collections r)) /\
               exists collections,
                 In (Fetched collections) d /\
                 Forall2 (exported stringify localeCompare join now
                                   (CSV_EXPORT_DIR join cwd)
                                   includeSystemFields d j)
                         collections (export_collections r))).
Proof.
  unfold exportToCSV. cbv zeta.
  eapply tspec_bind;
    [apply (lifted_traversal (ListCollections sourceDbId) 100 "$id" fuel
                             (fun _ _ => eq_refl)) | | | |];
    cbv beta.
  2:{ intros nm message d1 j1 (Hq & -> & _ & Hnm & _).
      conjuncts; try assumption; try reflexivity; try discriminate.
      intros nm' message' [= <- _]. rewrite (Hnm nm message eq_refl).
      discriminate. }
  2:{ intros code d1 j1 (_ & _ & Hcode & _). now destruct (Hcode code). }
  2:{ intros d1 j1 (Hq & -> & _).
      conjuncts; try assumption; try reflexivity; discriminate. }
  intros collections d1 j1 (Hq1 & -> & _ & _ & Hin1).
  specialize (Hin1 collections eq_refl).
  destruct (List.length collections =? 0)%nat eqn:Hempty.
  { apply Nat.eqb_eq, length_zero_iff_nil in Hempty. subst collections.
    apply tspec_ret. rewrite !app_nil_r.
    conjuncts; try assumption; try reflexivity; try discriminate.
    intros r [= <-]. conjuncts; try reflexivity.
    exists []. split; [exact Hin1 | constructor]. }
  eapply tspec_bind
    with (Q1 := fun out d j =>
                  out = Returns tt /\ d = [] /\
                  (j = [] \/ j = [ DirectoryMade ]));
    cbv beta.
  { apply tspec_ensure_directory; auto. }
  2: now intros name message d2 j2 (H & _).
  2: now intros code d2 j2 (H & _).
  2: now intros d2 j2 (H & _).
  intros _ d2 made (_ & -> & Hmade).
  eapply tspec_implies; [apply export_loop_run |]. cbv beta.
  intros out d3 j3 (Hq3 & He3 & Hcode & Hnm & Hret).
  cbn [app].
  split; [now rewrite forallb_app, Hq1, Hq3 |].
  split.
  { rewrite forallb_app, He3. now destruct Hmade as [-> | ->]. }
  split; [exact Hcode |]. split; [exact Hnm |].
  intros r Hr.
  destruct (Hret r Hr) as (Hdir & new & Hnew & Hall & Htotal & Hfiles).
  cbn [exportDir export_collections totalRecords app] in Hdir, Hnew, Htotal.
  subst new. split; [exact Hdir |]. split; [exact Htotal |].
  split.
  { rewrite filter_app, length_app, Hfiles.
    destruct Hmade as [-> | ->]; reflexivity. }
  exists collections. split; [apply in_or_app; now left |].
  eapply Forall2_impl; [| exact Hall].
  intros c e. apply exported_more.
  - intros x Hx. apply in_or_app. now right.
  - intros x Hx. apply in_or_app. now right.
Qed.

End ExportFacts.

(** ** The runs of [main] *)

Section MainFacts.
Context {World : Type}.
Variable createClient : string -> string -> string -> option (string * string).
Variable databases : Databases World.
Variable databases_get : World -> string -> World * option object.
Variable databases_deleteCollection :
  World -> string -> option value -> World * reply.
Variable select : World -> World * option clone_mode.
Variable confirm : World -> string -> World * option bool.
Variable now : World -> string.
Variable stringify : value -> string.
Variable localeCompare : string -> string -> Z.
Variable join : string -> string -> string.
Variable styleText : string -> string -> string.
Variable env : string -> option string.
Variable cwd : string.
Variable batchSize : Z.

Lemma filter_found {A : Type} (p : A -> bool) (l : list A) :
  (0 <? List.length (filter p l))%nat = existsb p l.
Proof.
  induction l as [| x l IH]; [reflexivity |].
  cbn. destruct (p x); [reflexivity | exact IH].
Qed.

Lemma deletion_journal_in (databaseId : string) (collections : list object) :
  forall replies,
    forallb (deletion_in databaseId)
            (deletion_journal databaseId collections replies) = true.
Proof.
  unfold deletion_journal.
  induction collections as [| c collections IH]; intros [| rp replies];
    try reflexivity.
  cbn. now rewrite String.eqb_refl, IH.
Qed.

(** The conditional call of [dropDestinationCollections] in [main]. *)
Lemma drop_step_run (fuel : nat) (dst : string) (wanted : bool) :
  tspec (if wanted
         then tbind (dropDestinationCollections databases
                       databases_deleteCollection fuel dst)
                    (fun _ => tret tt)
         else tret tt)
        (fun out d j =>
           forallb quiet d = true /\
           forallb (deletion_in dst) j = true /\
           (wanted = false -> d = [] /\ j = []) /\
           carried_out out).
Proof.
  destruct wanted.
  - eapply tspec_bind;
      [apply (dropDestinationCollections_run databases
                databases_deleteCollection fuel dst) | | | |];
      cbv beta.
    + intros r d1 j1 (Hq & _ & _ & Hret & _).
      destruct (Hret r eq_refl) as (collections & replies & _ & _ & -> & _).
      apply tspec_ret. rewrite !app_nil_r.
      split; [exact Hq |]. split; [apply deletion_journal_in |].
      split; [discriminate |]. now left.
    + intros name message d1 j1 (Hq & _ & Hname & _ & Hnot).
      rewrite Hnot by discriminate.
      split; [exact Hq |]. split; [reflexivity |].
      split; [discriminate |]. right. right.
      exists name, message. split; [reflexivity |].
      rewrite (Hname name message eq_refl). discriminate.
    + intros code d1 j1 (_ & Hcode & _). now destruct (Hcode code).
    + intros d1 j1 (Hq & _ & _ & _ & Hnot).
      rewrite Hnot by discriminate.
      split; [exact Hq |]. split; [reflexivity |].
      split; [discriminate |]. right. now left.
  - apply tspec_ret. repeat split. now left.
Qed.

(** The call of [cloneDatabase] in [main]. *)
Lemma clone_step_run (fuel : nat) (src dst : string)
      (cloneStructure cloneData missingOnly : bool) :
  tspec (tbind (lift (cloneDatabase databases now stringify batchSize fuel
                                    src dst cloneStructure cloneData
                                    missingOnly))
               (fun _ => tret tt))
        (fun out d j =>
           forallb (permitted src dst cloneStructure cloneData missingOnly)
                   d = true /\
           j = [] /\ carried_out out).
Proof.
  eapply tspec_bind
    with (Q1 := fun out d j =>
                  forallb (permitted src dst cloneStructure cloneData
                                     missingOnly) d = true /\
                  j = [] /\
                  (forall code, out <> Exits code) /\
                  (forall name message, out = Throws name message ->
                                        name = "Error"));
    cbv beta.
  - eapply tspec_lift; [apply cloneDatabase_permitted |]. cbv beta.
    intros out d Hd. split; [exact Hd |]. split; [reflexivity |].
    destruct out; cbn [ending_of]; split; try discriminate.
    now intros name message' [= <- _].
  - intros r d1 j1 (Hd & -> & _). apply tspec_ret.
    rewrite !app_nil_r. split; [exact Hd |]. split; [reflexivity |].
    now left.
  - intros name message d1 j1 (Hd & -> & _ & Hname).
    split; [exact Hd |]. split; [reflexivity |]. right. right.
    exists name, message. split; [reflexivity |].
    rewrite (Hname name message eq_refl). discriminate.
  - intros code d1 j1 (_ & _ & Hcode & _). now destruct (Hcode code).
  - intros d1 j1 (Hd & -> & _).
    split; [exact Hd |]. split; [reflexivity |]. right. now left.
Qed.

(** The export task of [main]. *)
Lemma export_step_run (fuel : nat) (src : string)
      (includeSystemFields : bool) :
  tspec (tbind (exportToCSV databases now stringify localeCompare join cwd
                            batchSize fuel src includeSystemFields)
               (fun _ => tret tt))
        (fun out d j =>
           forallb quiet d = true /\
           forallb is_export_effect j = true /\
           carried_out out).
Proof.
  eapply tspec_bind; [apply exportToCSV_run | | | |]; cbv beta.
  - intros r d1 j1 (Hq & He & _). apply tspec_ret.
    rewrite !app_nil_r. split; [exact Hq |]. split; [exact He |]. now left.
  - intros name message d1 j1 (Hq & He & _ & Hname & _).
    split; [exact Hq |]. split; [exact He |]. right. right.
    exists name, message. split; [reflexivity |].
    now apply (Hname name message).
  - intros code d1 j1 (_ & _ & Hcode & _). now destruct (Hcode code).
  - intros d1 j1 (Hq & He & _).
    split; [exact Hq |]. split; [exact He |]. right. now left.
Qed.

Lemma validateConfig_run :
  tspec (@validateConfig World env)
        (fun out d j =>
           d = [] /\ j = [] /\
           out = if existsb (fun key => unset (env key)) required
                 then Exits 1 else Returns tt).
Proof.
  unfold validateConfig. cbv zeta. rewrite filter_found.
  destruct (existsb (fun key => unset (env key)) required);
    [apply tspec_exit | apply tspec_ret]; now repeat split.
Qed.

Lemma main_run (fuel : nat) :
  tspec (main createClient databases databases_get databases_deleteCollection select
              confirm now stringify localeCompare join styleText env cwd
              batchSize fuel)
        (main_shape createClient env).
Proof.
  unfold main. cbv zeta.
  set (src := config_of (env "SOURCE_DATABASE_ID")).
  set (dst := config_of (env "DEST_DATABASE_ID")).
  eapply tspec_bind; [apply validateConfig_run | | | |]; cbv beta.
  2:{ intros name message d0 j0 (_ & _ & H).
      destruct (existsb _ required); discriminate H. }
  2:{ intros code d0 j0 (-> & -> & H). left.
      destruct (existsb (fun key => unset (env key)) required) eqn:Hset;
        [| discriminate H].
      injection H as ->. now repeat split. }
  2:{ intros d0 j0 (_ & _ & H).
      destruct (existsb _ required); discriminate H. }
  intros [] d0 j0 (-> & -> & H).
  destruct (existsb (fun key => unset (env key)) required) eqn:Hset;
    [discriminate H |]. clear H.
  cbn [app].
  fold (client_of createClient env).
  destruct (client_of createClient env) as [[name message] |] eqn:Hclient.
  { apply tspec_throw. right. left. split; [exact Hset |].
    exists name, message. now repeat split. }
  eapply tspec_try_catch with (Q1 := body_shape src dst); cbv beta.
  2:{ intros name message d1 j1 Hshape.
      assert (Hsettle : tspec (if String.eqb name ExitPromptError
                               then @exit World unit 0 else exit 1)
                          (fun out d2 j2 =>
                             d2 = [] /\ j2 = [] /\
                             out = settle (Throws name message))).
      { cbn [settle]. destruct (String.eqb name ExitPromptError);
          apply tspec_exit; now repeat split. }
      eapply tspec_implies; [exact Hsettle |]. cbv beta.
      intros out d2 j2 (-> & -> & ->). rewrite !app_nil_r.
      right. right. split; [exact Hset |]. split; [exact Hclient |].
      now exists (Throws name message). }
  2:{ intros [] d1 j1 Hshape. right. right. split; [exact Hset |].
      split; [exact Hclient |]. now exists (Returns tt). }
  2:{ intros code d1 j1 Hshape. right. right. split; [exact Hset |].
      split; [exact Hclient |]. now exists (Exits code). }
  2:{ intros d1 j1 Hshape. right. right. split; [exact Hset |].
      split; [exact Hclient |]. now exists Starves. }
  eapply tspec_bind; [apply (getDatabaseInfo_run databases_get src) | | | |];
    cbv beta.
  2: now intros name message d1 j1 (_ & db & _ & H).
  2: now intros code d1 j1 (_ & db & _ & H).
  2: now intros d1 j1 (_ & db & _ & H).
  intros sourceDb d1 j1 (-> & sdb & -> & [= ->]).
  eapply tspec_bind; [apply (getDatabaseInfo_run databases_get dst) | | | |];
    cbv beta.
  2: now intros name message d2 j2 (_ & db & _ & H).
  2: now intros code d2 j2 (_ & db & _ & H).
  2: now intros d2 j2 (_ & db & _ & H).
  intros destDb d2 j2 (-> & ddb & -> & [= ->]).
  cbn [app].
  destruct sdb as [sdb |]; cbn [db_exists negb].
  2:{ apply tspec_exit. apply SourceMissing. }
  eapply tspec_bind; [apply (await_select_run select) | | | |]; cbv beta.
  2:{ intros name message d3 j3 (-> & [mode |] & -> & [= -> ->]).
      apply SelectionClosed. }
  2: now intros code d3 j3 (_ & [mode |] & _ & H).
  2: now intros d3 j3 (_ & [mode |] & _ & H).
  intros chosen d3 j3 (-> & [chosen' |] & -> & [= <-]).
  cbn [app].
  destruct (String.eqb (mode_value chosen) "export-csv") eqn:Hexport.
  { assert (Hmode : chosen = ExportCsv) by (now destruct chosen).
    subst chosen.
    eapply tspec_bind; [apply (await_confirm_run confirm) | | | |];
      cbv beta.
    2:{ intros name message d4 j4 (-> & [b |] & -> & [= -> ->]).
        apply ExportClosed. }
    2: now intros code d4 j4 (_ & [b |] & _ & H).
    2: now intros d4 j4 (_ & [b |] & _ & H).
    intros b d4 j4 (-> & [b' |] & -> & [= <-]).
    cbn [app].
    eapply tspec_implies; [apply export_step_run |]. cbv beta.
    intros out d5 j5 (Hq & He & Hout).
    now apply (Exported src dst sdb ddb _ b out d5 j5). }
  assert (Hmode : chosen <> ExportCsv) by (now intros ->).
  destruct ddb as [ddb |]; cbn [db_exists negb].
  2:{ apply tspec_exit. now apply DestinationMissing. }
  eapply tspec_bind;
    [apply (confirmMigration_run confirm styleText) | | | |]; cbv beta.
  2:{ intros name message d4 j4 (-> & H).
      destruct (shown _ && shown _) eqn:Hshown.
      - destruct H as [[H _] | [[H _] | [[= -> ->] Hj]]];
          try discriminate H.
        now apply (ConfirmationClosed src dst sdb ddb chosen j4).
      - destruct H as [[= -> ->] ->].
        now apply (NotShown src dst sdb ddb chosen). }
  2:{ intros code d4 j4 (-> & H).
      destruct (shown _ && shown _); [| now destruct H].
      destruct H as [[H _] | [[[= ->] Hj] | [H _]]]; try discriminate H.
      now apply (Declined src dst sdb ddb chosen j4). }
  2:{ intros d4 j4 (_ & H).
      destruct (shown _ && shown _); [| now destruct H].
      destruct H as [[H _] | [[H _] | [H _]]]; discriminate H. }
  intros confirmed d4 jc (-> & H).
  assert (Hjc : thrice_confirmed jc).
  { destruct (shown _ && shown _); [| now destruct H].
    destruct H as [[_ Hjc] | [[H _] | [H _]]];
      [exact Hjc | discriminate H | discriminate H]. }
  clear H.
  cbn [app].
  eapply tspec_bind;
    [apply (drop_step_run fuel dst
              (structure_of chosen && negb (missing_of chosen))) | | | |];
    cbv beta.
  - intros [] d5 j5 (Hq5 & Hd5 & Hoff & _).
    eapply tspec_implies;
      [apply (clone_step_run fuel src dst (structure_of chosen)
                             (data_of chosen) (missing_of chosen)) |].
    cbv beta. intros out d6 j6 (Hp6 & -> & Hout). rewrite app_nil_r.
    now apply (Migrated src dst sdb ddb chosen jc j5 d5 d6 out).
  - intros name message d5 j5 (Hq5 & Hd5 & Hoff & Hout).
    rewrite <- (app_nil_r d5).
    now apply (Migrated src dst sdb ddb chosen jc j5 d5 [] _).
  - intros code d5 j5 (_ & _ & _ & [H | [H | (n & m & H & _)]]);
      discriminate H.
  - intros d5 j5 (Hq5 & Hd5 & Hoff & Hout).
    rewrite <- (app_nil_r d5).
    now apply (Migrated src dst sdb ddb chosen jc j5 d5 [] _).
Qed.

End MainFacts.

(** ** What the export and [main] do *)

Lemma quiet_not_write (e : event) : quiet e = true -> is_write e = false.
Proof. now destruct e as [[] rp | | | | |]. Qed.

Lemma quiet_harmless (d : list event) :
  forallb quiet d = true ->
  forallb (fun e => negb (is_write e)) d = true.
Proof.
  intros H. apply forallb_forall. intros e Hin.
  rewrite forallb_forall in H. now rewrite (quiet_not_write e (H e Hin)).
Qed.

Lemma export_effects_harmless (j : list effect) :
  forallb is_export_effect j = true ->
  forallb (fun e => negb (is_deletion e)) j = true.
Proof.
  intros H. apply forallb_forall. intros e Hin.
  rewrite forallb_forall in H. specialize (H e Hin). now destruct e.
Qed.

Lemma forallb_In {A : Type} (p : A -> bool) (l : list A) (x : A) :
  forallb p l = true -> In x l -> p x = true.
Proof. intros H. now apply forallb_forall. Qed.

(** X21.  [exportToCSV] changes no database and ends no process: the
    calls it sends are listing calls, what it does besides is to make
    the export directory and to write files, it never exits, and an
    exception it raises is not the one of a closed prompt. *)
Theorem exportToCSV_only_reads {World : Type}
        (databases : Databases World) (now : World -> string)
        (stringify : value -> string)
        (localeCompare : string -> string -> Z)
        (join : string -> string -> string) (cwd : string)
        (batchSize : Z) (fuel : nat) (sourceDbId : string)
        (includeSystemFields : bool) (sh : state World * host) :
  let run := exportToCSV databases now stringify localeCompare join cwd
                         batchSize fuel sourceDbId includeSystemFields sh in
  exists d j,
    log (fst (snd run)) = log (fst sh) ++ d /\
    journal (snd (snd run)) = journal (snd sh) ++ j /\
    forallb quiet d = true /\
    forallb is_export_effect j = true /\
    harmless d j /\
    (forall code, fst run <> Exits code) /\
    (forall message, fst run <> Throws ExitPromptError message).
Proof.
  intros run. subst run.
  destruct (tspec_log _ _ sh
              (exportToCSV_run databases now stringify localeCompare join
                               cwd batchSize fuel sourceDbId
                               includeSystemFields))
    as (d & j & Hlog & Hj & Hq & He & Hcode & Hname & _).
  exists d, j. split; [exact Hlog |]. split; [exact Hj |].
  split; [exact Hq |]. split; [exact He |].
  split; [split; [now apply quiet_harmless
                 | now apply export_effects_harmless] |].
  split; [exact Hcode |].
  intros message H. now apply (Hname _ _ H).
Qed.

Lemma exportToCSV_only_reads_witness :
  forallb is_export_effect
          (journal (snd (snd (exportToCSV (documents_service true true) noon
                                          to_json by_characters slash_join
                                          "/home" 100 1 "source" false
                                          begin))))
  = true.
Proof.
  destruct (exportToCSV_only_reads (documents_service true true) noon
              to_json by_characters slash_join "/home" 100 1 "source" false
              begin)
    as (d & j & _ & Hj & _ & He & _).
  rewrite Hj. exact He.
Defined.

(** X22.  What [exportToCSV] returns accounts for what it did.  The
    results name the export directory under the working directory, hold
    one entry for each collection of a traversal of the source database,
    in order, and their total is the sum of the entries' counts.  An
    entry carries the collection's name and the number of its documents;
    a collection without documents gets no file, and for any other
    collection a file named after the collection and the time was
    written with the CSV text of its documents.  As many files were
    written as entries have documents. *)
Theorem exportToCSV_results_match_files {World : Type}
        (databases : Databases World) (now : World -> string)
        (stringify : value -> string)
        (localeCompare : string -> string -> Z)
        (join : string -> string -> string) (cwd : string)
        (batchSize : Z) (fuel : nat) (sourceDbId : string)
        (includeSystemFields : bool) (sh : state World * host)
        (r : export_results) :
  let run := exportToCSV databases now stringify localeCompare join cwd
                         batchSize fuel sourceDbId includeSystemFields sh in
  fst run = Returns r ->
  exists d j,
    log (fst (snd run)) = log (fst sh) ++ d /\
    journal (snd (snd run)) = journal (snd sh) ++ j /\
    exportDir r = CSV_EXPORT_DIR join cwd /\
    totalRecords r = list_sum (map recordCount (export_collections r)) /\
    List.length (filter is_file_written j)
    = List.length (filter (fun e => (0 <? recordCount e)%nat)
                          (export_collections r)) /\
    exists collections,
      In (Fetched collections) d /\
      Forall2 (exported stringify localeCompare join now
                        (CSV_EXPORT_DIR join cwd) includeSystemFields d j)
              collections (export_collections r).
Proof.
  intros run Hret. subst run.
  destruct (tspec_log _ _ sh
              (exportToCSV_run databases now stringify localeCompare join
                               cwd batchSize fuel sourceDbId
                               includeSystemFields))
    as (d & j & Hlog & Hj & _ & _ & _ & _ & Hr).
  exists d, j. split; [exact Hlog |]. split; [exact Hj |].
  exact (Hr r Hret).
Qed.

Lemma exportToCSV_results_match_files_witness :
  exists r,
    fst (exportToCSV (documents_service true true) noon to_json
                     by_characters slash_join "/home" 100 1 "source" false
                     begin)
    = Returns r /\
    exportDir r = "/home/csv-export" /\
    totalRecords r = 2%nat /\
    List.length
      (filter is_file_written
              (journal (snd (snd (exportToCSV (documents_service true true)
                                              noon to_json by_characters
                                              slash_join "/home" 100 1
                                              "source" false begin)))))
    = 1%nat.
Proof.
  eexists. split; [vm_compute; reflexivity |].
  match goal with
  | |- exportDir ?r = _ /\ _ =>
      destruct (exportToCSV_results_match_files
                  (documents_service true true) noon to_json by_characters
                  slash_join "/home" 100 1 "source" false begin r eq_refl)
        as (d & j & _ & Hj & Hdir & Htotal & Hfiles & _)
  end.
  split; [etransitivity; [exact Hdir | reflexivity] |].
  split; [etransitivity; [exact Htotal | reflexivity] |].
  rewrite Hj. cbn [begin snd journal app].
  etransitivity; [exact Hfiles | reflexivity].
Defined.

Lemma forallb_impl {A : Type} (p q : A -> bool) (l : list A) :
  (forall x, p x = true -> q x = true) ->
  forallb p l = true -> forallb q l = true.
Proof.
  intros Hpq H. apply forallb_forall. intros x Hin.
  apply Hpq. exact (forallb_In _ _ _ H Hin).
Qed.

Lemma broken_off_harmless (last : option bool) (j : list effect) :
  broken_off last j ->
  forallb (fun e => negb (is_deletion e)) j = true.
Proof.
  intros (yes & m & -> & _). rewrite forallb_app. cbn.
  rewrite andb_true_r. now induction yes.
Qed.

Lemma thrice_confirmed_answers (j : list effect) (e : effect) :
  thrice_confirmed j ->
  In e j ->
  exists m, e = Confirmed m (Some true).
Proof.
  intros (m1 & m2 & m3 & ->) [<- | [<- | [<- | []]]]; eauto.
Qed.

Lemma thrice_confirmed_harmless (j : list effect) :
  thrice_confirmed j ->
  forallb (fun e => negb (is_deletion e)) j = true.
Proof. now intros (m1 & m2 & m3 & ->). Qed.

Lemma permitted_write (src dst : string)
      (cloneStructure cloneData missingOnly : bool)
      (rq : request) (rp : reply) (db : string) :
  permitted src dst cloneStructure cloneData missingOnly (Called rq rp)
  = true ->
  written_database rq = Some db ->
  db = dst.
Proof.
  intros Hd Hdb.
  destruct rq; try discriminate; injection Hdb as <-; cbn in Hd;
    apply andb_prop in Hd as [_ Hd]; now apply String.eqb_eq in Hd.
Qed.

Lemma permitted_no_schema (src dst : string) (cloneData missingOnly : bool)
      (e : event) :
  permitted src dst false cloneData missingOnly e = true ->
  negb (is_schema_write e) = true.
Proof. now destruct e as [[] rp | | | | |]. Qed.

Lemma permitted_no_data (src dst : string) (cloneStructure : bool)
      (e : event) :
  permitted src dst cloneStructure false false e = true ->
  negb (is_document_creation e) && negb (is_cache_event e) = true.
Proof. now destruct e as [[] rp | | | | |]. Qed.

Lemma quiet_no_data (e : event) :
  quiet e = true ->
  negb (is_document_creation e) && negb (is_cache_event e) = true.
Proof. now destruct e as [[] rp | | | | |]. Qed.

Lemma deletion_in_database (dst : string) (j : list effect)
      (db : string) (id : option value) (rp : reply) :
  forallb (deletion_in dst) j = true ->
  In (Deleted db id rp) j ->
  db = dst.
Proof.
  intros H Hin. apply (forallb_In _ _ _ H) in Hin.
  now apply String.eqb_eq in Hin.
Qed.

(** X23.  [main] changes a database only after it was told to.  In
    every run, either no creation call was sent and nothing was deleted,
    or every variable of the configuration is set, both databases were
    found, the user picked a mode other than the CSV export and answered
    yes to three confirmations, and whatever the journal holds after
    these answers is a deletion. *)
Theorem main_changes_nothing_unconfirmed {World : Type}
        (createClient : string -> string -> string
                        -> option (string * string))
        (databases : Databases World)
        (databases_get : World -> string -> World * option object)
        (databases_deleteCollection :
           World -> string -> option value -> World * reply)
        (select : World -> World * option clone_mode)
        (confirm : World -> string -> World * option bool)
        (now : World -> string) (stringify : value -> string)
        (localeCompare : string -> string -> Z)
        (join styleText : string -> string -> string)
        (env : string -> option string) (cwd : string) (batchSize : Z)
        (fuel : nat) (sh : state World * host) :
  let run := main createClient databases databases_get databases_deleteCollection select
                  confirm now stringify localeCompare join styleText env
                  cwd batchSize fuel sh in
  let src := config_of (env "SOURCE_DATABASE_ID") in
  let dst := config_of (env "DEST_DATABASE_ID") in
  exists d j,
    log (fst (snd run)) = log (fst sh) ++ d /\
    journal (snd (snd run)) = journal (snd sh) ++ j /\
    (harmless d j
     \/ (existsb (fun key => unset (env key)) required = false /\
         exists sdb ddb mode jc rest,
           mode <> ExportCsv /\
           thrice_confirmed jc /\
           j = [ Got src (Some sdb); Got dst (Some ddb);
                 Selected (Some mode) ] ++ jc ++ rest /\
           forallb is_deletion rest = true)).
Proof.
  intros run src dst. subst run.
  destruct (tspec_log _ _ sh
              (main_run createClient databases databases_get databases_deleteCollection
                        select confirm now stringify localeCompare join
                        styleText env cwd batchSize fuel))
    as (d & j & Hlog & Hj & Hshape).
  exists d, j. split; [exact Hlog |]. split; [exact Hj |].
  destruct Hshape
    as [(_ & _ & -> & ->)
       | [(_ & name & message & _ & _ & -> & ->)
         | (Hset & _ & out0 & Hbody & _)]];
    [left; now split | left; now split |].
  fold src dst in Hbody.
  inversion Hbody; subst; try (left; now split).
  - left. split; [now apply quiet_harmless |].
    cbn. now apply export_effects_harmless.
  - left. split; [reflexivity |]. cbn. now apply (broken_off_harmless (Some false)).
  - left. split; [reflexivity |]. cbn. now apply (broken_off_harmless None).
  - right. split; [exact Hset |].
    do 5 eexists.
    split; [eassumption |]. split; [eassumption |]. split; [reflexivity |].
    eapply forallb_impl; [| eassumption].
    intros e He. now destruct e.
Qed.

Lemma main_changes_nothing_unconfirmed_witness :
  exists d,
    log (fst (snd (main sdk_client (schema_service true true "available") finding
                        (deleting true) (picking (Some StructureOnly))
                        (answering (Some false)) noon to_json by_characters
                        slash_join plain_style configured "/home" 100 3
                        begin)))
    = d /\
    forallb (fun e => negb (is_write e)) d = true.
Proof.
  destruct (main_changes_nothing_unconfirmed sdk_client
              (schema_service true true "available") finding (deleting true)
              (picking (Some StructureOnly)) (answering (Some false)) noon
              to_json by_characters slash_join plain_style configured "/home"
              100 3 begin)
    as (d & j & Hlog & Hj & [[Hd _] | (_ & sdb & ddb & mode & jc & rest
                                       & _ & (m1 & m2 & m3 & ->) & Hjc & _)]).
  - exists d. split; [exact Hlog | exact Hd].
  - exfalso. rewrite Hjc in Hj. vm_compute in Hj. discriminate Hj.
Defined.

(** The mode picked in a run of the [try] block of [main] is the one its
    journal holds. *)
Lemma shape_mode (src dst : string)
      (j : list effect) (sdb : option object) (ddb : option object)
      (picked chosen : clone_mode) (rest : list effect) :
  j = [ Got src sdb; Got dst ddb; Selected (Some picked) ] ++ rest ->
  (forall e, In e rest -> e <> Selected (Some chosen)) ->
  In (Selected (Some chosen)) j ->
  chosen = picked.
Proof.
  intros -> Hrest [H | [H | [H | H]]]; try discriminate H.
  - now injection H.
  - now destruct (Hrest _ H).
Qed.

(** X24.  [main] keeps to the mode the user picked.  Every creation call
    of a run and every deletion names the destination database.  In the
    CSV export no creation call is sent and nothing is deleted; in the
    modes data-only and missing-only nothing is deleted and no
    collection, attribute or index is created; in the mode
    structure-only no document is created and the snapshot file is not
    touched. *)
Theorem main_keeps_to_the_mode {World : Type}
        (createClient : string -> string -> string
                        -> option (string * string))
        (databases : Databases World)
        (databases_get : World -> string -> World * option object)
        (databases_deleteCollection :
           World -> string -> option value -> World * reply)
        (select : World -> World * option clone_mode)
        (confirm : World -> string -> World * option bool)
        (now : World -> string) (stringify : value -> string)
        (localeCompare : string -> string -> Z)
        (join styleText : string -> string -> string)
        (env : string -> option string) (cwd : string) (batchSize : Z)
        (fuel : nat) (sh : state World * host) :
  let run := main createClient databases databases_get databases_deleteCollection select
                  confirm now stringify localeCompare join styleText env
                  cwd batchSize fuel sh in
  let dst := config_of (env "DEST_DATABASE_ID") in
  exists d j,
    log (fst (snd run)) = log (fst sh) ++ d /\
    journal (snd (snd run)) = journal (snd sh) ++ j /\
    (forall rq rp db,
        In (Called rq rp) d -> written_database rq = Some db -> db = dst) /\
    (forall db id rp, In (Deleted db id rp) j -> db = dst) /\
    forall chosen,
      In (Selected (Some chosen)) j ->
      (chosen = ExportCsv -> harmless d j) /\
      (chosen = DataOnly \/ chosen = MissingOnly ->
       forallb (fun e => negb (is_schema_write e)) d = true /\
       forallb (fun e => negb (is_deletion e)) j = true) /\
      (chosen = StructureOnly ->
       forallb (fun e => negb (is_document_creation e)
                         && negb (is_cache_event e)) d = true).
Proof.
  intros run dst. subst run.
  destruct (tspec_log _ _ sh
              (main_run createClient databases databases_get databases_deleteCollection
                        select confirm now stringify localeCompare join
                        styleText env cwd batchSize fuel))
    as (d & j & Hlog & Hj & Hshape).
  exists d, j. split; [exact Hlog |]. split; [exact Hj |].
  destruct Hshape
    as [(_ & _ & -> & ->)
       | [(_ & name & message & _ & _ & -> & ->)
         | (Hset & _ & out0 & Hbody & _)]].
  1,2: split; [now intros rq rp db [] |];
    (split; [now intros db id rp [] |]); now intros chosen [].
  fold dst in Hbody.
  set (src := config_of (env "SOURCE_DATABASE_ID")) in Hbody.
  inversion Hbody as
      [ ddb | sdb ddb | sdb ddb m | sdb ddb m b out d' j' Hq He Hout
      | sdb picked Hpicked | sdb ddb picked Hpicked Hshown
      | sdb ddb picked j' Hpicked Hbroken
      | sdb ddb picked j' Hpicked Hbroken
      | sdb ddb picked jc j1 d1 d2 out Hpicked Hjc Hq1 Hj1 Hoff Hd2 Hout ];
    subst.
  - split; [now intros rq rp db [] |].
    split; [intros db id rp [H | [H | []]]; discriminate H |].
    intros chosen [H | [H | []]]; discriminate H.
  - split; [now intros rq rp db [] |].
    split; [intros db id rp [H | [H | [H | []]]]; discriminate H |].
    intros chosen [H | [H | [H | []]]]; discriminate H.
  - split; [now intros rq rp db [] |].
    split; [intros db id rp [H | [H | [H | [H | []]]]]; discriminate H |].
    intros chosen Hin. repeat split; reflexivity.
  - assert (Hharmless : harmless d
                          ([ Got src (Some sdb); Got dst ddb;
                             Selected (Some ExportCsv);
                             Confirmed m (Some b) ] ++ j')).
    { split; [now apply quiet_harmless |].
      cbn. now apply export_effects_harmless. }
    split.
    { intros rq rp db Hin Hdb. apply (forallb_In _ _ _ Hq) in Hin.
      now destruct rq. }
    split.
    { intros db id rp [H | [H | [H | [H | Hin]]]]; try discriminate H.
      now apply (forallb_In _ _ _ He) in Hin. }
    intros chosen Hin.
    assert (Hchosen : chosen = ExportCsv).
    { apply (shape_mode src dst _ (Some sdb) ddb ExportCsv chosen
                        (Confirmed m (Some b) :: j') eq_refl);
        [| exact Hin].
      intros e [<- | Hin'] Heq; [discriminate Heq |]. subst e.
      now apply (forallb_In _ _ _ He) in Hin'. }
    subst chosen. split; [intros _; exact Hharmless |].
    split; [intros [H | H]; discriminate H | intros H; discriminate H].
  - split; [now intros rq rp db [] |].
    split; [intros db id rp [H | [H | [H | []]]]; discriminate H |].
    intros chosen Hin. repeat split; reflexivity.
  - split; [now intros rq rp db [] |].
    split; [intros db id rp [H | [H | [H | []]]]; discriminate H |].
    intros chosen Hin. repeat split; reflexivity.
  - assert (Hno := broken_off_harmless _ _ Hbroken).
    split; [now intros rq rp db [] |].
    split.
    { intros db id rp [H | [H | [H | Hin]]]; try discriminate H.
      now apply (forallb_In _ _ _ Hno) in Hin. }
    intros chosen Hin. cbn. repeat split; try reflexivity; exact Hno.
  - assert (Hno := broken_off_harmless _ _ Hbroken).
    split; [now intros rq rp db [] |].
    split.
    { intros db id rp [H | [H | [H | Hin]]]; try discriminate H.
      now apply (forallb_In _ _ _ Hno) in Hin. }
    intros chosen Hin. cbn. repeat split; try reflexivity; exact Hno.
  - assert (Hno := thrice_confirmed_harmless _ Hjc).
    split.
    { intros rq rp db Hin Hdb. apply in_app_or in Hin as [Hin | Hin].
      - apply (forallb_In _ _ _ Hq1) in Hin. now destruct rq.
      - apply (forallb_In _ _ _ Hd2) in Hin.
        exact (permitted_write _ _ _ _ _ _ _ _ Hin Hdb). }
    split.
    { intros db id rp [H | [H | [H | Hin]]]; try discriminate H.
      cbn [app] in Hin. apply in_app_or in Hin as [Hin | Hin].
      - now apply (forallb_In _ _ _ Hno) in Hin.
      - exact (deletion_in_database _ _ _ _ _ Hj1 Hin). }
    intros chosen Hin.
    assert (Hchosen : chosen = picked).
    { apply (shape_mode src dst _ (Some sdb) (Some ddb)
                        picked chosen (jc ++ j1) eq_refl);
        [| exact Hin].
      intros e Hin' Heq. subst e. apply in_app_or in Hin' as [Hin' | Hin'].
      - now apply (forallb_In _ _ _ Hno) in Hin' as Hx;
          destruct (thrice_confirmed_answers _ _ Hjc Hin') as (m & Hm).
      - now apply (forallb_In _ _ _ Hj1) in Hin'. }
    subst chosen. split; [intros ->; now destruct Hpicked |].
    split.
    + intros Hmode.
      assert (Hflags : structure_of picked = false)
        by (now destruct Hmode as [-> | ->]).
      rewrite Hflags in Hoff, Hd2.
      destruct (Hoff eq_refl) as [-> ->]. cbn [app].
      split.
      * eapply forallb_impl; [| exact Hd2].
        intros e. apply permitted_no_schema.
      * cbn. now rewrite app_nil_r.
    + intros ->. rewrite forallb_app. apply andb_true_intro. split.
      * eapply forallb_impl; [| exact Hq1]. apply quiet_no_data.
      * eapply forallb_impl; [| exact Hd2].
        intros e. apply permitted_no_data.
Qed.

Lemma main_keeps_to_the_mode_witness :
  forallb (fun e => negb (is_document_creation e) && negb (is_cache_event e))
          (log (fst (snd (main sdk_client (schema_service true true "available")
                               finding (deleting true)
                               (picking (Some StructureOnly))
                               (answering (Some true)) noon to_json
                               by_characters slash_join plain_style
                               configured "/home" 100 3 begin))))
  = true.
Proof.
  destruct (main_keeps_to_the_mode sdk_client
              (schema_service true true "available") finding (deleting true)
              (picking (Some StructureOnly)) (answering (Some true)) noon
              to_json by_characters slash_join plain_style configured "/home"
              100 3 begin)
    as (d & j & Hlog & Hj & _ & _ & Hmode).
  rewrite Hlog. cbn [begin fst log start app].
  apply (Hmode StructureOnly); [| reflexivity].
  assert (Hin : In (Selected (Some StructureOnly))
                   (journal (snd (snd (main sdk_client
                      (schema_service true true "available") finding
                      (deleting true) (picking (Some StructureOnly))
                      (answering (Some true)) noon to_json by_characters
                      slash_join plain_style configured "/home" 100 3
                      begin)))))
    by (vm_compute; tauto).
  rewrite Hj in Hin. exact Hin.
Defined.

(** X25.  How [main] ends.  An exception escapes it only when
    [createClient] raised it, which happens before anything else is
    done; no exception raised in its [try] block escapes.  When it ends
    the process the exit code is 0 or 1.  When a variable of the
    configuration is missing it exits with code 1 before doing anything.
    When the source database is not found it exits with code 1 after the
    two lookups.  It exits with code 0 only when the last thing that
    happened was a prompt the user closed or a confirmation answered no,
    and then no call was made on the collections and nothing was
    deleted; and whenever the user closes a prompt, it exits with
    code 0. *)
Theorem main_exit_codes {World : Type}
        (createClient : string -> string -> string
                        -> option (string * string))
        (databases : Databases World)
        (databases_get : World -> string -> World * option object)
        (databases_deleteCollection :
           World -> string -> option value -> World * reply)
        (select : World -> World * option clone_mode)
        (confirm : World -> string -> World * option bool)
        (now : World -> string) (stringify : value -> string)
        (localeCompare : string -> string -> Z)
        (join styleText : string -> string -> string)
        (env : string -> option string) (cwd : string) (batchSize : Z)
        (fuel : nat) (sh : state World * host) :
  let run := main createClient databases databases_get databases_deleteCollection select
                  confirm now stringify localeCompare join styleText env
                  cwd batchSize fuel sh in
  let src := config_of (env "SOURCE_DATABASE_ID") in
  exists d j,
    log (fst (snd run)) = log (fst sh) ++ d /\
    journal (snd (snd run)) = journal (snd sh) ++ j /\
    (forall name message,
        fst run = Throws name message ->
        client_of createClient env = Some (name, message) /\
        d = [] /\ j = []) /\
    (forall code, fst run = Exits code -> code = 0%Z \/ code = 1%Z) /\
    (existsb (fun key => unset (env key)) required = true ->
     fst run = Exits 1 /\ d = [] /\ j = []) /\
    (existsb (fun key => unset (env key)) required = false ->
     forall name message,
       client_of createClient env = Some (name, message) ->
       fst run = Throws name message /\ d = [] /\ j = []) /\
    (hd_error j = Some (Got src None) ->
     fst run = Exits 1 /\ d = [] /\ List.length j = 2%nat) /\
    (fst run = Exits 0 ->
     d = [] /\
     forallb (fun e => negb (is_deletion e)) j = true /\
     exists j0 e, j = j0 ++ [e] /\ refused e = true) /\
    (In (Selected None) j \/ (exists m, In (Confirmed m None) j) ->
     fst run = Exits 0).
Proof.
  intros run src. subst run.
  destruct (tspec_log _ _ sh
              (main_run createClient databases databases_get databases_deleteCollection
                        select confirm now stringify localeCompare join
                        styleText env cwd batchSize fuel))
    as (d & j & Hlog & Hj & Hshape).
  exists d, j. split; [exact Hlog |]. split; [exact Hj |].
  destruct Hshape
    as [(Hset & -> & -> & ->)
       | [(Hset & name & message & Hclient & -> & -> & ->)
         | (Hset & Hclient & out0 & Hbody & ->)]].
  { split; [discriminate |].
    split; [intros code [= <-]; now right |].
    split; [now intros _ |].
    split; [intros H; rewrite H in Hset; discriminate Hset |].
    split; [discriminate |].
    split; [discriminate |].
    intros [[] | (m & [])]. }
  { split; [intros name' message' [= <- <-]; now repeat split |].
    split; [discriminate |].
    split; [intros H; rewrite H in Hset; discriminate Hset |].
    split.
    { intros _ name' message' H. rewrite Hclient in H.
      injection H as <- <-. now repeat split. }
    split; [discriminate |].
    split; [discriminate |].
    intros [[] | (m & [])]. }
  fold src in Hbody.
  set (dst := config_of (env "DEST_DATABASE_ID")) in Hbody.
  assert (Hcarried : forall out : ending unit,
             carried_out out ->
             (forall name message, settle out <> Throws name message) /\
             (forall code, settle out = Exits code -> code = 1%Z)).
  { intros out [-> | [-> | (name & message & -> & Hname)]];
      cbn [settle]; try (split; discriminate).
    apply String.eqb_neq in Hname. rewrite Hname.
    split; [discriminate | now intros code [= <-]]. }
  inversion Hbody as
      [ ddb | sdb ddb | sdb ddb m | sdb ddb m b out d' j' Hq He Hout
      | sdb picked Hpicked | sdb ddb picked Hpicked Hshown
      | sdb ddb picked j' Hpicked Hbroken
      | sdb ddb picked j' Hpicked Hbroken
      | sdb ddb picked jc j1 d1 d2 out Hpicked Hjc Hq1 Hj1 Hoff Hd2 Hout ];
    subst; cbn [settle String.eqb Ascii.eqb Bool.eqb ExitPromptError].
  - split; [discriminate |].
    split; [intros code [= <-]; now right |].
    split; [intros H; rewrite H in Hset; discriminate Hset |].
    split; [intros _ n0 m0 H; rewrite Hclient in H; discriminate H |].
    split; [now intros _ |].
    split; [discriminate |].
    intros [[H | [H | []]] | (m & [H | [H | []]])]; discriminate H.
  - split; [discriminate |].
    split; [intros code [= <-]; now left |].
    split; [intros H; rewrite H in Hset; discriminate Hset |].
    split; [intros _ n0 m0 H; rewrite Hclient in H; discriminate H |].
    split; [discriminate |].
    split; [| reflexivity].
    intros _. split; [reflexivity |]. split; [reflexivity |].
    now exists [ Got src (Some sdb); Got dst ddb ], (Selected None).
  - split; [discriminate |].
    split; [intros code [= <-]; now left |].
    split; [intros H; rewrite H in Hset; discriminate Hset |].
    split; [intros _ n0 m0 H; rewrite Hclient in H; discriminate H |].
    split; [discriminate |].
    split; [| reflexivity].
    intros _. split; [reflexivity |]. split; [reflexivity |].
    now exists [ Got src (Some sdb); Got dst ddb;
                 Selected (Some ExportCsv) ], (Confirmed m None).
  - destruct (Hcarried out0 Hout) as [Hthrow Hcode].
    split; [intros n0 m0 H; now destruct (Hthrow n0 m0) |].
    split; [intros code H; right; exact (Hcode code H) |].
    split; [intros H; rewrite H in Hset; discriminate Hset |].
    split; [intros _ n0 m0 H; rewrite Hclient in H; discriminate H |].
    split; [discriminate |].
    split; [intros H; now apply Hcode in H |].
    intros [[H | [H | [H | [H | Hin]]]]
           | (m' & [H | [H | [H | [H | Hin]]]])]; try discriminate H;
      now apply (forallb_In _ _ _ He) in Hin.
  - split; [discriminate |].
    split; [intros code [= <-]; now right |].
    split; [intros H; rewrite H in Hset; discriminate Hset |].
    split; [intros _ n0 m0 H; rewrite Hclient in H; discriminate H |].
    split; [discriminate |].
    split; [discriminate |].
    intros [[H | [H | [H | []]]] | (m & [H | [H | [H | []]]])];
      discriminate H.
  - split; [discriminate |].
    split; [intros code [= <-]; now right |].
    split; [intros H; rewrite H in Hset; discriminate Hset |].
    split; [intros _ n0 m0 H; rewrite Hclient in H; discriminate H |].
    split; [discriminate |].
    split; [discriminate |].
    intros [[H | [H | [H | []]]] | (m & [H | [H | [H | []]]])];
      discriminate H.
  - split; [discriminate |].
    split; [intros code [= <-]; now left |].
    split; [intros H; rewrite H in Hset; discriminate Hset |].
    split; [intros _ n0 m0 H; rewrite Hclient in H; discriminate H |].
    split; [discriminate |].
    split; [| reflexivity].
    intros _. split; [reflexivity |].
    split; [cbn; exact (broken_off_harmless _ _ Hbroken) |].
    destruct Hbroken as (yes & m & -> & _).
    exists ([ Got src (Some sdb); Got dst (Some ddb);
              Selected (Some picked) ]
            ++ map (fun message => Confirmed message (Some true)) yes),
      (Confirmed m (Some false)).
    split; [now rewrite <- app_assoc | reflexivity].
  - split; [discriminate |].
    split; [intros code [= <-]; now left |].
    split; [intros H; rewrite H in Hset; discriminate Hset |].
    split; [intros _ n0 m0 H; rewrite Hclient in H; discriminate H |].
    split; [discriminate |].
    split; [| reflexivity].
    intros _. split; [reflexivity |].
    split; [cbn; exact (broken_off_harmless _ _ Hbroken) |].
    destruct Hbroken as (yes & m & -> & _).
    exists ([ Got src (Some sdb); Got dst (Some ddb);
              Selected (Some picked) ]
            ++ map (fun message => Confirmed message (Some true)) yes),
      (Confirmed m None).
    split; [now rewrite <- app_assoc | reflexivity].
  - destruct (Hcarried out0 Hout) as [Hthrow Hcode].
    split; [intros n0 m0 H; now destruct (Hthrow n0 m0) |].
    split; [intros code H; right; exact (Hcode code H) |].
    split; [intros H; rewrite H in Hset; discriminate Hset |].
    split; [intros _ n0 m0 H; rewrite Hclient in H; discriminate H |].
    split; [discriminate |].
    split; [intros H; now apply Hcode in H |].
    assert (Hnone : forall e, In e (jc ++ j1) ->
                              e <> Selected None /\
                              forall m, e <> Confirmed m None).
    { intros e Hin. apply in_app_or in Hin as [Hin | Hin].
      - destruct (thrice_confirmed_answers _ _ Hjc Hin) as (m & ->).
        split; [discriminate | intros m'; discriminate].
      - apply (forallb_In _ _ _ Hj1) in Hin.
        destruct e; try discriminate Hin.
        split; [discriminate | intros m'; discriminate]. }
    intros [[H | [H | [H | Hin]]] | (m' & [H | [H | [H | Hin]]])];
      try discriminate H.
    + now destruct (proj1 (Hnone _ Hin)).
    + now destruct (proj2 (Hnone _ Hin) m').
Qed.

Lemma main_exit_codes_witness :
  fst (main sdk_client (schema_service true true "available") finding
            (deleting true) (picking (Some Full)) (answering None) noon
            to_json by_characters slash_join plain_style configured "/home"
            100 3 begin)
  = Exits 0 /\
  fst (main sdk_client (schema_service true true "available") finding
            (deleting true) (picking (Some Full)) (answering None) noon
            to_json by_characters slash_join plain_style misdirected "/home"
            100 3 begin)
  = Throws "AppwriteException" "Invalid endpoint URL: cloud".
Proof.
  split.
  - destruct (main_exit_codes sdk_client
                (schema_service true true "available") finding
                (deleting true) (picking (Some Full)) (answering None) noon
                to_json by_characters slash_join plain_style configured
                "/home" 100 3 begin)
      as (d & j & _ & Hj & _ & _ & _ & _ & _ & _ & Hclosed).
    apply Hclosed. right.
    assert (Hin : exists m,
               In (Confirmed m None)
                  (journal (snd (snd (main sdk_client
                     (schema_service true true "available") finding
                     (deleting true) (picking (Some Full)) (answering None)
                     noon to_json by_characters slash_join plain_style
                     configured "/home" 100 3 begin)))))
      by (eexists; vm_compute; do 3 right; left; reflexivity).
    rewrite Hj in Hin. exact Hin.
  - destruct (main_exit_codes sdk_client
                (schema_service true true "available") finding
                (deleting true) (picking (Some Full)) (answering None) noon
                to_json by_characters slash_join plain_style misdirected
                "/home" 100 3 begin)
      as (d & j & _ & _ & _ & _ & _ & Hclient & _).
    now apply (Hclient eq_refl "AppwriteException"
                       "Invalid endpoint URL: cloud" eq_refl).
Defined.
